(** * PayScope: ingestion, job orchestration, normalization and graph write

    A shallow embedding of the core of the PayScope services.

    - [Py], [Decimal], [DateTime]: the parts of Python's str, decimal and
      datetime that the code below relies on
    - [Schema]      processing/.../normalize/schema.py
    - [Validate]    processing/.../normalize/validate.py
    - [LlmMapper]   processing/.../normalize/llm_mapper.py
    - [Flow]        processing/.../normalize/flow.py
    - [Reasoning]   processing/.../graph/reasoning.py
    - [Neo4jWriter] processing/.../graph/neo4j_writer.py
    - [Tasks]       processing/src/payscope_processing/tasks.py
    - [Ingestion]   ingestion/src/payscope_ingestion/app.py
    - [IngestionApi]  the upload endpoint of the same file
    - [GraphCallers]  processing/.../persistence/neo4j_persist.py and the
                      graph upsert of graph/reasoning.py
    - [Pipeline]    processing/src/payscope_processing/pipeline.py
    - [Headers]     processing/.../tabular/headers.py
    - [Timeseries]  processing/.../persistence/postgres_timescale.py

    Database tables are lists of rows; a statement that raises is decided by
    an explicit record of faults, so every execution of the Python code
    corresponds to one choice of that record.  What lies outside the
    repository (the LLM endpoint, dateutil's parser, SHA-256, the ISO 4217
    table, the clock) is a parameter of the functions that use it. *)

From Stdlib Require Import List String Ascii ZArith QArith Bool Lia.
From Stdlib Require Import DecimalString Permutation Sorted Floats.
From Stdlib Require Import OrderedTypeEx RelationClasses.
Import ListNotations.
Close Scope Q_scope.
Close Scope float_scope.
Open Scope string_scope.
Open Scope list_scope.

(* ================================================================== *)
(** * Python values the code relies on                                 *)
(* ================================================================== *)

(** [str] is modelled by its UTF-8 bytes: comparison of byte strings is
    comparison by code point, and the characters the code inspects are
    ASCII. *)
Module Py.

(** [str.isspace] on ASCII: TAB, LF, VT, FF, CR, FS, GS, RS, US, SPACE. *)
Definition is_space (c : ascii) : bool :=
  let n := nat_of_ascii c in
  ((9 <=? n) && (n <=? 13) || (28 <=? n) && (n <=? 32))%nat.

Definition is_digit (c : ascii) : bool :=
  let n := nat_of_ascii c in ((48 <=? n) && (n <=? 57))%nat.

Definition is_empty (s : string) : bool :=
  match s with EmptyString => true | _ => false end.

Fixpoint lstrip (s : string) : string :=
  match s with
  | EmptyString => EmptyString
  | String c s' => if is_space c then lstrip s' else s
  end.

Fixpoint rstrip (s : string) : string :=
  match s with
  | EmptyString => EmptyString
  | String c s' =>
      match rstrip s' with
      | EmptyString => if is_space c then EmptyString else String c EmptyString
      | r => String c r
      end
  end.

(** [s.strip()] *)
Definition strip (s : string) : string := rstrip (lstrip s).

(** [s.replace(c, "")] for a one-character pattern. *)
Fixpoint remove_char (c : ascii) (s : string) : string :=
  match s with
  | EmptyString => EmptyString
  | String d s' =>
      if Ascii.eqb d c then remove_char c s' else String d (remove_char c s')
  end.

(** [s.replace(c, t)] for a one-character pattern. *)
Fixpoint replace_char (c : ascii) (t : string) (s : string) : string :=
  match s with
  | EmptyString => EmptyString
  | String d s' =>
      if Ascii.eqb d c then (t ++ replace_char c t s')%string
      else String d (replace_char c t s')
  end.

(** [s.startswith(c)], [s.endswith(c)] for a one-character pattern. *)
Definition startswith_char (c : ascii) (s : string) : bool :=
  match s with String d _ => Ascii.eqb d c | EmptyString => false end.

Fixpoint endswith_char (c : ascii) (s : string) : bool :=
  match s with
  | EmptyString => false
  | String d EmptyString => Ascii.eqb d c
  | String _ s' => endswith_char c s'
  end.

(** [s[:-1]] and [s[1:-1]] *)
Fixpoint drop_last (s : string) : string :=
  match s with
  | EmptyString => EmptyString
  | String _ EmptyString => EmptyString
  | String c s' => String c (drop_last s')
  end.

Definition slice_1_m1 (s : string) : string :=
  match s with EmptyString => EmptyString | String _ s' => drop_last s' end.

(** [s.upper()], [s.lower()] on ASCII letters. *)
Definition upper_char (c : ascii) : ascii :=
  let n := nat_of_ascii c in
  if ((97 <=? n) && (n <=? 122))%nat then ascii_of_nat (n - 32) else c.

Definition lower_char (c : ascii) : ascii :=
  let n := nat_of_ascii c in
  if ((65 <=? n) && (n <=? 90))%nat then ascii_of_nat (n + 32) else c.

Fixpoint map_string (f : ascii -> ascii) (s : string) : string :=
  match s with
  | EmptyString => EmptyString
  | String c s' => String (f c) (map_string f s')
  end.

Definition upper : string -> string := map_string upper_char.
Definition lower : string -> string := map_string lower_char.

(** ["sep".join(parts)] *)
Fixpoint join (sep : string) (parts : list string) : string :=
  match parts with
  | [] => EmptyString
  | [p] => p
  | p :: rest => (p ++ sep ++ join sep rest)%string
  end.

(** Lexicographic [<] on [str]. *)
Definition str_lt (a b : string) : bool :=
  match String.compare a b with Lt => true | _ => false end.

(** [str(n)] for an [int]. *)
Definition str_of_int (n : Z) : string :=
  NilZero.string_of_int (Z.to_int n).

(** The values a JSON cell or a row pointer holds. *)
Inductive value : Set :=
| VNone
| VStr (s : string)
| VInt (n : Z).

(** [str(v)] *)
Definition str (v : value) : string :=
  match v with
  | VNone => "None"
  | VStr s => s
  | VInt n => str_of_int n
  end.

(** Truthiness of a value: [None], [""] and [0] are false. *)
Definition truthy (v : value) : bool :=
  match v with
  | VNone => false
  | VStr s => negb (is_empty s)
  | VInt n => negb (n =? 0)%Z
  end.

End Py.

(* ================================================================== *)
(** * decimal.Decimal: construction from a string                      *)
(* ================================================================== *)

(** The standard library's numeric-string syntax, as its parser reads it:
    surrounding whitespace and all underscores removed, then
    [sign? (digits [. digits]? | . digits) (E sign? digits)?], or
    [sign? Inf | Infinity], or [sign? s? NaN digits?], letters in either
    case.  A finite value is [(-1)^neg * coeff * 10^exp]; the bounds the
    implementation puts on the exponent are not modelled. *)
Module Decimal.

Inductive t : Set :=
| Finite (neg : bool) (coeff : N) (exp : Z)
| Infinity (neg : bool)
| NaN (neg : bool) (signaling : bool) (diag : N).

Definition is_nan (d : t) : bool :=
  match d with NaN _ _ _ => true | _ => false end.

Definition is_infinite (d : t) : bool :=
  match d with Infinity _ => true | _ => false end.

Definition neg_of (d : t) : t :=
  match d with
  | Finite s c e => Finite (negb s) c e
  | Infinity s => Infinity (negb s)
  | NaN s g n => NaN (negb s) g n
  end.


Definition digit_val (c : ascii) : N := N.of_nat (nat_of_ascii c - 48).

(** Value of a digit string, most significant digit first. *)
Definition digits_val (ds : list ascii) : N :=
  fold_left (fun acc c => (10 * acc + digit_val c)%N) ds 0%N.

Fixpoint span_digits (l : list ascii) : list ascii * list ascii :=
  match l with
  | c :: l' =>
      if Py.is_digit c
      then let '(ds, rest) := span_digits l' in (c :: ds, rest)
      else ([], l)
  | [] => ([], [])
  end.

Definition read_sign (l : list ascii) : bool * list ascii :=
  match l with
  | "-"%char :: l' => (true, l')
  | "+"%char :: l' => (false, l')
  | _ => (false, l)
  end.

(** [(E(?P<exp>[-+]?\d+))?\Z] *)
Definition read_exponent (l : list ascii) : option Z :=
  match l with
  | [] => Some 0%Z
  | c :: l' =>
      if Ascii.eqb (Py.lower_char c) "e" then
        let '(sg, l1) := read_sign l' in
        match span_digits l1 with
        | ((_ :: _) as ds, []) =>
            let v := Z.of_N (digits_val ds) in
            Some (if sg then (- v)%Z else v)
        | _ => None
        end
      else None
  end.

(** The numeric alternative of the pattern. *)
Definition read_number (neg : bool) (l : list ascii) : option t :=
  let '(ip, r1) := span_digits l in
  let '(fp, r2) :=
    match r1 with
    | "."%char :: r => span_digits r
    | _ => ([], r1)
    end in
  match ip, fp with
  | [], [] => None
  | _, _ =>
      match read_exponent r2 with
      | Some e =>
          Some (Finite neg (digits_val (ip ++ fp)) (e - Z.of_nat (List.length fp)))
      | None => None
      end
  end.

Definition lower_list (l : list ascii) : list ascii := map Py.lower_char l.

Definition list_eqb (a b : list ascii) : bool :=
  String.eqb (string_of_list_ascii a) (string_of_list_ascii b).

(** [Inf(inity)?] and [s?NaN\d*] *)
Definition read_special (neg : bool) (l : list ascii) : option t :=
  let low := lower_list l in
  if list_eqb low (list_ascii_of_string "inf")
     || list_eqb low (list_ascii_of_string "infinity")
  then Some (Infinity neg)
  else
    let '(sig, body) :=
      match low with
      | "s"%char :: b => (true, b)
      | _ => (false, low)
      end in
    match body with
    | "n"%char :: "a"%char :: "n"%char :: diag =>
        match span_digits diag with
        | (ds, []) => Some (NaN neg sig (digits_val ds))
        | _ => None
        end
    | _ => None
    end.

(** [Decimal(s)]; [None] is [InvalidOperation]. *)
Definition of_string (s : string) : option t :=
  let cleaned := Py.remove_char "_" (Py.strip s) in
  let '(neg, body) := read_sign (list_ascii_of_string cleaned) in
  match read_number neg body with
  | Some d => Some d
  | None => read_special neg body
  end.

End Decimal.
(* ================================================================== *)
(** * datetime.datetime                                                *)
(* ================================================================== *)

Module DateTime.
Local Open Scope Z_scope.

(** A datetime is naive ([tzinfo = None]) or aware with a fixed offset.
    [wall] is its wall clock, counted in microseconds since
    0001-01-01T00:00:00 (datetime.min); [tzinfo] holds utcoffset() in
    seconds.  The year, month, day view is [civil]. *)
Record t : Set := mk {
  wall : Z;
  tzinfo : option Z
}.

(** Days from 0001-01-01 to the given proleptic Gregorian date. *)
Definition days_from_civil (y m d : Z) : Z :=
  let y' := if m <=? 2 then y - 1 else y in
  let era := y' / 400 in
  let yoe := y' - era * 400 in
  let mp := if 2 <? m then m - 3 else m + 9 in
  let doy := (153 * mp + 2) / 5 + d - 1 in
  let doe := yoe * 365 + yoe / 4 - yoe / 100 + doy in
  era * 146097 + doe - 306.

Definition civil_from_days (n : Z) : Z * Z * Z :=
  let z := n + 306 in
  let era := z / 146097 in
  let doe := z - era * 146097 in
  let yoe := (doe - doe / 1460 + doe / 36524 - doe / 146096) / 365 in
  let doy := doe - (365 * yoe + yoe / 4 - yoe / 100) in
  let mp := (5 * doy + 2) / 153 in
  let d := doy - (153 * mp + 2) / 5 + 1 in
  let m := if mp <? 10 then mp + 3 else mp - 9 in
  let y := yoe + era * 400 in
  (if m <=? 2 then y + 1 else y, m, d).

Definition us_per_second : Z := 1000000.
Definition us_per_day : Z := 86400 * us_per_second.

(** [datetime(y, m, d, hh, mm, ss, us, tzinfo=tz)] *)
Definition of_civil (y m d hh mm ss us : Z) (tz : option Z) : t :=
  mk (days_from_civil y m d * us_per_day
      + (hh * 3600 + mm * 60 + ss) * us_per_second + us) tz.

(** The fields of a datetime: year, month, day, hour, minute, second,
    microsecond. *)
Definition civil (dt : t) : Z * Z * Z * Z * Z * Z * Z :=
  let days := wall dt / us_per_day in
  let rest := wall dt mod us_per_day in
  let secs := rest / us_per_second in
  let '(y, m, d) := civil_from_days days in
  (y, m, d, secs / 3600, (secs / 60) mod 60, secs mod 60, rest mod us_per_second).

(** The first wall clock past datetime.max (10000-01-01T00:00:00). *)
Definition max_wall : Z := days_from_civil 10000 1 1 * us_per_day.

Definition in_range (w : Z) : bool := (0 <=? w) && (w <? max_wall).

Definition utc : option Z := Some 0.

(** The point on the UTC time line an aware datetime denotes. *)
Definition instant (w off : Z) : Z := w - off * us_per_second.

(** [dt.astimezone(timezone.utc)] for an aware [dt] with wall clock [w]
    and offset [off]: [(dt - offset).replace(tzinfo=utc)].  [None] is the
    OverflowError raised when the result leaves years 1..9999. *)
Definition astimezone_utc (w off : Z) : option t :=
  if off =? 0 then Some (mk w utc)
  else if in_range (instant w off) then Some (mk (instant w off) utc)
  else None.

(** ISO-8601 text of the form YYYY-MM-DD(T| )HH:MM:SS[.ffffff][Z|(+|-)HH:MM],
    read the way dateutil's parser and datetime.fromisoformat both read it.
    It stands in for those two library parsers on concrete inputs. *)
Definition digit (c : ascii) : option Z :=
  if Py.is_digit c then Some (Z.of_nat (nat_of_ascii c) - 48) else None.

Fixpoint read_nat (n : nat) (acc : Z) (l : list ascii) : option (Z * list ascii) :=
  match n with
  | O => Some (acc, l)
  | S n' =>
      match l with
      | c :: l' =>
          match digit c with
          | Some v => read_nat n' (10 * acc + v) l'
          | None => None
          end
      | [] => None
      end
  end.

Definition expect (c : ascii) (l : list ascii) : option (list ascii) :=
  match l with
  | d :: l' => if Ascii.eqb c d then Some l' else None
  | [] => None
  end.

Fixpoint read_fraction (fuel : nat) (scale acc : Z) (l : list ascii)
    : Z * list ascii :=
  match fuel with
  | O => (acc * scale, l)
  | S f =>
      match l with
      | c :: l' =>
          match digit c with
          | Some v => read_fraction f (scale / 10) (10 * acc + v) l'
          | None => (acc * scale, l)
          end
      | [] => (acc * scale, l)
      end
  end.

Definition read_offset (l : list ascii) : option (option Z) :=
  match l with
  | [] => Some None
  | ["Z"%char] => Some utc
  | sg :: l1 =>
      let sign := if Ascii.eqb sg "+" then Some 1
                  else if Ascii.eqb sg "-" then Some (-1) else None in
      match sign, read_nat 2 0 l1 with
      | Some k, Some (hh, l2) =>
          match expect ":" l2 with
          | Some l3 =>
              match read_nat 2 0 l3 with
              | Some (mm, []) => Some (Some (k * (hh * 3600 + mm * 60)))
              | _ => None
              end
          | None => None
          end
      | _, _ => None
      end
  end.

Definition sep_ok (c : ascii) : bool := Ascii.eqb c "T" || Ascii.eqb c " ".

Definition and_then {A B : Type} (x : option A) (k : A -> option B)
    : option B :=
  match x with Some a => k a | None => None end.

Notation "'do' p <- x ; k" := (and_then x (fun p => k))
  (at level 10, p pattern, x at level 100, k at level 200).

Definition read_time_of_day (l : list ascii) : option (Z * Z * Z * list ascii) :=
  do (hh, l) <- read_nat 2 0 l;
  do l <- expect ":" l;
  do (mm, l) <- read_nat 2 0 l;
  do l <- expect ":" l;
  do (ss, l) <- read_nat 2 0 l;
  if (hh <? 24) && (mm <? 60) && (ss <? 60) then Some (hh, mm, ss, l) else None.

Definition read_date (l : list ascii) : option (Z * Z * Z * list ascii) :=
  do (y, l) <- read_nat 4 0 l;
  do l <- expect "-" l;
  do (m, l) <- read_nat 2 0 l;
  do l <- expect "-" l;
  do (d, l) <- read_nat 2 0 l;
  if (1 <=? y) && (1 <=? m) && (m <=? 12) && (1 <=? d) && (d <=? 31)
  then Some (y, m, d, l) else None.

Definition iso_parse (s : string) : option t :=
  do (y, m, d, l) <- read_date (list_ascii_of_string s);
  match l with
  | [] => None
  | c :: l =>
      if negb (sep_ok c) then None else
      do (hh, mm, ss, l) <- read_time_of_day l;
      let '(us, l) := match l with
                      | "."%char :: l' => read_fraction 6 1000000 0 l'
                      | _ => (0, l)
                      end in
      do tz <- read_offset l;
      Some (of_civil y m d hh mm ss us tz)
  end.

End DateTime.
(* ================================================================== *)
(** * normalize/schema.py                                              *)
(* ================================================================== *)

(** A [float] confidence is validated into the closed interval 0..1, so it
    is never NaN; such floats are rationals and compare as rationals, and
    they are kept as [Q].  Arithmetic on them is exact here. *)
Module Schema.

Definition SCHEMA_VERSION : string := "1.0.0".

Inductive LifecycleStage : Set := AUTH | CLEARING | SETTLEMENT.

(** [stage.value] *)
Definition stage_value (s : LifecycleStage) : string :=
  match s with
  | AUTH => "AUTH"
  | CLEARING => "CLEARING"
  | SETTLEMENT => "SETTLEMENT"
  end.

(** [str(stage)] of the str-mixin enum. *)
Definition stage_str (s : LifecycleStage) : string :=
  ("LifecycleStage." ++ stage_value s)%string.

Record RawSourceRef : Set := mkRawSourceRef {
  ref_artifact_id : string;
  object_key : string;
  source_type : string;
  page_number : option Z;
  element_id : option string;
  sheet_name : option string;
  source_row_number : option Z;
  raw_fields_used : list string
}.

Record TransactionFact : Set := mkTransactionFact {
  transaction_id : string;
  amount : Decimal.t;
  currency : string;
  timestamp_utc : DateTime.t;
  lifecycle_stage : LifecycleStage;
  merchant_id : string;
  card_network : string;
  raw_source_ref : RawSourceRef;
  confidence_score : Q;
  extensions : list (string * string)
}.

Record ReportFact : Set := mkReportFact {
  report_id : string;
  report_type : string;
  ingestion_time : DateTime.t;
  source_network : string;
  record_count : nat;
  schema_version : string
}.

Record MappingDecision : Set := mkMappingDecision {
  raw_field : string;
  canonical_field : string;
  md_confidence_score : Q;
  mapping_rationale : string
}.

Record LifecycleInference : Set := mkLifecycleInference {
  li_lifecycle_stage : LifecycleStage;
  li_confidence_score : Q;
  li_mapping_rationale : string
}.

Record LlmMappingResponse : Set := mkLlmMappingResponse {
  lifecycle : LifecycleInference;
  mappings : list MappingDecision
}.

Record ValidationErrorItem : Set := mkValidationErrorItem {
  code : string;
  message : string;
  field : option string;
  raw_value : option string;
  row_ref : list (string * Py.value)
}.

Record NormalizationResult : Set := mkNormalizationResult {
  nr_artifact_id : string;
  report_fact : ReportFact;
  transactions : list TransactionFact;
  mapping : option LlmMappingResponse;
  errors : list ValidationErrorItem
}.

End Schema.

(** The exceptions that matter to the callers modelled here. *)
Inductive exn : Set :=
| MappingRejected (msg : string)
| NameError (name : string)
| OverflowError
| ValueError (msg : string)
| TypeError (msg : string)
| ExternalError (msg : string).

(** [str(e)] *)
Definition exn_message (e : exn) : string :=
  match e with
  | MappingRejected m => m
  | NameError n => ("name '" ++ n ++ "' is not defined")%string
  | OverflowError => "date value out of range"
  | ValueError m => m
  | TypeError m => m
  | ExternalError m => m
  end.

(** A call either returns or raises. *)
Inductive result (A : Type) : Type :=
| Return (a : A)
| Raise (e : exn).
Arguments Return {A} a.
Arguments Raise {A} e.

(* ================================================================== *)
(** * normalize/validate.py                                            *)
(* ================================================================== *)

Module Validate.
Import Schema.

Definition RowRef : Set := list (string * Py.value).

Definition _err (code message : string) (field raw_value : option string)
    (row_ref : RowRef) : ValidationErrorItem :=
  mkValidationErrorItem code message field raw_value row_ref.

(** The text handed to [Decimal]: [s2] of parse_amount, for a stripped [s]. *)
Definition amount_text (s : string) : string :=
  let s2 := Py.strip (Py.remove_char "$" (Py.remove_char "," s)) in
  if Py.startswith_char "(" s2 && Py.endswith_char ")" s2
  then ("-" ++ Py.strip (Py.slice_1_m1 s2))%string
  else s2.

(** [value] is [None] or the text [str(value)]. *)
Definition parse_amount (value : option string) (field : string)
    (row_ref : RowRef) : option Decimal.t * list ValidationErrorItem :=
  match value with
  | None =>
      (None, [_err "amount_missing" "Amount is missing" (Some field) None row_ref])
  | Some v =>
      let s := Py.strip v in
      if Py.is_empty s then
        (None, [_err "amount_missing" "Amount is missing" (Some field) None row_ref])
      else
        match Decimal.of_string (amount_text s) with
        | None =>
            (None, [_err "amount_invalid" "Amount is not numeric"
                         (Some field) (Some s) row_ref])
        | Some d =>
            if Decimal.is_nan d || Decimal.is_infinite d then
              (None, [_err "amount_invalid" "Amount is NaN/Infinite"
                           (Some field) (Some s) row_ref])
            else (Some d, [])
        end
  end.



Section Oracles.

(** normalize/iso4217.py is not part of the sources read here: its table
    [CODES] is a parameter. *)
Variable ISO4217_CODES : list string.

(** [dateutil.parser.parse]; [None] when it raises. *)
Variable dtparse : string -> option DateTime.t.

Definition validate_currency (value : option string) (field : string)
    (row_ref : RowRef) : option string * list ValidationErrorItem :=
  match value with
  | None =>
      (None, [_err "currency_missing" "Currency is missing" (Some field) None row_ref])
  | Some v =>
      let cur := Py.upper (Py.strip v) in
      if Py.is_empty cur then
        (None, [_err "currency_missing" "Currency is missing" (Some field) None row_ref])
      else if existsb (String.eqb cur) ISO4217_CODES then (Some cur, [])
      else
        (None, [_err "currency_invalid" "Currency is not valid ISO-4217"
                     (Some field) (Some cur) row_ref])
  end.

(** The [replace] of a naive result and the [astimezone] are the two steps
    after the try block: a naive datetime gets offset 0 and is then left
    as it is; an aware one is moved to UTC, which can overflow. *)
Definition parse_timestamp_to_utc (value : option string) (field : string)
    (row_ref : RowRef)
    : result (option DateTime.t * list ValidationErrorItem) :=
  match value with
  | None =>
      Return (None, [_err "timestamp_missing" "Timestamp is missing"
                          (Some field) None row_ref])
  | Some v =>
      let s := Py.strip v in
      if Py.is_empty s then
        Return (None, [_err "timestamp_missing" "Timestamp is missing"
                            (Some field) None row_ref])
      else
        match dtparse s with
        | None =>
            Return (None, [_err "timestamp_invalid" "Timestamp cannot be parsed"
                                (Some field) (Some s) row_ref])
        | Some dt =>
            let off := match DateTime.tzinfo dt with
                       | None => 0%Z
                       | Some o => o
                       end in
            match DateTime.astimezone_utc (DateTime.wall dt) off with
            | Some dt_utc => Return (Some dt_utc, [])
            | None => Raise OverflowError
            end
        end
  end.

End Oracles.

Definition clamp01 (x : Q) : Q :=
  if Qlt_le_dec x 0 then 0%Q else if Qlt_le_dec 1 x then 1%Q else x.

(** [str(v or "")] for an optional int and an optional str. *)
Definition str_or_empty_int (v : option Z) : string :=
  match v with
  | None => ""
  | Some n => if (n =? 0)%Z then "" else Py.str_of_int n
  end.

Definition str_or_empty (v : option string) : string :=
  match v with None => "" | Some s => s end.

Definition tiebreak (t : TransactionFact) : string :=
  let ref := raw_source_ref t in
  Py.join "|" [ object_key ref;
                str_or_empty_int (page_number ref);
                str_or_empty (sheet_name ref);
                str_or_empty_int (source_row_number ref);
                str_or_empty (element_id ref) ].

Definition dedupe_key (t : TransactionFact) : string * string :=
  (transaction_id t, stage_value (lifecycle_stage t)).

Definition key_eqb (a b : string * string) : bool :=
  String.eqb (fst a) (fst b) && String.eqb (snd a) (snd b).

Definition conf_gt (a b : Q) : bool :=
  match (a ?= b)%Q with Gt => true | _ => false end.

Definition conf_eq (a b : Q) : bool :=
  match (a ?= b)%Q with Eq => true | _ => false end.

(** The three branches of the loop body for a key already present. *)
Definition better (t cur : TransactionFact) : TransactionFact :=
  if conf_gt (confidence_score t) (confidence_score cur) then t
  else if conf_eq (confidence_score t) (confidence_score cur) then
    if String.ltb (tiebreak t) (tiebreak cur) then t else cur
  else cur.

(** [best[k] = ...] on a dict, which keeps the position of a key it
    already holds. *)
Fixpoint best_update (t : TransactionFact)
    (best : list (string * string * TransactionFact))
    : list (string * string * TransactionFact) :=
  match best with
  | [] => [(dedupe_key t, t)]
  | (k, cur) :: rest =>
      if key_eqb (dedupe_key t) k then (k, better t cur) :: rest
      else (k, cur) :: best_update t rest
  end.

(** The sort key [(transaction_id, str(lifecycle_stage), confidence_score)]
    compared as a tuple. *)
Definition sort_le (a b : TransactionFact) : bool :=
  match String.compare (transaction_id a) (transaction_id b) with
  | Lt => true
  | Gt => false
  | Eq =>
      match String.compare (stage_str (lifecycle_stage a))
                           (stage_str (lifecycle_stage b)) with
      | Lt => true
      | Gt => false
      | Eq => negb (conf_gt (confidence_score a) (confidence_score b))
      end
  end.

(** [list.sort] is stable: an element goes before the first element of the
    sorted rest that is not smaller than it. *)
Fixpoint insert_sorted (x : TransactionFact) (l : list TransactionFact)
    : list TransactionFact :=
  match l with
  | [] => [x]
  | y :: l' => if sort_le x y then x :: l else y :: insert_sorted x l'
  end.

Definition py_sort (l : list TransactionFact) : list TransactionFact :=
  fold_right insert_sorted [] l.

Definition dedupe_transactions (transactions : list TransactionFact)
    : list TransactionFact :=
  let best := fold_left (fun b t => best_update t b) transactions [] in
  py_sort (map snd best).

(** [r] is at least as good as [t]: no lower confidence and, at equal
    confidence, no later tie-break string. *)
Definition beats (r t : TransactionFact) : Prop :=
  (confidence_score t <= confidence_score r)%Q
  /\ ((confidence_score t == confidence_score r)%Q ->
      String.ltb (tiebreak t) (tiebreak r) = false).

(** [r] is a record of [l] that beats every record of [l] with its key. *)
Definition best_in (l : list TransactionFact) (r : TransactionFact) : Prop :=
  In r l
  /\ forall t, In t l -> dedupe_key t = dedupe_key r -> beats r t.

(** Records of one key with equal confidence and equal tie-break string
    are the same record. *)
Definition distinct_ties (l : list TransactionFact) : Prop :=
  forall t1 t2, In t1 l -> In t2 l ->
    dedupe_key t1 = dedupe_key t2 ->
    (confidence_score t1 == confidence_score t2)%Q ->
    tiebreak t1 = tiebreak t2 -> t1 = t2.

(** Strictly ascending in (transaction_id, lifecycle_stage). *)
Definition key_lt (a b : TransactionFact) : bool :=
  match String.compare (transaction_id a) (transaction_id b) with
  | Lt => true
  | Gt => false
  | Eq => String.ltb (stage_str (lifecycle_stage a))
                     (stage_str (lifecycle_stage b))
  end.

(** [best.get(k)] *)
Fixpoint lookup (k : string * string)
    (best : list (string * string * TransactionFact)) : option TransactionFact :=
  match best with
  | [] => None
  | (k', v) :: rest => if key_eqb k k' then Some v else lookup k rest
  end.

Definition best_after (transactions : list TransactionFact)
    : list (string * string * TransactionFact) :=
  fold_left (fun b t => best_update t b) transactions [].

(** What the dict holds after the records [p] have been processed. *)
Definition best_inv (p : list TransactionFact)
    (b : list (string * string * TransactionFact)) : Prop :=
  NoDup (map fst b)
  /\ forall k,
       match lookup k b with
       | Some v => dedupe_key v = k /\ best_in p v
       | None => forall t, In t p -> dedupe_key t <> k
       end.

Definition sorted_le (a b : TransactionFact) : Prop := sort_le a b = true.
Definition sorted_lt (a b : TransactionFact) : Prop := key_lt a b = true.

End Validate.
(* ================================================================== *)
(** * normalize/llm_mapper.py                                          *)
(* ================================================================== *)

Module LlmMapper.
Import Schema.

(** The fields of config.Settings the mapper reads. *)
Record Settings : Set := mkSettings {
  llm_base_url : option string;
  llm_api_key : option string;
  llm_model : string;
  mapping_confidence_threshold : Q
}.

Record Column : Set := mkColumn {
  col_raw_field : string;
  raw_field_original : string;
  sample_values : list string;
  inferred_type : string
}.

Record Payload : Set := mkPayload {
  p_artifact_id : string;
  p_report_context : list string;
  p_columns : list Column;
  p_required_canonical_fields : list string;
  p_notes : list string
}.

(** Truthiness of an optional string. *)
Definition is_set (v : option string) : bool :=
  match v with Some s => negb (Py.is_empty s) | None => false end.

Definition Qltb (a b : Q) : bool := negb (Qle_bool b a).

Definition keep_mapping (thr : Q) (m : MappingDecision) : bool :=
  Qle_bool thr (md_confidence_score m).

Definition payload_of (artifact_id : string) (report_context : list string)
    (columns : list Column) (required_canonical_fields : list string) : Payload :=
  mkPayload artifact_id (firstn 50 report_context) (firstn 200 columns)
            required_canonical_fields
            [ "No hardcoded column assumptions.";
              "Return confidence per mapping; reject/omit low-confidence mappings." ].

Section Oracle.

(** The mapping oracle: llm/client.py's [chat_json] followed by
    [LlmMappingResponse.model_validate], which either yields a validated
    response or raises. *)
Variable chat_json : Settings -> Payload -> result LlmMappingResponse.

Definition infer_mapping_via_llm (settings : Settings) (artifact_id : string)
    (report_context : list string) (columns : list Column)
    (required_canonical_fields : list string) : result LlmMappingResponse :=
  if negb (is_set (llm_base_url settings)) || negb (is_set (llm_api_key settings))
  then Raise (MappingRejected "llm_not_configured (LLM_BASE_URL/LLM_API_KEY required)")
  else
    let payload :=
      payload_of artifact_id report_context columns required_canonical_fields in
    match chat_json settings payload with
    | Raise e => Raise e
    | Return resp =>
        let thr := mapping_confidence_threshold settings in
        let kept := filter (keep_mapping thr) (mappings resp) in
        if Qltb (li_confidence_score (lifecycle resp)) thr
        then Raise (MappingRejected "lifecycle_inference_below_threshold")
        else Return (mkLlmMappingResponse (lifecycle resp) kept)
    end.

End Oracle.

End LlmMapper.

(* ================================================================== *)
(** * normalize/flow.py: the tabular path                              *)
(* ================================================================== *)

Module Flow.
Import Schema Validate LlmMapper.

Definition REQUIRED_CANONICAL_FIELDS : list string :=
  [ "transaction_id"; "amount"; "currency"; "timestamp_utc";
    "merchant_id"; "card_network" ].

(** The JSON of tabular/csv_excel.py's TabularParseOutput. *)
Record Row : Set := mkRow {
  row_source_row_number : option Z;
  values : list (string * Py.value)
}.

Record Table : Set := mkTable {
  t_sheet_name : option string;
  columns_normalized : list string;
  columns_original : list string;
  rows : list Row
}.

Record TabularJson : Set := mkTabularJson {
  kind : option string;
  tables : list Table
}.

(** [d.get(k)] *)
Definition dict_get (k : string) (d : list (string * Py.value)) : Py.value :=
  match find (fun kv => String.eqb (fst kv) k) d with
  | Some kv => snd kv
  | None => Py.VNone
  end.

(** A cell as the validators take it: [None], or the text [str(v)]. *)
Definition as_text (v : Py.value) : option string :=
  match v with Py.VNone => None | _ => Some (Py.str v) end.

(** [norm_to_orig]: a later column of the same name replaces an earlier
    one; a column without an original header maps to itself. *)
Fixpoint norm_to_orig_items (norm_cols orig_cols : list string)
    : list (string * string) :=
  match norm_cols with
  | [] => []
  | n :: ns =>
      match orig_cols with
      | o :: os => (n, o) :: norm_to_orig_items ns os
      | [] => (n, n) :: norm_to_orig_items ns []
      end
  end.

Definition norm_to_orig_get (items : list (string * string)) (k : string)
    : option string :=
  option_map snd (find (fun kv => String.eqb (fst kv) k) (rev items)).

(** [s[:80]] *)
Definition first_chars (n : nat) (s : string) : string := substring 0 n s.

(** The samples of column [c]: one per row of the first 25 and per
    occurrence of [c] among the columns, when the cell is not empty. *)
Definition samples_of (norm_cols : list string) (sample_rows : list Row)
    (c : string) : list string :=
  flat_map
    (fun r =>
       flat_map
         (fun c' =>
            if String.eqb c' c then
              match dict_get c' (values r) with
              | Py.VNone => []
              | v =>
                  let s := Py.strip (Py.str v) in
                  if Py.is_empty s then [] else [first_chars 80 s]
              end
            else [])
         norm_cols)
    (firstn 25 sample_rows).

Fixpoint string_exists (p : ascii -> bool) (s : string) : bool :=
  match s with
  | EmptyString => false
  | String c s' => p c || string_exists p s'
  end.

Definition has_char (cs : list ascii) (s : string) : bool :=
  string_exists (fun c => existsb (Ascii.eqb c) cs) s.

Definition _infer_type (samples : list string) : string :=
  match samples with
  | [] => "unknown"
  | _ =>
      let s := Py.lower (Py.join " " samples) in
      if string_exists Py.is_digit s
         && has_char ["-"; "/"; ":"; "t"; "z"]%char s
      then "datetime_or_id"
      else if string_exists Py.is_digit s && has_char ["."; ","; "$"]%char s
      then "numeric"
      else if (30 <? fold_right Nat.max 0 (map String.length samples))%nat
      then "text"
      else "string"
  end.

Definition mapping_columns (first : Table) : list Column :=
  let norm_cols := columns_normalized first in
  let items := norm_to_orig_items norm_cols (columns_original first) in
  map (fun c =>
         let sv := firstn 8 (samples_of norm_cols (rows first) c) in
         mkColumn c
                  (match norm_to_orig_get items c with Some o => o | None => c end)
                  sv (_infer_type sv))
      norm_cols.

Definition report_context_of (first : Table) : list string :=
  map (fun c => ("column: " ++ c)%string) (firstn 30 (columns_normalized first)).

Definition _report_fact (report_id report_type : string)
    (ingestion_time : DateTime.t) (source_network : string)
    (record_count : nat) : ReportFact :=
  mkReportFact report_id report_type ingestion_time source_network
               record_count SCHEMA_VERSION.

(** [raw_to_canon = {m.raw_field: m.canonical_field for m in mappings}] *)
Fixpoint dict_set (k v : string) (d : list (string * string))
    : list (string * string) :=
  match d with
  | [] => [(k, v)]
  | (k', v') :: rest =>
      if String.eqb k k' then (k', v) :: rest else (k', v') :: dict_set k v rest
  end.

Definition raw_to_canon_of (ms : list MappingDecision) : list (string * string) :=
  fold_left (fun d m => dict_set (raw_field m) (canonical_field m) d) ms [].

(** The closure [get_by_canon]: the raw field it appends to
    [raw_fields_used], if any, and the cell it returns. *)
Definition get_by_canon (raw_to_canon : list (string * string))
    (vals : list (string * Py.value)) (canon : string)
    : option string * Py.value :=
  match find (fun rc => String.eqb (snd rc) canon) raw_to_canon with
  | Some rc => (Some (fst rc), dict_get (fst rc) vals)
  | None => (None, Py.VNone)
  end.

Definition used (found : list (option string)) : list string :=
  flat_map (fun o => match o with Some f => [f] | None => [] end) found.

(** [not v or not str(v).strip()] *)
Definition blank (v : Py.value) : bool :=
  negb (Py.truthy v) || Py.is_empty (Py.strip (Py.str v)).

(** [parsed_amt or Decimal("0")]: [None] and a zero of any sign and
    exponent are falsy. *)
Definition amount_or_zero (d : option Decimal.t) : Decimal.t :=
  match d with
  | Some (Decimal.Finite _ 0%N _) | None => Decimal.Finite false 0 0
  | Some d => d
  end.

(** [parsed_cur or "USD"] *)
Definition currency_or_usd (c : option string) : string :=
  match c with
  | Some s => if Py.is_empty s then "USD" else s
  | None => "USD"
  end.

Definition is_nil {A : Type} (l : list A) : bool :=
  match l with [] => true | _ => false end.

Definition mean (xs : list Q) : Q :=
  (fold_left Qplus xs 0 / (Z.of_nat (Nat.max 1 (List.length xs)) # 1))%Q.

Definition add_original_header (items : list (string * string))
    (m : MappingDecision) : MappingDecision :=
  match norm_to_orig_get items (raw_field m) with
  | Some orig =>
      if negb (Py.is_empty orig) && negb (String.eqb orig (raw_field m))
      then mkMappingDecision (raw_field m) (canonical_field m)
             (md_confidence_score m)
             (mapping_rationale m ++ " (original_header=" ++ orig ++ ")")%string
      else m
  | None => m
  end.

Inductive row_outcome : Set :=
| RowFact (t : TransactionFact)
| RowErrors (es : list ValidationErrorItem).

Section Oracles.

Variable ISO4217_CODES : list string.
Variable dtparse : string -> option DateTime.t.
Variable chat_json : Settings -> Payload -> result LlmMappingResponse.

(** [datetime.now(timezone.utc)] *)
Variable now : DateTime.t.

(** The body of the loop over rows. *)
Definition normalize_row (artifact_id source_object_key : string)
    (kind : option string) (lifecycle : LifecycleStage)
    (ms : list MappingDecision) (raw_to_canon : list (string * string))
    (sheet : option string) (r : Row) : result row_outcome :=
  let row_ref : RowRef :=
    [ ("sheet_name", match sheet with Some s => Py.VStr s | None => Py.VNone end);
      ("source_row_number",
       match row_source_row_number r with
       | Some n => Py.VInt n | None => Py.VNone end) ] in
  let '(f1, tx_id) := get_by_canon raw_to_canon (values r) "transaction_id" in
  let '(f2, amt) := get_by_canon raw_to_canon (values r) "amount" in
  let '(f3, cur) := get_by_canon raw_to_canon (values r) "currency" in
  let '(f4, ts) := get_by_canon raw_to_canon (values r) "timestamp_utc" in
  let '(f5, merch) := get_by_canon raw_to_canon (values r) "merchant_id" in
  let '(f6, net) := get_by_canon raw_to_canon (values r) "card_network" in
  let raw_fields_used := used [f1; f2; f3; f4; f5; f6] in
  let '(parsed_amt, e_amt) := parse_amount (as_text amt) "amount" row_ref in
  let '(parsed_cur, e_cur) :=
    validate_currency ISO4217_CODES (as_text cur) "currency" row_ref in
  match parse_timestamp_to_utc dtparse (as_text ts) "timestamp_utc" row_ref with
  | Raise e => Raise e
  | Return (parsed_ts, e_ts) =>
      if negb (is_nil e_amt && is_nil e_cur && is_nil e_ts) then
        Return (RowErrors (e_amt ++ e_cur ++ e_ts))
      else if blank tx_id then
        Return (RowErrors [mkValidationErrorItem "transaction_id_missing"
                  "transaction_id missing" (Some "transaction_id") None row_ref])
      else if blank merch then
        Return (RowErrors [mkValidationErrorItem "merchant_id_missing"
                  "merchant_id missing" (Some "merchant_id") None row_ref])
      else if blank net then
        Return (RowErrors [mkValidationErrorItem "card_network_missing"
                  "card_network missing" (Some "card_network") None row_ref])
      else
        let confs :=
          map md_confidence_score
              (filter (fun m => existsb (String.eqb (raw_field m)) raw_fields_used)
                      ms) in
        Return (RowFact
          (mkTransactionFact
             (Py.strip (Py.str tx_id))
             (amount_or_zero parsed_amt) (currency_or_usd parsed_cur)
             (match parsed_ts with Some t => t | None => now end)
             lifecycle
             (Py.strip (Py.str merch)) (Py.strip (Py.str net))
             (mkRawSourceRef artifact_id source_object_key
                (match kind with
                 | Some k => if String.eqb k "csv" then "csv_row" else "xlsx_row"
                 | None => "xlsx_row"
                 end)
                None None sheet (row_source_row_number r) raw_fields_used)
             (clamp01 (mean confs)) []))
  end.

(** The two nested loops: the facts and errors gathered so far, or the
    exception that ends the function. *)
Fixpoint normalize_rows (step : Row -> result row_outcome) (rs : list Row)
    (acc : list TransactionFact * list ValidationErrorItem)
    : result (list TransactionFact * list ValidationErrorItem) :=
  match rs with
  | [] => Return acc
  | r :: rs' =>
      match step r with
      | Raise e => Raise e
      | Return (RowFact t) => normalize_rows step rs' (fst acc ++ [t], snd acc)
      | Return (RowErrors es) => normalize_rows step rs' (fst acc, snd acc ++ es)
      end
  end.

Fixpoint normalize_tables (step : option string -> Row -> result row_outcome)
    (ts : list Table) (acc : list TransactionFact * list ValidationErrorItem)
    : result (list TransactionFact * list ValidationErrorItem) :=
  match ts with
  | [] => Return acc
  | t :: ts' =>
      match normalize_rows (step (t_sheet_name t)) (rows t) acc with
      | Raise e => Raise e
      | Return acc' => normalize_tables step ts' acc'
      end
  end.

Definition normalize_tabular (settings : Settings)
    (bank_id artifact_id report_id report_type : string)
    (ingestion_time : DateTime.t) (source_network source_object_key : string)
    (tabular_json : TabularJson) : result NormalizationResult :=
  match tables tabular_json with
  | [] =>
      Return (mkNormalizationResult artifact_id
                (_report_fact report_id report_type ingestion_time source_network 0)
                [] None
                [mkValidationErrorItem "no_tables" "No tabular tables found"
                                       None None []])
  | first :: _ =>
      match infer_mapping_via_llm chat_json settings artifact_id
              (report_context_of first) (mapping_columns first)
              (REQUIRED_CANONICAL_FIELDS ++ ["lifecycle_stage"]) with
      | Raise (MappingRejected msg) =>
          Return (mkNormalizationResult artifact_id
                    (_report_fact report_id report_type ingestion_time
                                  source_network 0)
                    [] None
                    [mkValidationErrorItem "mapping_rejected" msg None None []])
      | Raise e => Raise e
      | Return mapping =>
          let lifecycle := li_lifecycle_stage (Schema.lifecycle mapping) in
          let raw_to_canon := raw_to_canon_of (mappings mapping) in
          let items := norm_to_orig_items (columns_normalized first)
                                          (columns_original first) in
          let ms := map (add_original_header items) (mappings mapping) in
          match normalize_tables
                  (normalize_row artifact_id source_object_key
                                 (kind tabular_json) lifecycle ms raw_to_canon)
                  (tables tabular_json) ([], []) with
          | Raise e => Raise e
          | Return (txs, errors) =>
              let txs := dedupe_transactions txs in
              Return (mkNormalizationResult artifact_id
                        (_report_fact report_id report_type ingestion_time
                                      source_network (List.length txs))
                        txs
                        (Some (mkLlmMappingResponse (Schema.lifecycle mapping) ms))
                        errors)
          end
      end
  end.

(** ** The PDF path *)

(** The names bound at module level in flow.py: its imports, the constant
    and the functions it defines. *)
Definition flow_globals : list string :=
  [ "annotations"; "json"; "datetime"; "timezone"; "Decimal"; "Any";
    "IntermediateDocument"; "LayoutUnderstandingOutput";
    "MappingRejected"; "infer_mapping_via_llm";
    "LifecycleStage"; "NormalizationResult"; "RawSourceRef"; "ReportFact";
    "TransactionFact"; "ValidationErrorItem";
    "clamp01"; "dedupe_transactions"; "parse_amount";
    "parse_timestamp_to_utc"; "validate_currency";
    "REQUIRED_CANONICAL_FIELDS"; "normalize_tabular";
    "normalize_pdf_elements"; "_infer_type"; "_report_fact"; "_median";
    "_best_text"; "_row_confidence" ].

(** The parameters and local variables of normalize_pdf_elements. *)
Definition pdf_locals : list string :=
  [ "bank_id"; "artifact_id"; "report_id"; "report_type"; "ingestion_time";
    "source_network"; "source_object_key"; "intermediate"; "layout";
    "errors"; "ctx"; "mapping"; "lifecycle"; "e"; "rf"; "per_page"; "el";
    "txs"; "page_number"; "els"; "ys"; "heights"; "bucket"; "rows"; "yc";
    "key"; "_"; "row_els"; "txid"; "amt"; "cur"; "ts"; "status"; "row_ref";
    "parsed_amt"; "e_amt"; "parsed_cur"; "e_cur"; "parsed_ts"; "e_ts";
    "card_network"; "merchant_id"; "conf" ].

(** Evaluating a name inside normalize_pdf_elements: NameError when it is
    bound neither in the function nor in the module (nor is it a builtin);
    [bound] is what the name denotes when it is bound. *)
Definition load_name {A : Type} (name : string) (bound : A) : result A :=
  if existsb (String.eqb name) (pdf_locals ++ flow_globals)
  then Return bound
  else Raise (NameError name).

Record BoundingBox : Set := mkBoundingBox {
  x1 : float; y1 : float; x2 : float; y2 : float
}.

Record IntermediateElement : Set := mkIntermediateElement {
  ie_page_number : Z;
  element_type : string;
  ie_text : string
}.

Record FieldPrediction : Set := mkFieldPrediction {
  field_type : string;
  confidence : Q
}.

Record LayoutTaggedElement : Set := mkLayoutTaggedElement {
  lt_element_id : string;
  lt_page_number : Z;
  text : string;
  bounding_box : option BoundingBox;
  predictions : list FieldPrediction
}.

(** [d.setdefault(k, []).append(x)] over a list: groups in the order their
    keys first occur, members in input order. *)
Fixpoint group_add {A : Type} (k : Z) (x : A) (d : list (Z * list A))
    : list (Z * list A) :=
  match d with
  | [] => [(k, [x])]
  | (k', xs) :: rest =>
      if (k =? k')%Z then (k', xs ++ [x]) :: rest
      else (k', xs) :: group_add k x rest
  end.

Definition group_by {A : Type} (key : A -> Z) (l : list A) : list (Z * list A) :=
  fold_left (fun d x => group_add (key x) x d) l [].

(** The same loop when computing the key can raise: it ends at the first
    key that does. *)
Fixpoint group_rows {A : Type} (key : A -> result Z) (l : list A)
    (d : list (Z * list A)) : result (list (Z * list A)) :=
  match l with
  | [] => Return d
  | x :: rest =>
      match key x with
      | Raise e => Raise e
      | Return k => group_rows key rest (group_add k x d)
      end
  end.

(** [int(x)] for a float: the integer part; NaN and the infinities have
    none. *)
Definition int_of_float (x : float) : result Z :=
  match Prim2SF x with
  | S754_nan => Raise (ValueError "cannot convert float NaN to integer")
  | S754_infinity _ => Raise OverflowError
  | S754_zero _ => Return 0%Z
  | S754_finite s m e =>
      let v := (if 0 <=? e then Z.pos m * 2 ^ e
                else Z.pos m / 2 ^ (- e))%Z in
      Return (if s then (- v)%Z else v)
  end.

Definition predictions_of (row_els : list LayoutTaggedElement)
    : list (LayoutTaggedElement * FieldPrediction) :=
  flat_map (fun e => map (fun p => (e, p)) (predictions e)) row_els.

Definition _best_text (row_els : list LayoutTaggedElement) (ft : string)
    : option string :=
  fst (fold_left
         (fun (st : option string * Q) ep =>
            if String.eqb (field_type (snd ep)) ft
               && Qltb (snd st) (confidence (snd ep))
            then (Some (Py.strip (text (fst ep))), confidence (snd ep))
            else st)
         (predictions_of row_els) (None, (-1)%Q)).

Definition best_confidence (row_els : list LayoutTaggedElement) (f : string) : Q :=
  fold_left
    (fun (best : Q) ep =>
       if String.eqb (field_type (snd ep)) f && Qltb best (confidence (snd ep))
       then confidence (snd ep) else best)
    (predictions_of row_els) 0%Q.

Definition _row_confidence (row_els : list LayoutTaggedElement) : Q :=
  let bests :=
    filter (fun b => Qltb 0 b)
           (map (best_confidence row_els)
                ["transaction_id"; "amount"; "currency"; "date"; "status"]) in
  clamp01 (fold_left Qplus bests 0 / (Z.of_nat (Nat.max 1 (List.length bests)) # 1))%Q.

(** The y-centre of an element over the bucket of its page, [yc // bucket],
    among the kept elements of the page, with the bucket 1.5 times the
    median height and at least 10.  This is binary64 geometry and is left
    to a parameter. *)
Variable row_quotient : list LayoutTaggedElement -> LayoutTaggedElement -> float.

(** [key = int(yc // bucket)] *)
Definition row_key (els : list LayoutTaggedElement) (e : LayoutTaggedElement)
    : result Z :=
  int_of_float (row_quotient els e).

(** What the name [settings] would denote in normalize_pdf_elements. *)
Variable ambient_settings : Settings.

(** The body of the loop over the pseudo-rows of a page; [None] is
    [continue] without an error. *)
Definition normalize_pdf_row (artifact_id source_network source_object_key : string)
    (lifecycle : LifecycleStage) (page_number : Z)
    (row_els : list LayoutTaggedElement) : result (option row_outcome) :=
  let txid := _best_text row_els "transaction_id" in
  let amt := _best_text row_els "amount" in
  let cur := _best_text row_els "currency" in
  let ts := _best_text row_els "date" in
  let status := _best_text row_els "status" in
  let row_ref : RowRef := [("page_number", Py.VInt page_number)] in
  if negb (is_set txid) then Return None else
  let '(parsed_amt, e_amt) := parse_amount amt "amount" row_ref in
  let '(parsed_cur, e_cur) := validate_currency ISO4217_CODES cur "currency" row_ref in
  match parse_timestamp_to_utc dtparse ts "timestamp_utc" row_ref with
  | Raise e => Raise e
  | Return (parsed_ts, e_ts) =>
      if negb (is_nil e_amt && is_nil e_cur && is_nil e_ts) then
        Return (Some (RowErrors (e_amt ++ e_cur ++ e_ts)))
      else
        Return (Some (RowFact
          (mkTransactionFact
             (match txid with Some t => t | None => "" end)
             (amount_or_zero parsed_amt) (currency_or_usd parsed_cur)
             (match parsed_ts with Some t => t | None => now end)
             lifecycle "UNKNOWN"
             (if Py.is_empty source_network then "UNKNOWN" else source_network)
             (mkRawSourceRef artifact_id source_object_key "pdf_element"
                (Some page_number)
                (match row_els with e :: _ => Some (lt_element_id e) | [] => None end)
                None None ["layout_elements"])
             (_row_confidence row_els)
             (if is_set status
              then [("status", match status with Some t => t | None => "" end)]
              else []))))
  end.

Fixpoint normalize_pdf_rows (step : list LayoutTaggedElement -> result (option row_outcome))
    (rows : list (Z * list LayoutTaggedElement))
    (acc : list TransactionFact * list ValidationErrorItem)
    : result (list TransactionFact * list ValidationErrorItem) :=
  match rows with
  | [] => Return acc
  | (_, row_els) :: rows' =>
      match step row_els with
      | Raise e => Raise e
      | Return None => normalize_pdf_rows step rows' acc
      | Return (Some (RowFact t)) =>
          normalize_pdf_rows step rows' (fst acc ++ [t], snd acc)
      | Return (Some (RowErrors es)) =>
          normalize_pdf_rows step rows' (fst acc, snd acc ++ es)
      end
  end.

Fixpoint normalize_pdf_pages
    (step : Z -> list LayoutTaggedElement -> result (option row_outcome))
    (pages : list (Z * list LayoutTaggedElement))
    (acc : list TransactionFact * list ValidationErrorItem)
    : result (list TransactionFact * list ValidationErrorItem) :=
  match pages with
  | [] => Return acc
  | (page_number, els) :: pages' =>
      let els :=
        filter (fun e => match bounding_box e with
                         | Some _ => negb (is_nil (predictions e))
                         | None => false
                         end) els in
      match els with
      | [] => normalize_pdf_pages step pages' acc
      | _ =>
          match group_rows (row_key els) els [] with
          | Raise e => Raise e
          | Return rows =>
              match normalize_pdf_rows (step page_number) rows acc with
              | Raise e => Raise e
              | Return acc' => normalize_pdf_pages step pages' acc'
              end
          end
      end
  end.

(** Lines 229-242: the try block and its handler.  The first argument of
    the call, [settings=settings], is evaluated before the call is made. *)
Definition infer_lifecycle (artifact_id : string) (ctx : list string)
    : option LlmMappingResponse * LifecycleStage * list ValidationErrorItem :=
  let attempt :=
    match load_name "settings" ambient_settings with
    | Raise e => Raise e
    | Return settings =>
        infer_mapping_via_llm chat_json settings artifact_id ctx []
                              ["lifecycle_stage"]
    end in
  match attempt with
  | Return mapping =>
      (Some mapping, li_lifecycle_stage (Schema.lifecycle mapping), [])
  | Raise e =>
      (None, AUTH,
       [mkValidationErrorItem "lifecycle_inference_failed" (exn_message e)
                              None None []])
  end.

Definition normalize_pdf_elements
    (bank_id artifact_id report_id report_type : string)
    (ingestion_time : DateTime.t) (source_network source_object_key : string)
    (intermediate : list IntermediateElement)
    (layout : option (list LayoutTaggedElement)) : result NormalizationResult :=
  let ctx :=
    firstn 50 (filter (fun t => negb (Py.is_empty t))
                      (map ie_text (firstn 80 intermediate))) in
  let '(mapping, lifecycle, errors) := infer_lifecycle artifact_id ctx in
  match layout with
  | None =>
      Return (mkNormalizationResult artifact_id
                (_report_fact report_id report_type ingestion_time source_network 0)
                [] mapping
                (errors ++ [mkValidationErrorItem "layout_missing"
                              "layout output missing for pdf" None None []]))
  | Some elements =>
      match normalize_pdf_pages
              (normalize_pdf_row artifact_id source_network source_object_key
                                 lifecycle)
              (group_by lt_page_number elements) ([], errors) with
      | Raise e => Raise e
      | Return (txs, errors) =>
          let txs := dedupe_transactions txs in
          Return (mkNormalizationResult artifact_id
                    (_report_fact report_id report_type ingestion_time
                                  source_network (List.length txs))
                    txs mapping errors)
      end
  end.

End Oracles.

(** The request normalize_tabular sends to the mapping oracle. *)
Definition tabular_payload (artifact_id : string) (first : Table) : Payload :=
  payload_of artifact_id (report_context_of first) (mapping_columns first)
             (REQUIRED_CANONICAL_FIELDS ++ ["lifecycle_stage"]).

(** The raw fields of every fact come from the given fields. *)
Definition fields_within (allowed : list string)
    (acc : list TransactionFact * list ValidationErrorItem) : Prop :=
  forall t f, In t (fst acc) -> In f (raw_fields_used (raw_source_ref t)) ->
              In f allowed.

(** The error the PDF path records for the failed lifecycle inference. *)
Definition lifecycle_inference_failed : ValidationErrorItem :=
  mkValidationErrorItem "lifecycle_inference_failed"
                        "name 'settings' is not defined" None None [].

(** The exceptions of the PDF path: the overflow of a timestamp
    conversion, and those of [int()] on a row quotient, which is an
    OverflowError for an infinity and a ValueError for NaN. *)
Definition pdf_raise
    (row_quotient : list LayoutTaggedElement -> LayoutTaggedElement -> float)
    (e : exn) : Prop :=
  e = OverflowError
  \/ (e = ValueError "cannot convert float NaN to integer"
      /\ exists els el, row_key row_quotient els el = Raise e).

(** Every fact is AUTH and no error has the lifecycle failure code. *)
Definition pdf_acc_ok (acc : list TransactionFact * list ValidationErrorItem)
    : Prop :=
  (forall t, In t (fst acc) -> lifecycle_stage t = AUTH)
  /\ (forall e, In e (snd acc) -> code e <> "lifecycle_inference_failed").

End Flow.
(* ================================================================== *)
(** * graph/reasoning.py: lifecycle reconciliation                     *)
(* ================================================================== *)

(** Amounts are binary64 floats, as in the code.  [timestamp_utc] holds UTC
    datetimes, as parse_timestamp_to_utc produces them; they are kept as
    their instant in microseconds, and [timedelta.total_seconds()] as the
    rational number of seconds it denotes. *)
Module Reasoning.

Record LifecycleStageInfo : Set := mkLifecycleStageInfo {
  stage : string;
  amount : float;
  currency : string;
  timestamp_utc : Z
}.

Record LifecycleAnomalies : Set := mkLifecycleAnomalies {
  has_amount_mismatch : bool;
  missing_settlement : bool;
  currency_conflict : bool;
  lifecycle_gap_duration : option Q;
  timestamp_violation : bool
}.

(** [by_stage = {s.stage: s for s in stages}]: a later record replaces an
    earlier one of the same stage. *)
Definition by_stage (stages : list LifecycleStageInfo) (st : string)
    : option LifecycleStageInfo :=
  find (fun s => String.eqb (stage s) st) (rev stages).

(** [max(x, y)] keeps [x] unless [y > x]. *)
Definition py_max (x y : float) : float :=
  if (x <? y)%float then y else x.

(** [x / y]; [None] is ZeroDivisionError. *)
Definition truediv (x y : float) : option float :=
  if (y =? 0)%float then None else Some (x / y)%float.


(** The literal [0.01]: the binary64 value nearest to one hundredth. *)
Definition mismatch_threshold : float := 0x1.47ae147ae147bp-7%float.

(** The body of the inner loop for one pair: [Some true] when it sets the
    flag. *)
Definition pair_mismatch (a b : float) : option bool :=
  if (a =? 0)%float || (b =? 0)%float then Some false
  else
    match truediv (abs (a - b)) (py_max (abs a) (abs b)) with
    | None => None
    | Some rel => Some (mismatch_threshold <? rel)%float
    end.

Fixpoint inner_loop (a : float) (bs : list float) (flag : bool) : option bool :=
  match bs with
  | [] => Some flag
  | b :: bs' =>
      match pair_mismatch a b with
      | None => None
      | Some m => inner_loop a bs' (flag || m)
      end
  end.

Fixpoint outer_loop (amounts : list float) (flag : bool) : option bool :=
  match amounts with
  | [] => Some flag
  | a :: rest =>
      match inner_loop a rest flag with
      | None => None
      | Some flag' => outer_loop rest flag'
      end
  end.

Definition amount_mismatch (amounts : list float) : option bool :=
  if (2 <=? List.length amounts)%nat then outer_loop amounts false
  else Some false.

Definition order : list string := ["AUTH"; "CLEARING"; "SETTLEMENT"].

Fixpoint any_descent (ts : list Z) : bool :=
  match ts with
  | a :: (b :: _) as rest => (b <? a)%Z || any_descent rest
  | _ => false
  end.

Definition total_seconds (microseconds : Z) : Q :=
  Qred (microseconds # 1000000).

Definition gap_of (stages : list LifecycleStageInfo) : option Q :=
  match by_stage stages "AUTH", by_stage stages "SETTLEMENT" with
  | Some a, Some s => Some (total_seconds (timestamp_utc s - timestamp_utc a))
  | _, _ => None
  end.

(** [None] is an exception leaving the function. *)
Definition analyze_lifecycle (stages : list LifecycleStageInfo)
    : option LifecycleAnomalies :=
  let missing :=
    match by_stage stages "SETTLEMENT" with Some _ => false | None => true end in
  let currencies := nodup string_dec (map currency stages) in
  let conflict := (1 <? List.length currencies)%nat in
  match amount_mismatch (map amount stages) with
  | None => None
  | Some mismatch =>
      let ts_list :=
        flat_map (fun st => match by_stage stages st with
                            | Some s => [timestamp_utc s]
                            | None => []
                            end) order in
      Some (mkLifecycleAnomalies mismatch missing conflict (gap_of stages)
                                 (any_descent ts_list))
  end.




End Reasoning.
(* ================================================================== *)
(** * graph/neo4j_writer.py: the lifecycle write                       *)
(* ================================================================== *)

Module Neo4jWriter.

(** One entry of [stages]. *)
Record StageEdge : Set := mkStageEdge {
  rel_type : string;
  stage : string;
  event_time : string
}.

(** The statements the transaction function runs, in order. *)
Inductive Write : Set :=
| MergeNodes (transaction_pk transaction_id merchant_pk network : string)
| MergeBank (bank_pk transaction_pk : string)
| MergeEdge (transaction_pk rel_type edge_id stage event_time : string).

(** A stage relationship of the graph, found again by its transaction,
    type and edge_id. *)
Record Edge : Set := mkEdge {
  e_transaction_pk : string;
  e_rel_type : string;
  e_edge_id : string;
  e_stage : string;
  e_event_time : string
}.

Definition same_edge (a b : Edge) : bool :=
  String.eqb (e_transaction_pk a) (e_transaction_pk b)
  && String.eqb (e_rel_type a) (e_rel_type b)
  && String.eqb (e_edge_id a) (e_edge_id b).

(** MERGE ... ON CREATE SET ... ON MATCH SET ... *)
Fixpoint merge_edge (e : Edge) (g : list Edge) : list Edge :=
  match g with
  | [] => [e]
  | e' :: g' => if same_edge e e' then e :: g' else e' :: merge_edge e g'
  end.

Definition apply_write (g : list Edge) (w : Write) : list Edge :=
  match w with
  | MergeEdge pk rel eid st t => merge_edge (mkEdge pk rel eid st t) g
  | _ => g
  end.

(** [a < b] on datetimes: naive with naive by wall clock, aware with aware
    by instant; [None] is the TypeError of a mixed comparison. *)
Definition dt_lt (a b : DateTime.t) : option bool :=
  match DateTime.tzinfo a, DateTime.tzinfo b with
  | None, None => Some (DateTime.wall a <? DateTime.wall b)%Z
  | Some oa, Some ob =>
      Some (DateTime.instant (DateTime.wall a) oa
            <? DateTime.instant (DateTime.wall b) ob)%Z
  | _, _ => None
  end.

Definition is_aware (t : DateTime.t) : bool :=
  match DateTime.tzinfo t with Some _ => true | None => false end.

(** The position of a datetime among datetimes of its own kind. *)
Definition time_key (t : DateTime.t) : Z :=
  match DateTime.tzinfo t with
  | None => DateTime.wall t
  | Some o => DateTime.instant (DateTime.wall t) o
  end.

Definition edge_write (transaction_pk : string) (s : StageEdge) : Write :=
  MergeEdge transaction_pk (rel_type s)
            (transaction_pk ++ "|" ++ rel_type s ++ "|" ++ stage s)%string
            (stage s) (event_time s).

(** [sorted(xs, key=...)] on comparable keys: stable, an element goes
    before the first element of the sorted rest whose key is not smaller. *)
Fixpoint insert_by_time (x : DateTime.t * StageEdge)
    (l : list (DateTime.t * StageEdge)) : list (DateTime.t * StageEdge) :=
  match l with
  | [] => [x]
  | y :: l' =>
      if (time_key (fst y) <? time_key (fst x))%Z
      then y :: insert_by_time x l'
      else x :: l
  end.

Definition sort_by_time (l : list (DateTime.t * StageEdge))
    : list (DateTime.t * StageEdge) :=
  fold_right insert_by_time [] l.

Definition same_kind (l : list (DateTime.t * StageEdge)) : bool :=
  forallb (fun x => is_aware (fst x)) l
  || forallb (fun x => negb (is_aware (fst x))) l.

Section Oracle.

(** [datetime.fromisoformat]; [None] is its ValueError. *)
Variable fromisoformat : string -> option DateTime.t.

Definition parse_time (s : string) : option DateTime.t :=
  fromisoformat (Py.replace_char "Z" "+00:00" s).

(** The keys of [sorted], computed for every stage before any comparison. *)
Fixpoint with_keys (stages : list StageEdge)
    : option (list (DateTime.t * StageEdge)) :=
  match stages with
  | [] => Some []
  | s :: rest =>
      match parse_time (event_time s), with_keys rest with
      | Some t, Some l => Some ((t, s) :: l)
      | _, _ => None
      end
  end.

(** The loop over [ordered]. *)
Fixpoint write_edges (transaction_pk : string)
    (ordered : list (DateTime.t * StageEdge)) (last_time : option DateTime.t)
    : result (list Write) :=
  match ordered with
  | [] => Return []
  | (t, s) :: rest =>
      let violation :=
        match last_time with
        | Some last => dt_lt t last
        | None => Some false
        end in
      match violation with
      | None => Raise (TypeError "can't compare offset-naive and offset-aware datetimes")
      | Some true => Raise (ValueError "temporal_ordering_violation")
      | Some false =>
          match write_edges transaction_pk rest (Some t) with
          | Raise e => Raise e
          | Return ws => Return (edge_write transaction_pk s :: ws)
          end
      end
  end.

(** The transaction function: the statements it has run when it returns;
    when it raises the transaction is rolled back.  A sort of two or more
    keys of mixed kinds compares a naive with an aware datetime at some
    point, whatever the order of its comparisons, and raises there. *)
Definition _write_lifecycle (transaction_pk transaction_id merchant_pk : string)
    (bank_pk : option string) (network : string) (stages : list StageEdge)
    : result (list Write) :=
  let nodes :=
    MergeNodes transaction_pk transaction_id merchant_pk network
    :: match bank_pk with
       | Some b => if Py.is_empty b then [] else [MergeBank b transaction_pk]
       | None => []
       end in
  match with_keys stages with
  | None => Raise (ValueError "Invalid isoformat string")
  | Some keyed =>
      if (2 <=? List.length keyed)%nat && negb (same_kind keyed) then
        Raise (TypeError "can't compare offset-naive and offset-aware datetimes")
      else
        match write_edges transaction_pk (sort_by_time keyed) None with
        | Raise e => Raise e
        | Return ws => Return (nodes ++ ws)
        end
  end.

(** [upsert_lifecycle]: the stage relationships after the call. *)
Definition upsert_lifecycle (g : list Edge)
    (transaction_pk transaction_id merchant_pk : string)
    (bank_pk : option string) (network : string) (stages : list StageEdge)
    : result (list Edge) :=
  match _write_lifecycle transaction_pk transaction_id merchant_pk bank_pk
                         network stages with
  | Raise e => Raise e
  | Return ws => Return (fold_left apply_write ws g)
  end.


End Oracle.

Definition stage_writes (ws : list Write) : list Write :=
  filter (fun w => match w with MergeEdge _ _ _ _ _ => true | _ => false end) ws.

Definition keyed_le (a b : DateTime.t * StageEdge) : Prop :=
  (time_key (fst a) <= time_key (fst b))%Z.

(** Keys of one kind. *)
Definition one_kind (l : list (DateTime.t * StageEdge)) : Prop :=
  forall x y, In x l -> In y l -> is_aware (fst x) = is_aware (fst y).

End Neo4jWriter.
(* ================================================================== *)
(** * The callers of the graph writer                                  *)
(*    (persistence/neo4j_persist.py, graph/reasoning.py)               *)
(* ================================================================== *)

Module GraphCallers.
Import Schema Neo4jWriter.

(** The properties the callers SET on a Transaction node. *)
Record NodeProps : Set := mkNodeProps {
  np_bank_id : option string;
  np_flags : option Reasoning.LifecycleAnomalies
}.

(** The stage relationships and, by transaction_pk, the properties set on
    Transaction nodes. *)
Record Graph : Set := mkGraph {
  edges : list Edge;
  props : list (string * NodeProps)
}.

Definition get_props (pk : string) (ps : list (string * NodeProps))
    : option NodeProps :=
  option_map snd (find (fun kv => String.eqb (fst kv) pk) ps).

(** MATCH (t:Transaction {transaction_pk: pk}) SET ... *)
Fixpoint set_props (pk : string) (upd : option NodeProps -> NodeProps)
    (ps : list (string * NodeProps)) : list (string * NodeProps) :=
  match ps with
  | [] => [(pk, upd None)]
  | (k, v) :: rest =>
      if String.eqb k pk then (k, upd (Some v)) :: rest
      else (k, v) :: set_props pk upd rest
  end.

(** reasoning.py *)
Definition _rel_for_stage (stage : string) : string :=
  if String.eqb stage "AUTH" then "AUTHORIZED"
  else if String.eqb stage "CLEARING" then "CLEARED"
  else if String.eqb stage "SETTLEMENT" then "SETTLED"
  else "FLOW".

(** The defaults persist_graph stores: "We do not recompute anomalies". *)
Definition no_anomalies : Reasoning.LifecycleAnomalies :=
  Reasoning.mkLifecycleAnomalies false false false None false.

Section Oracles.

(** [datetime.fromisoformat] and [datetime.isoformat]. *)
Variable fromisoformat : string -> option DateTime.t.
Variable isoformat : DateTime.t -> string.

(** The statement that SETs the properties of a Transaction node runs in
    a session of its own, after the transaction of upsert_lifecycle has
    committed.  [set_fault pk] is the exception it raises for the node
    [pk], when it raises. *)
Variable set_fault : string -> option exn.

(** The body of the loop of persist_graph for one fact: the graph it
    leaves and the exception it ends in, if any.  The list [stages] the
    code builds first is not used afterwards. *)
Definition persist_fact (bank_id : string) (g : Graph) (tx : TransactionFact)
    : Graph * option exn :=
  let pk := (bank_id ++ ":" ++ transaction_id tx)%string in
  match upsert_lifecycle fromisoformat (edges g) pk (transaction_id tx)
          (bank_id ++ ":" ++ merchant_id tx)%string None (card_network tx)
          [ mkStageEdge "AUTHORIZED" (stage_value (lifecycle_stage tx))
                        (isoformat (timestamp_utc tx)) ] with
  | Raise e => (g, Some e)
  | Return es =>
      match set_fault pk with
      | Some e => (mkGraph es (props g), Some e)
      | None =>
          (mkGraph es
             (set_props pk
                (fun _ => mkNodeProps (Some bank_id) (Some no_anomalies))
                (props g)),
           None)
      end
  end.

(** persist_graph: each fact is written in transactions of its own, so
    an exception leaves what was written before it. *)
Fixpoint persist_graph (bank_id : string) (transactions : list TransactionFact)
    (g : Graph) : Graph * option exn :=
  match transactions with
  | [] => (g, None)
  | tx :: rest =>
      match persist_fact bank_id g tx with
      | (g1, Some e) => (g1, Some e)
      | (g1, None) => persist_graph bank_id rest g1
      end
  end.

(** upsert_graph_with_anomalies; the timestamps are UTC instants. *)
Definition upsert_graph_with_anomalies (g : Graph)
    (transaction_pk transaction_id merchant_pk : string)
    (bank_pk : option string) (network : string)
    (stages : list Reasoning.LifecycleStageInfo)
    : Graph * result Reasoning.LifecycleAnomalies :=
  match Reasoning.analyze_lifecycle stages with
  | None => (g, Raise (ExternalError "float division by zero"))
  | Some anomalies =>
      match upsert_lifecycle fromisoformat (edges g) transaction_pk
              transaction_id merchant_pk bank_pk network
              (map (fun s =>
                      mkStageEdge (_rel_for_stage (Reasoning.stage s))
                        (Reasoning.stage s)
                        (isoformat (DateTime.mk (Reasoning.timestamp_utc s)
                                                DateTime.utc)))
                   stages) with
      | Raise e => (g, Raise e)
      | Return es =>
          match set_fault transaction_pk with
          | Some e => (mkGraph es (props g), Raise e)
          | None =>
              (mkGraph es
                 (set_props transaction_pk
                    (fun old =>
                       mkNodeProps (match old with
                                    | Some p => np_bank_id p
                                    | None => None
                                    end)
                                   (Some anomalies))
                    (props g)),
               Return anomalies)
          end
      end
  end.

End Oracles.

End GraphCallers.
(* ================================================================== *)
(** * Job orchestrator: [parse_artifact] (tasks.py)                    *)
(* ================================================================== *)

Module Tasks.

(** [JobStatus] of models.py; the processing service reads and writes the
    same enum through SQL string literals. *)
Inductive JobStatus : Set := QUEUED | STARTED | SUCCESS | FAILED.

Definition JobStatus_eqb (a b : JobStatus) : bool :=
  match a, b with
  | QUEUED, QUEUED | STARTED, STARTED | SUCCESS, SUCCESS | FAILED, FAILED => true
  | _, _ => false
  end.

Record ParseJob : Set := mkParseJob {
  job_id : string;
  pj_artifact_id : string;
  status : JobStatus;
  celery_task_id : option string;
  error : option string;
  updated_at : Z
}.

Record Artifact : Set := mkArtifact {
  artifact_id : string;
  file_format : string;
  pdf_kind : option string;
  object_key : string
}.

Record ReportUpload : Set := mkReportUpload {
  report_id : string;
  ru_artifact_id : string;
  upload_time : Z
}.

Record DlqEvent : Set := mkDlqEvent {
  task_name : string;
  task_id : string;
  dlq_artifact_id : string;
  dlq_error : string;
  payload : list (string * string)
}.

(** The committed contents of the relational store. *)
Record Db : Set := mkDb {
  artifacts : list Artifact;
  parse_jobs : list ParseJob;
  report_uploads : list ReportUpload;
  dlq_events : list DlqEvent
}.

Definition with_parse_jobs (db : Db) (pjs : list ParseJob) : Db :=
  mkDb (artifacts db) pjs (report_uploads db) (dlq_events db).

(** What the claim's SELECT ... JOIN ... FOR UPDATE returns: the first
    parse job of the artifact joined with its artifact row. *)
Record ClaimRow : Set := mkClaimRow {
  row_job_id : string;
  row_status : JobStatus;
  row_file_format : string;
  row_pdf_kind : option string;
  row_object_key : string
}.

Definition select_job_for_update (db : Db) (aid : string) : option ClaimRow :=
  match find (fun j => String.eqb (pj_artifact_id j) aid) (parse_jobs db) with
  | None => None
  | Some j =>
      match find (fun a => String.eqb (artifact_id a) aid) (artifacts db) with
      | None => None
      | Some a =>
          Some (mkClaimRow (job_id j) (status j) (file_format a) (pdf_kind a)
                           (object_key a))
      end
  end.

(** UPDATE parse_jobs SET status = s, error = e, updated_at = now()
    WHERE artifact_id = aid *)
Definition set_status (s : JobStatus) (e : option string) (now : Z)
    (aid : string) (j : ParseJob) : ParseJob :=
  if String.eqb (pj_artifact_id j) aid
  then mkParseJob (job_id j) (pj_artifact_id j) s (celery_task_id j) e now
  else j.

Definition update_status (db : Db) (aid : string) (s : JobStatus)
    (e : option string) (now : Z) : Db :=
  with_parse_jobs db (map (set_status s e now aid) (parse_jobs db)).

(** What an observer of the store and of the worker can see. *)
Inductive Event : Set :=
| EvBegin                                   (* conn.transaction() entered *)
| EvSelectForUpdate (aid : string) (found : option JobStatus)
| EvStatusWrite (aid : string) (old new : JobStatus)
| EvCommit
| EvRollback
| EvSelectUpload (aid : string)
| EvRunPipeline (committed : Db)            (* run_pipeline is entered *)
| EvPersist (stage : string)
| EvLogStage (stage : string) (outcome : string)
| EvDlqWrite (aid : string)
| EvRetry (countdown_cap : Z).

(** One [EvStatusWrite] per row the UPDATE touches. *)
Definition status_writes (db : Db) (aid : string) (s : JobStatus) : list Event :=
  flat_map (fun j => if String.eqb (pj_artifact_id j) aid
                     then [EvStatusWrite aid (status j) s] else [])
           (parse_jobs db).

Inductive PipelineOutcome : Set :=
| PipelineRaises (msg : string)
| PipelineOutputs (normalization_result : bool).
    (* [true]: outputs carry a normalization_result *)

(** Everything outside the worker's control during one execution. *)
Record World : Type := mkWorld {
  now : Z;
  select_fault : bool;         (* the claim's SELECT raises *)
  claim_update_fault : bool;   (* the claim's UPDATE raises *)
  run_pipeline : Db -> ClaimRow -> string -> PipelineOutcome;
  persist_report_fault : bool;
  persist_timeseries_fault : bool;
  neo4j_configured : bool;
  persist_graph_fault : bool;
  pinecone_configured : bool;
  persist_embeddings_fault : bool;
  mark_success_fault : bool;
  mark_failed_fault : bool
}.

Inductive ClaimOutcome : Set :=
| ClaimReturn (msg : string)        (* return inside the transaction block *)
| ClaimRaise (msg : string)         (* exception: the transaction rolls back *)
| ClaimProceed (row : ClaimRow).    (* block left normally: commit *)

(** Lines 49-78: the claim step.  Returns the outcome, the committed store
    after the transaction block is left, and the events. *)
Definition claim_job (w : World) (db : Db) (aid : string)
    : ClaimOutcome * Db * list Event :=
  if select_fault w then
    (ClaimRaise "select_failed", db, [EvBegin; EvRollback])
  else
    match select_job_for_update db aid with
    | None =>
        (ClaimRaise "parse job not found", db,
         [EvBegin; EvSelectForUpdate aid None; EvRollback])
    | Some row =>
        let sel := EvSelectForUpdate aid (Some (row_status row)) in
        match row_status row with
        | SUCCESS => (ClaimReturn "already_success", db, [EvBegin; sel; EvCommit])
        | STARTED => (ClaimReturn "already_started", db, [EvBegin; sel; EvCommit])
        | _ =>
            if claim_update_fault w then
              (ClaimRaise "update_failed", db, [EvBegin; sel; EvRollback])
            else
              (ClaimProceed row, update_status db aid STARTED None (now w),
               [EvBegin; sel] ++ status_writes db aid STARTED ++ [EvCommit])
        end
    end.

Definition latest_upload (db : Db) (aid : string) : option ReportUpload :=
  fold_left
    (fun best u =>
       if String.eqb (ru_artifact_id u) aid then
         match best with
         | None => Some u
         | Some b => if (upload_time b <? upload_time u)%Z then Some u else Some b
         end
       else best)
    (report_uploads db) None.

(** Lines 80-174 after the claim: the body that runs once the claim has
    committed.  [inl msg] is an exception reaching the handler. *)
Definition pipeline_body (w : World) (db : Db) (aid bank_id : string)
    (row : ClaimRow) : (string + string) * Db * list Event :=
  let report := match latest_upload db aid with
                | Some u => report_id u | None => aid end in
  let pre := [EvSelectUpload aid; EvRunPipeline db] in
  match run_pipeline w db row report with
  | PipelineRaises m => (inl m, db, pre)
  | PipelineOutputs false => (inl "normalization_result missing", db, pre)
  | PipelineOutputs true =>
      if persist_report_fault w then (inl "persist_report", db, pre) else
      let t1 := pre ++ [EvPersist "postgres"] in
      if persist_timeseries_fault w then (inl "persist_timeseries", db, t1) else
      let t2 := t1 ++ [EvPersist "timescale"] in
      let graph :=
        if neo4j_configured w then
          if persist_graph_fault w
          then inl (t2 ++ [EvLogStage "neo4j" "failure"])
          else inr (t2 ++ [EvPersist "neo4j"])
        else inr t2 in
      match graph with
      | inl t => (inl "persist_graph", db, t)
      | inr t3 =>
          let vec :=
            if pinecone_configured w then
              if persist_embeddings_fault w
              then inl (t3 ++ [EvLogStage "pinecone" "failure"])
              else inr (t3 ++ [EvPersist "pinecone"])
            else inr t3 in
          match vec with
          | inl t => (inl "persist_embeddings", db, t)
          | inr t4 =>
              if mark_success_fault w then (inl "mark_success", db, t4) else
              (inr "success", update_status db aid SUCCESS None (now w),
               t4 ++ status_writes db aid SUCCESS
                  ++ [EvLogStage "postgres" "success"])
          end
      end
  end.

Inductive RunResult : Set :=
| RunReturn (msg : string)
| RunRaise (msg : string).

(** The [except Exception] handler of [run]: an unconditional UPDATE to
    FAILED, then re-raise. *)
Definition on_exception (w : World) (db : Db) (aid : string) (msg : string)
    : RunResult * Db * list Event :=
  if mark_failed_fault w then (RunRaise "mark_failed", db, [])
  else (RunRaise msg, update_status db aid FAILED (Some msg) (now w),
        status_writes db aid FAILED ++ [EvLogStage "postgres" "failure"]).

(** The coroutine [run] of [parse_artifact]. *)
Definition run (w : World) (db : Db) (aid bank_id : string)
    : RunResult * Db * list Event :=
  match claim_job w db aid with
  | (ClaimReturn m, db1, t) => (RunReturn m, db1, t)
  | (ClaimRaise m, db1, t) =>
      let '(r, db2, t') := on_exception w db1 aid m in (r, db2, t ++ t')
  | (ClaimProceed row, db1, t) =>
      match pipeline_body w db1 aid bank_id row with
      | (inr m, db2, t') => (RunReturn m, db2, t ++ t')
      | (inl m, db2, t') =>
          let '(r, db3, t'') := on_exception w db2 aid m in
          (r, db3, t ++ t' ++ t'')
      end
  end.

Definition max_retries : nat := 5.

(** reliability/retry.py: the upper end of the jitter interval. *)
Definition backoff_cap (attempt : nat) (base_s cap_s : Z) : Z :=
  Z.min cap_s (base_s * 2 ^ Z.of_nat attempt).

Inductive TaskResult : Set :=
| TaskReturn (msg : string)
| TaskRetry (cap : Z)
| TaskDeadLetter (msg : string).

(** One delivery of the task; [attempt] is [self.request.retries]. *)
Definition parse_artifact (w : World) (attempt : nat) (tid : string)
    (db : Db) (aid bank_id : string) : TaskResult * Db * list Event :=
  match run w db aid bank_id with
  | (RunReturn m, db1, t) => (TaskReturn m, db1, t)
  | (RunRaise m, db1, t) =>
      if (max_retries <=? attempt)%nat then
        let ev := mkDlqEvent "payscope_processing.tasks.parse_artifact" tid aid m
                             [("artifact_id", aid)] in
        (TaskDeadLetter m,
         mkDb (artifacts db1) (parse_jobs db1) (report_uploads db1)
              (dlq_events db1 ++ [ev]),
         t ++ [EvDlqWrite aid])
      else
        let cap := backoff_cap attempt 2 300 in
        (TaskRetry cap, db1, t ++ [EvRetry cap])
  end.

(** The deliveries of one task: each retry is a new execution with its own
    world, until the task returns or is dead-lettered. *)
Fixpoint deliveries (ws : list World) (attempt : nat) (tid : string)
    (db : Db) (aid bank_id : string) : Db * list Event :=
  match ws with
  | [] => (db, [])
  | w :: ws' =>
      match parse_artifact w attempt tid db aid bank_id with
      | (TaskRetry _, db1, t) =>
          let '(db2, t') := deliveries ws' (S attempt) tid db1 aid bank_id in
          (db2, t ++ t')
      | (_, db1, t) => (db1, t)
      end
  end.

(** The edges of the job state machine. *)
Definition sm_edge (old new : JobStatus) : bool :=
  match old, new with
  | QUEUED, STARTED | FAILED, STARTED | STARTED, SUCCESS | STARTED, FAILED => true
  | _, _ => false
  end.

Definition status_of (db : Db) (aid : string) : option JobStatus :=
  option_map status
    (find (fun j => String.eqb (pj_artifact_id j) aid) (parse_jobs db)).

(** The schema's UNIQUE constraint uq_parse_jobs_artifact_id. *)
Definition unique_jobs (db : Db) : Prop :=
  NoDup (map pj_artifact_id (parse_jobs db)).

(** The schema's foreign key parse_jobs.artifact_id -> artifacts. *)
Definition jobs_have_artifacts (db : Db) : Prop :=
  incl (map pj_artifact_id (parse_jobs db)) (map artifact_id (artifacts db)).

(** The SQL statements of the claim step complete. *)
Definition claim_statements_complete (w : World) : Prop :=
  select_fault w = false /\ claim_update_fault w = false.

(** What a status write may be: an edge of the machine or, when [strict] is
    off, the exception handler recording FAILED. *)
Definition write_ok (strict : bool) (ev : Event) : Prop :=
  match ev with
  | EvStatusWrite _ old new =>
      sm_edge old new = true \/ (strict = false /\ new = FAILED)
  | _ => True
  end.

Definition all_started (db : Db) (aid : string) : Prop :=
  forall j, In j (parse_jobs db) -> pj_artifact_id j = aid -> status j = STARTED.

Definition same_keys (db db' : Db) : Prop :=
  map pj_artifact_id (parse_jobs db') = map pj_artifact_id (parse_jobs db)
  /\ artifacts db' = artifacts db.

End Tasks.

(* ================================================================== *)
(** * Artifact registry: [upload] (ingestion app.py, detect.py)        *)
(* ================================================================== *)

Module Ingestion.

Inductive FileFormat : Set := pdf | csv | xlsx.
Inductive PdfKind : Set := scanned | digital | unknown.
Inductive JobStatus : Set := queued | started | success | failed.

Definition FileFormat_value (f : FileFormat) : string :=
  match f with pdf => "PDF" | csv => "CSV" | xlsx => "XLSX" end.

Definition PdfKind_value (k : PdfKind) : string :=
  match k with scanned => "SCANNED" | digital => "DIGITAL" | unknown => "UNKNOWN" end.

Definition JobStatus_value (s : JobStatus) : string :=
  match s with
  | queued => "QUEUED" | started => "STARTED"
  | success => "SUCCESS" | failed => "FAILED"
  end.

Record Detection : Set := mkDetection {
  d_file_format : FileFormat;
  d_pdf_kind : option PdfKind
}.

Record Artifact : Set := mkArtifact {
  artifact_id : string;
  checksum_sha256 : string;
  file_format : FileFormat;
  pdf_kind : option PdfKind;
  object_key : string
}.

Record ParseJob : Set := mkParseJob {
  job_id : string;
  pj_artifact_id : string;
  status : JobStatus;
  celery_task_id : option string
}.

Record ReportUpload : Set := mkReportUpload {
  report_id : string;
  ru_artifact_id : string;
  ru_filename : string;
  uploader : string;
  ru_checksum_sha256 : string;
  upload_time : Z
}.

(** The relational store, the object store and the messages sent to the
    queue. *)
Record Store : Set := mkStore {
  artifacts : list Artifact;
  parse_jobs : list ParseJob;
  report_uploads : list ReportUpload;
  objects : list string;
  sent : list (string * list string)
}.

Record UploadFile : Set := mkUploadFile {
  filename : option string;
  content : string;
  content_type : option string
}.

(** What one iteration of the loop draws from outside: the UUIDs, the
    clock, and whether the object store, the broker and the commit that
    follows send_task answer. *)
Record Env : Set := mkEnv {
  uuid_report : string;
  uuid_artifact : string;
  uuid_job : string;
  put_object_fault : bool;
  send_task_id : option string;     (* [None]: send_task raises *)
  clock : Z;
  commit_task_id_fault : bool;      (* the commit of celery_task_id raises *)
  delete_object_fault : bool        (* delete_object raises in the handler *)
}.

Record UploadResult : Set := mkUploadResult {
  r_report_id : string;
  r_filename : option string;
  r_upload_time : Z;
  r_uploader : string;
  r_checksum_sha256 : string;
  r_file_format : string;
  r_pdf_kind : option string;
  r_artifact_id : string;
  r_parse_status : string
}.

Record UploadError : Set := mkUploadError {
  err_report_id : string;
  err_filename : option string;
  err_error : string
}.

Fixpoint endswith (suffix s : string) : bool :=
  String.eqb s suffix
  || match s with
     | EmptyString => false
     | String _ s' => endswith suffix s'
     end.

Definition parse_task : string := "payscope_processing.tasks.parse_artifact".

Definition ext_of (f : FileFormat) : string :=
  match f with pdf => "pdf" | csv => "csv" | xlsx => "xlsx" end.

Definition find_artifact (st : Store) (checksum : string) : option Artifact :=
  find (fun a => String.eqb (checksum_sha256 a) checksum) (artifacts st).

Definition find_job (st : Store) (aid : string) : option ParseJob :=
  find (fun j => String.eqb (pj_artifact_id j) aid) (parse_jobs st).

Definition has {A : Type} (key : A -> string) (k : string) (l : list A) : bool :=
  existsb (fun x => String.eqb (key x) k) l.

(** [put_object_file] and [delete_object] on the set of keys. *)
Definition put_key (k : string) (ks : list string) : list string :=
  if existsb (String.eqb k) ks then ks else ks ++ [k].

Definition delete_key (k : string) (ks : list string) : list string :=
  filter (fun k' => negb (String.eqb k' k)) ks.

Definition with_objects (st : Store) (ks : list string) : Store :=
  mkStore (artifacts st) (parse_jobs st) (report_uploads st) ks (sent st).

Definition set_task_id (aid tid : string) (j : ParseJob) : ParseJob :=
  if String.eqb (pj_artifact_id j) aid
  then mkParseJob (job_id j) (pj_artifact_id j) (status j) (Some tid)
  else j.

Section Oracles.

(** [hashlib.sha256(...).hexdigest()] of the streamed bytes. *)
Variable sha256 : string -> string.

(** The three probes of detect.py that read the file with pypdf, zipfile
    and csv.Sniffer. *)
Variable detect_pdf_kind : string -> PdfKind.
Variable _is_xlsx_zip : string -> bool.
Variable _looks_like_csv : string -> bool.

Definition detect_file_format (head fname data : string) : Detection :=
  if String.prefix "%PDF-" head then
    mkDetection pdf (Some (detect_pdf_kind data))
  else if String.prefix (String "P" (String "K" (String (ascii_of_nat 3)
                           (String (ascii_of_nat 4) EmptyString)))) head
          && _is_xlsx_zip data then
    mkDetection xlsx None
  else if _looks_like_csv data then mkDetection csv None
  else
    let lower := Py.lower fname in
    if endswith ".xlsx" lower then mkDetection xlsx None
    else if endswith ".pdf" lower then mkDetection pdf (Some (detect_pdf_kind data))
    else mkDetection csv None.

(** The exception handler of the loop body: the object is deleted when
    this iteration had put it; an exception of delete_object is passed
    over, and the object stays. *)
Definition fail (st : Store) (env : Env) (uf : UploadFile)
    (created_new_artifact : bool) (object_key msg : string)
    : Store * (UploadError + UploadResult) :=
  (if created_new_artifact
   then if delete_object_fault env then st
        else with_objects st (delete_key object_key (objects st))
   else st,
   inl (mkUploadError (uuid_report env) (filename uf) msg)).

(** One iteration of the loop over the files of a request. *)
Definition upload_file (st : Store) (env : Env) (bank_id uploader : string)
    (uf : UploadFile) : Store * (UploadError + UploadResult) :=
  let report_id := uuid_report env in
  let fname := match filename uf with
               | Some f => if Py.is_empty f then "upload" else f
               | None => "upload"
               end in
  let checksum := sha256 (content uf) in
  let detection := detect_file_format (substring 0 8 (content uf)) fname (content uf) in
  let object_key :=
    ("raw/" ++ checksum ++ "." ++ ext_of (d_file_format detection))%string in
  let upload_row aid :=
    mkReportUpload report_id aid fname uploader checksum (clock env) in
  let result aid (job : ParseJob) :=
    mkUploadResult report_id (filename uf) (clock env) uploader checksum
      (FileFormat_value (d_file_format detection))
      (option_map PdfKind_value (d_pdf_kind detection))
      aid (JobStatus_value (status job)) in
  match find_artifact st checksum with
  | None =>
      if put_object_fault env then fail st env uf false object_key "put_object"
      else
        let st1 := with_objects st (put_key object_key (objects st)) in
        let artifact :=
          mkArtifact (uuid_artifact env) checksum (d_file_format detection)
                     (d_pdf_kind detection) object_key in
        (* session.flush(): INSERT INTO artifacts *)
        if has artifact_id (uuid_artifact env) (artifacts st)
        then fail st1 env uf true object_key "IntegrityError"
        else
          let job := mkParseJob (uuid_job env) (uuid_artifact env) queued None in
          (* session.commit(): INSERT INTO parse_jobs, report_uploads *)
          if has job_id (uuid_job env) (parse_jobs st)
             || has pj_artifact_id (uuid_artifact env) (parse_jobs st)
             || has Ingestion.report_id report_id (report_uploads st)
          then fail st1 env uf true object_key "IntegrityError"
          else
            let st2 :=
              mkStore (artifacts st ++ [artifact]) (parse_jobs st ++ [job])
                      (report_uploads st ++ [upload_row (uuid_artifact env)])
                      (objects st1) (sent st) in
            (* the artifact is new: enqueue the parse *)
            match send_task_id env with
            | None => fail st2 env uf true object_key "send_task"
            | Some tid =>
                let st3 :=
                  mkStore (artifacts st2) (parse_jobs st2) (report_uploads st2)
                          (objects st2)
                          (sent st2 ++ [(parse_task, [uuid_artifact env; bank_id])]) in
                (* job.celery_task_id = async_result.id; session.commit() *)
                if commit_task_id_fault env
                then fail st3 env uf true object_key "commit"
                else
                  (mkStore (artifacts st3)
                           (map (set_task_id (uuid_artifact env) tid) (parse_jobs st3))
                           (report_uploads st3) (objects st3) (sent st3),
                   inr (result (uuid_artifact env) job))
            end
  | Some artifact =>
      let aid := artifact_id artifact in
      let '(jobs, job, job_new) :=
        match find_job st aid with
        | Some j => (parse_jobs st, j, false)
        | None =>
            let j := mkParseJob (uuid_job env) aid queued None in
            (parse_jobs st ++ [j], j, true)
        end in
      if (job_new && has job_id (uuid_job env) (parse_jobs st))
         || has Ingestion.report_id report_id (report_uploads st)
      then fail st env uf false object_key "IntegrityError"
      else
        (mkStore (artifacts st) jobs (report_uploads st ++ [upload_row aid])
                 (objects st) (sent st),
         inr (result aid job))
  end.

(** The loop of [upload]: a failed file does not stop the others. *)
Fixpoint upload_files (st : Store) (bank_id uploader : string)
    (files : list (Env * UploadFile))
    : Store * list UploadResult * list UploadError :=
  match files with
  | [] => (st, [], [])
  | (env, uf) :: rest =>
      let '(st1, out) := upload_file st env bank_id uploader uf in
      let '(st2, results, errors) := upload_files st1 bank_id uploader rest in
      match out with
      | inr r => (st2, r :: results, errors)
      | inl e => (st2, results, e :: errors)
      end
  end.

End Oracles.

End Ingestion.
(* ================================================================== *)
(** * The upload endpoint (ingestion app.py)                           *)
(* ================================================================== *)

Module IngestionApi.
Import Ingestion.

(** What the handler answers: the JSON body of a 200, or the
    HTTPException it raises. *)
Inductive Response : Set :=
| Uploads (uploads : list UploadResult)
| UploadsAndErrors (uploads : list UploadResult) (errors : list UploadError)
| MissingBankId                               (* 400, "missing_bank_id" *)
| AllFailed (errors : list UploadError).      (* 400, {"errors": ...} *)

(** [(x_uploader or "unknown").strip() or "unknown"] *)
Definition uploader_of (x_uploader : option string) : string :=
  let given := match x_uploader with
               | Some u => if Py.is_empty u then "unknown" else u
               | None => "unknown"
               end in
  let u := Py.strip given in
  if Py.is_empty u then "unknown" else u.

Definition is_nil {A : Type} (l : list A) : bool :=
  match l with [] => true | _ => false end.

Section Oracles.

Variable sha256 : string -> string.
Variable detect_pdf_kind : string -> PdfKind.
Variable _is_xlsx_zip : string -> bool.
Variable _looks_like_csv : string -> bool.

(** [upload]: the header check, the loop over the files and the shape of
    the answer.  Each file comes with what its iteration draws from
    outside. *)
Definition upload (st : Store) (files : list (Env * UploadFile))
    (x_uploader x_bank_id : option string) : Store * Response :=
  match x_bank_id with
  | None => (st, MissingBankId)
  | Some b =>
      if Py.is_empty b then (st, MissingBankId)
      else
        let bank_id := Py.strip b in
        let uploader := uploader_of x_uploader in
        let '(st1, results, errors) :=
          upload_files sha256 detect_pdf_kind _is_xlsx_zip _looks_like_csv
                       st bank_id uploader files in
        if negb (is_nil results) && negb (is_nil errors)
        then (st1, UploadsAndErrors results errors)
        else if negb (is_nil errors) && is_nil results
        then (st1, AllFailed errors)
        else (st1, Uploads results)
  end.

End Oracles.

End IngestionApi.
(* ================================================================== *)
(** * The processing pipeline (pipeline.py)                            *)
(* ================================================================== *)

Module Pipeline.
Import Schema LlmMapper Flow.

(** What reaches the caller of run_pipeline: an exception of the
    normalization code or of datetime.fromisoformat, the RuntimeError of
    the pipeline, or the exception of one of the services it calls, which
    [ServiceError] names. *)
Inductive pipeline_exn : Set :=
| Inner (e : exn)
| RuntimeError (msg : string)
| ServiceError (service : string).

Inductive outcome (A : Type) : Type :=
| Done (a : A)
| Fail (e : pipeline_exn).
Arguments Done {A} a.
Arguments Fail {A} e.

(** The keyword-only parameters of the two normalizers of flow.py. *)
Definition normalize_tabular_params : list string :=
  [ "settings"; "bank_id"; "artifact_id"; "report_id"; "report_type";
    "ingestion_time"; "source_network"; "source_object_key"; "tabular_json" ].

Definition normalize_pdf_elements_params : list string :=
  [ "bank_id"; "artifact_id"; "report_id"; "report_type"; "ingestion_time";
    "source_network"; "source_object_key"; "intermediate"; "layout" ].

Definition quoted (s : string) : string := ("'" ++ s ++ "'")%string.

(** The names of the missing arguments as the interpreter lists them. *)
Fixpoint name_list (names : list string) : string :=
  match names with
  | [] => ""
  | [a] => quoted a
  | [a; b] => (quoted a ++ " and " ++ quoted b)%string
  | a :: ((_ :: _ :: _) as rest) =>
      match rest with
      | [b; c] => (quoted a ++ ", " ++ quoted b ++ ", and " ++ quoted c)%string
      | _ => (quoted a ++ ", " ++ name_list rest)%string
      end
  end.

(** Binding the arguments of a call made with keywords only to a function
    whose parameters are all keyword-only and have no default: the first
    keyword that is not a parameter is refused, then missing parameters
    are. *)
Definition bind_keywords (fname : string) (params kwargs : list string)
    : result unit :=
  match find (fun k => negb (existsb (String.eqb k) params)) kwargs with
  | Some k =>
      Raise (TypeError (fname ++ "() got an unexpected keyword argument "
                        ++ quoted k))
  | None =>
      match filter (fun p => negb (existsb (String.eqb p) kwargs)) params with
      | [] => Return tt
      | [p] =>
          Raise (TypeError (fname ++ "() missing 1 required keyword-only argument: "
                            ++ quoted p))
      | missing =>
          Raise (TypeError (fname ++ "() missing "
                            ++ Py.str_of_int (Z.of_nat (List.length missing))
                            ++ " required keyword-only arguments: "
                            ++ name_list missing))
      end
  end.

(** The documents the pipeline stores back. *)
Inductive Doc : Type :=
| IntermediateJson (elements : list IntermediateElement)
| LayoutJson (elements : list LayoutTaggedElement)
| TabularDoc (tab : TabularJson)
| NormalizedJson (norm : NormalizationResult).

Definition Objects : Type := list (string * Doc).

(** put_object: a key that exists is overwritten. *)
Fixpoint put (key : string) (d : Doc) (objs : Objects) : Objects :=
  match objs with
  | [] => [(key, d)]
  | (k, d') :: rest =>
      if String.eqb k key then (k, d) :: rest else (k, d') :: put key d rest
  end.

Record Outputs : Type := mkOutputs {
  o_artifact_id : string;
  raw_object_key : string;
  detected_language : option string;
  intermediate_object_key : option string;
  layout_object_key : option string;
  tabular_object_key : option string;
  normalized_object_key : option string;
  normalization_result : option NormalizationResult
}.

Section Oracles.

Variable ISO4217_CODES : list string.
Variable dtparse : string -> option DateTime.t.
Variable chat_json : Settings -> Payload -> result LlmMappingResponse.
Variable now : DateTime.t.
Variable row_quotient : list LayoutTaggedElement -> LayoutTaggedElement -> float.
Variable ambient_settings : Settings.
Variable fromisoformat : string -> result DateTime.t.

(** The services: the object store, the parsers and the tagger.  [None]
    is an exception of the service. *)
Variable download_to_file : string -> option string.
Variable upload_fails : string -> bool.
Variable parse_scanned_pdf_via_ocr : string -> option (list IntermediateElement).
Variable parse_digital_pdf : string -> option (list IntermediateElement).
Variable detect_language : string -> option string.
Variable tag : list IntermediateElement -> option (list LayoutTaggedElement).
Variable parse_csv : string -> option (list Table).
Variable parse_xlsx : string -> option (list Table).

Definition upload_json_bytes (key : string) (d : Doc) (objs : Objects)
    : option Objects :=
  if upload_fails key then None else Some (put key d objs).

(** The call [normalize_pdf_elements(settings=settings, bank_id=..., ...)]. *)
Definition call_normalize_pdf_elements (settings : Settings)
    (bank_id artifact_id report_id report_type : string)
    (ingestion_time : DateTime.t) (source_network source_object_key : string)
    (intermediate : list IntermediateElement)
    (layout : list LayoutTaggedElement) : result NormalizationResult :=
  match bind_keywords "normalize_pdf_elements" normalize_pdf_elements_params
          [ "settings"; "bank_id"; "artifact_id"; "report_id"; "report_type";
            "ingestion_time"; "source_network"; "source_object_key";
            "intermediate"; "layout" ] with
  | Raise e => Raise e
  | Return _ =>
      normalize_pdf_elements ISO4217_CODES dtparse chat_json now row_quotient
        ambient_settings bank_id artifact_id report_id report_type ingestion_time
        source_network source_object_key intermediate (Some layout)
  end.

(** The call [normalize_tabular(settings=settings, bank_id=..., ...)]. *)
Definition call_normalize_tabular (settings : Settings)
    (bank_id artifact_id report_id report_type : string)
    (ingestion_time : DateTime.t) (source_network source_object_key : string)
    (tabular_json : TabularJson) : result NormalizationResult :=
  match bind_keywords "normalize_tabular" normalize_tabular_params
          [ "settings"; "bank_id"; "artifact_id"; "report_id"; "report_type";
            "ingestion_time"; "source_network"; "source_object_key";
            "tabular_json" ] with
  | Raise e => Raise e
  | Return _ =>
      normalize_tabular ISO4217_CODES dtparse chat_json now settings bank_id
        artifact_id report_id report_type ingestion_time source_network
        source_object_key tabular_json
  end.

(** The two tabular branches differ in the parser, the kind and the
    report type only. *)
Definition tabular_branch (settings : Settings) (objs : Objects)
    (artifact_id bank_id report_id : string) (ingestion_time : DateTime.t)
    (source_network object_key : string)
    (parsed : option (list Table)) (kind report_type : string)
    : Objects * outcome Outputs :=
  match parsed with
  | None => (objs, Fail (ServiceError "parse"))
  | Some tbls =>
      let tab := mkTabularJson (Some kind) tbls in
      let tab_key := ("extracted/" ++ artifact_id ++ "/tabular.json")%string in
      match upload_json_bytes tab_key (TabularDoc tab) objs with
      | None => (objs, Fail (ServiceError "upload"))
      | Some objs1 =>
          match call_normalize_tabular settings bank_id artifact_id report_id
                  report_type ingestion_time source_network object_key tab with
          | Raise e => (objs1, Fail (Inner e))
          | Return norm =>
              let norm_key :=
                ("normalized/" ++ artifact_id ++ "/transactions.json")%string in
              match upload_json_bytes norm_key (NormalizedJson norm) objs1 with
              | None => (objs1, Fail (ServiceError "upload"))
              | Some objs2 =>
                  (objs2,
                   Done (mkOutputs artifact_id object_key None None None
                           (Some tab_key) (Some norm_key) (Some norm)))
              end
          end
      end
  end.

Definition run_pipeline (settings : Settings) (objs : Objects)
    (artifact_id bank_id report_id : string)
    (ingestion_time_iso : option string)
    (source_network file_format : string) (pdf_kind : option string)
    (object_key : string) : Objects * outcome Outputs :=
  let parsed_time :=
    match ingestion_time_iso with
    | Some s => if Py.is_empty s then Return now else fromisoformat s
    | None => Return now
    end in
  match parsed_time with
  | Raise e => (objs, Fail (Inner e))
  | Return ingestion_time =>
      match download_to_file object_key with
      | None => (objs, Fail (ServiceError "download"))
      | Some raw =>
          if String.eqb file_format "PDF" then
            let parsed :=
              match pdf_kind with
              | Some k => if String.eqb k "SCANNED"
                          then parse_scanned_pdf_via_ocr raw
                          else parse_digital_pdf raw
              | None => parse_digital_pdf raw
              end in
            match parsed with
            | None => (objs, Fail (ServiceError "parse"))
            | Some intermediate =>
                let sample_text :=
                  Py.join (String (ascii_of_nat 10) EmptyString)
                          (map ie_text (firstn 200 intermediate)) in
                match detect_language sample_text with
                | None => (objs, Fail (ServiceError "detect_language"))
                | Some lang =>
                    let inter_key :=
                      ("extracted/" ++ artifact_id ++ "/intermediate.json")%string in
                    match upload_json_bytes inter_key
                            (IntermediateJson intermediate) objs with
                    | None => (objs, Fail (ServiceError "upload"))
                    | Some objs1 =>
                        match tag intermediate with
                        | None => (objs1, Fail (ServiceError "tag"))
                        | Some layout_out =>
                            let layout_key :=
                              ("extracted/" ++ artifact_id ++ "/layout.json")%string in
                            match upload_json_bytes layout_key
                                    (LayoutJson layout_out) objs1 with
                            | None => (objs1, Fail (ServiceError "upload"))
                            | Some objs2 =>
                                match call_normalize_pdf_elements settings
                                        bank_id artifact_id report_id
                                        "pdf_report" ingestion_time
                                        source_network object_key
                                        intermediate layout_out with
                                | Raise e => (objs2, Fail (Inner e))
                                | Return norm =>
                                    let norm_key :=
                                      ("normalized/" ++ artifact_id
                                       ++ "/transactions.json")%string in
                                    match upload_json_bytes norm_key
                                            (NormalizedJson norm) objs2 with
                                    | None => (objs2, Fail (ServiceError "upload"))
                                    | Some objs3 =>
                                        (objs3,
                                         Done (mkOutputs artifact_id object_key
                                                 (Some lang) (Some inter_key)
                                                 (Some layout_key) None
                                                 (Some norm_key) (Some norm)))
                                    end
                                end
                            end
                        end
                    end
                end
            end
          else if String.eqb file_format "CSV" then
            tabular_branch settings objs artifact_id bank_id report_id
              ingestion_time source_network object_key (parse_csv raw)
              "csv" "csv_report"
          else if String.eqb file_format "XLSX" then
            tabular_branch settings objs artifact_id bank_id report_id
              ingestion_time source_network object_key (parse_xlsx raw)
              "xlsx" "xlsx_report"
          else
            (objs, Fail (RuntimeError ("unsupported file_format=" ++ file_format)))
      end
  end.

End Oracles.

End Pipeline.
(* ================================================================== *)
(** * Column headers (tabular/headers.py)                              *)
(* ================================================================== *)

From Stdlib Require DecimalZ DecimalPos.

Module Headers.

(** The class [a-z0-9]. *)
Definition is_alnum (c : ascii) : bool :=
  let n := nat_of_ascii c in
  ((97 <=? n) && (n <=? 122))%nat || Py.is_digit c.

Definition underscore : ascii := "_"%char.

Definition is_underscore (c : ascii) : bool := Ascii.eqb c underscore.

(** [re.sub(cls+, "_", s)] for a character class [cls]: every maximal run
    of characters of the class becomes one underscore.  [in_run] tells
    that the character before [s] was of the class. *)
Fixpoint sub_runs (cls : ascii -> bool) (in_run : bool) (s : string) : string :=
  match s with
  | EmptyString => EmptyString
  | String c s' =>
      if cls c
      then if in_run then sub_runs cls true s'
           else String underscore (sub_runs cls true s')
      else String c (sub_runs cls false s')
  end.

(** [_NON_ALNUM.sub("_", s)] with [_NON_ALNUM = [^a-z0-9]+]. *)
Definition sub_non_alnum (s : string) : string :=
  sub_runs (fun c => negb (is_alnum c)) false s.

(** [re.sub(r"_+", "_", s)] *)
Definition sub_underscores (s : string) : string :=
  sub_runs is_underscore false s.

(** [s.strip("_")] *)
Fixpoint lstrip_underscores (s : string) : string :=
  match s with
  | EmptyString => EmptyString
  | String c s' => if is_underscore c then lstrip_underscores s' else s
  end.

Fixpoint rstrip_underscores (s : string) : string :=
  match s with
  | EmptyString => EmptyString
  | String c s' =>
      match rstrip_underscores s' with
      | EmptyString =>
          if is_underscore c then EmptyString else String c EmptyString
      | r => String c r
      end
  end.

Definition strip_underscores (s : string) : string :=
  rstrip_underscores (lstrip_underscores s).

(** A character outside ASCII is a run of bytes none of which is in
    [a-z0-9], as the character itself is for the pattern, before and after
    [lower()]; the two characters whose lower case holds an ASCII letter,
    U+0130 and U+212A, are outside the model. *)
Definition _normalize_one (s : string) : string :=
  let t := Py.lower (Py.strip s) in
  let t := sub_non_alnum t in
  let t := strip_underscores t in
  sub_underscores t.








End Headers.
(* ================================================================== *)
(** * Daily volumes (persistence/postgres_timescale.py)                *)
(* ================================================================== *)

Module Timeseries.
Import Schema.

(** [dt.date()]: a date is held as its day number, counted from
    0001-01-01. *)
Definition date (t : DateTime.t) : Z :=
  (DateTime.wall t / DateTime.us_per_day)%Z.

(** [datetime.combine(day, time.min, tzinfo=timezone.utc)] *)
Definition midnight_utc (day : Z) : DateTime.t :=
  DateTime.mk (day * DateTime.us_per_day)%Z DateTime.utc.

(** The key of a bucket: (day, source_network, lifecycle_stage.value). *)
Definition BucketKey : Type := Z * string * string.

Definition bucket_key_eqb (a b : BucketKey) : bool :=
  let '(d, n, s) := a in
  let '(d', n', s') := b in
  (d =? d')%Z && String.eqb n n' && String.eqb s s'.

Record BucketValues : Set := mkBucketValues {
  tx_count : Z;
  amount_sum : float
}.

(** The dict [buckets], in insertion order. *)
Definition Buckets : Type := list (BucketKey * BucketValues).

(** [b = buckets.setdefault(key, {"tx_count": 0, "amount_sum": 0})], then
    [b["tx_count"] += 1] and [b["amount_sum"] += x]. *)
Fixpoint bump (key : BucketKey) (x : float) (buckets : Buckets) : Buckets :=
  match buckets with
  | [] => [(key, mkBucketValues (0 + 1) (PrimFloat.add PrimFloat.zero x))]
  | (k, b) :: rest =>
      if bucket_key_eqb k key
      then (k, mkBucketValues (tx_count b + 1)
                              (PrimFloat.add (amount_sum b) x)) :: rest
      else (k, b) :: bump key x rest
  end.

Record VolumeRow : Set := mkVolumeRow {
  vr_bank_id : string;
  bucket_time : DateTime.t;
  vr_source_network : string;
  vr_lifecycle_stage : string;
  vr_tx_count : Z;
  vr_amount_sum : float
}.

(** The statements sent on the connection. *)
Inductive Statement : Set :=
| SetTenant (bank_id : string)
| InsertVolume (row : VolumeRow).

Section Oracle.

(** The float nearest to a decimal that is not a signaling NaN. *)
Variable nearest_float : Decimal.t -> float.

(** [float(d)] *)
Definition float_of_decimal (d : Decimal.t) : result float :=
  match d with
  | Decimal.NaN _ true _ =>
      Raise (ValueError "cannot convert signaling NaN to float")
  | _ => Return (nearest_float d)
  end.

(** The first loop of persist_timeseries. *)
Fixpoint aggregate (net : string) (txs : list TransactionFact)
    (buckets : Buckets) : result Buckets :=
  match txs with
  | [] => Return buckets
  | tx :: rest =>
      let key := (date (timestamp_utc tx), net,
                  stage_value (lifecycle_stage tx)) in
      match float_of_decimal (amount tx) with
      | Raise e => Raise e
      | Return x => aggregate net rest (bump key x buckets)
      end
  end.

Definition insert_of (bank_id : string) (kb : BucketKey * BucketValues)
    : Statement :=
  let '((day, net, stage), vals) := kb in
  InsertVolume (mkVolumeRow bank_id (midnight_utc day) net stage
                  (tx_count vals) (amount_sum vals)).

(** persist_timeseries, as the statements it sends while none of them
    fails, and the exception it ends in, if any. *)
Definition persist_timeseries (bank_id : string) (norm : NormalizationResult)
    : list Statement * option exn :=
  let rf := report_fact norm in
  match aggregate (source_network rf) (transactions norm) [] with
  | Raise e => ([SetTenant bank_id], Some e)
  | Return buckets =>
      (SetTenant bank_id :: map (insert_of bank_id) buckets, None)
  end.

End Oracle.

End Timeseries.
(* ================================================================== *)
(** * Predicates and sample data of the statements                    *)
(* ================================================================== *)

Section StringVocabulary.
Import Py.



End StringVocabulary.

Section AmountVocabulary.
Import Py Schema Validate.
Local Open Scope string_scope.


End AmountVocabulary.

Section DedupeVocabulary.
Import Schema Validate.

Definition ref_row (n : option Z) : RawSourceRef :=
  mkRawSourceRef "a1" "raw/abc.csv" "csv_row" None None None n ["id"; "amt"].

Definition tx (id : string) (cents : N) (st : LifecycleStage)
    (row : option Z) (conf : Q) : TransactionFact :=
  mkTransactionFact id (Decimal.Finite false cents (-2)) "USD"
    (DateTime.of_civil 2025 1 1 0 0 0 0 DateTime.utc) st "M1" "VISA"
    (ref_row row) conf [].

Definition sample_batch : list TransactionFact :=
  [ tx "T2" 500 AUTH (Some 4%Z) (8 # 10);
    tx "T1" 100 AUTH (Some 2%Z) (9 # 10);
    tx "T1" 100 AUTH (Some 3%Z) (9 # 10);
    tx "T1" 100 SETTLEMENT (Some 5%Z) (7 # 10) ].

End DedupeVocabulary.

Section TabularVocabulary.
Import Schema Validate LlmMapper Flow.

Definition settings_07 : Settings :=
  mkSettings (Some "http://llm") (Some "key") "gpt-4o-mini" (7 # 10).

Definition low_trust_response : LlmMappingResponse :=
  mkLlmMappingResponse (mkLifecycleInference SETTLEMENT (1 # 2) "guess")
    [ mkMappingDecision "id" "transaction_id" (9 # 10) "ids";
      mkMappingDecision "amt" "amount" (3 # 10) "low" ].

Definition one_table : TabularJson :=
  mkTabularJson (Some "csv")
    [ mkTable None ["id"; "amt"] ["Id"; "Amt"]
        [ mkRow (Some 2%Z) [("id", Py.VStr "T1"); ("amt", Py.VStr "$1,234.56")] ] ].

End TabularVocabulary.

Section PdfVocabulary.
Import Schema Validate LlmMapper Flow.

Definition other_code (e : ValidationErrorItem) : Prop :=
  code e <> "lifecycle_inference_failed".

(** What one pseudo-row contributes when the stage passed in is AUTH. *)
Definition row_step_ok (o : result (option row_outcome)) : Prop :=
  match o with
  | Return None => True
  | Return (Some (RowFact t)) => lifecycle_stage t = AUTH
  | Return (Some (RowErrors es)) => Forall other_code es
  | Raise e => e = OverflowError
  end.

Definition el (id : string) (txt : string) (ft : string) (c : Q)
    : LayoutTaggedElement :=
  mkLayoutTaggedElement id 1 txt
    (Some (mkBoundingBox 0%float 100%float 50%float 112%float))
    [mkFieldPrediction ft c].

End PdfVocabulary.

Section GraphVocabulary.
Import Neo4jWriter.

Definition settled_jan2 : StageEdge :=
  mkStageEdge "SETTLED" "SETTLEMENT" "2025-01-02T00:00:00+00:00".

Definition authorized_jan1 : StageEdge :=
  mkStageEdge "AUTHORIZED" "AUTH" "2025-01-01T00:00:00+00:00".

End GraphVocabulary.

Section TasksVocabulary.
Import Tasks.

Inductive claim_post (strict : bool) (db : Db) (aid : string)
  : ClaimOutcome -> Db -> Prop :=
| post_return m : claim_post strict db aid (ClaimReturn m) db
| post_raise m :
    (strict = true -> forall j, In j (parse_jobs db) -> pj_artifact_id j <> aid) ->
    claim_post strict db aid (ClaimRaise m) db
| post_proceed row db1 :
    same_keys db db1 -> all_started db1 aid ->
    claim_post strict db aid (ClaimProceed row) db1.

Definition w_pipeline_fails : World :=
  mkWorld 10 false false (fun _ _ _ => PipelineRaises "boom")
          false false false false false false false false.

Definition w_all_good : World :=
  mkWorld 20 false false (fun _ _ _ => PipelineOutputs true)
          false false true false true false false false.

Definition db_queued : Db :=
  mkDb [mkArtifact "a1" "CSV" None "raw/abc.csv"]
       [mkParseJob "j1" "a1" QUEUED None None 0]
       [mkReportUpload "r1" "a1" 5] [].

End TasksVocabulary.

Section IngestionVocabulary.
Import Ingestion.

Definition empty_store : Store := mkStore [] [] [] [] [].

Definition csv_bytes : string := "id,amount
T1,10
".

Definition env_a : Env := mkEnv "r-1" "a-1" "j-1" false (Some "task-1") 100 false false.

Definition env_b : Env := mkEnv "r-2" "a-2" "j-2" false (Some "task-2") 200 false false.

(** A stand-in digest for the example: the text of the file itself. *)
Definition toy_digest (s : string) : string := s.

Definition first_upload :=
  upload_file toy_digest (fun _ => unknown) (fun _ => false) (fun _ => true)
    empty_store env_a "bank" "alice" (mkUploadFile (Some "a.csv") csv_bytes None).

Definition second_upload :=
  upload_file toy_digest (fun _ => unknown) (fun _ => false) (fun _ => true)
    (fst first_upload) env_b "bank" "bob"
    (mkUploadFile (Some "again.csv") csv_bytes None).

End IngestionVocabulary.
(* ================================================================== *)
(** * Further vocabulary: the job orchestrator                         *)
(* ================================================================== *)

Section TasksTraceVocabulary.
Import Tasks.

Definition is_run_pipeline (ev : Event) : bool :=
  match ev with EvRunPipeline _ => true | _ => false end.

Definition is_dlq_write (ev : Event) : bool :=
  match ev with EvDlqWrite _ => true | _ => false end.

Definition is_status_write (ev : Event) : bool :=
  match ev with EvStatusWrite _ _ _ => true | _ => false end.

Definition count (p : Event -> bool) (t : list Event) : nat :=
  List.length (filter p t).

(** The stores a successful run has written, in the order of the code. *)
Definition persisted (w : World) : list Event :=
  [EvPersist "postgres"; EvPersist "timescale"]
  ++ (if neo4j_configured w then [EvPersist "neo4j"] else [])
  ++ (if pinecone_configured w then [EvPersist "pinecone"] else []).

(** No stage of the run after the pipeline raises. *)
Definition stores_answer (w : World) : Prop :=
  persist_report_fault w = false
  /\ persist_timeseries_fault w = false
  /\ (neo4j_configured w = true -> persist_graph_fault w = false)
  /\ (pinecone_configured w = true -> persist_embeddings_fault w = false)
  /\ mark_success_fault w = false.

(** The artifact has no row in parse_jobs. *)
Definition no_job (db : Db) (aid : string) : Prop :=
  forall j, In j (parse_jobs db) -> pj_artifact_id j <> aid.

Definition dead_letter (tid aid msg : string) : DlqEvent :=
  mkDlqEvent "payscope_processing.tasks.parse_artifact" tid aid msg
             [("artifact_id", aid)].

(** The upload rows of an artifact. *)
Definition uploads_of (db : Db) (aid : string) : list ReportUpload :=
  filter (fun u => String.eqb (ru_artifact_id u) aid) (report_uploads db).

Definition w_select_fails : World :=
  mkWorld 30 true false (fun _ _ _ => PipelineOutputs true)
          false false false false false false false false.

Definition db_done : Db :=
  mkDb [mkArtifact "a1" "CSV" None "raw/abc.csv"]
       [mkParseJob "j1" "a1" SUCCESS (Some "t1") None 7]
       [mkReportUpload "r1" "a1" 5] [].

Definition db_no_job : Db :=
  mkDb [mkArtifact "a1" "CSV" None "raw/abc.csv"] []
       [mkReportUpload "r1" "a1" 5] [].

End TasksTraceVocabulary.
(* ================================================================== *)
(** * Further vocabulary: the artifact registry                        *)
(* ================================================================== *)

Section IngestionVocabularyMore.
Import Ingestion.

(** The constraints of models.py: the primary keys, the unique checksum,
    uq_parse_jobs_artifact_id and the two foreign keys to artifacts. *)
Definition store_ok (st : Store) : Prop :=
  NoDup (map artifact_id (artifacts st))
  /\ NoDup (map checksum_sha256 (artifacts st))
  /\ NoDup (map job_id (parse_jobs st))
  /\ NoDup (map pj_artifact_id (parse_jobs st))
  /\ NoDup (map report_id (report_uploads st))
  /\ incl (map pj_artifact_id (parse_jobs st)) (map artifact_id (artifacts st))
  /\ incl (map ru_artifact_id (report_uploads st)) (map artifact_id (artifacts st)).

(** An artifact row as the endpoint writes it. *)
Definition artifact_wf (a : Artifact) : Prop :=
  object_key a
  = ("raw/" ++ checksum_sha256 a ++ "." ++ ext_of (file_format a))%string
  /\ (pdf_kind a <> None <-> file_format a = pdf).


Definition env_no_broker : Env :=
  mkEnv "r-1" "a-1" "j-1" false None 100 false false.



(** The failure came after the rows were committed. *)
Definition late_failure (e : UploadError) : Prop :=
  err_error e = "send_task" \/ err_error e = "commit".

End IngestionVocabularyMore.

Section IngestionApiVocabulary.
Import Ingestion IngestionApi.

(** A message for the parse task, for the given bank. *)
Definition enqueued_for (bank_id : string) (m : string * list string) : Prop :=
  fst m = parse_task /\ exists aid, snd m = [aid; bank_id].

(** The outcome of one file counted as a success. *)
Definition successes (out : UploadError + UploadResult) : nat :=
  match out with inr _ => 1 | inl _ => 0 end.

(** The outcome of one file counted as an error of a file whose task was
    sent. *)
Definition sent_then_failed (out : UploadError + UploadResult) : nat :=
  match out with
  | inl e => if String.eqb (err_error e) "commit" then 1 else 0
  | inr _ => 0
  end.

(** The errors of files whose task was sent before the failure. *)
Definition commit_failures (es : list UploadError) : nat :=
  List.length (filter (fun e => String.eqb (err_error e) "commit") es).

End IngestionApiVocabulary.
(* ================================================================== *)
(** * Further vocabulary: the graph writer                             *)
(* ================================================================== *)

Section GraphVocabularyMore.
Import Neo4jWriter.

(** The relationship a statement merges, if it merges one. *)
Definition edge_of_write (w : Write) : list Edge :=
  match w with
  | MergeEdge pk rel eid st t => [mkEdge pk rel eid st t]
  | _ => []
  end.

Definition edges_of (ws : list Write) : list Edge := flat_map edge_of_write ws.

Definition merge_all (es : list Edge) (g : list Edge) : list Edge :=
  fold_left (fun g e => merge_edge e g) es g.

Definition has_edge (e : Edge) (g : list Edge) : bool := existsb (same_edge e) g.

(** What MERGE finds a relationship by. *)
Definition edge_key (e : Edge) : string * string * string :=
  (e_transaction_pk e, e_rel_type e, e_edge_id e).

(** The relationship written for one entry of [stages]. *)
Definition stage_edge_of (transaction_pk : string) (s : StageEdge) : Edge :=
  mkEdge transaction_pk (rel_type s)
         (transaction_pk ++ "|" ++ rel_type s ++ "|" ++ stage s)%string
         (stage s) (event_time s).

Definition cleared_jan1_noon : StageEdge :=
  mkStageEdge "CLEARED" "CLEARING" "2025-01-01T12:00:00+00:00".

End GraphVocabularyMore.

Section GraphCallersVocabulary.
Import Schema Neo4jWriter GraphCallers.

Definition fact_pk (bank_id : string) (tx : TransactionFact) : string :=
  (bank_id ++ ":" ++ transaction_id tx)%string.

(** The relationship persist_graph merges for a fact. *)
Definition fact_edge (isoformat : DateTime.t -> string) (bank_id : string)
    (tx : TransactionFact) : Edge :=
  stage_edge_of (fact_pk bank_id tx)
    (mkStageEdge "AUTHORIZED" (stage_value (lifecycle_stage tx))
                 (isoformat (timestamp_utc tx))).

Definition set_all (pks : list string) (v : NodeProps)
    (ps : list (string * NodeProps)) : list (string * NodeProps) :=
  fold_left (fun ps pk => set_props pk (fun _ => v) ps) pks ps.

(** A stand-in for isoformat in the examples: a fixed text. *)
Definition noon_text (_ : DateTime.t) : string := "2025-01-01T12:00:00+00:00".

Definition settled_fact : TransactionFact :=
  mkTransactionFact "T1" (Decimal.Finite false 10000 (-2)) "USD"
    (DateTime.of_civil 2025 1 1 12 0 0 0 DateTime.utc) SETTLEMENT "M1" "VISA"
    (mkRawSourceRef "a1" "raw/abc.csv" "csv_row" None None None (Some 2%Z) [])
    (9 # 10) [].

End GraphCallersVocabulary.
(* ================================================================== *)
(** * Further vocabulary: validation and normalization                 *)
(* ================================================================== *)

Section ValidateVocabularyMore.
Import Schema Validate.

(** What a validator hands back: a value and no error, or no value and
    one error that names the field and the row. *)
Definition one_outcome {A : Type} (f : string) (rr : RowRef)
    (r : option A * list ValidationErrorItem) : Prop :=
  match r with
  | (Some _, []) => True
  | (None, [e]) => field e = Some f /\ row_ref e = rr
  | _ => False
  end.

End ValidateVocabularyMore.

Section FlowVocabularyMore.
Import Schema Validate LlmMapper Flow.

(** The key of an element whose key is computed without an exception. *)
Definition key_or_zero {A : Type} (key : A -> result Z) (x : A) : Z :=
  match key x with Return k => k | Raise _ => 0%Z end.

(** The row pointer normalize_tabular attaches to the errors of a row. *)
Definition tabular_row_ref (sheet : option string) (r : Row) : RowRef :=
  [ ("sheet_name", match sheet with Some s => Py.VStr s | None => Py.VNone end);
    ("source_row_number",
     match row_source_row_number r with
     | Some n => Py.VInt n | None => Py.VNone end) ].

(** What holds of every fact the tabular path returns. *)
Definition tabular_fact_ok (ISO : list string) (aid key : string)
    (kind : option string) (stage : LifecycleStage) (t : TransactionFact)
    : Prop :=
  lifecycle_stage t = stage
  /\ Decimal.is_nan (amount t) = false
  /\ Decimal.is_infinite (amount t) = false
  /\ In (currency t) ISO
  /\ DateTime.tzinfo (timestamp_utc t) = DateTime.utc
  /\ transaction_id t <> "" /\ merchant_id t <> "" /\ card_network t <> ""
  /\ (0 <= confidence_score t <= 1)%Q
  /\ ref_artifact_id (raw_source_ref t) = aid
  /\ object_key (raw_source_ref t) = key
  /\ (source_type (raw_source_ref t) = "csv_row"
      \/ source_type (raw_source_ref t) = "xlsx_row")
  /\ (source_type (raw_source_ref t) = "csv_row" <-> kind = Some "csv").

(** The transaction id of the fact is the text of a cell of the row. *)
Definition id_from_row (r : Row) (t : TransactionFact) : Prop :=
  exists f cell,
    In (f, cell) (values r)
    /\ transaction_id t = Py.strip (Py.str cell)
    /\ source_row_number (raw_source_ref t) = row_source_row_number r.

(** A row is accounted for: by an error that points to it, or by a fact
    with the row's transaction id. *)
Definition row_accounted (sheet : option string) (r : Row)
    (res : NormalizationResult) : Prop :=
  (exists e, In e (errors res) /\ row_ref e = tabular_row_ref sheet r)
  \/ (exists t f cell,
        In t (transactions res) /\ In (f, cell) (values r)
        /\ transaction_id t = Py.strip (Py.str cell)).

(** What holds of every fact the PDF path returns. *)
Definition pdf_fact_ok (ISO : list string) (aid net key : string)
    (t : TransactionFact) : Prop :=
  lifecycle_stage t = AUTH
  /\ Decimal.is_nan (amount t) = false
  /\ Decimal.is_infinite (amount t) = false
  /\ In (currency t) ISO
  /\ DateTime.tzinfo (timestamp_utc t) = DateTime.utc
  /\ transaction_id t <> ""
  /\ merchant_id t = "UNKNOWN"
  /\ card_network t = (if Py.is_empty net then "UNKNOWN" else net)
  /\ (0 <= confidence_score t <= 1)%Q
  /\ ref_artifact_id (raw_source_ref t) = aid
  /\ object_key (raw_source_ref t) = key
  /\ source_type (raw_source_ref t) = "pdf_element"
  /\ page_number (raw_source_ref t) <> None
  /\ element_id (raw_source_ref t) <> None
  /\ raw_fields_used (raw_source_ref t) = ["layout_elements"].

End FlowVocabularyMore.
(* ================================================================== *)
(** * Further vocabulary: the pipeline                                 *)
(* ================================================================== *)

Section PipelineVocabulary.
Import Schema LlmMapper Flow Pipeline.

(** get_object: the document stored under a key. *)
Fixpoint get (key : string) (objs : Objects) : option Doc :=
  match objs with
  | [] => None
  | (k, d) :: rest => if String.eqb k key then Some d else get key rest
  end.

Definition intermediate_key (artifact_id : string) : string :=
  ("extracted/" ++ artifact_id ++ "/intermediate.json")%string.

Definition layout_key (artifact_id : string) : string :=
  ("extracted/" ++ artifact_id ++ "/layout.json")%string.

Definition tabular_key (artifact_id : string) : string :=
  ("extracted/" ++ artifact_id ++ "/tabular.json")%string.

Definition normalized_key (artifact_id : string) : string :=
  ("normalized/" ++ artifact_id ++ "/transactions.json")%string.

(** The text handed to the language detector. *)
Definition sample_text (intermediate : list IntermediateElement) : string :=
  Py.join (String (ascii_of_nat 10) EmptyString)
          (map ie_text (firstn 200 intermediate)).

(** The parser the PDF branch picks. *)
Definition pdf_parser (scanned digital : string -> option (list IntermediateElement))
    (pdf_kind : option string) : string -> option (list IntermediateElement) :=
  match pdf_kind with
  | Some k => if String.eqb k "SCANNED" then scanned else digital
  | None => digital
  end.

(** The timestamp text of the job is absent, empty or readable. *)
Definition time_readable (fromisoformat : string -> result DateTime.t)
    (ingestion_time_iso : option string) : Prop :=
  match ingestion_time_iso with
  | Some s => Py.is_empty s = true \/ exists t, fromisoformat s = Return t
  | None => True
  end.

(** The kind and the report type the pipeline uses for a tabular format. *)
Definition tabular_route (file_format kind report_type : string) : Prop :=
  file_format = "CSV" /\ kind = "csv" /\ report_type = "csv_report"
  \/ file_format = "XLSX" /\ kind = "xlsx" /\ report_type = "xlsx_report".

Definition unexpected_settings : exn :=
  TypeError
    "normalize_pdf_elements() got an unexpected keyword argument 'settings'".

(** Sample services: every one succeeds. *)
Definition sample_elements : list IntermediateElement :=
  [ mkIntermediateElement 1 "paragraph" "Total 12.00 USD" ].

End PipelineVocabulary.

Section PipelineSamples.
Import Schema LlmMapper Flow Pipeline.

(** Sample services, every one of which succeeds, and a sample job. *)
Definition sample_run (file_format : string) : Objects * outcome Outputs :=
  run_pipeline ["USD"] (fun _ => None)
    (fun _ _ => Raise (ExternalError "connection refused"))
    (DateTime.of_civil 2025 1 1 0 0 0 0 DateTime.utc)
    (fun _ _ => PrimFloat.zero) settings_07
    (fun s => Raise (ValueError ("Invalid isoformat string: " ++ s)))
    (fun _ => Some "bytes") (fun _ => false)
    (fun _ => Some sample_elements) (fun _ => Some sample_elements)
    (fun _ => Some "en") (fun _ => Some [])
    (fun _ => Some []) (fun _ => Some [])
    settings_07 [] "a1" "bank-1" "r1" None "visa" file_format
    (Some "DIGITAL") "raw/a1".

End PipelineSamples.
(* ================================================================== *)
(** * Further vocabulary: column headers                               *)
(* ================================================================== *)

Section HeadersVocabulary.
Import Headers.

(** A character of a normalized name: [a-z0-9_]. *)
Definition name_char (c : ascii) : bool := is_alnum c || is_underscore c.

Fixpoint all_chars (p : ascii -> bool) (s : string) : bool :=
  match s with
  | EmptyString => true
  | String c s' => p c && all_chars p s'
  end.

(** No two underscores side by side. *)
Fixpoint no_double_underscore (s : string) : bool :=
  match s with
  | String c ((String d _) as s') =>
      negb (is_underscore c && is_underscore d) && no_double_underscore s'
  | _ => true
  end.

(** snake_case: characters of [a-z0-9_], no underscore at either end, no
    two underscores side by side. *)
Definition is_snake (s : string) : bool :=
  all_chars name_char s
  && negb (Py.startswith_char underscore s)
  && negb (Py.endswith_char underscore s)
  && no_double_underscore s.


(** The name given to the [n]-th header (n >= 2) that stands for [b]. *)
Definition numbered (b : string) (n : Z) : string :=
  (b ++ "_" ++ Py.str_of_int n)%string.

(** How often [b] occurs in [l]. *)
Fixpoint occurrences (b : string) (l : list string) : Z :=
  match l with
  | [] => 0
  | x :: rest =>
      ((if String.eqb x b then 1 else 0) + occurrences b rest)%Z
  end.

(** The name of the [n]-th header that stands for [b]. *)
Definition name_of (b : string) (n : Z) : string :=
  if (n =? 1)%Z then b else numbered b n.

(** The names of the headers that stand for [bs], after headers that stood
    for [prev]. *)
Fixpoint names (prev bs : list string) : list string :=
  match bs with
  | [] => []
  | b :: rest => name_of b (occurrences b prev + 1) :: names (b :: prev) rest
  end.


End HeadersVocabulary.
(* ================================================================== *)
(** * Further vocabulary: daily volumes                                *)
(* ================================================================== *)

Section TimeseriesVocabulary.
Import Schema Timeseries.

Definition signaling (d : Decimal.t) : bool :=
  match d with Decimal.NaN _ true _ => true | _ => false end.

(** The rows inserted by a list of statements. *)
Definition volume_rows (stmts : list Statement) : list VolumeRow :=
  flat_map (fun s => match s with InsertVolume r => [r] | _ => [] end) stmts.

Definition total_count (rows : list VolumeRow) : Z :=
  fold_right (fun r acc => (vr_tx_count r + acc)%Z) 0%Z rows.

(** The transaction belongs to the day and the stage. *)
Definition in_bucket (day : Z) (stage : string) (t : TransactionFact) : bool :=
  (date (timestamp_utc t) =? day)%Z
  && String.eqb (stage_value (lifecycle_stage t)) stage.

(** The count recorded for a key, 0 when there is none. *)
Fixpoint count_at (key : BucketKey) (buckets : Buckets) : Z :=
  match buckets with
  | [] => 0
  | (k, b) :: rest =>
      if bucket_key_eqb k key then tx_count b else count_at key rest
  end.

Definition key_of (net : string) (t : TransactionFact) : BucketKey :=
  (date (timestamp_utc t), net, stage_value (lifecycle_stage t)).

Definition sum_counts (bs : Buckets) : Z :=
  fold_right (fun kb acc => (tx_count (snd kb) + acc)%Z) 0%Z bs.

(** What the loop keeps true of the buckets, given the transactions seen
    so far. *)
Definition buckets_inv (net : string) (bs : Buckets)
    (seen : list TransactionFact) : Prop :=
  NoDup (map fst bs)
  /\ Forall (fun kb => snd (fst (fst kb)) = net) bs
  /\ Forall (fun kb => (1 <= tx_count (snd kb))%Z) bs
  /\ sum_counts bs = Z.of_nat (List.length seen)
  /\ (forall k,
        count_at k bs
        = Z.of_nat (List.length
                      (filter (fun t => bucket_key_eqb (key_of net t) k) seen))).

Definition row_of (bank_id : string) (kb : BucketKey * BucketValues)
    : VolumeRow :=
  mkVolumeRow bank_id (midnight_utc (fst (fst (fst kb)))) (snd (fst (fst kb)))
    (snd (fst kb)) (tx_count (snd kb)) (amount_sum (snd kb)).

End TimeseriesVocabulary.

(* ================================================================== *)
(** * Facts about strings                                              *)
(* ================================================================== *)

Section PyFacts.
Import Py.










Lemma rstrip_cons a s :
  rstrip (String a s)
  = match rstrip s with
    | EmptyString => if is_space a then EmptyString else String a EmptyString
    | r => String a r
    end.
Proof. reflexivity. Qed.



Lemma lstrip_rstrip s : lstrip (rstrip s) = rstrip (lstrip s).
Proof.
  induction s as [|a s IH]; simpl; [reflexivity|].
  destruct (is_space a) eqn:Ha.
  - destruct (rstrip s) as [|b r] eqn:Hr; simpl.
    + rewrite <- IH. reflexivity.
    + rewrite Ha. exact IH.
  - destruct (rstrip s) as [|b r] eqn:Hr; simpl; now rewrite Ha, ?Hr.
Qed.




Lemma list_ascii_of_string_cons c s :
  list_ascii_of_string (String c s) = c :: list_ascii_of_string s.
Proof. reflexivity. Qed.

End PyFacts.

(* ================================================================== *)
(** * Properties of parse_amount                                       *)
(* ================================================================== *)

Section AmountFacts.
Import Py Schema Validate.
Local Open Scope string_scope.


















End AmountFacts.

(* ================================================================== *)
(** * Properties of parse_timestamp_to_utc                             *)
(* ================================================================== *)

Section TimestampFacts.
Import Schema Validate.

Lemma instant_zero w : DateTime.instant w 0 = w.
Proof. unfold DateTime.instant. lia. Qed.

Lemma astimezone_utc_in_range w off :
  DateTime.in_range (DateTime.instant w off) = true ->
  DateTime.astimezone_utc w off
  = Some (DateTime.mk (DateTime.instant w off) DateTime.utc).
Proof.
  intros H. unfold DateTime.astimezone_utc.
  destruct (off =? 0)%Z eqn:E.
  - apply Z.eqb_eq in E. subst. now rewrite instant_zero.
  - now rewrite H.
Qed.

(** C9 as stated fails at the end of the calendar: a parseable text whose
    UTC instant falls in year 10000 makes astimezone raise OverflowError,
    outside the try block, so no datetime and no validation error is
    returned. *)
Lemma parse_timestamp_overflow :
  DateTime.iso_parse "9999-12-31T23:30:00-01:00"
  = Some (DateTime.of_civil 9999 12 31 23 30 0 0 (Some (-3600)%Z))
  /\ parse_timestamp_to_utc DateTime.iso_parse
       (Some "9999-12-31T23:30:00-01:00") "timestamp_utc" []
     = Raise OverflowError.
Proof. split; vm_compute; reflexivity. Qed.

(** C9, amended.  For every text the parser accepts: a result without
    timezone is returned with the same wall clock, marked UTC; a result
    with an offset is returned as the same instant in UTC, provided that
    instant lies in years 1..9999.  "2025-01-01T00:00:00" gives
    2025-01-01T00:00:00Z and "2025-01-01T00:00:00+02:00" gives
    2024-12-31T22:00:00Z. *)
Theorem parse_timestamp_to_utc_spec :
  forall dtparse : string -> option DateTime.t,
    (forall v f r dt,
       Py.is_empty (Py.strip v) = false ->
       dtparse (Py.strip v) = Some dt ->
       (DateTime.tzinfo dt = None ->
        parse_timestamp_to_utc dtparse (Some v) f r
        = Return (Some (DateTime.mk (DateTime.wall dt) DateTime.utc), []))
       /\ (forall off,
             DateTime.tzinfo dt = Some off ->
             DateTime.in_range (DateTime.instant (DateTime.wall dt) off) = true ->
             parse_timestamp_to_utc dtparse (Some v) f r
             = Return (Some (DateTime.mk
                               (DateTime.instant (DateTime.wall dt) off)
                               DateTime.utc), [])))
    /\ (dtparse "2025-01-01T00:00:00"
        = Some (DateTime.of_civil 2025 1 1 0 0 0 0 None) ->
        forall f r,
          parse_timestamp_to_utc dtparse (Some "2025-01-01T00:00:00") f r
          = Return (Some (DateTime.of_civil 2025 1 1 0 0 0 0 DateTime.utc), []))
    /\ (dtparse "2025-01-01T00:00:00+02:00"
        = Some (DateTime.of_civil 2025 1 1 0 0 0 0 (Some 7200%Z)) ->
        forall f r,
          parse_timestamp_to_utc dtparse (Some "2025-01-01T00:00:00+02:00") f r
          = Return (Some (DateTime.of_civil 2024 12 31 22 0 0 0 DateTime.utc), [])).
Proof.
  intros dtparse.
  assert (G : forall v f r dt,
       Py.is_empty (Py.strip v) = false ->
       dtparse (Py.strip v) = Some dt ->
       (DateTime.tzinfo dt = None ->
        parse_timestamp_to_utc dtparse (Some v) f r
        = Return (Some (DateTime.mk (DateTime.wall dt) DateTime.utc), []))
       /\ (forall off,
             DateTime.tzinfo dt = Some off ->
             DateTime.in_range (DateTime.instant (DateTime.wall dt) off) = true ->
             parse_timestamp_to_utc dtparse (Some v) f r
             = Return (Some (DateTime.mk
                               (DateTime.instant (DateTime.wall dt) off)
                               DateTime.utc), []))).
  { intros v f r dt Hne Hp. unfold parse_timestamp_to_utc.
    rewrite Hne, Hp. split.
    - intros ->. reflexivity.
    - intros off -> Hr. now rewrite astimezone_utc_in_range. }
  split; [exact G|]. split.
  - intros Hp f r.
    destruct (G "2025-01-01T00:00:00" f r _ eq_refl Hp) as [H _].
    exact (H eq_refl).
  - intros Hp f r.
    destruct (G "2025-01-01T00:00:00+02:00" f r _ eq_refl Hp) as [_ H].
    exact (H 7200%Z eq_refl eq_refl).
Qed.

Lemma parse_timestamp_to_utc_spec_witness :
  parse_timestamp_to_utc DateTime.iso_parse
    (Some "2025-01-01T00:00:00+02:00") "timestamp_utc" []
  = Return (Some (DateTime.of_civil 2024 12 31 22 0 0 0 DateTime.utc), []).
Proof.
  exact (proj2 (proj2 (parse_timestamp_to_utc_spec DateTime.iso_parse))
           eq_refl "timestamp_utc" []).
Defined.

(** The field view of the two results. *)
Example utc_fields :
  DateTime.civil (DateTime.of_civil 2024 12 31 22 0 0 0 DateTime.utc)
  = (2024, 12, 31, 22, 0, 0, 0)%Z
  /\ DateTime.civil (DateTime.of_civil 2025 1 1 0 0 0 0 DateTime.utc)
     = (2025, 1, 1, 0, 0, 0, 0)%Z.
Proof. split; vm_compute; reflexivity. Qed.

End TimestampFacts.

(* ================================================================== *)
(** * Properties of dedupe_transactions                                *)
(* ================================================================== *)

Section DedupeFacts.
Import Schema Validate.

(** ** Order on strings *)

Lemma str_compare_refl s : String.compare s s = Eq.
Proof. now apply String_as_OT.cmp_eq. Qed.

Lemma str_ltb_irrefl s : String.ltb s s = false.
Proof. unfold String.ltb. now rewrite str_compare_refl. Qed.

Lemma str_compare_lt_trans a b c :
  String.compare a b = Lt -> String.compare b c = Lt -> String.compare a c = Lt.
Proof.
  intros H1 H2. apply String_as_OT.cmp_lt in H1, H2.
  apply String_as_OT.cmp_lt. eapply String_as_OT.lt_trans; eauto.
Qed.

Lemma str_ltb_trans a b c :
  String.ltb a b = true -> String.ltb b c = true -> String.ltb a c = true.
Proof.
  unfold String.ltb. intros H1 H2.
  destruct (String.compare a b) eqn:E1; try discriminate.
  destruct (String.compare b c) eqn:E2; try discriminate.
  now rewrite (str_compare_lt_trans _ _ _ E1 E2).
Qed.

Lemma str_ltb_asym a b : String.ltb a b = true -> String.ltb b a = false.
Proof.
  unfold String.ltb. rewrite (String.compare_antisym b a).
  destruct (String.compare a b); simpl; congruence.
Qed.

Lemma str_not_lt_both a b :
  String.ltb a b = false -> String.ltb b a = false -> a = b.
Proof.
  unfold String.ltb. rewrite (String.compare_antisym b a).
  destruct (String.compare a b) eqn:E; simpl; try discriminate.
  intros _ _. now apply String.compare_eq_iff.
Qed.

(** [>=] on strings is transitive. *)
Lemma str_not_lt_trans a b c :
  String.ltb a b = false -> String.ltb b c = false -> String.ltb a c = false.
Proof.
  intros H1 H2. destruct (String.ltb a c) eqn:E; [|reflexivity].
  destruct (String.ltb c b) eqn:E3.
  - pose proof (str_ltb_trans _ _ _ E E3). congruence.
  - rewrite (str_not_lt_both _ _ H2 E3) in H1. congruence.
Qed.

(** ** The choice between a record and the current best *)

Lemma conf_gt_iff a b : conf_gt a b = true <-> (b < a)%Q.
Proof.
  unfold conf_gt. rewrite Qgt_alt.
  destruct (a ?= b)%Q; split; congruence.
Qed.

Lemma conf_eq_iff a b : conf_eq a b = true <-> (a == b)%Q.
Proof.
  unfold conf_eq. rewrite Qeq_alt.
  destruct (a ?= b)%Q; split; congruence.
Qed.

Lemma beats_refl t : beats t t.
Proof. split; [apply Qle_refl|]. intros _. apply str_ltb_irrefl. Qed.

Lemma beats_trans r s t : beats r s -> beats s t -> beats r t.
Proof.
  intros [H1 T1] [H2 T2]. split; [eapply Qle_trans; eauto|].
  intros E.
  assert (Ets : (confidence_score t == confidence_score s)%Q).
  { apply Qle_antisym; [assumption|]. rewrite E. assumption. }
  assert (Esr : (confidence_score s == confidence_score r)%Q).
  { rewrite <- Ets. assumption. }
  eapply str_not_lt_trans; eauto.
Qed.

Lemma better_cases t cur : better t cur = t \/ better t cur = cur.
Proof.
  unfold better.
  destruct (conf_gt _ _); auto. destruct (conf_eq _ _); auto.
  destruct (String.ltb _ _); auto.
Qed.

Lemma better_beats t cur :
  beats (better t cur) t /\ beats (better t cur) cur.
Proof.
  unfold better.
  destruct (conf_gt (confidence_score t) (confidence_score cur)) eqn:Eg.
  { apply conf_gt_iff in Eg. split; [apply beats_refl|].
    split; [now apply Qlt_le_weak|].
    intros E. rewrite E in Eg. exfalso. eapply Qlt_irrefl; eauto. }
  destruct (conf_eq (confidence_score t) (confidence_score cur)) eqn:Ee.
  { apply conf_eq_iff in Ee.
    destruct (String.ltb (tiebreak t) (tiebreak cur)) eqn:El.
    - split; [apply beats_refl|]. split.
      + rewrite Ee. apply Qle_refl.
      + intros _. now apply str_ltb_asym.
    - split; [|apply beats_refl]. split.
      + rewrite Ee. apply Qle_refl.
      + intros _. exact El. }
  split; [|apply beats_refl].
  assert (Hlt : (confidence_score t < confidence_score cur)%Q).
  { apply Qlt_alt. unfold conf_gt, conf_eq in *.
    destruct (confidence_score t ?= confidence_score cur)%Q; congruence. }
  split; [now apply Qlt_le_weak|].
  intros E. rewrite E in Hlt. exfalso. eapply Qlt_irrefl; eauto.
Qed.

(** ** The dict [best] *)

Lemma key_eqb_eq a b : key_eqb a b = true <-> a = b.
Proof.
  unfold key_eqb. destruct a as [a1 a2], b as [b1 b2]; simpl.
  rewrite andb_true_iff, !String.eqb_eq. split.
  - intros [-> ->]. reflexivity.
  - intros H. inversion H. auto.
Qed.

Lemma key_eqb_refl a : key_eqb a a = true.
Proof. now apply key_eqb_eq. Qed.

Lemma key_eqb_neq a b : key_eqb a b = false <-> a <> b.
Proof.
  rewrite <- key_eqb_eq. destruct (key_eqb a b); split; congruence.
Qed.

Lemma lookup_best_update k t b :
  lookup k (best_update t b)
  = if key_eqb k (dedupe_key t)
    then Some (match lookup (dedupe_key t) b with
               | Some cur => better t cur
               | None => t
               end)
    else lookup k b.
Proof.
  induction b as [|[k' cur] rest IH]; simpl.
  - reflexivity.
  - destruct (key_eqb (dedupe_key t) k') eqn:E1; simpl.
    + apply key_eqb_eq in E1. subst k'.
      destruct (key_eqb k (dedupe_key t)); reflexivity.
    + destruct (key_eqb k k') eqn:E2.
      * apply key_eqb_eq in E2. subst k'.
        destruct (key_eqb k (dedupe_key t)) eqn:E3; [|reflexivity].
        apply key_eqb_eq in E3. subst k. rewrite key_eqb_refl in E1. discriminate.
      * exact IH.
Qed.

Lemma keys_best_update k t b :
  In k (map fst (best_update t b)) <-> In k (map fst b) \/ k = dedupe_key t.
Proof.
  induction b as [|[k' cur] rest IH]; simpl.
  - intuition.
  - destruct (key_eqb (dedupe_key t) k') eqn:E; simpl.
    + apply key_eqb_eq in E. subst k'. intuition.
    + rewrite IH. tauto.
Qed.

Lemma nodup_best_update t b :
  NoDup (map fst b) -> NoDup (map fst (best_update t b)).
Proof.
  induction b as [|[k' cur] rest IH]; simpl; intros Hnd.
  - repeat constructor. simpl. tauto.
  - inversion Hnd as [|? ? Hnin Hrest]; subst.
    destruct (key_eqb (dedupe_key t) k') eqn:E; simpl.
    + constructor; assumption.
    + constructor; [|auto]. rewrite keys_best_update.
      intros [H|H]; [contradiction|]. subst k'.
      rewrite key_eqb_refl in E. discriminate.
Qed.

Lemma lookup_in k v b : lookup k b = Some v -> In (k, v) b.
Proof.
  induction b as [|[k' cur] rest IH]; simpl; [discriminate|].
  destruct (key_eqb k k') eqn:E.
  - apply key_eqb_eq in E. intros H; inversion H; subst. now left.
  - intros H. right. auto.
Qed.

Lemma in_lookup k v b : NoDup (map fst b) -> In (k, v) b -> lookup k b = Some v.
Proof.
  induction b as [|[k' cur] rest IH]; simpl; intros Hnd Hin; [contradiction|].
  inversion Hnd as [|? ? Hnin Hrest]; subst.
  destruct Hin as [H|H].
  - inversion H; subst. now rewrite key_eqb_refl.
  - destruct (key_eqb k k') eqn:E; [|auto].
    apply key_eqb_eq in E. subst k'. exfalso. apply Hnin.
    change k with (fst (k, v)). now apply in_map.
Qed.

Lemma best_inv_nil : best_inv [] [].
Proof. split; [constructor|]. intros k t []. Qed.

Lemma best_inv_step p b t :
  best_inv p b -> best_inv (p ++ [t]) (best_update t b).
Proof.
  intros [Hnd Hinv]. split; [now apply nodup_best_update|].
  intros k. rewrite lookup_best_update.
  destruct (key_eqb k (dedupe_key t)) eqn:E.
  - apply key_eqb_eq in E. subst k. specialize (Hinv (dedupe_key t)).
    destruct (lookup (dedupe_key t) b) as [cur|].
    + destruct Hinv as [Hk [Hin Hbest]].
      destruct (better_beats t cur) as [Bt Bc].
      split; [destruct (better_cases t cur) as [-> | ->]; auto|]. split.
      * apply in_or_app. destruct (better_cases t cur) as [-> | ->];
          [right; now left|now left].
      * intros x Hx Hkx. apply in_app_or in Hx. destruct Hx as [Hx|[<-|[]]].
        -- eapply beats_trans; [exact Bc|]. apply Hbest; [assumption|].
           rewrite Hk. rewrite Hkx.
           destruct (better_cases t cur) as [-> | ->]; auto.
        -- exact Bt.
    + split; [reflexivity|]. split; [apply in_or_app; right; now left|].
      intros x Hx Hkx. apply in_app_or in Hx. destruct Hx as [Hx|[<-|[]]].
      * exfalso. exact (Hinv x Hx Hkx).
      * apply beats_refl.
  - apply key_eqb_neq in E. specialize (Hinv k).
    destruct (lookup k b) as [v|].
    + destruct Hinv as [Hk [Hin Hbest]]. split; [assumption|]. split.
      * apply in_or_app. now left.
      * intros x Hx Hkx. apply in_app_or in Hx. destruct Hx as [Hx|[<-|[]]].
        -- now apply Hbest.
        -- exfalso. apply E. congruence.
    + intros x Hx. apply in_app_or in Hx. destruct Hx as [Hx|[<-|[]]].
      * now apply Hinv.
      * congruence.
Qed.

Lemma best_inv_fold l : forall p b,
  best_inv p b ->
  best_inv (p ++ l) (fold_left (fun b t => best_update t b) l b).
Proof.
  induction l as [|t l IH]; intros p b H; simpl.
  - now rewrite app_nil_r.
  - replace (p ++ t :: l) with ((p ++ [t]) ++ l)
      by (rewrite <- app_assoc; reflexivity).
    apply IH. now apply best_inv_step.
Qed.

Lemma best_after_inv l : best_inv l (best_after l).
Proof. exact (best_inv_fold l [] [] best_inv_nil). Qed.

(** ** The final sort *)

Lemma insert_sorted_perm x l : Permutation (insert_sorted x l) (x :: l).
Proof.
  induction l as [|y l IH]; simpl; [reflexivity|].
  destruct (sort_le x y); [reflexivity|].
  rewrite IH. apply perm_swap.
Qed.

Lemma py_sort_perm l : Permutation (py_sort l) l.
Proof.
  induction l as [|x l IH]; simpl; [reflexivity|].
  rewrite insert_sorted_perm. now constructor.
Qed.

Lemma sort_le_total a b : sort_le a b = false -> sort_le b a = true.
Proof.
  unfold sort_le, conf_gt.
  rewrite (String.compare_antisym (transaction_id b) (transaction_id a)).
  rewrite (String.compare_antisym (stage_str (lifecycle_stage b))
                                  (stage_str (lifecycle_stage a))).
  rewrite <- (Qcompare_antisym (confidence_score a) (confidence_score b)).
  destruct (String.compare (transaction_id a) (transaction_id b));
    cbn [CompOpp]; try congruence.
  destruct (String.compare (stage_str (lifecycle_stage a))
                           (stage_str (lifecycle_stage b)));
    cbn [CompOpp]; try congruence.
  destruct (confidence_score a ?= confidence_score b)%Q;
    cbn [CompOpp negb]; congruence.
Qed.

Lemma insert_sorted_hd x a l :
  sorted_le a x -> HdRel sorted_le a l -> HdRel sorted_le a (insert_sorted x l).
Proof.
  intros Hax Hal. destruct l as [|y l]; simpl.
  - now constructor.
  - destruct (sort_le x y); constructor; [assumption|].
    now inversion Hal.
Qed.

Lemma insert_sorted_sorted x l :
  Sorted sorted_le l -> Sorted sorted_le (insert_sorted x l).
Proof.
  induction l as [|y l IH]; simpl; intros Hs.
  - repeat constructor.
  - inversion Hs as [|? ? Hl Hhd]; subst.
    destruct (sort_le x y) eqn:E.
    + constructor; [assumption|]. now constructor.
    + constructor; [auto|]. apply insert_sorted_hd; [|assumption].
      now apply sort_le_total.
Qed.

Lemma py_sort_sorted l : Sorted sorted_le (py_sort l).
Proof.
  induction l as [|x l IH]; simpl; [constructor|].
  now apply insert_sorted_sorted.
Qed.

Lemma stage_str_inj a b :
  String.compare (stage_str a) (stage_str b) = Eq -> a = b.
Proof. destruct a, b; simpl; intros H; try reflexivity; discriminate H. Qed.

Lemma sort_le_key_lt a b :
  sorted_le a b -> dedupe_key a <> dedupe_key b -> sorted_lt a b.
Proof.
  unfold sorted_le, sorted_lt, sort_le, key_lt, dedupe_key, String.ltb.
  destruct (String.compare (transaction_id a) (transaction_id b)) eqn:E1;
    try congruence.
  apply String.compare_eq_iff in E1.
  destruct (String.compare (stage_str (lifecycle_stage a))
                           (stage_str (lifecycle_stage b))) eqn:E2;
    try congruence.
  apply stage_str_inj in E2. intros _ H. exfalso. apply H. congruence.
Qed.

Lemma key_lt_sort_le a b : sorted_lt a b -> sorted_le a b.
Proof.
  unfold sorted_le, sorted_lt, sort_le, key_lt, String.ltb.
  destruct (String.compare (transaction_id a) (transaction_id b));
    try congruence.
  destruct (String.compare (stage_str (lifecycle_stage a))
                           (stage_str (lifecycle_stage b))); congruence.
Qed.

Lemma key_lt_irrefl a : ~ sorted_lt a a.
Proof.
  unfold sorted_lt, key_lt. rewrite str_compare_refl, str_ltb_irrefl.
  discriminate.
Qed.

Lemma key_lt_trans a b c : sorted_lt a b -> sorted_lt b c -> sorted_lt a c.
Proof.
  unfold sorted_lt, key_lt.
  destruct (String.compare (transaction_id a) (transaction_id b)) eqn:E1;
    try discriminate;
  destruct (String.compare (transaction_id b) (transaction_id c)) eqn:E2;
    try discriminate.
  - apply String.compare_eq_iff in E1, E2. rewrite E1, E2, str_compare_refl.
    apply str_ltb_trans.
  - apply String.compare_eq_iff in E1. rewrite E1, E2. reflexivity.
  - apply String.compare_eq_iff in E2. rewrite <- E2, E1. reflexivity.
  - now rewrite (str_compare_lt_trans _ _ _ E1 E2).
Qed.

Lemma sorted_le_lt l :
  Sorted sorted_le l -> NoDup (map dedupe_key l) -> Sorted sorted_lt l.
Proof.
  induction 1 as [|a l Hs IH Hhd]; intros Hnd; [constructor|].
  simpl in Hnd. inversion Hnd as [|? ? Hnin Hrest]; subst.
  constructor; [auto|].
  destruct Hhd as [|b l Hab]; constructor.
  apply sort_le_key_lt; [assumption|].
  intros E. apply Hnin. rewrite E. now left.
Qed.

Lemma strongly_sorted_lt l :
  Sorted sorted_lt l -> StronglySorted sorted_lt l.
Proof. apply Sorted_StronglySorted. exact key_lt_trans. Qed.

Lemma strongly_sorted_weaken l :
  StronglySorted sorted_lt l -> StronglySorted sorted_le l.
Proof.
  induction 1 as [|a l Hs IH Hall]; constructor; [assumption|].
  eapply Forall_impl; [|exact Hall]. intros b. apply key_lt_sort_le.
Qed.

(** Two strictly sorted lists with the same elements are equal. *)
Lemma strongly_sorted_unique l1 : forall l2,
  StronglySorted sorted_lt l1 -> StronglySorted sorted_lt l2 ->
  (forall x, In x l1 <-> In x l2) -> l1 = l2.
Proof.
  induction l1 as [|a l1 IH]; intros l2 H1 H2 Hin.
  - destruct l2 as [|b l2]; [reflexivity|].
    exfalso. apply (Hin b). now left.
  - destruct l2 as [|b l2]; [exfalso; apply (Hin a); now left|].
    apply StronglySorted_inv in H1, H2.
    destruct H1 as [Hs1 Ha], H2 as [Hs2 Hb].
    rewrite Forall_forall in Ha, Hb.
    assert (a = b) as ->.
    { destruct (proj1 (Hin a) (or_introl eq_refl)) as [E|Hab]; [congruence|].
      destruct (proj2 (Hin b) (or_introl eq_refl)) as [E|Hba]; [congruence|].
      exfalso. apply (key_lt_irrefl a).
      eapply key_lt_trans; [apply Ha; exact Hba|apply Hb; exact Hab]. }
    f_equal. apply IH; try assumption.
    intros x. split; intros Hx.
    + destruct (proj1 (Hin x) (or_intror Hx)) as [E|H]; [|assumption].
      subst x. exfalso. exact (key_lt_irrefl b (Ha b Hx)).
    + destruct (proj2 (Hin x) (or_intror Hx)) as [E|H]; [|assumption].
      subst x. exfalso. exact (key_lt_irrefl b (Hb b Hx)).
Qed.

(** ** The result of dedupe_transactions *)

Lemma best_values_keys l :
  map dedupe_key (map snd (best_after l)) = map fst (best_after l).
Proof.
  destruct (best_after_inv l) as [Hnd Hinv].
  rewrite map_map. apply map_ext_in. intros [k v] Hin. simpl.
  specialize (Hinv k). rewrite (in_lookup k v _ Hnd Hin) in Hinv. tauto.
Qed.

Lemma in_dedupe_iff l r :
  In r (dedupe_transactions l) <-> exists k, lookup k (best_after l) = Some r.
Proof.
  unfold dedupe_transactions. fold (best_after l).
  destruct (best_after_inv l) as [Hnd _]. split.
  - intros H. apply (Permutation_in _ (py_sort_perm _)) in H.
    apply in_map_iff in H. destruct H as [[k v] [Hv Hin]]. simpl in Hv. subst v.
    exists k. now apply in_lookup.
  - intros [k Hk]. apply (Permutation_in _ (Permutation_sym (py_sort_perm _))).
    apply in_map_iff. exists (k, r). split; [reflexivity|]. now apply lookup_in.
Qed.

Lemma dedupe_best_in l r : In r (dedupe_transactions l) -> best_in l r.
Proof.
  rewrite in_dedupe_iff. intros [k Hk].
  destruct (best_after_inv l) as [_ Hinv]. specialize (Hinv k).
  rewrite Hk in Hinv. tauto.
Qed.

Lemma dedupe_covers l t :
  In t l -> exists r, In r (dedupe_transactions l) /\ dedupe_key r = dedupe_key t.
Proof.
  intros Hin. destruct (best_after_inv l) as [_ Hinv].
  specialize (Hinv (dedupe_key t)).
  destruct (lookup (dedupe_key t) (best_after l)) as [v|] eqn:E.
  - exists v. split; [|tauto]. apply in_dedupe_iff. eauto.
  - exfalso. exact (Hinv t Hin eq_refl).
Qed.

Lemma dedupe_nodup_keys l : NoDup (map dedupe_key (dedupe_transactions l)).
Proof.
  unfold dedupe_transactions. fold (best_after l).
  eapply Permutation_NoDup.
  - apply Permutation_map. apply Permutation_sym. apply py_sort_perm.
  - rewrite best_values_keys. apply best_after_inv.
Qed.

Lemma dedupe_strongly_sorted l :
  StronglySorted sorted_lt (dedupe_transactions l).
Proof.
  apply strongly_sorted_lt. apply sorted_le_lt; [|apply dedupe_nodup_keys].
  unfold dedupe_transactions. apply py_sort_sorted.
Qed.

Lemma best_in_unique l r r' :
  distinct_ties l -> best_in l r -> best_in l r' ->
  dedupe_key r = dedupe_key r' -> r = r'.
Proof.
  intros Hd [Hin Hb] [Hin' Hb'] Hk.
  destruct (Hb r' Hin' (eq_sym Hk)) as [L1 T1].
  destruct (Hb' r Hin Hk) as [L2 T2].
  assert (E : (confidence_score r == confidence_score r')%Q)
    by (apply Qle_antisym; assumption).
  apply Hd; try assumption.
  apply str_not_lt_both; [apply T2; exact E|].
  apply T1. symmetry. exact E.
Qed.

Lemma best_in_perm l l' r : Permutation l l' -> best_in l r -> best_in l' r.
Proof.
  intros Hp [Hin Hb]. split.
  - eapply Permutation_in; eauto.
  - intros t Ht. apply Hb. eapply Permutation_in; [symmetry|]; eauto.
Qed.

Lemma distinct_ties_perm l l' :
  Permutation l l' -> distinct_ties l -> distinct_ties l'.
Proof.
  intros Hp Hd t1 t2 H1 H2. apply Hd;
    (eapply Permutation_in; [symmetry; exact Hp|assumption]).
Qed.

Lemma dedupe_in_perm l l' r :
  Permutation l l' -> distinct_ties l ->
  In r (dedupe_transactions l) -> In r (dedupe_transactions l').
Proof.
  intros Hp Hd Hr. pose proof (dedupe_best_in l r Hr) as Hb.
  assert (Hin' : In r l') by (eapply Permutation_in; [exact Hp|apply Hb]).
  destruct (dedupe_covers l' r Hin') as [r' [Hr' Hk]].
  pose proof (dedupe_best_in l' r' Hr') as Hb'.
  assert (r' = r) as <-; [|assumption].
  apply (best_in_unique l'); try assumption.
  - eapply distinct_ties_perm; eauto.
  - eapply best_in_perm; eauto.
Qed.

Lemma dedupe_perm l l' :
  Permutation l l' -> distinct_ties l ->
  dedupe_transactions l' = dedupe_transactions l.
Proof.
  intros Hp Hd. apply strongly_sorted_unique; try apply dedupe_strongly_sorted.
  intros x. split.
  - apply dedupe_in_perm; [now symmetry|]. eapply distinct_ties_perm; eauto.
  - now apply dedupe_in_perm.
Qed.

(** C4 as stated fails on full ties: row pointer 0 and a missing row
    pointer give the same tie-break string, so of two such records with one
    key and one confidence the first in input order is kept, and the two
    orders of the same input give different results. *)
Lemma dedupe_order_dependent :
  Permutation [tx "T1" 100 AUTH (Some 0%Z) (9 # 10); tx "T1" 250 AUTH None (9 # 10)]
              [tx "T1" 250 AUTH None (9 # 10); tx "T1" 100 AUTH (Some 0%Z) (9 # 10)]
  /\ dedupe_transactions
       [tx "T1" 100 AUTH (Some 0%Z) (9 # 10); tx "T1" 250 AUTH None (9 # 10)]
     = [tx "T1" 100 AUTH (Some 0%Z) (9 # 10)]
  /\ dedupe_transactions
       [tx "T1" 250 AUTH None (9 # 10); tx "T1" 100 AUTH (Some 0%Z) (9 # 10)]
     = [tx "T1" 250 AUTH None (9 # 10)]
  /\ dedupe_transactions
       [tx "T1" 100 AUTH (Some 0%Z) (9 # 10); tx "T1" 250 AUTH None (9 # 10)]
     <> dedupe_transactions
       [tx "T1" 250 AUTH None (9 # 10); tx "T1" 100 AUTH (Some 0%Z) (9 # 10)].
Proof.
  split; [apply perm_swap|].
  split; [vm_compute; reflexivity|].
  split; [vm_compute; reflexivity|].
  vm_compute. discriminate.
Qed.

(** C4, amended.  dedupe_transactions returns one record per
    (transaction_id, lifecycle_stage) key of the input; each returned record
    is an input record of highest confidence_score for its key and, among
    those of that confidence, of least tie-break string; the result is
    sorted ascending by (transaction_id, lifecycle_stage, confidence_score);
    and it is the same for every permutation of the input whenever input
    records with one key, one confidence and one tie-break string are the
    same record. *)
Theorem dedupe_transactions_spec :
  forall l : list TransactionFact,
    NoDup (map dedupe_key (dedupe_transactions l))
    /\ (forall t, In t l ->
          exists r, In r (dedupe_transactions l)
                    /\ dedupe_key r = dedupe_key t)
    /\ (forall r, In r (dedupe_transactions l) -> best_in l r)
    /\ StronglySorted sorted_le (dedupe_transactions l)
    /\ (forall l', Permutation l l' -> distinct_ties l ->
          dedupe_transactions l' = dedupe_transactions l).
Proof.
  intros l.
  split; [apply dedupe_nodup_keys|].
  split; [apply dedupe_covers|].
  split; [apply dedupe_best_in|].
  split; [apply strongly_sorted_weaken, dedupe_strongly_sorted|].
  intros l'. apply dedupe_perm.
Qed.

Lemma sample_batch_distinct_ties : distinct_ties sample_batch.
Proof.
  intros t1 t2 H1 H2 _ _ Ht.
  simpl in H1, H2.
  repeat match goal with
         | H : _ \/ _ |- _ => destruct H as [H|H]
         | H : False |- _ => destruct H
         end;
    subst; try reflexivity; vm_compute in Ht; discriminate Ht.
Defined.

Lemma dedupe_transactions_spec_witness :
  dedupe_transactions (rev sample_batch) = dedupe_transactions sample_batch.
Proof.
  apply (proj2 (proj2 (proj2 (proj2 (dedupe_transactions_spec sample_batch))))).
  - apply Permutation_rev.
  - exact sample_batch_distinct_ties.
Defined.

Example dedupe_sample :
  dedupe_transactions sample_batch
  = [ tx "T1" 100 AUTH (Some 2%Z) (9 # 10);
      tx "T1" 100 SETTLEMENT (Some 5%Z) (7 # 10);
      tx "T2" 500 AUTH (Some 4%Z) (8 # 10) ].
Proof. vm_compute. reflexivity. Qed.

End DedupeFacts.

(* ================================================================== *)
(** * Properties of the tabular path                                   *)
(* ================================================================== *)

Section TabularFacts.
Import Schema Validate LlmMapper Flow.

Lemma Qltb_lt a b : (a < b)%Q -> Qltb a b = true.
Proof.
  intros H. unfold Qltb. destruct (Qle_bool b a) eqn:E; [|reflexivity].
  apply Qle_bool_iff in E. exfalso. eapply Qlt_not_le; eauto.
Qed.

Lemma keep_mapping_iff thr m :
  keep_mapping thr m = true <-> (thr <= md_confidence_score m)%Q.
Proof. unfold keep_mapping. apply Qle_bool_iff. Qed.

(** What infer_mapping_via_llm returns when the oracle answers. *)
Lemma infer_mapping_answer chat_json settings aid ctx cols req resp :
  is_set (llm_base_url settings) = true ->
  is_set (llm_api_key settings) = true ->
  chat_json settings (payload_of aid ctx cols req) = Return resp ->
  infer_mapping_via_llm chat_json settings aid ctx cols req
  = if Qltb (li_confidence_score (lifecycle resp))
            (mapping_confidence_threshold settings)
    then Raise (MappingRejected "lifecycle_inference_below_threshold")
    else Return (mkLlmMappingResponse (lifecycle resp)
                   (filter (keep_mapping (mapping_confidence_threshold settings))
                           (mappings resp))).
Proof.
  intros Hu Hk Hc. unfold infer_mapping_via_llm.
  rewrite Hu, Hk, Hc. reflexivity.
Qed.

Lemma dict_set_keys k v d x :
  In x (map fst (dict_set k v d)) -> x = k \/ In x (map fst d).
Proof.
  induction d as [|[k' v'] rest IH]; simpl.
  - intros [H|[]]. now left.
  - destruct (String.eqb k k') eqn:E; simpl.
    + tauto.
    + intros [H|H]; [tauto|]. destruct (IH H); tauto.
Qed.

Lemma raw_to_canon_fields ms : forall d x,
  In x (map fst (fold_left (fun d m => dict_set (raw_field m) (canonical_field m) d)
                           ms d)) ->
  In x (map fst d) \/ In x (map raw_field ms).
Proof.
  induction ms as [|m ms IH]; intros d x H; simpl in *.
  - now left.
  - destruct (IH _ _ H) as [H1|H1]; [|tauto].
    destruct (dict_set_keys _ _ _ _ H1); subst; tauto.
Qed.

Lemma raw_to_canon_of_fields ms x :
  In x (map fst (raw_to_canon_of ms)) -> In x (map raw_field ms).
Proof.
  intros H. destruct (raw_to_canon_fields ms [] x H) as [[]|H1]. exact H1.
Qed.

Lemma get_by_canon_field d vals canon f v :
  get_by_canon d vals canon = (Some f, v) -> In f (map fst d).
Proof.
  unfold get_by_canon.
  destruct (find _ d) as [rc|] eqn:E; [|discriminate].
  intros H. inversion H; subst. apply in_map. eapply find_some; eauto.
Qed.

Lemma used_fields found f :
  In f (used found) -> In (Some f) found.
Proof.
  unfold used. rewrite in_flat_map. intros [[g|] [Hin H]]; simpl in H.
  - destruct H as [->|[]]. exact Hin.
  - contradiction.
Qed.

Lemma normalize_row_fields ISO dtparse now aid key kd lc ms d sheet r t :
  normalize_row ISO dtparse now aid key kd lc ms d sheet r = Return (RowFact t) ->
  forall f, In f (raw_fields_used (raw_source_ref t)) -> In f (map fst d).
Proof.
  unfold normalize_row.
  destruct (get_by_canon d (values r) "transaction_id") as [f1 v1] eqn:E1.
  destruct (get_by_canon d (values r) "amount") as [f2 v2] eqn:E2.
  destruct (get_by_canon d (values r) "currency") as [f3 v3] eqn:E3.
  destruct (get_by_canon d (values r) "timestamp_utc") as [f4 v4] eqn:E4.
  destruct (get_by_canon d (values r) "merchant_id") as [f5 v5] eqn:E5.
  destruct (get_by_canon d (values r) "card_network") as [f6 v6] eqn:E6.
  destruct (parse_amount _ _ _) as [pa ea].
  destruct (validate_currency _ _ _ _) as [pc ec].
  destruct (parse_timestamp_to_utc _ _ _ _) as [[pt et]|e]; [|discriminate].
  destruct (negb _); [discriminate|].
  destruct (blank v1); [discriminate|].
  destruct (blank v5); [discriminate|].
  destruct (blank v6); [discriminate|].
  intros H. inversion H; subst; clear H.
  cbn [raw_fields_used raw_source_ref]. intros f Hf.
  change (In f (used [f1; f2; f3; f4; f5; f6])) in Hf.
  apply used_fields in Hf. simpl in Hf.
  repeat destruct Hf as [Hf|Hf]; try contradiction; subst;
    eapply get_by_canon_field; eauto.
Qed.

Lemma normalize_rows_within allowed step rs : forall acc acc',
  (forall r t, step r = Return (RowFact t) ->
     forall f, In f (raw_fields_used (raw_source_ref t)) -> In f allowed) ->
  fields_within allowed acc ->
  normalize_rows step rs acc = Return acc' ->
  fields_within allowed acc'.
Proof.
  induction rs as [|r rs IH]; intros acc acc' Hstep Hacc; simpl.
  - intros H; inversion H; subst. exact Hacc.
  - destruct (step r) as [[t|es]|e] eqn:E; [| |discriminate].
    + apply IH; [assumption|]. intros t' f Ht Hf. simpl in Ht.
      apply in_app_or in Ht. destruct Ht as [Ht|[<-|[]]].
      * eapply Hacc; eauto.
      * eapply Hstep; eauto.
    + apply IH; assumption.
Qed.

Lemma normalize_tables_within allowed step ts : forall acc acc',
  (forall sheet r t, step sheet r = Return (RowFact t) ->
     forall f, In f (raw_fields_used (raw_source_ref t)) -> In f allowed) ->
  fields_within allowed acc ->
  normalize_tables step ts acc = Return acc' ->
  fields_within allowed acc'.
Proof.
  induction ts as [|t ts IH]; intros acc acc' Hstep Hacc; simpl.
  - intros H; inversion H; subst. exact Hacc.
  - destruct (normalize_rows (step (t_sheet_name t)) (rows t) acc)
      as [acc1|e] eqn:E; [|discriminate].
    apply IH; [assumption|].
    eapply normalize_rows_within; [|exact Hacc|exact E].
    intros r t'. apply Hstep.
Qed.

Lemma add_original_header_confidence items m :
  md_confidence_score (add_original_header items m) = md_confidence_score m.
Proof.
  unfold add_original_header. destruct (norm_to_orig_get items (raw_field m));
    [|reflexivity].
  destruct (negb _ && negb _); reflexivity.
Qed.

(** C5. When the mapping oracle is consulted (the input has a table and
    the LLM endpoint is configured) and its lifecycle classification has a
    confidence below the threshold, normalize_tabular returns no
    TransactionFact, a ReportFact with record_count 0, no mapping and the
    single validation error "mapping_rejected".  Otherwise, whatever it
    returns, every mapping it reports has a confidence of at least the
    threshold, and every raw field a returned fact was extracted from is
    the raw field of an oracle mapping with such a confidence: the
    mappings below the threshold are not used. *)
Theorem normalize_tabular_gating :
  forall ISO dtparse chat_json now settings bank aid rid rtype itime net key
         tj first rest resp,
    tables tj = first :: rest ->
    is_set (llm_base_url settings) = true ->
    is_set (llm_api_key settings) = true ->
    chat_json settings (tabular_payload aid first) = Return resp ->
    ((li_confidence_score (lifecycle resp)
      < mapping_confidence_threshold settings)%Q ->
     normalize_tabular ISO dtparse chat_json now settings bank aid rid rtype
                       itime net key tj
     = Return (mkNormalizationResult aid
                 (_report_fact rid rtype itime net 0) [] None
                 [mkValidationErrorItem "mapping_rejected"
                    "lifecycle_inference_below_threshold" None None []]))
    /\ (forall res,
          normalize_tabular ISO dtparse chat_json now settings bank aid rid
                            rtype itime net key tj = Return res ->
          (forall mp m, mapping res = Some mp -> In m (mappings mp) ->
             (mapping_confidence_threshold settings <= md_confidence_score m)%Q)
          /\ (forall t f,
                In t (transactions res) ->
                In f (raw_fields_used (raw_source_ref t)) ->
                exists m, In m (mappings resp) /\ raw_field m = f
                  /\ (mapping_confidence_threshold settings
                      <= md_confidence_score m)%Q)).
Proof.
  intros ISO dtparse chat_json now settings bank aid rid rtype itime net key
         tj first rest resp Ht Hu Hk Hc.
  unfold tabular_payload in Hc.
  pose proof (infer_mapping_answer chat_json settings aid _ _ _ resp Hu Hk Hc)
    as Hinf.
  split.
  - intros Hlow. unfold normalize_tabular. rewrite Ht, Hinf.
    now rewrite (Qltb_lt _ _ Hlow).
  - intros res. unfold normalize_tabular. rewrite Ht, Hinf.
    destruct (Qltb _ _).
    + intros H; inversion H; subst; simpl. split.
      * intros mp m Hm. discriminate Hm.
      * intros t f [].
    + set (kept := filter (keep_mapping (mapping_confidence_threshold settings))
                          (mappings resp)).
      cbn [Schema.lifecycle mappings].
      destruct (normalize_tables _ _ _) as [[txs errs]|e] eqn:E; [|discriminate].
      intros H; inversion H; subst; clear H. cbn [mapping transactions]. split.
      * intros mp m Hm Hin. inversion Hm; subst; clear Hm. simpl in Hin.
        apply in_map_iff in Hin. destruct Hin as [m0 [<- Hin0]].
        rewrite add_original_header_confidence.
        apply filter_In in Hin0. now apply keep_mapping_iff.
      * intros t f Hin Hf.
        assert (Hw : fields_within (map raw_field kept) (txs, errs)).
        { eapply normalize_tables_within; [| |exact E].
          - intros sheet r t0 Hrow f0 Hf0. apply raw_to_canon_of_fields.
            eapply normalize_row_fields; eauto.
          - intros t0 f0 []. }
        apply dedupe_best_in in Hin. destruct Hin as [Hin _].
        specialize (Hw t f Hin Hf). apply in_map_iff in Hw.
        destruct Hw as [m [Hm Hmk]]. apply filter_In in Hmk.
        exists m. split; [tauto|]. split; [assumption|].
        now apply keep_mapping_iff.
Qed.

Lemma normalize_tabular_gating_witness :
  normalize_tabular [] DateTime.iso_parse (fun _ _ => Return low_trust_response)
    (DateTime.of_civil 2025 1 1 0 0 0 0 DateTime.utc) settings_07
    "bank" "a1" "r1" "csv_report"
    (DateTime.of_civil 2025 1 1 0 0 0 0 DateTime.utc) "UNKNOWN" "raw/abc.csv"
    one_table
  = Return (mkNormalizationResult "a1"
              (_report_fact "r1" "csv_report"
                 (DateTime.of_civil 2025 1 1 0 0 0 0 DateTime.utc) "UNKNOWN" 0)
              [] None
              [mkValidationErrorItem "mapping_rejected"
                 "lifecycle_inference_below_threshold" None None []]).
Proof.
  refine (proj1 (normalize_tabular_gating [] DateTime.iso_parse
                   (fun _ _ => Return low_trust_response) _ settings_07
                   "bank" "a1" "r1" "csv_report" _ "UNKNOWN" "raw/abc.csv"
                   one_table _ [] low_trust_response
                   eq_refl eq_refl eq_refl eq_refl) _).
  reflexivity.
Defined.

End TabularFacts.

(* ================================================================== *)
(** * Properties of the PDF path                                       *)
(* ================================================================== *)

Section PdfFacts.
Import Schema Validate LlmMapper Flow.

Variable ISO : list string.
Variable dtparse : string -> option DateTime.t.
Variable now : DateTime.t.
Variable row_quotient : list LayoutTaggedElement -> LayoutTaggedElement -> float.

Lemma parse_amount_codes v f r : Forall other_code (snd (parse_amount v f r)).
Proof.
  unfold parse_amount.
  destruct v as [v|]; [|repeat constructor; discriminate].
  destruct (Py.is_empty _); [repeat constructor; discriminate|].
  destruct (Decimal.of_string _) as [d|]; [|repeat constructor; discriminate].
  destruct (_ || _); repeat constructor; discriminate.
Qed.

Lemma validate_currency_codes v f r :
  Forall other_code (snd (validate_currency ISO v f r)).
Proof.
  unfold validate_currency.
  destruct v as [v|]; [|repeat constructor; discriminate].
  destruct (Py.is_empty _); [repeat constructor; discriminate|].
  destruct (existsb _ _); repeat constructor; discriminate.
Qed.

Lemma parse_timestamp_codes v f r :
  match parse_timestamp_to_utc dtparse v f r with
  | Return (_, es) => Forall other_code es
  | Raise e => e = OverflowError
  end.
Proof.
  unfold parse_timestamp_to_utc.
  destruct v as [v|]; [|repeat constructor; discriminate].
  destruct (Py.is_empty _); [repeat constructor; discriminate|].
  destruct (dtparse _) as [dt|]; [|repeat constructor; discriminate].
  destruct (DateTime.astimezone_utc _ _); [constructor|reflexivity].
Qed.

Lemma normalize_pdf_row_ok aid net key page row_els :
  row_step_ok (normalize_pdf_row ISO dtparse now aid net key AUTH page row_els).
Proof.
  unfold normalize_pdf_row.
  destruct (negb (is_set _)); [exact I|].
  pose proof (parse_amount_codes (_best_text row_els "amount") "amount"
                [("page_number", Py.VInt page)]) as Ha.
  pose proof (validate_currency_codes (_best_text row_els "currency") "currency"
                [("page_number", Py.VInt page)]) as Hc.
  pose proof (parse_timestamp_codes (_best_text row_els "date") "timestamp_utc"
                [("page_number", Py.VInt page)]) as Ht.
  destruct (parse_amount _ _ _) as [pa ea].
  destruct (validate_currency _ _ _ _) as [pc ec].
  destruct (parse_timestamp_to_utc _ _ _ _) as [[pt et]|e]; [|exact Ht].
  destruct (negb _); simpl; [|reflexivity].
  repeat (apply Forall_app; split); assumption.
Qed.

Lemma normalize_pdf_rows_ok step rows : forall acc,
  (forall els, row_step_ok (step els)) ->
  match normalize_pdf_rows step rows acc with
  | Return acc' =>
      exists txs es, acc' = (fst acc ++ txs, snd acc ++ es) /\ pdf_acc_ok (txs, es)
  | Raise e => e = OverflowError
  end.
Proof.
  induction rows as [|[k els] rows IH]; intros acc Hstep; simpl.
  - exists [], []. rewrite !app_nil_r. split; [now destruct acc|].
    split; intros ? [].
  - specialize (Hstep els) as Hs. unfold row_step_ok in Hs.
    destruct (step els) as [[[t|es]|]|e]; [| | |exact Hs].
    + specialize (IH (fst acc ++ [t], snd acc) Hstep).
      destruct (normalize_pdf_rows step rows _) as [acc'|e]; [|exact IH].
      destruct IH as [txs [es [-> [H1 H2]]]]. simpl.
      exists (t :: txs), es. rewrite <- app_assoc. split; [reflexivity|].
      split; [|exact H2]. intros t' [<-|Ht']; [exact Hs|now apply H1].
    + specialize (IH (fst acc, snd acc ++ es) Hstep).
      destruct (normalize_pdf_rows step rows _) as [acc'|e]; [|exact IH].
      destruct IH as [txs [es' [-> [H1 H2]]]]. simpl.
      exists txs, (es ++ es'). rewrite <- app_assoc. split; [reflexivity|].
      split; [exact H1|]. intros e He. apply in_app_or in He.
      destruct He as [He|He]; [|now apply H2].
      rewrite Forall_forall in Hs. now apply Hs.
    + apply IH. exact Hstep.
Qed.

Lemma int_of_float_raise x e :
  int_of_float x = Raise e ->
  e = OverflowError \/ e = ValueError "cannot convert float NaN to integer".
Proof.
  unfold int_of_float.
  destruct (Prim2SF x); intros H; inversion H; auto.
Qed.

Lemma group_rows_raise {A : Type} (key : A -> result Z) (P : exn -> Prop) l :
  (forall x e, key x = Raise e -> P e) ->
  forall d e, group_rows key l d = Raise e -> P e.
Proof.
  intros Hk. induction l as [|x l IH]; intros d e; cbn [group_rows];
    [discriminate|].
  destruct (key x) as [k|e'] eqn:E.
  - apply IH.
  - intros H. inversion H; subst. exact (Hk x e E).
Qed.

Lemma row_key_raise els l d e :
  group_rows (row_key row_quotient els) l d = Raise e ->
  pdf_raise row_quotient e.
Proof.
  apply group_rows_raise. intros x e' Hx.
  destruct (int_of_float_raise _ _ Hx) as [He|He]; [left; exact He|].
  right. split; [exact He|]. exists els, x. exact Hx.
Qed.

Lemma normalize_pdf_pages_ok step pages : forall acc,
  (forall page els, row_step_ok (step page els)) ->
  match normalize_pdf_pages row_quotient step pages acc with
  | Return acc' =>
      exists txs es, acc' = (fst acc ++ txs, snd acc ++ es) /\ pdf_acc_ok (txs, es)
  | Raise e => pdf_raise row_quotient e
  end.
Proof.
  induction pages as [|[page els] pages IH]; intros acc Hstep; simpl.
  - exists [], []. rewrite !app_nil_r. split; [now destruct acc|].
    split; intros ? [].
  - destruct (filter _ els) as [|e0 kept] eqn:Ef; [now apply IH|].
    destruct (group_rows _ (e0 :: kept) []) as [rows|e] eqn:Eg;
      [|exact (row_key_raise _ _ _ _ Eg)].
    pose proof (normalize_pdf_rows_ok (step page) rows acc (Hstep page)) as Hr.
    destruct (normalize_pdf_rows _ _ _) as [acc1|e]; [|left; exact Hr].
    destruct Hr as [txs1 [es1 [-> [H1 H2]]]].
    specialize (IH (fst acc ++ txs1, snd acc ++ es1) Hstep).
    destruct (normalize_pdf_pages _ _ _ _) as [acc2|e]; [|exact IH].
    destruct IH as [txs2 [es2 [-> [H3 H4]]]]. simpl.
    exists (txs1 ++ txs2), (es1 ++ es2). rewrite <- !app_assoc.
    split; [reflexivity|]. split.
    + intros t Ht. apply in_app_or in Ht. destruct Ht; auto.
    + intros e He. apply in_app_or in He. destruct He; auto.
Qed.

(** The try block never reaches the oracle. *)
Lemma infer_lifecycle_fails chat_json ambient aid ctx :
  infer_lifecycle chat_json ambient aid ctx
  = (None, AUTH, [lifecycle_inference_failed]).
Proof. reflexivity. Qed.

(** C10. In normalize_pdf_elements the name [settings] is bound neither in
    the function nor in the module, so evaluating the call's first argument
    raises NameError before the oracle is reached: the handler records one
    "lifecycle_inference_failed" error and the stage stays AUTH.  Whenever
    the function returns, its errors start with that error and hold it
    once, it reports no mapping, and every TransactionFact has
    lifecycle_stage AUTH; it returns unless a timestamp conversion
    overflows or the [int()] of a row's bucket has no value (an
    OverflowError for an infinity, and for NaN a ValueError, which has no
    other origin); and its outcome is the same for every oracle and every
    settings object. *)
Theorem normalize_pdf_elements_lifecycle :
  forall chat_json ambient bank aid rid rtype itime net key inter layout,
    (forall ctx,
       infer_lifecycle chat_json ambient aid ctx
       = (None, AUTH, [lifecycle_inference_failed]))
    /\ match normalize_pdf_elements ISO dtparse chat_json now row_quotient ambient
               bank aid rid rtype itime net key inter layout with
       | Return res =>
           mapping res = None
           /\ (exists rest,
                 errors res = lifecycle_inference_failed :: rest
                 /\ forall e, In e rest -> code e <> "lifecycle_inference_failed")
           /\ (forall t, In t (transactions res) -> lifecycle_stage t = AUTH)
       | Raise e =>
           e = OverflowError
           \/ (e = ValueError "cannot convert float NaN to integer"
               /\ exists els el, row_key row_quotient els el = Raise e)
       end
    /\ (forall chat_json' ambient',
          normalize_pdf_elements ISO dtparse chat_json' now row_quotient ambient'
            bank aid rid rtype itime net key inter layout
          = normalize_pdf_elements ISO dtparse chat_json now row_quotient ambient
              bank aid rid rtype itime net key inter layout)
    /\ normalize_pdf_elements ISO dtparse chat_json now row_quotient ambient
         bank aid rid rtype itime net key inter None
       = Return (mkNormalizationResult aid
                   (_report_fact rid rtype itime net 0) [] None
                   [ lifecycle_inference_failed;
                     mkValidationErrorItem "layout_missing"
                       "layout output missing for pdf" None None [] ]).
Proof.
  intros chat_json ambient bank aid rid rtype itime net key inter layout.
  split; [intros ctx; apply infer_lifecycle_fails|].
  split; [|split; [reflexivity|reflexivity]].
  unfold normalize_pdf_elements. rewrite infer_lifecycle_fails.
  destruct layout as [elements|].
  - pose proof (normalize_pdf_pages_ok
                  (normalize_pdf_row ISO dtparse now aid net key AUTH)
                  (group_by lt_page_number elements)
                  ([], [lifecycle_inference_failed])
                  (normalize_pdf_row_ok aid net key)) as H.
    destruct (normalize_pdf_pages _ _ _ _) as [[txs errs]|e]; [|exact H].
    destruct H as [txs' [es' [Heq [H1 H2]]]]. simpl in Heq.
    inversion Heq; subst; clear Heq. cbn [mapping errors transactions].
    split; [reflexivity|]. split.
    + exists es'. split; [reflexivity|exact H2].
    + intros t Ht. apply dedupe_best_in in Ht. destruct Ht as [Ht _].
      now apply H1.
  - cbn [mapping errors transactions]. split; [reflexivity|]. split.
    + eexists. split; [reflexivity|].
      intros e [<-|[]]. discriminate.
    + intros t [].
Qed.

End PdfFacts.

Section PdfExample.
Import Schema Validate LlmMapper Flow.

(** One pseudo-row of a PDF page; the oracle would have said SETTLEMENT
    with full confidence, and the fact is still AUTH.  Its confidence is
    the mean 0.75 of the four predictions, as the fraction the exact sum
    leaves. *)
Example pdf_row_is_auth :
  normalize_pdf_elements ["USD"] DateTime.iso_parse
    (fun _ _ => Return (mkLlmMappingResponse
                          (mkLifecycleInference SETTLEMENT 1 "sure") []))
    (DateTime.of_civil 2025 1 1 0 0 0 0 DateTime.utc)
    (fun _ _ => 8%float) settings_07
    "bank" "a1" "r1" "pdf_report"
    (DateTime.of_civil 2025 1 1 0 0 0 0 DateTime.utc) "VISA" "raw/abc.pdf"
    [mkIntermediateElement 1 "text" "Settlement report"]
    (Some [ el "e1" "T42" "transaction_id" (9 # 10);
            el "e2" "(45.00)" "amount" (8 # 10);
            el "e3" "usd" "currency" (7 # 10);
            el "e4" "2025-01-01T00:00:00+02:00" "date" (6 # 10) ])
  = Return (mkNormalizationResult "a1"
      (_report_fact "r1" "pdf_report"
         (DateTime.of_civil 2025 1 1 0 0 0 0 DateTime.utc) "VISA" 1)
      [ mkTransactionFact "T42" (Decimal.Finite true 4500 (-2)) "USD"
          (DateTime.of_civil 2024 12 31 22 0 0 0 DateTime.utc) AUTH
          "UNKNOWN" "VISA"
          (mkRawSourceRef "a1" "raw/abc.pdf" "pdf_element" (Some 1%Z)
                          (Some "e1") None None ["layout_elements"])
          (30000 # 40000) [] ]
      None [lifecycle_inference_failed]).
Proof. vm_compute. reflexivity. Qed.

End PdfExample.

(* ================================================================== *)
(** * Properties of analyze_lifecycle                                  *)
(* ================================================================== *)

Section ReasoningFacts.
Import Reasoning.












Lemma by_stage_some stages st s :
  by_stage stages st = Some s -> In s stages /\ stage s = st.
Proof.
  unfold by_stage. intros Hf. destruct (find_some _ _ Hf) as [Hin E].
  apply String.eqb_eq in E. split; [now apply in_rev|assumption].
Qed.


End ReasoningFacts.

(* ================================================================== *)
(** * Properties of the lifecycle write                                *)
(* ================================================================== *)

Section GraphFacts.
Import Neo4jWriter.

Variable fromisoformat : string -> option DateTime.t.

Lemma insert_by_time_perm x l : Permutation (insert_by_time x l) (x :: l).
Proof.
  induction l as [|y l IH]; simpl; [reflexivity|].
  destruct (time_key (fst y) <? time_key (fst x))%Z; [|reflexivity].
  rewrite IH. apply perm_swap.
Qed.

Lemma sort_by_time_perm l : Permutation (sort_by_time l) l.
Proof.
  induction l as [|x l IH]; simpl; [reflexivity|].
  rewrite insert_by_time_perm. now constructor.
Qed.

Lemma insert_by_time_sorted x l :
  StronglySorted keyed_le l -> StronglySorted keyed_le (insert_by_time x l).
Proof.
  induction l as [|y l IH]; simpl; intros Hs.
  - repeat constructor.
  - apply StronglySorted_inv in Hs. destruct Hs as [Hl Hy].
    destruct (time_key (fst y) <? time_key (fst x))%Z eqn:E.
    + apply Z.ltb_lt in E. constructor; [auto|].
      eapply Permutation_Forall; [symmetry; apply insert_by_time_perm|].
      constructor; [unfold keyed_le; lia|assumption].
    + apply Z.ltb_ge in E. constructor; [now constructor|].
      constructor; [exact E|].
      eapply Forall_impl; [|exact Hy]. unfold keyed_le. intros z Hz. lia.
Qed.

Lemma sort_by_time_sorted l : StronglySorted keyed_le (sort_by_time l).
Proof.
  induction l as [|x l IH]; simpl; [constructor|].
  now apply insert_by_time_sorted.
Qed.

Lemma with_keys_spec stages keyed :
  with_keys fromisoformat stages = Some keyed ->
  map snd keyed = stages
  /\ Forall (fun x => parse_time fromisoformat (event_time (snd x)) = Some (fst x))
            keyed.
Proof.
  revert keyed. induction stages as [|s rest IH]; simpl; intros keyed H.
  - inversion H; subst. split; [reflexivity|constructor].
  - destruct (parse_time fromisoformat (event_time s)) as [t|] eqn:Et;
      [|discriminate].
    destruct (with_keys fromisoformat rest) as [l|]; [|discriminate].
    inversion H; subst. destruct (IH l eq_refl) as [H1 H2].
    split; [simpl; congruence|]. constructor; assumption.
Qed.

Lemma dt_lt_same_kind a b :
  is_aware a = is_aware b ->
  dt_lt a b = Some (time_key a <? time_key b)%Z.
Proof.
  unfold is_aware, dt_lt, time_key.
  destruct (DateTime.tzinfo a), (DateTime.tzinfo b); intros H;
    try discriminate; reflexivity.
Qed.

Lemma same_kind_one_kind l : same_kind l = true -> one_kind l.
Proof.
  unfold same_kind. rewrite orb_true_iff, !forallb_forall.
  intros [H|H] x y Hx Hy.
  - now rewrite (H x Hx), (H y Hy).
  - apply H in Hx, Hy. destruct (is_aware (fst x)), (is_aware (fst y));
      try reflexivity; discriminate.
Qed.

Lemma short_one_kind l : (List.length l < 2)%nat -> one_kind l.
Proof.
  destruct l as [|a [|b l]]; simpl; intros Hl x y Hx Hy; try lia.
  - destruct Hx.
  - destruct Hx as [<-|[]], Hy as [<-|[]]. reflexivity.
Qed.

(** On keys of one kind in ascending order the check of the loop never
    fires. *)
Lemma write_edges_sorted pk l : forall last,
  StronglySorted keyed_le l ->
  match last with
  | Some t0 =>
      Forall (fun x => (time_key t0 <= time_key (fst x))%Z
                       /\ is_aware (fst x) = is_aware t0) l
  | None => one_kind l
  end ->
  write_edges pk l last = Return (map (fun x => edge_write pk (snd x)) l).
Proof.
  induction l as [|[t s] l IH]; intros last Hs Hl; simpl; [reflexivity|].
  apply StronglySorted_inv in Hs. destruct Hs as [Hs Hhd].
  assert (Hnext : Forall (fun x => (time_key t <= time_key (fst x))%Z
                                   /\ is_aware (fst x) = is_aware t) l).
  { rewrite Forall_forall in *. intros x Hx. split; [now apply Hhd|].
    destruct last as [t0|].
    - rewrite Forall_forall in Hl.
      destruct (Hl x (or_intror Hx)) as [_ H1].
      destruct (Hl (t, s) (or_introl eq_refl)) as [_ H2]. simpl in H2. congruence.
    - apply (Hl x (t, s)); [now right|now left]. }
  assert (Hv : match last with
               | Some t0 => dt_lt t t0
               | None => Some false
               end = Some false).
  { destruct last as [t0|]; [|reflexivity].
    apply Forall_inv in Hl. simpl in Hl. destruct Hl as [Hle Hk].
    rewrite (dt_lt_same_kind _ _ Hk). f_equal. apply Z.ltb_ge. exact Hle. }
  rewrite Hv. now rewrite (IH (Some t) Hs Hnext).
Qed.

Lemma stage_writes_edges pk l :
  stage_writes (map (edge_write pk) l) = map (edge_write pk) l.
Proof.
  unfold stage_writes. induction l as [|s l IH]; [reflexivity|].
  cbn [map filter edge_write]. now rewrite IH.
Qed.


(** What the transaction function does once every key is computed and the
    keys are of one kind. *)
Lemma write_lifecycle_returns pk tid mpk bank net stages keyed :
  with_keys fromisoformat stages = Some keyed ->
  one_kind keyed ->
  exists nodes,
    write_edges pk (sort_by_time keyed) None
    = Return (map (edge_write pk) (map snd (sort_by_time keyed)))
    /\ stage_writes (nodes ++ map (edge_write pk) (map snd (sort_by_time keyed)))
       = map (edge_write pk) (map snd (sort_by_time keyed))
    /\ (forall ws,
          write_edges pk (sort_by_time keyed) None = Return ws ->
          (2 <=? List.length keyed)%nat && negb (same_kind keyed) = false ->
          _write_lifecycle fromisoformat pk tid mpk bank net stages
          = Return (nodes ++ ws)).
Proof.
  intros Hk Hone.
  exists (MergeNodes pk tid mpk net
          :: match bank with
             | Some b => if Py.is_empty b then [] else [MergeBank b pk]
             | None => []
             end).
  split; [|split].
  - rewrite map_map. apply write_edges_sorted; [apply sort_by_time_sorted|].
    intros x y Hx Hy. apply Hone;
      eapply Permutation_in; try apply sort_by_time_perm; assumption.
  - unfold stage_writes. rewrite filter_app.
    replace (filter _ (MergeNodes pk tid mpk net :: _)) with (@nil Write)
      by (destruct bank as [b|]; [destruct (Py.is_empty b)|]; reflexivity).
    apply stage_writes_edges.
  - intros ws Hw Hg. unfold _write_lifecycle. now rewrite Hk, Hg, Hw.
Qed.

Lemma guard_one_kind keyed :
  (2 <=? List.length keyed)%nat && negb (same_kind keyed) = false ->
  one_kind keyed.
Proof.
  rewrite andb_false_iff, negb_false_iff. intros [H|H].
  - apply short_one_kind. now apply Nat.leb_gt.
  - now apply same_kind_one_kind.
Qed.

End GraphFacts.

Section GraphOrdering.
Import Neo4jWriter.




End GraphOrdering.
(* ================================================================== *)
(** * Properties of the job orchestrator                               *)
(* ================================================================== *)

Section TasksFacts.
Import Tasks.



Lemma set_status_artifact_id s e n aid j :
  pj_artifact_id (set_status s e n aid j) = pj_artifact_id j.
Proof. unfold set_status. destruct (String.eqb _ _); reflexivity. Qed.

Lemma update_status_ids db aid s e n :
  map pj_artifact_id (parse_jobs (update_status db aid s e n))
  = map pj_artifact_id (parse_jobs db).
Proof.
  unfold update_status, with_parse_jobs; simpl.
  rewrite map_map. apply map_ext. intro j. apply set_status_artifact_id.
Qed.

Lemma update_status_unique db aid s e n :
  unique_jobs db -> unique_jobs (update_status db aid s e n).
Proof. unfold unique_jobs. now rewrite update_status_ids. Qed.

(** Every row an UPDATE touches is written with the new status. *)
Lemma status_writes_new db aid s ev :
  In ev (status_writes db aid s) ->
  exists old, ev = EvStatusWrite aid old s /\
    exists j, In j (parse_jobs db) /\ pj_artifact_id j = aid /\ status j = old.
Proof.
  unfold status_writes. rewrite in_flat_map. intros [j [Hj Hev]].
  destruct (String.eqb (pj_artifact_id j) aid) eqn:E; simpl in Hev; [|tauto].
  destruct Hev as [<-|[]]. apply String.eqb_eq in E.
  exists (status j). split; [reflexivity|]. exists j. auto.
Qed.

(** After an UPDATE every row of the artifact carries the status written. *)
Lemma update_status_reads db aid s e n j :
  In j (parse_jobs (update_status db aid s e n)) ->
  pj_artifact_id j = aid -> status j = s.
Proof.
  unfold update_status, with_parse_jobs; simpl. rewrite in_map_iff.
  intros [j0 [<- _]]. unfold set_status.
  destruct (String.eqb (pj_artifact_id j0) aid) eqn:E; simpl; [reflexivity|].
  intros H. apply String.eqb_neq in E. contradiction.
Qed.

Lemma find_job_unique db aid j j' :
  unique_jobs db ->
  find (fun x => String.eqb (pj_artifact_id x) aid) (parse_jobs db) = Some j ->
  In j' (parse_jobs db) -> pj_artifact_id j' = aid -> j' = j.
Proof.
  unfold unique_jobs. induction (parse_jobs db) as [|x l IH]; simpl; [discriminate|].
  intros Hnd Hf Hin Hid. inversion Hnd as [|? ? Hx Hl]; subst.
  destruct (String.eqb (pj_artifact_id x) (pj_artifact_id j')) eqn:E.
  - inversion Hf; subst. destruct Hin as [->|Hin]; [reflexivity|].
    apply String.eqb_eq in E. exfalso. apply Hx. rewrite E. now apply in_map.
  - destruct Hin as [->|Hin].
    + rewrite String.eqb_refl in E. discriminate.
    + now apply IH.
Qed.

Lemma select_job_status db aid row :
  select_job_for_update db aid = Some row ->
  exists j, find (fun x => String.eqb (pj_artifact_id x) aid) (parse_jobs db) = Some j
            /\ status j = row_status row.
Proof.
  unfold select_job_for_update.
  destruct (find _ (parse_jobs db)) as [j|]; [|discriminate].
  destruct (find _ (artifacts db)) as [a|]; [|discriminate].
  intros H; inversion H; subst; simpl. eauto.
Qed.

Lemma status_of_update db aid s e n row :
  select_job_for_update db aid = Some row ->
  status_of (update_status db aid s e n) aid = Some s.
Proof.
  intros H. destruct (select_job_status _ _ _ H) as [j [Hf _]].
  unfold status_of, update_status, with_parse_jobs; simpl.
  clear H. induction (parse_jobs db) as [|x l IH]; simpl in *; [discriminate|].
  rewrite set_status_artifact_id.
  destruct (String.eqb (pj_artifact_id x) aid) eqn:E; simpl.
  - unfold set_status. rewrite E. reflexivity.
  - now apply IH.
Qed.






Lemma same_keys_refl db : same_keys db db.
Proof. split; reflexivity. Qed.

Lemma same_keys_trans a b c : same_keys a b -> same_keys b c -> same_keys a c.
Proof. intros [H1 H2] [H3 H4]. split; congruence. Qed.

Lemma same_keys_update db aid s e n : same_keys db (update_status db aid s e n).
Proof. split; [apply update_status_ids|reflexivity]. Qed.

Lemma same_keys_unique a b : same_keys a b -> unique_jobs a -> unique_jobs b.
Proof. intros [H _]. unfold unique_jobs. now rewrite H. Qed.

Lemma same_keys_fk a b :
  same_keys a b -> jobs_have_artifacts a -> jobs_have_artifacts b.
Proof. intros [H1 H2]. unfold jobs_have_artifacts. now rewrite H1, H2. Qed.

Lemma same_keys_all_started a b aid :
  parse_jobs b = parse_jobs a -> all_started a aid -> all_started b aid.
Proof. unfold all_started. intros ->. auto. Qed.

Create HintDb tasks.
#[local] Hint Resolve same_keys_refl same_keys_update : tasks.

Ltac trace_ok := repeat (constructor; [exact I|]); try constructor.

Lemma writes_from_started strict db aid s :
  sm_edge STARTED s = true -> all_started db aid ->
  Forall (write_ok strict) (status_writes db aid s).
Proof.
  intros He Hst. apply Forall_forall. intros ev H.
  destruct (status_writes_new _ _ _ _ H) as [old [-> [j [Hin [Hid Hold]]]]].
  simpl. left. rewrite <- Hold, (Hst j Hin Hid). exact He.
Qed.

Lemma writes_failed_lax db aid : Forall (write_ok false) (status_writes db aid FAILED).
Proof.
  apply Forall_forall. intros ev H.
  destruct (status_writes_new _ _ _ _ H) as [old [-> _]]. simpl. auto.
Qed.

Lemma writes_none db aid s P :
  (forall j, In j (parse_jobs db) -> pj_artifact_id j <> aid) ->
  Forall P (status_writes db aid s).
Proof.
  intros Hn. apply Forall_forall. intros ev H.
  destruct (status_writes_new _ _ _ _ H) as [old [_ [j [Hin [Hid _]]]]].
  exfalso. exact (Hn j Hin Hid).
Qed.

(** The handler's write is on the machine when it follows a committed
    claim, and touches no row when the artifact has no job. *)
Lemma on_exception_ok strict w db aid m :
  (strict = true ->
     all_started db aid
     \/ (forall j, In j (parse_jobs db) -> pj_artifact_id j <> aid)) ->
  Forall (write_ok strict) (snd (on_exception w db aid m))
  /\ same_keys db (snd (fst (on_exception w db aid m))).
Proof.
  intros Hs. unfold on_exception. destruct (mark_failed_fault w); simpl.
  - split; [constructor|auto with tasks].
  - split; [|auto with tasks].
    apply Forall_app; split; [|trace_ok].
    destruct strict.
    + destruct (Hs eq_refl) as [H|H].
      * now apply writes_from_started.
      * now apply writes_none.
    + apply writes_failed_lax.
Qed.

Lemma select_none_no_job db aid :
  jobs_have_artifacts db -> select_job_for_update db aid = None ->
  forall j, In j (parse_jobs db) -> pj_artifact_id j <> aid.
Proof.
  unfold select_job_for_update. intros Hfk Hsel j Hin Hid.
  destruct (find _ (parse_jobs db)) as [j0|] eqn:Hf.
  - destruct (find _ (artifacts db)) as [a|] eqn:Ha; [discriminate|].
    assert (In aid (map artifact_id (artifacts db))) as Hi.
    { apply Hfk. rewrite <- Hid. now apply in_map. }
    apply in_map_iff in Hi. destruct Hi as [a [Hida Hina]].
    apply (find_none _ _ Ha) in Hina. rewrite Hida, String.eqb_refl in Hina.
    discriminate.
  - apply (find_none _ _ Hf) in Hin. rewrite Hid, String.eqb_refl in Hin.
    discriminate.
Qed.

Lemma claim_job_ok strict w db aid :
  unique_jobs db ->
  (strict = true -> claim_statements_complete w /\ jobs_have_artifacts db) ->
  Forall (write_ok strict) (snd (claim_job w db aid))
  /\ claim_post strict db aid (fst (fst (claim_job w db aid)))
                              (snd (fst (claim_job w db aid))).
Proof.
  intros Hu Hs. unfold claim_job.
  destruct (select_fault w) eqn:Hsf; simpl.
  { split; [trace_ok|]. constructor. intros E.
    destruct (Hs E) as [[H _] _]. congruence. }
  destruct (select_job_for_update db aid) as [row|] eqn:Hsel; simpl.
  2:{ split; [trace_ok|]. constructor. intros E.
      destruct (Hs E) as [_ Hfk]. now apply select_none_no_job. }
  destruct (select_job_status _ _ _ Hsel) as [j0 [Hfind Hst]].
  assert (Hw : sm_edge (row_status row) STARTED = true ->
               Forall (write_ok strict) (status_writes db aid STARTED)).
  { intros He. apply Forall_forall. intros ev H.
    destruct (status_writes_new _ _ _ _ H) as [old [-> [j [Hin [Hid Hold]]]]].
    rewrite (find_job_unique _ _ _ _ Hu Hfind Hin Hid) in Hold.
    simpl. left. rewrite <- Hold, Hst. exact He. }
  destruct (row_status row) eqn:Hr; simpl;
    try (split; [trace_ok|constructor]).
  all: destruct (claim_update_fault w) eqn:Hcf; simpl.
  all: try (split; [trace_ok|]; constructor; intros E;
            destruct (Hs E) as [[_ H] _]; congruence).
  all: split;
    [ constructor; [exact I|constructor; [exact I|]];
      apply Forall_app; split; [now apply Hw|trace_ok]
    | constructor; [auto with tasks|];
      intros j Hin Hid;
      exact (update_status_reads db aid STARTED None (now w) j Hin Hid) ].
Qed.

Lemma pipeline_body_ok strict w db aid bank row :
  all_started db aid ->
  Forall (write_ok strict) (snd (pipeline_body w db aid bank row))
  /\ same_keys db (snd (fst (pipeline_body w db aid bank row)))
  /\ (forall m, fst (fst (pipeline_body w db aid bank row)) = inl m ->
      snd (fst (pipeline_body w db aid bank row)) = db).
Proof.
  intros Hst. unfold pipeline_body.
  assert (Hs : Forall (write_ok strict) (status_writes db aid SUCCESS))
    by now apply writes_from_started.
  destruct (run_pipeline w db row _) as [m|[|]]; simpl;
    try (split; [trace_ok|split; [auto with tasks|reflexivity]]).
  destruct (persist_report_fault w); simpl;
    try (split; [trace_ok|split; [auto with tasks|reflexivity]]).
  destruct (persist_timeseries_fault w); simpl;
    try (split; [trace_ok|split; [auto with tasks|reflexivity]]).
  destruct (neo4j_configured w), (persist_graph_fault w); simpl;
    try (split; [trace_ok|split; [auto with tasks|reflexivity]]).
  all: destruct (pinecone_configured w), (persist_embeddings_fault w); simpl;
    try (split; [trace_ok|split; [auto with tasks|reflexivity]]).
  all: destruct (mark_success_fault w); simpl;
    try (split; [trace_ok|split; [auto with tasks|reflexivity]]).
  all: split; [|split; [auto with tasks|discriminate]].
  all: repeat (constructor; [exact I|]).
  all: apply Forall_app; split; [exact Hs|trace_ok].
Qed.

Lemma run_ok strict w db aid bank :
  unique_jobs db ->
  (strict = true -> claim_statements_complete w /\ jobs_have_artifacts db) ->
  Forall (write_ok strict) (snd (run w db aid bank))
  /\ same_keys db (snd (fst (run w db aid bank))).
Proof.
  intros Hu Hs. unfold run.
  destruct (claim_job_ok strict w db aid Hu Hs) as [Hc Hpost].
  destruct (claim_job w db aid) as [[o db1] t]; cbn [fst snd] in *.
  inversion Hpost as [m|m Hno|row db1' Hk Hst]; subst.
  - auto with tasks.
  - destruct (on_exception_ok strict w db1 aid m) as [He Hi]; [auto|].
    destruct (on_exception w db1 aid m) as [[r db2] t']; cbn [fst snd] in *.
    split; [apply Forall_app; auto|assumption].
  - destruct (pipeline_body_ok strict w db1 aid bank row Hst) as [Hp [Hi Hsame]].
    destruct (pipeline_body w db1 aid bank row) as [[[m|m] db2] t'];
      cbn [fst snd] in *.
    + rewrite (Hsame m eq_refl) in *.
      destruct (on_exception_ok strict w db1 aid m) as [He Hi']; [auto|].
      destruct (on_exception w db1 aid m) as [[r db3] t'']; cbn [fst snd] in *.
      split; [repeat (apply Forall_app; split); auto|].
      eapply same_keys_trans; eauto.
    + split; [apply Forall_app; auto|]. eapply same_keys_trans; eauto.
Qed.

Lemma parse_artifact_ok strict w attempt tid db aid bank :
  unique_jobs db ->
  (strict = true -> claim_statements_complete w /\ jobs_have_artifacts db) ->
  Forall (write_ok strict) (snd (parse_artifact w attempt tid db aid bank))
  /\ same_keys db (snd (fst (parse_artifact w attempt tid db aid bank))).
Proof.
  intros Hu Hs. unfold parse_artifact.
  destruct (run_ok strict w db aid bank Hu Hs) as [Hr Hi].
  destruct (run w db aid bank) as [[[m|m] db1] t]; cbn [fst snd] in *.
  - auto.
  - destruct (max_retries <=? attempt)%nat; cbn [fst snd].
    + split; [apply Forall_app; split; [assumption|trace_ok]|exact Hi].
    + split; [apply Forall_app; split; [assumption|trace_ok]|exact Hi].
Qed.

Lemma deliveries_ok strict ws : forall attempt tid db aid bank,
  unique_jobs db ->
  (strict = true ->
     Forall claim_statements_complete ws /\ jobs_have_artifacts db) ->
  Forall (write_ok strict) (snd (deliveries ws attempt tid db aid bank)).
Proof.
  induction ws as [|w ws IH]; intros attempt tid db aid bank Hu Hs; simpl.
  - constructor.
  - assert (Hw : strict = true ->
                 claim_statements_complete w /\ jobs_have_artifacts db).
    { intros E. destruct (Hs E) as [Hf Hfk]. inversion Hf; auto. }
    destruct (parse_artifact_ok strict w attempt tid db aid bank Hu Hw) as [Hp Hk].
    destruct (parse_artifact w attempt tid db aid bank) as [[r db1] t];
      cbn [fst snd] in *.
    destruct r; cbn [snd]; try assumption.
    assert (Hs' : strict = true ->
                  Forall claim_statements_complete ws /\ jobs_have_artifacts db1).
    { intros E. destruct (Hs E) as [Hf Hfk]. inversion Hf; subst.
      split; [assumption|]. eapply same_keys_fk; eauto. }
    specialize (IH (S attempt) tid db1 aid bank (same_keys_unique _ _ Hk Hu) Hs').
    destruct (deliveries ws (S attempt) tid db1 aid bank) as [db2 t'];
      cbn [snd] in *.
    apply Forall_app; auto.
Qed.

Lemma status_writes_found db aid s j :
  find (fun x => String.eqb (pj_artifact_id x) aid) (parse_jobs db) = Some j ->
  In (EvStatusWrite aid (status j) s) (status_writes db aid s).
Proof.
  intros Hf. unfold status_writes. apply in_flat_map. exists j.
  destruct (find_some _ _ Hf) as [Hin E]. split; [assumption|].
  rewrite E. now left.
Qed.

Lemma pipeline_body_starts w db aid bank row :
  exists rest,
    snd (pipeline_body w db aid bank row)
    = EvSelectUpload aid :: EvRunPipeline db :: rest.
Proof.
  unfold pipeline_body.
  destruct (run_pipeline w db row _) as [m|[|]]; simpl; eauto.
  destruct (persist_report_fault w); simpl; eauto.
  destruct (persist_timeseries_fault w); simpl; eauto.
  destruct (neo4j_configured w), (persist_graph_fault w); simpl; eauto.
  all: destruct (pinecone_configured w), (persist_embeddings_fault w); simpl; eauto.
  all: destruct (mark_success_fault w); simpl; eauto.
Qed.

Lemma run_after_claim w db aid bank row db1 t :
  claim_job w db aid = (ClaimProceed row, db1, t) ->
  exists r db2 rest,
    run w db aid bank
    = (r, db2, t ++ EvSelectUpload aid :: EvRunPipeline db1 :: rest).
Proof.
  intros Hc. unfold run. rewrite Hc.
  destruct (pipeline_body_starts w db1 aid bank row) as [rest Hrest].
  destruct (pipeline_body w db1 aid bank row) as [[[m|m] db2] t'];
    cbn [snd] in Hrest; subst t'.
  - destruct (on_exception w db2 aid m) as [[r db3] t''].
    exists r, db3, (rest ++ t''). now rewrite <- app_comm_cons.
  - eauto.
Qed.

(** C1. The claim step of parse_artifact, when its SQL statements complete
    on the ParseJob row of the artifact: a SUCCESS job makes the task return
    "already_success" and a STARTED job "already_started", in both cases with
    the store unchanged and the pipeline never entered; a QUEUED or FAILED
    job is written STARTED, that write is committed, and run_pipeline is
    entered only afterwards, on a store whose committed status is STARTED. *)
Theorem claim_step_outcomes :
  forall (w : World) (db : Db) (aid bank : string) (row : ClaimRow),
    claim_statements_complete w ->
    select_job_for_update db aid = Some row ->
    let sel := EvSelectForUpdate aid (Some (row_status row)) in
    match row_status row with
    | SUCCESS =>
        run w db aid bank
        = (RunReturn "already_success", db, [EvBegin; sel; EvCommit])
    | STARTED =>
        run w db aid bank
        = (RunReturn "already_started", db, [EvBegin; sel; EvCommit])
    | QUEUED | FAILED =>
        let db1 := update_status db aid STARTED None (now w) in
        let claim := [EvBegin; sel] ++ status_writes db aid STARTED ++ [EvCommit] in
        claim_job w db aid = (ClaimProceed row, db1, claim)
        /\ In (EvStatusWrite aid (row_status row) STARTED)
              (status_writes db aid STARTED)
        /\ status_of db1 aid = Some STARTED
        /\ exists r db2 rest,
             run w db aid bank
             = (r, db2, claim ++ EvSelectUpload aid :: EvRunPipeline db1 :: rest)
    end.
Proof.
  intros w db aid bank row [Hsf Hcf] Hsel sel.
  destruct (select_job_status _ _ _ Hsel) as [j [Hfind Hst]].
  assert (Hclaim : forall st, row_status row = st -> sm_edge st STARTED = true ->
            claim_job w db aid
            = (ClaimProceed row, update_status db aid STARTED None (now w),
               [EvBegin; sel] ++ status_writes db aid STARTED ++ [EvCommit])).
  { intros st Hr He. unfold claim_job. rewrite Hsf, Hsel, Hcf.
    subst sel. rewrite Hr. destruct st; try discriminate; reflexivity. }
  destruct (row_status row) eqn:Hr.
  - cbv beta iota zeta. split; [exact (Hclaim QUEUED eq_refl eq_refl)|]. split.
    { rewrite <- Hst. now apply status_writes_found. }
    split; [eapply status_of_update; eauto|].
    eapply run_after_claim. exact (Hclaim QUEUED eq_refl eq_refl).
  - unfold run, claim_job. rewrite Hsf, Hsel. subst sel. rewrite Hr. reflexivity.
  - unfold run, claim_job. rewrite Hsf, Hsel. subst sel. rewrite Hr. reflexivity.
  - cbv beta iota zeta. split; [exact (Hclaim FAILED eq_refl eq_refl)|]. split.
    { rewrite <- Hst. now apply status_writes_found. }
    split; [eapply status_of_update; eauto|].
    eapply run_after_claim. exact (Hclaim FAILED eq_refl eq_refl).
Qed.

Lemma claim_step_outcomes_witness :
  claim_job w_all_good db_queued "a1"
  = (ClaimProceed (mkClaimRow "j1" QUEUED "CSV" None "raw/abc.csv"),
     update_status db_queued "a1" STARTED None 20,
     [EvBegin; EvSelectForUpdate "a1" (Some QUEUED);
      EvStatusWrite "a1" QUEUED STARTED; EvCommit]).
Proof.
  exact (proj1 (claim_step_outcomes w_all_good db_queued "a1" "bank"
                  (mkClaimRow "j1" QUEUED "CSV" None "raw/abc.csv")
                  (conj eq_refl eq_refl) eq_refl)).
Defined.

(** What does hold over all deliveries of parse_artifact (first run and
    retries, any faults), from any store that satisfies the unique
    constraint on parse_jobs.artifact_id: no status write sets QUEUED, none
    sets STARTED over SUCCESS, and every write is an edge of
    QUEUED -> STARTED -> {SUCCESS|FAILED}, FAILED -> STARTED, or is the
    exception handler recording FAILED over whatever status it finds. *)
Theorem status_updates_follow_machine :
  forall (ws : list World) (attempt : nat) (tid : string) (db : Db)
         (aid bank : string),
    unique_jobs db ->
    forall (a : string) (old new : JobStatus),
      In (EvStatusWrite a old new) (snd (deliveries ws attempt tid db aid bank)) ->
      new <> QUEUED
      /\ ~ (old = SUCCESS /\ new = STARTED)
      /\ (sm_edge old new = true \/ new = FAILED).
Proof.
  intros ws attempt tid db aid bank Hu a old new Hin.
  assert (H : Forall (write_ok false)
                     (snd (deliveries ws attempt tid db aid bank))).
  { apply deliveries_ok; [assumption|discriminate]. }
  assert (Hw : write_ok false (EvStatusWrite a old new)).
  { rewrite Forall_forall in H. now apply H. }
  simpl in Hw.
  assert (Hok : sm_edge old new = true \/ new = FAILED) by tauto.
  split; [|split; [|exact Hok]].
  - destruct Hok as [He| ->]; [|discriminate].
    destruct old, new; simpl in He; discriminate.
  - intros [-> ->]. destruct Hok as [He|He]; discriminate.
Qed.

Lemma status_updates_follow_machine_witness :
  STARTED <> QUEUED
  /\ ~ (QUEUED = SUCCESS /\ STARTED = STARTED)
  /\ (sm_edge QUEUED STARTED = true \/ STARTED = FAILED).
Proof.
  refine (status_updates_follow_machine [w_pipeline_fails; w_all_good] 0 "t1"
            db_queued "a1" "bank" _ "a1" QUEUED STARTED _).
  - repeat constructor. simpl. tauto.
  - simpl. auto.
Defined.

(** C2. The handler's UPDATE to FAILED has no condition on the status it
    overwrites.  A job that is SUCCESS, delivered again while the claim's
    SELECT raises, is set to FAILED; the retry finds FAILED, claims the job
    and processes the artifact a second time.  The status writes of these
    two deliveries are SUCCESS -> FAILED, FAILED -> STARTED and
    STARTED -> SUCCESS: the first is no edge of the machine, and the job
    leaves SUCCESS for STARTED after all. *)
Theorem success_job_reprocessed :
  unique_jobs db_done
  /\ status_of db_done "a1" = Some SUCCESS
  /\ filter is_status_write
            (snd (deliveries [w_select_fails; w_all_good] 0 "t1" db_done
                             "a1" "bank"))
     = [ EvStatusWrite "a1" SUCCESS FAILED;
         EvStatusWrite "a1" FAILED STARTED;
         EvStatusWrite "a1" STARTED SUCCESS ]
  /\ sm_edge SUCCESS FAILED = false
  /\ count is_run_pipeline
            (snd (deliveries [w_select_fails; w_all_good] 0 "t1" db_done
                             "a1" "bank")) = 1%nat.
Proof.
  split; [repeat constructor; simpl; tauto|].
  repeat split; reflexivity.
Qed.

(** When the claim step's statements complete in every delivery and every
    parse job has its artifact, every status write is an edge of the
    machine. *)
Lemma status_updates_on_machine :
  forall (ws : list World) (attempt : nat) (tid : string) (db : Db)
         (aid bank : string),
    unique_jobs db -> jobs_have_artifacts db ->
    Forall claim_statements_complete ws ->
    forall (a : string) (old new : JobStatus),
      In (EvStatusWrite a old new) (snd (deliveries ws attempt tid db aid bank)) ->
      sm_edge old new = true.
Proof.
  intros ws attempt tid db aid bank Hu Hfk Hws a old new Hin.
  assert (H : Forall (write_ok true)
                     (snd (deliveries ws attempt tid db aid bank))).
  { apply deliveries_ok; [assumption|auto]. }
  rewrite Forall_forall in H. specialize (H _ Hin).
  simpl in H. destruct H as [H|[H _]]; [assumption|discriminate].
Qed.

(** Retry after a failed run: QUEUED, STARTED, FAILED, STARTED, SUCCESS. *)
Example deliveries_retry_trace :
  filter (fun ev => match ev with EvStatusWrite _ _ _ => true | _ => false end)
         (snd (deliveries [w_pipeline_fails; w_all_good] 0 "t1" db_queued "a1" "bank"))
  = [EvStatusWrite "a1" QUEUED STARTED; EvStatusWrite "a1" STARTED FAILED;
     EvStatusWrite "a1" FAILED STARTED; EvStatusWrite "a1" STARTED SUCCESS].
Proof. reflexivity. Qed.

End TasksFacts.

(* ================================================================== *)
(** * Properties of the artifact registry                              *)
(* ================================================================== *)

Section IngestionFacts.
Import Ingestion.

Variable sha256 : string -> string.
Variable detect_pdf_kind : string -> PdfKind.
Variable _is_xlsx_zip : string -> bool.
Variable _looks_like_csv : string -> bool.

Abbreviation upload_file :=
  (Ingestion.upload_file sha256 detect_pdf_kind _is_xlsx_zip _looks_like_csv).
Abbreviation detect_file_format :=
  (Ingestion.detect_file_format detect_pdf_kind _is_xlsx_zip _looks_like_csv).

Lemma has_false_not_in {A : Type} (key : A -> string) k l x :
  has key k l = false -> In x l -> key x <> k.
Proof.
  unfold has. intros H Hin E.
  assert (existsb (fun y => String.eqb (key y) k) l = true).
  { apply existsb_exists. exists x. split; [assumption|].
    now apply String.eqb_eq. }
  congruence.
Qed.

Lemma find_artifact_app st c a arts :
  find_artifact st c = None ->
  checksum_sha256 a = c ->
  find (fun x => String.eqb (checksum_sha256 x) c) (artifacts st ++ [a] ++ arts)
  = Some a.
Proof.
  unfold find_artifact. intros Hn Hc.
  induction (artifacts st) as [|x l IH]; simpl in *.
  - now rewrite Hc, String.eqb_refl.
  - destruct (String.eqb (checksum_sha256 x) c); [discriminate|]. now apply IH.
Qed.

(** The first upload of a checksum, when it succeeds. *)
Lemma upload_first_seen st env bank up uf st1 r :
  find_artifact st (sha256 (content uf)) = None ->
  upload_file st env bank up uf = (st1, inr r) ->
  let fname := match filename uf with
               | Some f => if Py.is_empty f then "upload" else f
               | None => "upload"
               end in
  let d := detect_file_format (substring 0 8 (content uf)) fname (content uf) in
  let a := mkArtifact (uuid_artifact env) (sha256 (content uf))
                      (d_file_format d) (d_pdf_kind d)
                      ("raw/" ++ sha256 (content uf) ++ "."
                       ++ ext_of (d_file_format d))%string in
  artifacts st1 = artifacts st ++ [a]
  /\ r_report_id r = uuid_report env
  /\ r_artifact_id r = uuid_artifact env
  /\ In (r_report_id r) (map report_id (report_uploads st1))
  /\ In (object_key a) (objects st1)
  /\ sent st1 = sent st ++ [(parse_task, [r_artifact_id r; bank])].
Proof.
  intros Hf. unfold Ingestion.upload_file. rewrite Hf.
  unfold fail.
  destruct (put_object_fault env); [discriminate|].
  destruct (has artifact_id _ _); [discriminate|].
  destruct (_ || _); [discriminate|].
  destruct (send_task_id env) as [tid|]; [|discriminate].
  destruct (commit_task_id_fault env); [discriminate|].
  intros H. inversion H; subst; clear H. cbn.
  repeat split.
  - rewrite map_app. apply in_or_app. right. now left.
  - unfold put_key. destruct (existsb _ (objects st)) eqn:E.
    + apply existsb_exists in E. destruct E as [k [Hin Hk]].
      apply String.eqb_eq in Hk. now subst.
    + apply in_or_app. right. now left.
Qed.

(** A later upload of a checksum already registered, when it succeeds. *)
Lemma upload_again st env bank up uf a st2 r :
  find_artifact st (sha256 (content uf)) = Some a ->
  upload_file st env bank up uf = (st2, inr r) ->
  artifacts st2 = artifacts st
  /\ objects st2 = objects st
  /\ sent st2 = sent st
  /\ r_report_id r = uuid_report env
  /\ r_artifact_id r = artifact_id a
  /\ ~ In (r_report_id r) (map report_id (report_uploads st)).
Proof.
  intros Hf. unfold Ingestion.upload_file. rewrite Hf. unfold fail.
  destruct (find_job st (artifact_id a)) as [j|].
  - cbn [andb orb].
    destruct (has report_id (uuid_report env) (report_uploads st)) eqn:E;
      [discriminate|].
    intros H. inversion H; subst; clear H. cbn. repeat split.
    intros Hin. apply in_map_iff in Hin. destruct Hin as [u [Hu Hin]].
    exact (has_false_not_in _ _ _ _ E Hin Hu).
  - destruct (_ || _) eqn:E; [discriminate|].
    apply orb_false_iff in E. destruct E as [_ E].
    intros H. inversion H; subst; clear H. cbn. repeat split.
    intros Hin. apply in_map_iff in Hin. destruct Hin as [u [Hu Hin]].
    exact (has_false_not_in _ _ _ _ E Hin Hu).
Qed.

(** C3. Uploading the same bytes twice, both calls succeeding, the first
    being the one that registers the checksum: the two report_ids differ,
    both results name the artifact the first call created, whose row and
    object_key the second call leaves as they are and whose object it does
    not store again, and the parse task is sent once, by the first call. *)
Theorem upload_twice_dedup :
  forall st env1 env2 bank1 bank2 up1 up2 uf1 uf2 st1 st2 r1 r2,
    content uf1 = content uf2 ->
    find_artifact st (sha256 (content uf1)) = None ->
    upload_file st env1 bank1 up1 uf1 = (st1, inr r1) ->
    upload_file st1 env2 bank2 up2 uf2 = (st2, inr r2) ->
    r_report_id r1 <> r_report_id r2
    /\ r_artifact_id r1 = r_artifact_id r2
    /\ (exists a,
          find_artifact st1 (sha256 (content uf1)) = Some a
          /\ find_artifact st2 (sha256 (content uf2)) = Some a
          /\ artifact_id a = r_artifact_id r1
          /\ In (object_key a) (objects st2))
    /\ objects st2 = objects st1
    /\ sent st1 = sent st ++ [(parse_task, [r_artifact_id r1; bank1])]
    /\ sent st2 = sent st1.
Proof.
  intros st env1 env2 bank1 bank2 up1 up2 uf1 uf2 st1 st2 r1 r2
         Hc Hf H1 H2.
  destruct (upload_first_seen _ _ _ _ _ _ _ Hf H1)
    as [Ha [Hr1 [Hid1 [Hin1 [Hobj Hs1]]]]].
  set (a := mkArtifact (uuid_artifact env1) (sha256 (content uf1)) _ _ _) in *.
  assert (Hfa : find_artifact st1 (sha256 (content uf1)) = Some a).
  { unfold find_artifact at 1. rewrite Ha.
    exact (find_artifact_app st _ a [] Hf eq_refl). }
  assert (Hfa2 : find_artifact st1 (sha256 (content uf2)) = Some a)
    by (rewrite <- Hc; exact Hfa).
  destruct (upload_again _ _ _ _ _ _ _ _ Hfa2 H2)
    as [Ha2 [Ho2 [Hs2 [Hr2 [Hid2 Hnew]]]]].
  split; [intros E; apply Hnew; rewrite <- E; exact Hin1|].
  split; [rewrite Hid2, Hid1; reflexivity|].
  split.
  { exists a. split; [exact Hfa|]. split.
    - unfold find_artifact. rewrite Ha2. exact Hfa2.
    - split; [symmetry; exact Hid1|]. rewrite Ho2. exact Hobj. }
  split; [exact Ho2|]. split; [exact Hs1|exact Hs2].
Qed.

End IngestionFacts.

Section IngestionExample.
Import Ingestion.

Lemma upload_twice_dedup_witness :
  "r-1" <> "r-2"
  /\ "a-1" = "a-1"
  /\ sent (fst second_upload) = [(parse_task, ["a-1"; "bank"])].
Proof.
  pose proof (upload_twice_dedup toy_digest (fun _ => unknown) (fun _ => false)
                (fun _ => true) empty_store env_a env_b "bank" "bank"
                "alice" "bob"
                (mkUploadFile (Some "a.csv") csv_bytes None)
                (mkUploadFile (Some "again.csv") csv_bytes None)
                (fst first_upload) (fst second_upload)
                _ _ eq_refl eq_refl eq_refl eq_refl) as H.
  destruct H as [H1 [H2 [_ [_ [H5 H6]]]]].
  split; [exact H1|]. split; [exact H2|].
  rewrite H6. exact H5.
Defined.

End IngestionExample.
(* ================================================================== *)
(** * The job orchestrator: retries, dead letters, ordering            *)
(* ================================================================== *)

Section TasksRetries.
Import Tasks.

Lemma count_app p t1 t2 : count p (t1 ++ t2) = (count p t1 + count p t2)%nat.
Proof. unfold count. now rewrite filter_app, length_app. Qed.

Lemma count_status_writes p db aid s :
  (forall a o n, p (EvStatusWrite a o n) = false) ->
  count p (status_writes db aid s) = 0%nat.
Proof.
  intros Hp. unfold count, status_writes.
  induction (parse_jobs db) as [|j l IH]; simpl; [reflexivity|].
  rewrite filter_app, length_app, IH.
  destruct (String.eqb _ _); simpl; [rewrite Hp|]; reflexivity.
Qed.

Lemma update_status_no_job db aid s e n :
  no_job db aid -> update_status db aid s e n = db.
Proof.
  intros Hn. unfold update_status, with_parse_jobs. destruct db as [a pj ru dl].
  simpl in *. f_equal. unfold no_job in Hn. simpl in Hn.
  induction pj as [|j l IH]; simpl; [reflexivity|].
  rewrite IH by (intros j' Hj'; apply Hn; now right). f_equal.
  unfold set_status. destruct (String.eqb (pj_artifact_id j) aid) eqn:E;
    [|reflexivity].
  apply String.eqb_eq in E. exfalso. apply (Hn j); [now left|assumption].
Qed.

Lemma status_writes_no_job db aid s :
  no_job db aid -> status_writes db aid s = [].
Proof.
  unfold no_job, status_writes. induction (parse_jobs db) as [|j l IH];
    intros Hn; simpl; [reflexivity|].
  rewrite IH by (intros j' Hj'; apply Hn; now right).
  destruct (String.eqb (pj_artifact_id j) aid) eqn:E; [|reflexivity].
  apply String.eqb_eq in E. exfalso. apply (Hn j); [now left|assumption].
Qed.

Lemma no_job_select db aid : no_job db aid -> select_job_for_update db aid = None.
Proof.
  intros Hn. unfold select_job_for_update.
  destruct (find _ (parse_jobs db)) as [j|] eqn:E; [|reflexivity].
  apply find_some in E. destruct E as [Hin E]. apply String.eqb_eq in E.
  exfalso. exact (Hn j Hin E).
Qed.

Lemma status_of_update_job db aid s e n j :
  find (fun x => String.eqb (pj_artifact_id x) aid) (parse_jobs db) = Some j ->
  status_of (update_status db aid s e n) aid = Some s.
Proof.
  unfold status_of, update_status, with_parse_jobs; simpl.
  induction (parse_jobs db) as [|x l IH]; simpl; [discriminate|].
  rewrite set_status_artifact_id.
  destruct (String.eqb (pj_artifact_id x) aid) eqn:E.
  - intros _. unfold set_status. now rewrite E.
  - exact IH.
Qed.

(** A retry is scheduled only below max_retries, and then with the
    doubling bound. *)
Lemma parse_artifact_retry w attempt tid db aid bank cap :
  fst (fst (parse_artifact w attempt tid db aid bank)) = TaskRetry cap ->
  (attempt < max_retries)%nat /\ cap = backoff_cap attempt 2 300.
Proof.
  unfold parse_artifact.
  destruct (run w db aid bank) as [[[m|m] db1] t]; cbn [fst]; [discriminate|].
  destruct (max_retries <=? attempt)%nat eqn:E; cbn [fst]; [discriminate|].
  intros H. inversion H. apply Nat.leb_gt in E. auto.
Qed.

Lemma backoff_cap_small attempt :
  (attempt < max_retries)%nat ->
  backoff_cap attempt 2 300 = (2 ^ Z.of_nat (S attempt))%Z
  /\ (2 <= backoff_cap attempt 2 300 <= 32)%Z.
Proof.
  unfold max_retries, backoff_cap. intros H.
  assert (attempt = 0 \/ attempt = 1 \/ attempt = 2 \/ attempt = 3 \/ attempt = 4)%nat
    as [->|[->|[->|[->| ->]]]] by lia; vm_compute; intuition discriminate.
Qed.


Ltac count_events :=
  repeat rewrite count_app;
  repeat rewrite count_status_writes by (intros; reflexivity);
  unfold count in *;
  cbn [filter is_run_pipeline is_dlq_write is_status_write
       List.length app Nat.add];
  try lia.

(** One execution of [run] enters the pipeline at most once and writes no
    dead letter. *)
Lemma run_counts w db aid bank :
  (count is_run_pipeline (snd (run w db aid bank)) <= 1)%nat
  /\ count is_dlq_write (snd (run w db aid bank)) = 0%nat.
Proof.
  unfold run, claim_job.
  destruct (select_fault w).
  { unfold on_exception. destruct (mark_failed_fault w); cbn [fst snd];
      split; count_events. }
  destruct (select_job_for_update db aid) as [row|].
  2:{ unfold on_exception. destruct (mark_failed_fault w); cbn [fst snd];
      split; count_events. }
  assert (Hbody : forall db1 t0,
    count is_run_pipeline t0 = 0%nat -> count is_dlq_write t0 = 0%nat ->
    (count is_run_pipeline
       (snd (match pipeline_body w db1 aid bank row with
             | (inr m, db2, t') => (RunReturn m, db2, t0 ++ t')
             | (inl m, db2, t') =>
                 let '(r, db3, t'') := on_exception w db2 aid m in
                 (r, db3, t0 ++ t' ++ t'')
             end)) <= 1)%nat
    /\ count is_dlq_write
         (snd (match pipeline_body w db1 aid bank row with
               | (inr m, db2, t') => (RunReturn m, db2, t0 ++ t')
               | (inl m, db2, t') =>
                   let '(r, db3, t'') := on_exception w db2 aid m in
                   (r, db3, t0 ++ t' ++ t'')
               end)) = 0%nat).
  { intros db1 t0 H1 H2. unfold pipeline_body, on_exception.
    destruct (run_pipeline w db1 row _) as [m|[|]];
      destruct (mark_failed_fault w);
      destruct (persist_report_fault w); destruct (persist_timeseries_fault w);
      destruct (neo4j_configured w); destruct (persist_graph_fault w);
      destruct (pinecone_configured w); destruct (persist_embeddings_fault w);
      destruct (mark_success_fault w);
      cbn [fst snd]; repeat rewrite count_app; rewrite H1, H2;
      split; count_events. }
  destruct (row_status row).
  - destruct (claim_update_fault w).
    + unfold on_exception. destruct (mark_failed_fault w); cbn [fst snd];
        split; count_events.
    + apply Hbody; count_events.
  - cbn [fst snd]. split; count_events.
  - cbn [fst snd]. split; count_events.
  - destruct (claim_update_fault w).
    + unfold on_exception. destruct (mark_failed_fault w); cbn [fst snd];
        split; count_events.
    + apply Hbody; count_events.
Qed.

(** What one delivery adds to the counts and to the dead-letter table. *)
Lemma parse_artifact_counts w attempt tid db aid bank :
  let '(r, db1, t) := parse_artifact w attempt tid db aid bank in
  (count is_run_pipeline t <= 1)%nat
  /\ match r with
     | TaskDeadLetter _ =>
         count is_dlq_write t = 1%nat
         /\ List.length (dlq_events db1)
            = S (List.length (dlq_events (snd (fst (run w db aid bank)))))
     | _ =>
         count is_dlq_write t = 0%nat
         /\ dlq_events db1 = dlq_events (snd (fst (run w db aid bank)))
     end.
Proof.
  unfold parse_artifact. destruct (run_counts w db aid bank) as [H1 H2].
  destruct (run w db aid bank) as [[[m|m] db1] t]; cbn [fst snd] in *.
  - auto.
  - destruct (max_retries <=? attempt)%nat; cbn [dlq_events];
      repeat rewrite count_app; rewrite H2;
      (split; [count_events|split; [count_events|]]).
    + rewrite length_app. simpl. lia.
    + reflexivity.
Qed.


Lemma update_status_dlq db aid s e n :
  dlq_events (update_status db aid s e n) = dlq_events db.
Proof. reflexivity. Qed.

Lemma run_keeps_dlq w db aid bank :
  dlq_events (snd (fst (run w db aid bank))) = dlq_events db.
Proof.
  unfold run, claim_job, pipeline_body, on_exception.
  destruct (select_fault w); [destruct (mark_failed_fault w); reflexivity|].
  destruct (select_job_for_update db aid) as [row|];
    [|destruct (mark_failed_fault w); reflexivity].
  destruct (row_status row); try reflexivity;
    (destruct (claim_update_fault w);
     [destruct (mark_failed_fault w); reflexivity|]);
    destruct (run_pipeline w _ row _) as [m|[|]];
    destruct (mark_failed_fault w);
    destruct (persist_report_fault w); destruct (persist_timeseries_fault w);
    destruct (neo4j_configured w); destruct (persist_graph_fault w);
    destruct (pinecone_configured w); destruct (persist_embeddings_fault w);
    destruct (mark_success_fault w); reflexivity.
Qed.

Lemma deliveries_firstn ws : forall attempt tid db aid bank,
  (attempt <= max_retries)%nat ->
  deliveries ws attempt tid db aid bank
  = deliveries (firstn (S max_retries - attempt) ws) attempt tid db aid bank.
Proof.
  induction ws as [|w ws IH]; intros attempt tid db aid bank Ha.
  - now rewrite firstn_nil.
  - replace (S max_retries - attempt)%nat with (S (max_retries - attempt)) by lia.
    cbn [firstn deliveries].
    pose proof (parse_artifact_retry w attempt tid db aid bank) as Hr.
    destruct (parse_artifact w attempt tid db aid bank) as [[r db1] t].
    destruct r as [m|cap|m]; try reflexivity.
    destruct (Hr cap eq_refl) as [Hlt _].
    rewrite (IH (S attempt)) by lia.
    replace (S max_retries - S attempt)%nat with (max_retries - attempt)%nat by lia.
    reflexivity.
Qed.

Lemma deliveries_counts ws : forall attempt tid db aid bank,
  (attempt <= max_retries)%nat ->
  (count is_run_pipeline (snd (deliveries ws attempt tid db aid bank))
   <= S max_retries - attempt)%nat
  /\ (count is_dlq_write (snd (deliveries ws attempt tid db aid bank)) <= 1)%nat
  /\ (List.length (dlq_events (fst (deliveries ws attempt tid db aid bank)))
      <= S (List.length (dlq_events db)))%nat.
Proof.
  induction ws as [|w ws IH]; intros attempt tid db aid bank Ha.
  - cbn [deliveries fst snd]. unfold count. simpl. lia.
  - cbn [deliveries].
    pose proof (parse_artifact_retry w attempt tid db aid bank) as Hr.
    pose proof (parse_artifact_counts w attempt tid db aid bank) as Hc.
    pose proof (run_keeps_dlq w db aid bank) as Hd.
    destruct (parse_artifact w attempt tid db aid bank) as [[r db1] t].
    destruct Hc as [Hc1 Hc2].
    destruct r as [m|cap|m]; cbn [fst snd] in *.
    + destruct Hc2 as [Hc2 Hc3]. rewrite Hc3, Hd. lia.
    + destruct (Hr cap eq_refl) as [Hlt _].
      destruct Hc2 as [Hc2 Hc3].
      specialize (IH (S attempt) tid db1 aid bank ltac:(lia)).
      destruct (deliveries ws (S attempt) tid db1 aid bank) as [db2 t'].
      cbn [fst snd] in *. rewrite !count_app, Hc2.
      rewrite Hc3, Hd in IH. lia.
    + destruct Hc2 as [Hc2 Hc3]. rewrite Hc3, Hd. lia.
Qed.

(** X1. The exception handler of [run] records FAILED without looking at
    the status it replaces.  When the claim's SELECT raises and the
    handler's UPDATE goes through, the job of the artifact is set FAILED
    whatever its status was, SUCCESS included, and [run] re-raises. *)
Theorem handler_overwrites_any_status :
  forall w db aid bank j,
    select_fault w = true -> mark_failed_fault w = false ->
    find (fun x => String.eqb (pj_artifact_id x) aid) (parse_jobs db) = Some j ->
    run w db aid bank
    = (RunRaise "select_failed",
       update_status db aid FAILED (Some "select_failed") (now w),
       [EvBegin; EvRollback] ++ status_writes db aid FAILED
         ++ [EvLogStage "postgres" "failure"])
    /\ In (EvStatusWrite aid (status j) FAILED) (status_writes db aid FAILED)
    /\ status_of (update_status db aid FAILED (Some "select_failed") (now w)) aid
       = Some FAILED.
Proof.
  intros w db aid bank j Hs Hm Hj. split; [|split].
  - unfold run, claim_job, on_exception. rewrite Hs, Hm. reflexivity.
  - now apply status_writes_found.
  - eapply status_of_update_job; eauto.
Qed.

Lemma handler_overwrites_any_status_witness :
  run w_select_fails db_done "a1" "bank"
  = (RunRaise "select_failed",
     update_status db_done "a1" FAILED (Some "select_failed") 30,
     [EvBegin; EvRollback; EvStatusWrite "a1" SUCCESS FAILED;
      EvLogStage "postgres" "failure"])
  /\ status_of (update_status db_done "a1" FAILED (Some "select_failed") 30) "a1"
     = Some FAILED.
Proof.
  destruct (handler_overwrites_any_status w_select_fails db_done "a1" "bank"
              (mkParseJob "j1" "a1" SUCCESS (Some "t1") None 7)
              eq_refl eq_refl eq_refl) as [H1 [_ H3]].
  split; [exact H1|exact H3].
Defined.

(** X2. What one delivery of parse_artifact ends in.  It returns what
    [run] returns; when [run] raises below five retries it asks for a
    retry whose backoff interval ends at 2^(retries+1) seconds, between 2
    and 32, so the cap of 300 seconds is never reached, and writes no dead
    letter; from the fifth retry on it appends one dead letter naming the
    task, the artifact and the error, and schedules nothing. *)
Theorem parse_artifact_outcomes :
  forall w attempt tid db aid bank,
    match parse_artifact w attempt tid db aid bank with
    | (TaskReturn m, db', t) => run w db aid bank = (RunReturn m, db', t)
    | (TaskRetry cap, db', t) =>
        (attempt < 5)%nat
        /\ cap = (2 ^ Z.of_nat (S attempt))%Z /\ (2 <= cap <= 32)%Z
        /\ exists m t0,
             run w db aid bank = (RunRaise m, db', t0) /\ t = t0 ++ [EvRetry cap]
    | (TaskDeadLetter m, db', t) =>
        (5 <= attempt)%nat
        /\ exists db1 t0,
             run w db aid bank = (RunRaise m, db1, t0)
             /\ db' = mkDb (artifacts db1) (parse_jobs db1) (report_uploads db1)
                           (dlq_events db1 ++ [dead_letter tid aid m])
             /\ t = t0 ++ [EvDlqWrite aid]
    end.
Proof.
  intros w attempt tid db aid bank. unfold parse_artifact.
  destruct (run w db aid bank) as [[[m|m] db1] t]; [reflexivity|].
  destruct (max_retries <=? attempt)%nat eqn:E.
  - apply Nat.leb_le in E. split; [exact E|]. exists db1, t. auto.
  - apply Nat.leb_gt in E. destruct (backoff_cap_small attempt E) as [H1 H2].
    split; [exact E|]. rewrite <- H1. split; [reflexivity|].
    split; [exact H2|]. exists m, t. auto.
Qed.

(** X3. A task is executed at most six times: the first delivery and
    five retries.  Deliveries beyond the sixth are never made, the
    pipeline is entered at most six times, and at most one dead letter is
    written. *)
Theorem deliveries_bounded :
  forall ws tid db aid bank,
    deliveries ws 0 tid db aid bank = deliveries (firstn 6 ws) 0 tid db aid bank
    /\ (count is_run_pipeline (snd (deliveries ws 0 tid db aid bank)) <= 6)%nat
    /\ (count is_dlq_write (snd (deliveries ws 0 tid db aid bank)) <= 1)%nat
    /\ (List.length (dlq_events (fst (deliveries ws 0 tid db aid bank)))
        <= S (List.length (dlq_events db)))%nat.
Proof.
  intros ws tid db aid bank. split.
  - apply (deliveries_firstn ws 0). unfold max_retries. lia.
  - apply (deliveries_counts ws 0). unfold max_retries. lia.
Qed.


(** X4. [run] returns "success" only along one path: the claim found the
    job QUEUED or FAILED and committed STARTED, the pipeline returned a
    normalization result, Postgres, Timescale and every configured store
    (Neo4j, Pinecone) were written in that order without an exception, and
    only then was SUCCESS written.  No FAILED is written on that path. *)
Theorem success_follows_persistence :
  forall w db aid bank db' t,
    run w db aid bank = (RunReturn "success", db', t) ->
    exists row,
      let db1 := update_status db aid STARTED None (now w) in
      select_job_for_update db aid = Some row
      /\ (row_status row = QUEUED \/ row_status row = FAILED)
      /\ run_pipeline w db1 row
           (match latest_upload db1 aid with
            | Some u => report_id u | None => aid end)
         = PipelineOutputs true
      /\ stores_answer w
      /\ db' = update_status db1 aid SUCCESS None (now w)
      /\ t = [EvBegin; EvSelectForUpdate aid (Some (row_status row))]
             ++ status_writes db aid STARTED ++ [EvCommit]
             ++ [EvSelectUpload aid; EvRunPipeline db1] ++ persisted w
             ++ status_writes db1 aid SUCCESS
             ++ [EvLogStage "postgres" "success"].
Proof.
  intros w db aid bank db' t H. unfold run, claim_job in H.
  destruct (select_fault w).
  { unfold on_exception in H. destruct (mark_failed_fault w); discriminate H. }
  destruct (select_job_for_update db aid) as [row|].
  2:{ unfold on_exception in H. destruct (mark_failed_fault w); discriminate H. }
  exists row. cbv zeta.
  assert (Hst : row_status row = QUEUED \/ row_status row = FAILED
                -> claim_update_fault w = false ->
    match pipeline_body w (update_status db aid STARTED None (now w)) aid bank row with
    | (inr m, db2, t') =>
        (RunReturn m, db2,
         ([EvBegin; EvSelectForUpdate aid (Some (row_status row))]
          ++ status_writes db aid STARTED ++ [EvCommit]) ++ t')
    | (inl m, db2, t') =>
        let '(r, db3, t'') := on_exception w db2 aid m in
        (r, db3,
         ([EvBegin; EvSelectForUpdate aid (Some (row_status row))]
          ++ status_writes db aid STARTED ++ [EvCommit]) ++ t' ++ t'')
    end = (RunReturn "success", db', t) ->
    Some row = Some row
    /\ (row_status row = QUEUED \/ row_status row = FAILED)
    /\ run_pipeline w (update_status db aid STARTED None (now w)) row
         (match latest_upload (update_status db aid STARTED None (now w)) aid with
          | Some u => report_id u | None => aid end)
       = PipelineOutputs true
    /\ stores_answer w
    /\ db' = update_status (update_status db aid STARTED None (now w)) aid
                           SUCCESS None (now w)
    /\ t = [EvBegin; EvSelectForUpdate aid (Some (row_status row))]
           ++ status_writes db aid STARTED ++ [EvCommit]
           ++ [EvSelectUpload aid;
               EvRunPipeline (update_status db aid STARTED None (now w))]
           ++ persisted w
           ++ status_writes (update_status db aid STARTED None (now w)) aid SUCCESS
           ++ [EvLogStage "postgres" "success"]).
  { intros Hrow Hcu. unfold pipeline_body, on_exception, stores_answer, persisted.
    destruct (run_pipeline w _ row _) as [m|[|]];
      destruct (mark_failed_fault w);
      destruct (persist_report_fault w); destruct (persist_timeseries_fault w);
      destruct (neo4j_configured w); destruct (persist_graph_fault w);
      destruct (pinecone_configured w); destruct (persist_embeddings_fault w);
      destruct (mark_success_fault w);
      intros E; try discriminate E; inversion E; subst; clear E;
      repeat rewrite <- app_assoc; cbn [app];
      (split; [reflexivity|]); (split; [exact Hrow|]); (split; [reflexivity|]);
      (split; [repeat split; intros; congruence|]); split; reflexivity. }
  destruct (row_status row) eqn:Hr; try discriminate H.
  - destruct (claim_update_fault w).
    + unfold on_exception in H. destruct (mark_failed_fault w); discriminate H.
    + apply Hst; auto.
  - destruct (claim_update_fault w).
    + unfold on_exception in H. destruct (mark_failed_fault w); discriminate H.
    + apply Hst; auto.
Qed.

Lemma success_follows_persistence_witness :
  exists row,
    select_job_for_update db_queued "a1" = Some row
    /\ (row_status row = QUEUED \/ row_status row = FAILED)
    /\ stores_answer w_all_good
    /\ snd (run w_all_good db_queued "a1" "bank")
       = [EvBegin; EvSelectForUpdate "a1" (Some (row_status row));
          EvStatusWrite "a1" QUEUED STARTED; EvCommit; EvSelectUpload "a1";
          EvRunPipeline (update_status db_queued "a1" STARTED None 20);
          EvPersist "postgres"; EvPersist "timescale"; EvPersist "neo4j";
          EvPersist "pinecone"; EvStatusWrite "a1" STARTED SUCCESS;
          EvLogStage "postgres" "success"].
Proof.
  destruct (success_follows_persistence w_all_good db_queued "a1" "bank"
              (snd (fst (run w_all_good db_queued "a1" "bank")))
              (snd (run w_all_good db_queued "a1" "bank")) eq_refl)
    as [row [H1 [H2 [_ [H4 [_ H6]]]]]].
  exists row. split; [exact H1|]. split; [exact H2|]. split; [exact H4|].
  rewrite H6. reflexivity.
Defined.

(** Without a job row nothing is written and [run] raises. *)
Lemma run_no_job w db aid bank :
  no_job db aid ->
  exists m t,
    run w db aid bank = (RunRaise m, db, t)
    /\ count is_status_write t = 0%nat /\ count is_run_pipeline t = 0%nat
    /\ count is_dlq_write t = 0%nat.
Proof.
  intros Hn. unfold run, claim_job, on_exception.
  rewrite (no_job_select _ _ Hn).
  destruct (select_fault w); destruct (mark_failed_fault w); cbn iota beta;
    rewrite ?(update_status_no_job _ _ _ _ _ Hn), ?(status_writes_no_job _ _ _ Hn);
    eexists; eexists; (split; [reflexivity|]); repeat split; reflexivity.
Qed.

Lemma deliveries_no_job ws : forall attempt tid db aid bank,
  no_job db aid -> (attempt <= max_retries)%nat ->
  (S max_retries - attempt <= List.length ws)%nat ->
  exists m,
    fst (deliveries ws attempt tid db aid bank)
    = mkDb (artifacts db) (parse_jobs db) (report_uploads db)
           (dlq_events db ++ [dead_letter tid aid m])
    /\ count is_status_write (snd (deliveries ws attempt tid db aid bank)) = 0%nat
    /\ count is_run_pipeline (snd (deliveries ws attempt tid db aid bank)) = 0%nat
    /\ count is_dlq_write (snd (deliveries ws attempt tid db aid bank)) = 1%nat.
Proof.
  induction ws as [|w ws IH]; intros attempt tid db aid bank Hn Ha Hl.
  - unfold max_retries in *. cbn [List.length] in Hl. lia.
  - cbn [deliveries]. unfold parse_artifact.
    destruct (run_no_job w db aid bank Hn) as [m [t [Hr [H1 [H2 H3]]]]].
    rewrite Hr. destruct (max_retries <=? attempt)%nat eqn:E.
    + exists m. cbn [fst snd]. rewrite !count_app, H1, H2, H3.
      repeat split; reflexivity.
    + apply Nat.leb_gt in E. cbn [List.length] in Hl.
      destruct (IH (S attempt) tid db aid bank Hn ltac:(lia) ltac:(lia))
        as [m' [G0 [G1 [G2 G3]]]].
      destruct (deliveries ws (S attempt) tid db aid bank) as [db2 t'].
      cbn [fst snd] in *. exists m'. rewrite !count_app, H1, H2, H3, G1, G2, G3.
      split; [exact G0|]. repeat split; reflexivity.
Qed.

(** X5. An artifact without a row in parse_jobs is never processed: every
    delivery raises, no status is written and the pipeline is never
    entered; after the first delivery and five retries exactly one dead
    letter is appended and the rest of the store is as it was. *)
Theorem missing_job_dead_letters :
  forall ws tid db aid bank,
    no_job db aid -> (6 <= List.length ws)%nat ->
    exists m,
      fst (deliveries ws 0 tid db aid bank)
      = mkDb (artifacts db) (parse_jobs db) (report_uploads db)
             (dlq_events db ++ [dead_letter tid aid m])
      /\ count is_status_write (snd (deliveries ws 0 tid db aid bank)) = 0%nat
      /\ count is_run_pipeline (snd (deliveries ws 0 tid db aid bank)) = 0%nat
      /\ count is_dlq_write (snd (deliveries ws 0 tid db aid bank)) = 1%nat.
Proof.
  intros ws tid db aid bank Hn Hl.
  apply deliveries_no_job; [exact Hn|unfold max_retries; lia|exact Hl].
Qed.

Lemma missing_job_dead_letters_witness :
  exists m,
    fst (deliveries (repeat w_all_good 6) 0 "t1" db_no_job "a1" "bank")
    = mkDb (artifacts db_no_job) (parse_jobs db_no_job) (report_uploads db_no_job)
           (dlq_events db_no_job ++ [dead_letter "t1" "a1" m]).
Proof.
  destruct (missing_job_dead_letters (repeat w_all_good 6) "t1" db_no_job "a1" "bank")
    as [m [H _]].
  - intros j Hj. destruct Hj.
  - simpl. lia.
  - exists m. exact H.
Defined.

Lemma latest_upload_fold aid l : forall p best,
  match best with
  | None => filter (fun u => String.eqb (ru_artifact_id u) aid) p = []
  | Some u =>
      In u (filter (fun u => String.eqb (ru_artifact_id u) aid) p)
      /\ forall u', In u' (filter (fun u => String.eqb (ru_artifact_id u) aid) p) ->
                    (upload_time u' <= upload_time u)%Z
  end ->
  match fold_left
          (fun best u =>
             if String.eqb (ru_artifact_id u) aid then
               match best with
               | None => Some u
               | Some b => if (upload_time b <? upload_time u)%Z then Some u else Some b
               end
             else best) l best with
  | None => filter (fun u => String.eqb (ru_artifact_id u) aid) (p ++ l) = []
  | Some u =>
      In u (filter (fun u => String.eqb (ru_artifact_id u) aid) (p ++ l))
      /\ forall u', In u' (filter (fun u => String.eqb (ru_artifact_id u) aid) (p ++ l)) ->
                    (upload_time u' <= upload_time u)%Z
  end.
Proof.
  induction l as [|x l IH]; intros p best Hb.
  - rewrite app_nil_r. exact Hb.
  - cbn [fold_left]. replace (p ++ x :: l) with ((p ++ [x]) ++ l)
      by (now rewrite <- app_assoc).
    apply IH. rewrite filter_app. cbn [filter].
    destruct (String.eqb (ru_artifact_id x) aid) eqn:E.
    + destruct best as [b|].
      * destruct Hb as [Hin Hmax].
        destruct (upload_time b <? upload_time x)%Z eqn:Hlt.
        -- apply Z.ltb_lt in Hlt. split; [apply in_or_app; right; now left|].
           intros u' Hu'. apply in_app_or in Hu'. destruct Hu' as [Hu'|[<-|[]]].
           ++ specialize (Hmax u' Hu'). lia.
           ++ lia.
        -- apply Z.ltb_ge in Hlt. split; [apply in_or_app; now left|].
           intros u' Hu'. apply in_app_or in Hu'. destruct Hu' as [Hu'|[<-|[]]].
           ++ exact (Hmax u' Hu').
           ++ exact Hlt.
      * rewrite Hb. split; [now left|]. intros u' [<-|[]]. lia.
    + rewrite app_nil_r. exact Hb.
Qed.

(** X6. The upload row the task reads for the report id (ORDER BY
    upload_time DESC LIMIT 1): there is none exactly when the artifact has
    no upload row, and otherwise it is an upload row of the artifact with
    no later one. *)
Theorem latest_upload_spec :
  forall db aid,
    match latest_upload db aid with
    | None => uploads_of db aid = []
    | Some u =>
        In u (uploads_of db aid)
        /\ forall u', In u' (uploads_of db aid) ->
                      (upload_time u' <= upload_time u)%Z
    end.
Proof.
  intros db aid. unfold latest_upload, uploads_of.
  exact (latest_upload_fold aid (report_uploads db) [] None eq_refl).
Qed.

End TasksRetries.
(* ================================================================== *)
(** * The artifact registry: constraints, failures, the endpoint       *)
(* ================================================================== *)

Section IngestionInvariants.
Import Ingestion IngestionApi.

Variable sha256 : string -> string.
Variable detect_pdf_kind : string -> PdfKind.
Variable _is_xlsx_zip : string -> bool.
Variable _looks_like_csv : string -> bool.

Abbreviation upload_file :=
  (Ingestion.upload_file sha256 detect_pdf_kind _is_xlsx_zip _looks_like_csv).
Abbreviation upload_files :=
  (Ingestion.upload_files sha256 detect_pdf_kind _is_xlsx_zip _looks_like_csv).
Abbreviation detect_file_format :=
  (Ingestion.detect_file_format detect_pdf_kind _is_xlsx_zip _looks_like_csv).
Abbreviation upload :=
  (IngestionApi.upload sha256 detect_pdf_kind _is_xlsx_zip _looks_like_csv).

Lemma NoDup_snoc {A : Type} (l : list A) x :
  NoDup l -> ~ In x l -> NoDup (l ++ [x]).
Proof.
  induction l as [|y l IH]; intros Hnd Hx; simpl.
  - constructor; [tauto|constructor].
  - inversion Hnd; subst. constructor.
    + rewrite in_app_iff. simpl. intros [H|[H|[]]]; [tauto|].
      apply Hx. now left.
    + apply IH; [assumption|]. intros H. apply Hx. now right.
Qed.

Lemma has_false_map {A : Type} (key : A -> string) k l :
  has key k l = false -> ~ In k (map key l).
Proof.
  intros H Hin. apply in_map_iff in Hin. destruct Hin as [x [Hx Hin]].
  exact (has_false_not_in key k l x H Hin Hx).
Qed.

Lemma find_none_map {A : Type} (key : A -> string) k l :
  find (fun x => String.eqb (key x) k) l = None -> ~ In k (map key l).
Proof.
  intros H Hin. apply in_map_iff in Hin. destruct Hin as [x [Hx Hin]].
  apply (find_none _ _ H) in Hin. rewrite Hx, String.eqb_refl in Hin.
  discriminate.
Qed.

Lemma find_some_map {A : Type} (key : A -> string) k l a :
  find (fun x => String.eqb (key x) k) l = Some a -> In a l /\ key a = k.
Proof.
  intros H. apply find_some in H. destruct H as [Hin H].
  now apply String.eqb_eq in H.
Qed.

Lemma set_task_id_keys aid tid l :
  map job_id (map (set_task_id aid tid) l) = map job_id l
  /\ map pj_artifact_id (map (set_task_id aid tid) l) = map pj_artifact_id l.
Proof.
  rewrite !map_map. split; apply map_ext; intros j; unfold set_task_id;
    destruct (String.eqb _ _); reflexivity.
Qed.

Lemma incl_snoc {A : Type} (l m : list A) x :
  incl l m -> In x m -> incl (l ++ [x]) m.
Proof.
  intros H Hx y Hy. apply in_app_or in Hy. destruct Hy as [Hy|[<-|[]]]; auto.
Qed.

Lemma incl_grow {A : Type} (l m : list A) x : incl l m -> incl l (m ++ [x]).
Proof. intros H y Hy. apply in_or_app. left. auto. Qed.

Lemma store_ok_objects st ks : store_ok st -> store_ok (with_objects st ks).
Proof. exact (fun H => H). Qed.

(** One iteration of the loop keeps the constraints of the schema. *)
Lemma upload_file_keeps_constraints st env bank up uf :
  store_ok st -> store_ok (fst (upload_file st env bank up uf)).
Proof.
  intros Hok. unfold Ingestion.upload_file, fail.
  destruct (find_artifact st (sha256 (content uf))) as [a|] eqn:Hfa.
  - apply find_some_map in Hfa. destruct Hfa as [Hina Hca].
    assert (Haid : In (artifact_id a) (map artifact_id (artifacts st)))
      by now apply in_map.
    destruct Hok as [H1 [H2 [H3 [H4 [H5 [H6 H7]]]]]].
    destruct (find_job st (artifact_id a)) as [j|] eqn:Hfj.
    + cbn [andb orb].
      destruct (has report_id (uuid_report env) (report_uploads st)) eqn:E.
      * cbn [fst]. repeat split; assumption.
      * apply has_false_map in E. cbn [fst]. unfold store_ok.
        cbn [artifacts parse_jobs report_uploads ru_artifact_id report_id].
        rewrite !map_app. cbn [map report_id ru_artifact_id].
        repeat split; try assumption.
        -- now apply NoDup_snoc.
        -- now apply incl_snoc.
    + cbn [andb].
      destruct (has job_id (uuid_job env) (parse_jobs st)
                || has report_id (uuid_report env) (report_uploads st)) eqn:E.
      * cbn [fst]. repeat split; assumption.
      * apply orb_false_iff in E. destruct E as [E1 E2].
        apply has_false_map in E1. apply has_false_map in E2.
        apply find_none_map in Hfj.
        cbn [fst]. unfold store_ok.
        cbn [artifacts parse_jobs report_uploads].
        rewrite !map_app.
        cbn [map report_id ru_artifact_id job_id pj_artifact_id].
        repeat split; try assumption.
        -- now apply NoDup_snoc.
        -- now apply NoDup_snoc.
        -- now apply NoDup_snoc.
        -- now apply incl_snoc.
        -- now apply incl_snoc.
  - apply find_none_map in Hfa.
    destruct (put_object_fault env); [exact Hok|].
    destruct (has artifact_id (uuid_artifact env) (artifacts st)) eqn:Ea;
      [destruct (delete_object_fault env); exact Hok|].
    destruct (has job_id (uuid_job env) (parse_jobs st)
              || has pj_artifact_id (uuid_artifact env) (parse_jobs st)
              || has report_id (uuid_report env) (report_uploads st)) eqn:E;
      [destruct (delete_object_fault env); exact Hok|].
    apply orb_false_iff in E. destruct E as [E E3].
    apply orb_false_iff in E. destruct E as [E1 E2].
    apply has_false_map in Ea, E1, E2, E3.
    destruct Hok as [H1 [H2 [H3 [H4 [H5 [H6 H7]]]]]].
    assert (Hnew : store_ok
      (mkStore
         (artifacts st ++
          [mkArtifact (uuid_artifact env) (sha256 (content uf))
             (d_file_format
                (detect_file_format (substring 0 8 (content uf))
                   match filename uf with
                   | Some f => if Py.is_empty f then "upload" else f
                   | None => "upload"
                   end (content uf)))
             (d_pdf_kind
                (detect_file_format (substring 0 8 (content uf))
                   match filename uf with
                   | Some f => if Py.is_empty f then "upload" else f
                   | None => "upload"
                   end (content uf)))
             ("raw/" ++ sha256 (content uf) ++ "." ++
              ext_of
                (d_file_format
                   (detect_file_format (substring 0 8 (content uf))
                      match filename uf with
                      | Some f => if Py.is_empty f then "upload" else f
                      | None => "upload"
                      end (content uf))))%string])
         (parse_jobs st ++ [mkParseJob (uuid_job env) (uuid_artifact env) queued None])
         (report_uploads st ++
          [mkReportUpload (uuid_report env) (uuid_artifact env)
             match filename uf with
             | Some f => if Py.is_empty f then "upload" else f
             | None => "upload"
             end up (sha256 (content uf)) (clock env)])
         (put_key
            ("raw/" ++ sha256 (content uf) ++ "." ++
             ext_of
               (d_file_format
                  (detect_file_format (substring 0 8 (content uf))
                     match filename uf with
                     | Some f => if Py.is_empty f then "upload" else f
                     | None => "upload"
                     end (content uf))))%string (objects st)) (sent st))).
    { unfold store_ok. cbn [artifacts parse_jobs report_uploads].
      rewrite !map_app.
      cbn [map report_id ru_artifact_id job_id pj_artifact_id artifact_id
               checksum_sha256].
      repeat split.
      - now apply NoDup_snoc.
      - now apply NoDup_snoc.
      - now apply NoDup_snoc.
      - now apply NoDup_snoc.
      - now apply NoDup_snoc.
      - apply incl_snoc; [now apply incl_grow|].
        apply in_or_app; right; now left.
      - apply incl_snoc; [now apply incl_grow|].
        apply in_or_app; right; now left. }
    destruct (send_task_id env) as [tid|];
      [destruct (commit_task_id_fault env)|];
      try (destruct (delete_object_fault env); exact Hnew).
    cbn [fst].
    destruct Hnew as [G1 [G2 [G3 [G4 [G5 [G6 G7]]]]]].
    unfold store_ok. cbn [artifacts parse_jobs report_uploads] in *.
    destruct (set_task_id_keys (uuid_artifact env) tid
                (parse_jobs st ++ [mkParseJob (uuid_job env) (uuid_artifact env) queued None]))
      as [K1 K2].
    rewrite K1, K2. repeat split; assumption.
Qed.

Lemma upload_files_keep_constraints files : forall st bank up,
  store_ok st -> store_ok (fst (fst (upload_files st bank up files))).
Proof.
  induction files as [|[env uf] rest IH]; intros st bank up Hok;
    [exact Hok|].
  cbn [Ingestion.upload_files].
  pose proof (upload_file_keeps_constraints st env bank up uf Hok) as H1.
  destruct (upload_file st env bank up uf) as [st1 out]. cbn [fst] in H1.
  specialize (IH st1 bank up H1).
  destruct (upload_files st1 bank up rest) as [[st2 results] errors].
  destruct out; exact IH.
Qed.


Lemma delete_key_incl k ks : incl (delete_key k ks) ks.
Proof. intros x Hx. unfold delete_key in Hx. now apply filter_In in Hx. Qed.

Lemma delete_key_gone k ks : ~ In k (delete_key k ks).
Proof.
  unfold delete_key. intros H. apply filter_In in H. destruct H as [_ H].
  now rewrite String.eqb_refl in H.
Qed.

Lemma delete_put_incl k ks : incl (delete_key k (put_key k ks)) ks.
Proof.
  intros x Hx. unfold delete_key in Hx. apply filter_In in Hx.
  destruct Hx as [Hin Hne]. unfold put_key in Hin.
  destruct (existsb (String.eqb k) ks); [assumption|].
  apply in_app_or in Hin. destruct Hin as [Hin|[<-|[]]]; [assumption|].
  now rewrite String.eqb_refl in Hne.
Qed.

Lemma find_snoc_new {A : Type} (key : A -> string) k l x :
  find (fun y => String.eqb (key y) k) l = None -> key x = k ->
  find (fun y => String.eqb (key y) k) (l ++ [x]) = Some x.
Proof.
  intros Hn Hk. induction l as [|y l IH]; simpl in *.
  - now rewrite Hk, String.eqb_refl.
  - destruct (String.eqb (key y) k); [discriminate|]. now apply IH.
Qed.

Lemma has_false_find {A : Type} (key : A -> string) k l :
  has key k l = false -> find (fun y => String.eqb (key y) k) l = None.
Proof.
  unfold has. induction l as [|y l IH]; simpl; [reflexivity|].
  destruct (String.eqb (key y) k); [discriminate|]. exact IH.
Qed.

(** X7. Every request keeps the constraints of the schema: primary keys
    and checksums stay unique, an artifact has at most one parse job, and
    every parse job and upload row points to an artifact row; whatever the
    files, the UUIDs drawn and the failures of the object store and the
    broker. *)
Theorem upload_keeps_constraints :
  forall st files x_uploader x_bank_id,
    store_ok st -> store_ok (fst (upload st files x_uploader x_bank_id)).
Proof.
  intros st files xu xb Hok. unfold IngestionApi.upload.
  destruct xb as [b|]; [|exact Hok].
  destruct (Py.is_empty b); [exact Hok|].
  pose proof (upload_files_keep_constraints files st (Py.strip b)
                (uploader_of xu) Hok) as H.
  destruct (upload_files st (Py.strip b) (uploader_of xu) files)
    as [[st1 results] errors].
  cbn [fst] in H.
  destruct (negb (is_nil results) && negb (is_nil errors)); [exact H|].
  destruct (negb (is_nil errors) && is_nil results); exact H.
Qed.

Lemma put_key_in k ks x : In x (put_key k ks) -> In x ks \/ x = k.
Proof.
  unfold put_key. destruct (existsb (String.eqb k) ks); [auto|].
  intros H. apply in_app_or in H. destruct H as [H|[<-|[]]]; auto.
Qed.

Lemma put_key_has k ks : In k (put_key k ks).
Proof.
  unfold put_key. destruct (existsb (String.eqb k) ks) eqn:E.
  - apply existsb_exists in E. destruct E as [x [Hin Hx]].
    apply String.eqb_eq in Hx. now subst.
  - apply in_or_app. right. now left.
Qed.

(** The store the handler leaves: with the object of this iteration
    deleted, or as it was when the delete raises. *)
Lemma handler_objects (del : bool) st k :
  (del = false ->
   incl (objects (if del then with_objects st (put_key k (objects st))
                  else with_objects (with_objects st (put_key k (objects st)))
                         (delete_key k (put_key k (objects st)))))
        (objects st))
  /\ (forall x,
        In x (objects (if del then with_objects st (put_key k (objects st))
                       else with_objects
                              (with_objects st (put_key k (objects st)))
                              (delete_key k (put_key k (objects st))))) ->
        In x (objects st) \/ (del = true /\ x = k))
  /\ (In k (objects (if del then with_objects st (put_key k (objects st))
                     else with_objects
                            (with_objects st (put_key k (objects st)))
                            (delete_key k (put_key k (objects st)))))
      <-> del = true).
Proof.
  destruct del; cbn [objects with_objects].
  - split; [discriminate|]. split.
    + intros x Hx. apply put_key_in in Hx. destruct Hx; auto.
    + split; [reflexivity|intros _; apply put_key_has].
  - split; [intros _; apply delete_put_incl|]. split.
    + intros x Hx. left. exact (delete_put_incl k _ x Hx).
    + split; [intros H; elim (delete_key_gone _ _ H)|discriminate].
Qed.

(** A failure after the rows are committed: what the store holds. *)
Lemma failed_upload_late st env bank up uf st' e :
  upload_file st env bank up uf = (st', inl e) ->
  late_failure e ->
  find_artifact st (sha256 (content uf)) = None
  /\ exists a j u,
       artifacts st' = artifacts st ++ [a]
       /\ parse_jobs st' = parse_jobs st ++ [j]
       /\ report_uploads st' = report_uploads st ++ [u]
       /\ checksum_sha256 a = sha256 (content uf)
       /\ artifact_id a = uuid_artifact env
       /\ pj_artifact_id j = artifact_id a
       /\ status j = queued /\ celery_task_id j = None
       /\ (In (object_key a) (objects st')
           <-> delete_object_fault env = true)
       /\ find (fun y => String.eqb (pj_artifact_id y) (uuid_artifact env))
               (parse_jobs st) = None.
Proof.
  unfold Ingestion.upload_file, fail, late_failure.
  destruct (find_artifact st (sha256 (content uf))) as [a|] eqn:Hfa.
  { destruct (find_job st (artifact_id a)) as [j|];
      destruct (_ || _); intros H; inversion H; subst; clear H;
      cbn [err_error]; intros [C|C]; discriminate C. }
  destruct (put_object_fault env).
  { intros H; inversion H; subst; clear H.
    cbn [err_error]; intros [C|C]; discriminate C. }
  match goal with
  | |- context [put_key ?k (objects st)] => set (key := k)
  end.
  destruct (handler_objects (delete_object_fault env) st key) as [_ [_ O3]].
  destruct (has artifact_id _ _).
  { intros H; inversion H; subst; clear H.
    cbn [err_error]; intros [C|C]; discriminate C. }
  destruct (_ || _) eqn:E.
  { intros H; inversion H; subst; clear H.
    cbn [err_error]; intros [C|C]; discriminate C. }
  apply orb_false_iff in E. destruct E as [E _].
  apply orb_false_iff in E. destruct E as [_ E2].
  apply has_false_find in E2.
  destruct (send_task_id env) as [tid|];
    [destruct (commit_task_id_fault env); [|discriminate]|];
    intros H _; inversion H; subst; clear H;
    (split; [reflexivity|]);
    eexists; eexists; eexists;
    (split; [destruct (delete_object_fault env); reflexivity|]);
    (split; [destruct (delete_object_fault env); reflexivity|]);
    (split; [destruct (delete_object_fault env); reflexivity|]);
    do 5 (split; [reflexivity|]);
    (split; [cbn [object_key]; destruct (delete_object_fault env); exact O3|]);
    exact E2.
Qed.


(** X9. After send_task has failed for a new artifact, uploading the same
    bytes again cannot repair it: the checksum is found, so the object is
    not stored again and nothing is enqueued; a successful answer names the
    artifact of the failed call with parse_status QUEUED.  The artifact's
    object is missing from the object store, unless the delete of the
    failed call failed too. *)
Theorem unsent_artifact_stays_unparsed :
  forall st env bank up uf st1 e,
    upload_file st env bank up uf = (st1, inl e) ->
    err_error e = "send_task" ->
    forall env2 bank2 up2 uf2,
      content uf2 = content uf ->
      sent (fst (upload_file st1 env2 bank2 up2 uf2)) = sent st
      /\ objects (fst (upload_file st1 env2 bank2 up2 uf2)) = objects st1
      /\ artifacts (fst (upload_file st1 env2 bank2 up2 uf2)) = artifacts st1
      /\ (forall a, In a (artifacts st1) ->
            checksum_sha256 a = sha256 (content uf) ->
            (In (object_key a) (objects st1)
             <-> delete_object_fault env = true))
      /\ match snd (upload_file st1 env2 bank2 up2 uf2) with
         | inr r => r_artifact_id r = uuid_artifact env
                    /\ r_parse_status r = "QUEUED"
         | inl _ => True
         end.
Proof.
  intros st env bank up uf st1 e H He env2 bank2 up2 uf2 Hc.
  destruct (failed_upload_late st env bank up uf st1 e H (or_introl He))
    as (Hfa & a0 & j0 & u0 & Ha1 & Hj1 & _ & Hcs & Haid & Hja & Hq & _ & Hobj
        & Hnj).
  assert (Hs1 : sent st1 = sent st).
  { revert H He. unfold Ingestion.upload_file, fail. rewrite Hfa.
    destruct (put_object_fault env);
      [intros H; inversion H; subst; discriminate|].
    destruct (has artifact_id _ _);
      [intros H; inversion H; subst; discriminate|].
    destruct (_ || _); [intros H; inversion H; subst; discriminate|].
    destruct (send_task_id env) as [tid|].
    - destruct (commit_task_id_fault env);
        intros H; inversion H; subst; discriminate.
    - intros H _. inversion H; subst.
      destruct (delete_object_fault env); reflexivity. }
  assert (Hfa1 : find_artifact st1 (sha256 (content uf2)) = Some a0).
  { unfold find_artifact. rewrite Ha1, Hc.
    apply find_snoc_new; [exact Hfa|exact Hcs]. }
  assert (Hfj1 : find_job st1 (artifact_id a0) = Some j0).
  { unfold find_job. rewrite Hj1.
    apply find_snoc_new; [|exact Hja]. rewrite Haid. exact Hnj. }
  assert (Hone : forall a, In a (artifacts st1) ->
            checksum_sha256 a = sha256 (content uf) -> a = a0).
  { intros a Hin Hcs'. rewrite Ha1 in Hin. apply in_app_or in Hin.
    destruct Hin as [Hin|[<-|[]]]; [|reflexivity].
    apply (find_none _ _ Hfa) in Hin. rewrite Hcs', String.eqb_refl in Hin.
    discriminate. }
  unfold Ingestion.upload_file. rewrite Hfa1, Hfj1. unfold fail.
  cbn [andb orb].
  destruct (has report_id (uuid_report env2) (report_uploads st1));
    cbn [fst snd sent objects artifacts r_artifact_id r_parse_status].
  - split; [exact Hs1|]. split; [reflexivity|]. split; [reflexivity|].
    split; [intros a Hin Hcs'; rewrite (Hone a Hin Hcs'); exact Hobj|].
    exact I.
  - split; [exact Hs1|]. split; [reflexivity|]. split; [reflexivity|].
    split; [intros a Hin Hcs'; rewrite (Hone a Hin Hcs'); exact Hobj|].
    split; [exact Haid|]. rewrite Hq. reflexivity.
Qed.


Lemma detect_pdf_kind_iff head fname data :
  d_pdf_kind (detect_file_format head fname data) <> None
  <-> d_file_format (detect_file_format head fname data) = pdf.
Proof.
  unfold Ingestion.detect_file_format.
  destruct (String.prefix "%PDF-" head); cbn [d_pdf_kind d_file_format].
  { split; [reflexivity|discriminate]. }
  destruct (_ && _); cbn [d_pdf_kind d_file_format].
  { split; [congruence|discriminate]. }
  destruct (_looks_like_csv data); cbn [d_pdf_kind d_file_format].
  { split; [congruence|discriminate]. }
  destruct (endswith ".xlsx" _); cbn [d_pdf_kind d_file_format].
  { split; [congruence|discriminate]. }
  destruct (endswith ".pdf" _); cbn [d_pdf_kind d_file_format];
    split; congruence.
Qed.

Lemma upload_file_artifacts st env bank up uf :
  exists extra,
    artifacts (fst (upload_file st env bank up uf)) = artifacts st ++ extra
    /\ Forall artifact_wf extra.
Proof.
  unfold Ingestion.upload_file, fail.
  destruct (find_artifact st (sha256 (content uf))) as [a|].
  { exists []. rewrite app_nil_r. split; [|constructor].
    destruct (find_job st (artifact_id a)); destruct (_ || _); reflexivity. }
  destruct (put_object_fault env).
  { exists []. rewrite app_nil_r. split; [reflexivity|constructor]. }
  destruct (has artifact_id _ _).
  { exists []. rewrite app_nil_r.
    split; [destruct (delete_object_fault env); reflexivity|constructor]. }
  destruct (_ || _).
  { exists []. rewrite app_nil_r.
    split; [destruct (delete_object_fault env); reflexivity|constructor]. }
  eexists. split.
  - destruct (send_task_id env);
      [destruct (commit_task_id_fault env)|];
      try destruct (delete_object_fault env);
      cbn [fst artifacts with_objects]; reflexivity.
  - constructor; [|constructor]. split; [reflexivity|].
    cbn [pdf_kind file_format]. apply detect_pdf_kind_iff.
Qed.

Lemma upload_files_artifacts files : forall st bank up,
  Forall artifact_wf (artifacts st) ->
  Forall artifact_wf (artifacts (fst (fst (upload_files st bank up files)))).
Proof.
  induction files as [|[env uf] rest IH]; intros st bank up Hwf; [exact Hwf|].
  cbn [Ingestion.upload_files].
  destruct (upload_file_artifacts st env bank up uf) as [extra [He Hx]].
  destruct (upload_file st env bank up uf) as [st1 out]. cbn [fst] in He.
  assert (H1 : Forall artifact_wf (artifacts st1)).
  { rewrite He. apply Forall_app. auto. }
  specialize (IH st1 bank up H1).
  destruct (upload_files st1 bank up rest) as [[st2 results] errors].
  destruct out; exact IH.
Qed.

(** X10. Every artifact row the endpoint writes has the object key
    raw/<checksum>.<pdf|csv|xlsx> of its own checksum and format, and a
    pdf_kind exactly when its format is PDF. *)
Theorem artifacts_well_formed :
  forall st files x_uploader x_bank_id,
    Forall artifact_wf (artifacts st) ->
    Forall artifact_wf (artifacts (fst (upload st files x_uploader x_bank_id))).
Proof.
  intros st files xu xb Hwf. unfold IngestionApi.upload.
  destruct xb as [b|]; [|exact Hwf].
  destruct (Py.is_empty b); [exact Hwf|].
  pose proof (upload_files_artifacts files st (Py.strip b) (uploader_of xu) Hwf)
    as H.
  destruct (upload_files st (Py.strip b) (uploader_of xu) files)
    as [[st1 results] errors].
  cbn [fst] in H.
  destruct (negb (is_nil results) && negb (is_nil errors)); [exact H|].
  destruct (negb (is_nil errors) && is_nil results); exact H.
Qed.

Lemma upload_file_sent st env bank up uf :
  exists new,
    sent (fst (upload_file st env bank up uf)) = sent st ++ new
    /\ Forall (enqueued_for bank) new
    /\ (List.length new
        <= successes (snd (upload_file st env bank up uf))
           + sent_then_failed (snd (upload_file st env bank up uf)))%nat.
Proof.
  unfold Ingestion.upload_file, fail.
  destruct (find_artifact st (sha256 (content uf))) as [a|].
  { exists []. rewrite app_nil_r.
    destruct (find_job st (artifact_id a)); destruct (_ || _);
      cbn [fst snd sent successes List.length];
      (split; [reflexivity|split; [constructor|lia]]). }
  destruct (put_object_fault env).
  { exists []. rewrite app_nil_r. cbn [fst snd successes List.length].
    split; [reflexivity|split; [constructor|lia]]. }
  destruct (has artifact_id _ _).
  { exists []. rewrite app_nil_r. cbn [fst snd successes List.length].
    split; [destruct (delete_object_fault env); reflexivity|].
    split; [constructor|lia]. }
  destruct (_ || _).
  { exists []. rewrite app_nil_r. cbn [fst snd successes List.length].
    split; [destruct (delete_object_fault env); reflexivity|].
    split; [constructor|lia]. }
  destruct (send_task_id env) as [tid|];
    [destruct (commit_task_id_fault env)|].
  - eexists. cbn [fst snd successes sent_then_failed err_error].
    split; [destruct (delete_object_fault env); reflexivity|].
    split; [|cbn; lia].
    constructor; [|constructor]. split; [reflexivity|]. eexists. reflexivity.
  - eexists. cbn [fst snd sent successes]. split; [reflexivity|].
    split; [|cbn [List.length]; lia].
    constructor; [|constructor]. split; [reflexivity|]. eexists. reflexivity.
  - exists []. rewrite app_nil_r. cbn [fst snd successes List.length].
    split; [destruct (delete_object_fault env); reflexivity|].
    split; [constructor|lia].
Qed.

Lemma upload_files_sent files : forall st bank up,
  exists new,
    sent (fst (fst (upload_files st bank up files))) = sent st ++ new
    /\ Forall (enqueued_for bank) new
    /\ (List.length new
        <= List.length (snd (fst (upload_files st bank up files)))
           + commit_failures (snd (upload_files st bank up files)))%nat
    /\ (List.length (snd (fst (upload_files st bank up files)))
        + List.length (snd (upload_files st bank up files))
        = List.length files)%nat.
Proof.
  induction files as [|[env uf] rest IH]; intros st bank up.
  - exists []. rewrite app_nil_r. cbn. repeat split; constructor.
  - cbn [Ingestion.upload_files].
    destruct (upload_file_sent st env bank up uf) as [n1 [Hs1 [Hf1 Hl1]]].
    destruct (upload_file st env bank up uf) as [st1 out]. cbn [fst snd] in *.
    destruct (IH st1 bank up) as [n2 [Hs2 [Hf2 [Hl2 Hc2]]]].
    destruct (upload_files st1 bank up rest) as [[st2 results] errors].
    cbn [fst snd] in *. exists (n1 ++ n2).
    destruct out as [e|r];
      cbn [fst snd successes sent_then_failed List.length] in *;
      (split; [rewrite Hs2, Hs1; now rewrite app_assoc|]);
      (split; [apply Forall_app; auto|]);
      rewrite length_app; unfold commit_failures in *; cbn [filter];
      try destruct (String.eqb (err_error e) "commit");
      cbn [List.length]; lia.
Qed.

(** X11. What the endpoint answers.  Without an X-Bank-Id header, or with
    an empty one, it answers 400 and touches nothing.  Otherwise every file
    is counted once, as an upload or as an error; the answer is 400 only
    when there are files and all of them failed; at most one parse task is
    enqueued per file, and none for a failed one unless its failure is
    that of the commit after send_task; each task carries the header's
    value after strip(), which is empty for a header of white space. *)
Theorem upload_answers :
  forall st files x_uploader x_bank_id,
    match x_bank_id with
    | None => upload st files x_uploader x_bank_id = (st, MissingBankId)
    | Some b =>
        if Py.is_empty b
        then upload st files x_uploader x_bank_id = (st, MissingBankId)
        else
          exists new,
            sent (fst (upload st files x_uploader x_bank_id)) = sent st ++ new
            /\ Forall (enqueued_for (Py.strip b)) new
            /\ match snd (upload st files x_uploader x_bank_id) with
               | Uploads rs =>
                   List.length rs = List.length files
                   /\ (List.length new <= List.length rs)%nat
               | UploadsAndErrors rs es =>
                   rs <> [] /\ es <> []
                   /\ (List.length rs + List.length es = List.length files)%nat
                   /\ (List.length new
                       <= List.length rs + commit_failures es)%nat
               | AllFailed es =>
                   es <> [] /\ List.length es = List.length files
                   /\ (List.length new <= commit_failures es)%nat
               | MissingBankId => False
               end
    end.
Proof.
  intros st files xu xb. unfold IngestionApi.upload.
  destruct xb as [b|]; [|reflexivity].
  destruct (Py.is_empty b); [reflexivity|].
  destruct (upload_files_sent files st (Py.strip b) (uploader_of xu))
    as [new [Hs [Hf [Hl Hc]]]].
  destruct (upload_files st (Py.strip b) (uploader_of xu) files)
    as [[st1 results] errors].
  cbn [fst snd] in *. exists new.
  destruct results as [|r rs]; destruct errors as [|e es];
    cbn [is_nil negb andb fst snd] in *.
  - split; [exact Hs|]. split; [exact Hf|]. cbn in *. split; lia.
  - split; [exact Hs|]. split; [exact Hf|].
    split; [discriminate|]. cbn [List.length] in *. split; lia.
  - split; [exact Hs|]. split; [exact Hf|].
    unfold commit_failures in Hl. cbn [filter List.length] in *. split; lia.
  - split; [exact Hs|]. split; [exact Hf|].
    split; [discriminate|]. split; [discriminate|].
    cbn [List.length] in *. split; lia.
Qed.

End IngestionInvariants.

Section IngestionExamplesMore.
Import Ingestion IngestionApi.

Lemma upload_keeps_constraints_witness :
  store_ok
    (fst (IngestionApi.upload toy_digest (fun _ => unknown) (fun _ => false)
            (fun _ => true) empty_store
            [(env_a, mkUploadFile (Some "a.csv") csv_bytes None);
             (env_b, mkUploadFile (Some "again.csv") csv_bytes None)]
            None (Some "bank"))).
Proof.
  apply upload_keeps_constraints.
  repeat split; try constructor; intros x Hx; exact Hx.
Defined.


Lemma unsent_artifact_stays_unparsed_witness :
  sent (fst (Ingestion.upload_file toy_digest (fun _ => unknown) (fun _ => false)
               (fun _ => true)
               (fst (Ingestion.upload_file toy_digest (fun _ => unknown)
                       (fun _ => false) (fun _ => true) empty_store
                       env_no_broker "bank" "alice"
                       (mkUploadFile (Some "a.csv") csv_bytes None)))
               env_b "bank" "bob"
               (mkUploadFile (Some "again.csv") csv_bytes None))) = [].
Proof.
  destruct (unsent_artifact_stays_unparsed toy_digest (fun _ => unknown)
              (fun _ => false) (fun _ => true) empty_store env_no_broker
              "bank" "alice" (mkUploadFile (Some "a.csv") csv_bytes None)
              _ _ eq_refl eq_refl env_b "bank" "bob"
              (mkUploadFile (Some "again.csv") csv_bytes None) eq_refl)
    as [H _].
  exact H.
Defined.

Lemma artifacts_well_formed_witness :
  Forall artifact_wf
    (artifacts
       (fst (IngestionApi.upload toy_digest (fun _ => unknown) (fun _ => false)
               (fun _ => true) empty_store
               [(env_a, mkUploadFile (Some "a.csv") csv_bytes None)]
               None (Some "bank")))).
Proof. apply artifacts_well_formed. constructor. Defined.

End IngestionExamplesMore.
(* ================================================================== *)
(** * analyze_lifecycle: the other flags                               *)
(* ================================================================== *)

Section ReasoningFlags.
Import Reasoning.






End ReasoningFlags.
(* ================================================================== *)
(** * The graph writer: MERGE as a keyed update                        *)
(* ================================================================== *)

Section GraphMerge.
Import Neo4jWriter.

Lemma same_edge_refl e : same_edge e e = true.
Proof. unfold same_edge. now rewrite !String.eqb_refl. Qed.

Lemma same_edge_key a b : same_edge a b = true <-> edge_key a = edge_key b.
Proof.
  unfold same_edge, edge_key. rewrite !andb_true_iff, !String.eqb_eq.
  split; [intros [[-> ->] ->]; reflexivity|intros H; inversion H; auto].
Qed.

Lemma same_edge_sym a b : same_edge a b = same_edge b a.
Proof.
  unfold same_edge.
  now rewrite (String.eqb_sym (e_transaction_pk a)),
              (String.eqb_sym (e_rel_type a)), (String.eqb_sym (e_edge_id a)).
Qed.

Lemma same_edge_trans a b c :
  same_edge a b = true -> same_edge b c = true -> same_edge a c = true.
Proof. rewrite !same_edge_key. congruence. Qed.

Lemma same_edge_left a b c :
  same_edge a b = true -> same_edge a c = same_edge b c.
Proof.
  intros H. destruct (same_edge b c) eqn:E.
  - eapply same_edge_trans; eauto.
  - destruct (same_edge a c) eqn:E'; [|reflexivity].
    rewrite same_edge_sym in H. rewrite <- E. symmetry.
    eapply same_edge_trans; eauto.
Qed.

(** A second MERGE on the same key replaces what the first one set. *)
Lemma merge_same e e' g :
  same_edge e e' = true -> merge_edge e (merge_edge e' g) = merge_edge e g.
Proof.
  intros H. induction g as [|x g IH]; cbn [merge_edge].
  - now rewrite H.
  - rewrite (same_edge_left e e' x H).
    destruct (same_edge e' x) eqn:E; cbn [merge_edge].
    + now rewrite H.
    + rewrite (same_edge_left e e' x H), E. now rewrite IH.
Qed.

(** MERGEs on different keys commute once one of the keys is there. *)
Lemma merge_comm e e' g :
  same_edge e e' = false -> has_edge e g = true ->
  merge_edge e (merge_edge e' g) = merge_edge e' (merge_edge e g).
Proof.
  intros Hne. unfold has_edge. induction g as [|x g IH]; cbn [existsb merge_edge];
    [discriminate|].
  destruct (same_edge e x) eqn:Ex.
  - intros _. assert (Ex' : same_edge e' x = false).
    { rewrite (same_edge_left e x e' Ex), same_edge_sym in Hne. exact Hne. }
    rewrite Ex'. cbn [merge_edge]. rewrite Ex.
    rewrite same_edge_sym in Hne. now rewrite Hne.
  - cbn [orb]. intros Hg. destruct (same_edge e' x) eqn:Ex'; cbn [merge_edge].
    + rewrite Hne, Ex'. reflexivity.
    + rewrite Ex, Ex'. now rewrite IH.
Qed.

Lemma has_edge_merge e e' g :
  has_edge e (merge_edge e' g) = has_edge e g || same_edge e e'.
Proof.
  unfold has_edge. induction g as [|x g IH]; cbn [merge_edge existsb].
  - now rewrite orb_false_r.
  - destruct (same_edge e' x) eqn:E; cbn [existsb].
    + assert (Hx : same_edge e x = same_edge e e').
      { rewrite (same_edge_sym e x), (same_edge_sym e e'). symmetry.
        now apply same_edge_left. }
      rewrite Hx. destruct (same_edge e e'), (existsb (same_edge e) g);
        reflexivity.
    + rewrite IH. now rewrite orb_assoc.
Qed.

Lemma has_edge_merge_all es : forall e g,
  has_edge e g = true -> has_edge e (merge_all es g) = true.
Proof.
  induction es as [|x es IH]; intros e g H; [exact H|].
  cbn [merge_all fold_left]. apply IH. rewrite has_edge_merge, H. reflexivity.
Qed.

Lemma merge_all_has es : forall g e,
  In e es -> has_edge e (merge_all es g) = true.
Proof.
  induction es as [|x es IH]; intros g e Hin; [destruct Hin|].
  destruct Hin as [<-|Hin]; cbn [merge_all fold_left].
  - apply has_edge_merge_all. rewrite has_edge_merge, same_edge_refl.
    apply orb_true_r.
  - now apply IH.
Qed.

(** A MERGE whose key is there is absorbed by a later MERGE on that key,
    whatever is merged in between on keys that are there. *)
Lemma merge_absorb ws : forall w g,
  Forall (fun e => has_edge e g = true) ws ->
  merge_edge w (merge_all ws (merge_edge w g)) = merge_edge w (merge_all ws g).
Proof.
  induction ws as [|v ws IH]; intros w g Hall; cbn [merge_all fold_left].
  - apply merge_same, same_edge_refl.
  - inversion Hall as [|? ? Hv Hrest]; subst.
    assert (Hrest' : Forall (fun e => has_edge e (merge_edge v g) = true) ws).
    { eapply Forall_impl; [|exact Hrest]. intros e He. cbn beta in *.
      rewrite has_edge_merge, He. reflexivity. }
    destruct (same_edge v w) eqn:E.
    + rewrite (merge_same v w g E). reflexivity.
    + rewrite (merge_comm v w g E Hv). exact (IH w (merge_edge v g) Hrest').
Qed.

Lemma merge_all_app es1 es2 g :
  merge_all (es1 ++ es2) g = merge_all es2 (merge_all es1 g).
Proof. unfold merge_all. apply fold_left_app. Qed.

(** Replaying a sequence of MERGEs changes nothing. *)
Lemma merge_all_idem es : forall g,
  merge_all es (merge_all es g) = merge_all es g.
Proof.
  induction es as [|w es IH] using rev_ind; intros g; [reflexivity|].
  rewrite !merge_all_app. cbn [merge_all fold_left].
  fold (merge_all es g). fold (merge_all es (merge_edge w (merge_all es g))).
  rewrite merge_absorb.
  - now rewrite IH.
  - apply Forall_forall. intros e He. now apply merge_all_has.
Qed.

Lemma apply_writes_edges ws : forall g,
  fold_left apply_write ws g = merge_all (edges_of ws) g.
Proof.
  induction ws as [|w ws IH]; intros g; [reflexivity|].
  cbn [fold_left edges_of flat_map]. rewrite IH.
  unfold edges_of. rewrite merge_all_app.
  destruct w; reflexivity.
Qed.


Lemma merge_in_cases e g a : In a (merge_edge e g) -> a = e \/ In a g.
Proof.
  induction g as [|x g IH]; cbn [merge_edge].
  - intros [<-|[]]. now left.
  - destruct (same_edge e x).
    + intros [<-|H]; [now left|right; now right].
    + intros [<-|H]; [right; now left|].
      destruct (IH H); [now left|right; now right].
Qed.

Lemma merge_keep e g a :
  In a g -> same_edge e a = false -> In a (merge_edge e g).
Proof.
  induction g as [|x g IH]; cbn [merge_edge]; [intros []|].
  intros [->|Hin] Hne.
  - rewrite Hne. now left.
  - destruct (same_edge e x); right; auto.
Qed.

Lemma merge_follow e g a :
  In a g ->
  exists a', In a' (merge_edge e g) /\ same_edge a' a = true /\ (a' = a \/ a' = e).
Proof.
  induction g as [|x g IH]; cbn [merge_edge]; [intros []|].
  intros [->|Hin].
  - destruct (same_edge e a) eqn:E.
    + exists e. split; [now left|]. split; [exact E|now right].
    + exists a. split; [now left|]. split; [apply same_edge_refl|now left].
  - destruct (same_edge e x).
    + exists a. split; [now right|]. split; [apply same_edge_refl|now left].
    + destruct (IH Hin) as [a' [H1 [H2 H3]]]. exists a'. split; [now right|auto].
Qed.

Lemma merge_all_in_cases es : forall g a,
  In a (merge_all es g) -> In a es \/ In a g.
Proof.
  induction es as [|e es IH]; intros g a H; [now right|].
  cbn [merge_all fold_left] in H. destruct (IH _ _ H) as [H1|H1].
  - left. now right.
  - destruct (merge_in_cases _ _ _ H1) as [->|H2]; [left; now left|now right].
Qed.

Lemma merge_all_keep es : forall g a,
  In a g -> Forall (fun e => same_edge e a = false) es -> In a (merge_all es g).
Proof.
  induction es as [|e es IH]; intros g a Hin Hall; [exact Hin|].
  inversion Hall; subst. cbn [merge_all fold_left]. apply IH; [|assumption].
  now apply merge_keep.
Qed.

Lemma merge_all_follow es : forall g a,
  In a g ->
  exists a', In a' (merge_all es g) /\ same_edge a' a = true
             /\ (a' = a \/ In a' es).
Proof.
  induction es as [|e es IH]; intros g a Hin.
  - exists a. split; [exact Hin|]. split; [apply same_edge_refl|now left].
  - cbn [merge_all fold_left].
    destruct (merge_follow e g a Hin) as [a1 [H1 [H2 H3]]].
    destruct (IH _ _ H1) as [a2 [G1 [G2 G3]]]. exists a2.
    split; [exact G1|]. split; [eapply same_edge_trans; eauto|].
    destruct G3 as [->|G3]; [|right; now right].
    destruct H3 as [->| ->]; [now left|right; now left].
Qed.

Lemma merge_all_present es : forall g e,
  In e es ->
  exists e', In e' (merge_all es g) /\ same_edge e' e = true /\ In e' es.
Proof.
  induction es as [|x es IH]; intros g e Hin; [destruct Hin|].
  destruct Hin as [<-|Hin]; cbn [merge_all fold_left].
  - assert (Hx : In x (merge_edge x g)).
    { induction g as [|y g IHg]; cbn [merge_edge]; [now left|].
      destruct (same_edge x y); [now left|now right]. }
    destruct (merge_all_follow es _ _ Hx) as [a' [H1 [H2 H3]]].
    exists a'. split; [exact H1|]. split; [exact H2|].
    destruct H3 as [->|H3]; [now left|now right].
  - destruct (IH (merge_edge x g) e Hin) as [e' [H1 [H2 H3]]].
    exists e'. split; [exact H1|]. split; [exact H2|now right].
Qed.

Lemma merge_keys e g :
  map edge_key (merge_edge e g)
  = if has_edge e g then map edge_key g else map edge_key g ++ [edge_key e].
Proof.
  unfold has_edge. induction g as [|x g IH]; cbn [merge_edge existsb map app];
    [reflexivity|].
  destruct (same_edge e x) eqn:E; cbn [map orb].
  - apply same_edge_key in E. now rewrite E.
  - rewrite IH. destruct (existsb (same_edge e) g); reflexivity.
Qed.

Lemma has_edge_false_key e g : has_edge e g = false -> ~ In (edge_key e) (map edge_key g).
Proof.
  unfold has_edge. intros H Hin. apply in_map_iff in Hin.
  destruct Hin as [x [Hk Hx]].
  assert (existsb (same_edge e) g = true).
  { apply existsb_exists. exists x. split; [exact Hx|].
    apply same_edge_key. now symmetry. }
  congruence.
Qed.

Lemma merge_all_nodup es : forall g,
  NoDup (map edge_key g) -> NoDup (map edge_key (merge_all es g)).
Proof.
  induction es as [|e es IH]; intros g H; [exact H|].
  cbn [merge_all fold_left]. apply IH. rewrite merge_keys.
  destruct (has_edge e g) eqn:E; [exact H|].
  apply NoDup_snoc; [exact H|now apply has_edge_false_key].
Qed.

Lemma merge_all_length es : forall g,
  (List.length g <= List.length (merge_all es g)
   <= List.length g + List.length es)%nat.
Proof.
  induction es as [|e es IH]; intros g; cbn [merge_all fold_left List.length];
    [lia|].
  specialize (IH (merge_edge e g)).
  assert (H : (List.length g <= List.length (merge_edge e g)
               <= S (List.length g))%nat).
  { rewrite <- (length_map edge_key (merge_edge e g)), merge_keys.
    destruct (has_edge e g); rewrite ?length_app, length_map; simpl; lia. }
  fold (merge_all es (merge_edge e g)) in IH |- *. lia.
Qed.

Lemma app_inv_head_string (p a b : string) :
  (p ++ a)%string = (p ++ b)%string -> a = b.
Proof. induction p as [|c p IH]; simpl; intros H; [exact H|]. inversion H. auto. Qed.

Lemma stage_edge_same_stage pk s s' :
  same_edge (stage_edge_of pk s') (stage_edge_of pk s) = true ->
  stage s' = stage s.
Proof.
  unfold same_edge, stage_edge_of. cbn [e_transaction_pk e_rel_type e_edge_id].
  rewrite !andb_true_iff, !String.eqb_eq. intros [[_ Hr] Hid].
  rewrite Hr in Hid. apply app_inv_head_string in Hid.
  apply (app_inv_head_string "|") in Hid. apply app_inv_head_string in Hid.
  now apply (app_inv_head_string "|") in Hid.
Qed.

Section Oracle.

Variable fromisoformat : string -> option DateTime.t.

(** The relationships a returning write merges: one per stage given. *)
Lemma write_lifecycle_edges pk tid mpk bank net stages ws :
  _write_lifecycle fromisoformat pk tid mpk bank net stages = Return ws ->
  exists ordered,
    Permutation ordered stages
    /\ edges_of ws = map (stage_edge_of pk) ordered.
Proof.
  intros H.
  destruct (with_keys fromisoformat stages) as [keyed|] eqn:Hk.
  2:{ unfold _write_lifecycle in H. rewrite Hk in H. discriminate. }
  destruct ((2 <=? List.length keyed)%nat && negb (same_kind keyed)) eqn:Hg.
  { unfold _write_lifecycle in H. rewrite Hk, Hg in H. discriminate. }
  destruct (write_lifecycle_returns fromisoformat pk tid mpk bank net stages
              keyed Hk (guard_one_kind keyed Hg)) as [nodes [Hw [_ Hr]]].
  unfold _write_lifecycle in H. rewrite Hk, Hg, Hw in H.
  destruct (with_keys_spec fromisoformat stages keyed Hk) as [Hm _].
  exists (map snd (sort_by_time keyed)). split.
  - rewrite <- Hm. apply Permutation_map, sort_by_time_perm.
  - inversion H; subst. unfold edges_of.
    assert (Hl : forall l, flat_map edge_of_write (map (edge_write pk) l)
                           = map (stage_edge_of pk) l).
    { induction l as [|s l IH]; [reflexivity|].
      cbn [map flat_map edge_write edge_of_write app]. now rewrite IH. }
    destruct bank as [b|]; [destruct (Py.is_empty b)|];
      cbn [app flat_map edge_of_write]; apply Hl.
Qed.

(** X14. The graph write is idempotent: when upsert_lifecycle returns,
    running it again with the same arguments on the graph it produced
    returns that graph unchanged. *)
Theorem upsert_lifecycle_idempotent :
  forall g pk tid mpk bank net stages g1,
    upsert_lifecycle fromisoformat g pk tid mpk bank net stages = Return g1 ->
    upsert_lifecycle fromisoformat g1 pk tid mpk bank net stages = Return g1.
Proof.
  intros g pk tid mpk bank net stages g1. unfold upsert_lifecycle.
  destruct (_write_lifecycle fromisoformat pk tid mpk bank net stages)
    as [ws|e]; [|discriminate].
  intros H. inversion H; subst. f_equal.
  rewrite !apply_writes_edges. apply merge_all_idem.
Qed.

(** X15. What upsert_lifecycle changes when it returns.  Relationships of
    other transactions are neither touched nor added; every stage given
    has afterwards a relationship under its key (transaction, type,
    edge_id) carrying its stage; keys that were unique stay unique; and
    the graph grows by at most one relationship per stage given. *)
Theorem upsert_lifecycle_frame :
  forall g pk tid mpk bank net stages g1,
    upsert_lifecycle fromisoformat g pk tid mpk bank net stages = Return g1 ->
    (forall e, e_transaction_pk e <> pk -> (In e g1 <-> In e g))
    /\ (forall s, In s stages ->
          exists e, In e g1 /\ edge_key e = edge_key (stage_edge_of pk s)
                    /\ e_stage e = stage s)
    /\ (NoDup (map edge_key g) -> NoDup (map edge_key g1))
    /\ (List.length g <= List.length g1
        <= List.length g + List.length stages)%nat.
Proof.
  intros g pk tid mpk bank net stages g1. unfold upsert_lifecycle.
  destruct (_write_lifecycle fromisoformat pk tid mpk bank net stages)
    as [ws|e] eqn:Hw; [|discriminate].
  intros H. inversion H; subst. clear H. rewrite apply_writes_edges.
  destruct (write_lifecycle_edges _ _ _ _ _ _ _ Hw) as [ordered [Hp He]].
  rewrite He. split; [|split; [|split]].
  - intros e Hpk. split.
    + intros Hin. destruct (merge_all_in_cases _ _ _ Hin) as [H|H]; [|exact H].
      apply in_map_iff in H. destruct H as [s [<- _]]. now elim Hpk.
    + intros Hin. apply merge_all_keep; [exact Hin|].
      apply Forall_forall. intros x Hx. apply in_map_iff in Hx.
      destruct Hx as [s [<- _]]. unfold same_edge, stage_edge_of.
      cbn [e_transaction_pk].
      destruct (String.eqb pk (e_transaction_pk e)) eqn:E; [|reflexivity].
      apply String.eqb_eq in E. now elim Hpk.
  - intros s Hs.
    assert (Hin : In (stage_edge_of pk s) (map (stage_edge_of pk) ordered)).
    { apply in_map. eapply Permutation_in; [symmetry; exact Hp|exact Hs]. }
    destruct (merge_all_present _ g _ Hin) as [e' [H1 [H2 H3]]].
    exists e'. split; [exact H1|]. split; [now apply same_edge_key|].
    apply in_map_iff in H3. destruct H3 as [s' [<- _]].
    now apply (stage_edge_same_stage pk).
  - apply merge_all_nodup.
  - pose proof (merge_all_length (map (stage_edge_of pk) ordered) g) as Hl.
    rewrite length_map, (Permutation_length Hp) in Hl. exact Hl.
Qed.

End Oracle.

End GraphMerge.

Section GraphMergeExamples.
Import Neo4jWriter.

Lemma upsert_lifecycle_idempotent_witness :
  upsert_lifecycle DateTime.iso_parse
    [ mkEdge "b1:T1" "AUTHORIZED" "b1:T1|AUTHORIZED|AUTH" "AUTH"
             "2025-01-01T00:00:00+00:00";
      mkEdge "b1:T1" "SETTLED" "b1:T1|SETTLED|SETTLEMENT" "SETTLEMENT"
             "2025-01-02T00:00:00+00:00" ]
    "b1:T1" "T1" "b1:M1" None "VISA" [settled_jan2; authorized_jan1]
  = Return
      [ mkEdge "b1:T1" "AUTHORIZED" "b1:T1|AUTHORIZED|AUTH" "AUTH"
               "2025-01-01T00:00:00+00:00";
        mkEdge "b1:T1" "SETTLED" "b1:T1|SETTLED|SETTLEMENT" "SETTLEMENT"
               "2025-01-02T00:00:00+00:00" ].
Proof.
  apply (upsert_lifecycle_idempotent DateTime.iso_parse [] "b1:T1" "T1" "b1:M1"
           None "VISA" [settled_jan2; authorized_jan1]).
  vm_compute. reflexivity.
Defined.

Lemma upsert_lifecycle_frame_witness :
  exists e,
    In e [ mkEdge "b2:T9" "AUTHORIZED" "b2:T9|AUTHORIZED|AUTH" "AUTH"
                  "2024-06-01T00:00:00+00:00";
           mkEdge "b1:T1" "CLEARED" "b1:T1|CLEARED|CLEARING" "CLEARING"
                  "2025-01-01T12:00:00+00:00" ]
    /\ edge_key e = edge_key (stage_edge_of "b1:T1" cleared_jan1_noon)
    /\ e_stage e = "CLEARING".
Proof.
  destruct (upsert_lifecycle_frame DateTime.iso_parse
              [ mkEdge "b2:T9" "AUTHORIZED" "b2:T9|AUTHORIZED|AUTH" "AUTH"
                       "2024-06-01T00:00:00+00:00" ]
              "b1:T1" "T1" "b1:M1" None "VISA" [cleared_jan1_noon]
              [ mkEdge "b2:T9" "AUTHORIZED" "b2:T9|AUTHORIZED|AUTH" "AUTH"
                       "2024-06-01T00:00:00+00:00";
                mkEdge "b1:T1" "CLEARED" "b1:T1|CLEARED|CLEARING" "CLEARING"
                       "2025-01-01T12:00:00+00:00" ])
    as [_ [H _]].
  - vm_compute. reflexivity.
  - exact (H cleared_jan1_noon (or_introl eq_refl)).
Defined.

End GraphMergeExamples.
(* ================================================================== *)
(** * The callers of the graph writer                                  *)
(* ================================================================== *)

Section GraphCallersFacts.
Import Schema Neo4jWriter GraphCallers.

Variable fromisoformat : string -> option DateTime.t.
Variable isoformat : DateTime.t -> string.
Variable set_fault : string -> option exn.

#[local] Abbreviation persist_fact :=
  (GraphCallers.persist_fact fromisoformat isoformat set_fault).
#[local] Abbreviation persist_graph :=
  (GraphCallers.persist_graph fromisoformat isoformat set_fault).
#[local] Abbreviation upsert_graph_with_anomalies :=
  (GraphCallers.upsert_graph_with_anomalies fromisoformat isoformat set_fault).

Lemma get_set_const pk v ps :
  get_props pk (set_props pk (fun _ => v) ps) = Some v.
Proof.
  unfold get_props. induction ps as [|[k x] ps IH]; cbn [set_props find fst].
  - now rewrite String.eqb_refl.
  - destruct (String.eqb k pk) eqn:E; cbn [find fst]; rewrite E; [reflexivity|].
    exact IH.
Qed.

Lemma get_set_const_other pk pk' v ps :
  get_props pk ps = Some v -> get_props pk (set_props pk' (fun _ => v) ps) = Some v.
Proof.
  unfold get_props. induction ps as [|[k x] ps IH]; cbn [set_props find fst];
    [discriminate|].
  destruct (String.eqb k pk) eqn:E; destruct (String.eqb k pk') eqn:E';
    cbn [find fst option_map snd]; rewrite ?E; auto.
Qed.

Lemma set_const_noop pk v ps :
  get_props pk ps = Some v -> set_props pk (fun _ => v) ps = ps.
Proof.
  unfold get_props. induction ps as [|[k x] ps IH]; cbn [set_props find fst];
    [discriminate|].
  destruct (String.eqb k pk) eqn:E; cbn [option_map snd].
  - intros H. inversion H. reflexivity.
  - intros H. now rewrite IH.
Qed.

Lemma set_all_keeps pks v : forall ps pk,
  get_props pk ps = Some v -> get_props pk (set_all pks v ps) = Some v.
Proof.
  induction pks as [|k pks IH]; intros ps pk H; [exact H|].
  cbn [set_all fold_left]. apply IH. now apply get_set_const_other.
Qed.

Lemma set_all_bound pks v : forall ps pk,
  In pk pks -> get_props pk (set_all pks v ps) = Some v.
Proof.
  induction pks as [|k pks IH]; intros ps pk Hin; [destruct Hin|].
  destruct Hin as [<-|Hin]; cbn [set_all fold_left].
  - apply set_all_keeps, get_set_const.
  - now apply IH.
Qed.

Lemma set_all_noop pks v : forall ps,
  (forall pk, In pk pks -> get_props pk ps = Some v) -> set_all pks v ps = ps.
Proof.
  induction pks as [|k pks IH]; intros ps H; [reflexivity|].
  cbn [set_all fold_left]. rewrite set_const_noop by (apply H; now left).
  apply IH. intros pk Hin. apply H. now right.
Qed.

(** One fact: the write fails on a text that does not parse, and is one
    MERGE of a relationship and one SET otherwise. *)
Lemma persist_fact_cases bank g tx :
  persist_fact bank g tx
  = match parse_time fromisoformat (isoformat (timestamp_utc tx)) with
    | None => (g, Some (ValueError "Invalid isoformat string"))
    | Some _ =>
        match set_fault (fact_pk bank tx) with
        | Some e =>
            (mkGraph (merge_edge (fact_edge isoformat bank tx) (edges g))
                     (props g), Some e)
        | None =>
            (mkGraph (merge_edge (fact_edge isoformat bank tx) (edges g))
               (set_props (fact_pk bank tx)
                  (fun _ => mkNodeProps (Some bank) (Some no_anomalies))
                  (props g)), None)
        end
    end.
Proof.
  unfold GraphCallers.persist_fact, upsert_lifecycle, _write_lifecycle.
  cbn [with_keys event_time]. fold (fact_pk bank tx).
  destruct (parse_time fromisoformat (isoformat (timestamp_utc tx)));
    [|reflexivity].
  destruct (set_fault (fact_pk bank tx)); reflexivity.
Qed.

Lemma persist_graph_returns bank txs : forall g g1,
  persist_graph bank txs g = (g1, None) ->
  edges g1 = merge_all (map (fact_edge isoformat bank) txs) (edges g)
  /\ props g1 = set_all (map (fact_pk bank) txs)
                        (mkNodeProps (Some bank) (Some no_anomalies)) (props g)
  /\ Forall (fun tx => parse_time fromisoformat (isoformat (timestamp_utc tx))
                       <> None
                       /\ set_fault (fact_pk bank tx) = None) txs.
Proof.
  induction txs as [|tx txs IH]; intros g g1; cbn [GraphCallers.persist_graph].
  - intros H. inversion H; subst. repeat split. constructor.
  - rewrite persist_fact_cases.
    destruct (parse_time fromisoformat (isoformat (timestamp_utc tx))) eqn:E;
      [|discriminate].
    destruct (set_fault (fact_pk bank tx)) eqn:Ef; [discriminate|].
    intros H. destruct (IH _ _ H) as [H1 [H2 H3]]. cbn [edges props] in *.
    split; [exact H1|]. split; [exact H2|].
    constructor; [split; congruence|exact H3].
Qed.

Lemma persist_graph_runs bank txs : forall g,
  Forall (fun tx => parse_time fromisoformat (isoformat (timestamp_utc tx))
                    <> None
                    /\ set_fault (fact_pk bank tx) = None) txs ->
  persist_graph bank txs g
  = (mkGraph (merge_all (map (fact_edge isoformat bank) txs) (edges g))
             (set_all (map (fact_pk bank) txs)
                      (mkNodeProps (Some bank) (Some no_anomalies)) (props g)),
     None).
Proof.
  induction txs as [|tx txs IH]; intros g Hall;
    cbn [GraphCallers.persist_graph].
  - destruct g; reflexivity.
  - inversion Hall as [|? ? [Hp Hf] Hrest]; subst. rewrite persist_fact_cases.
    destruct (parse_time fromisoformat (isoformat (timestamp_utc tx)));
      [|contradiction].
    rewrite Hf. now rewrite (IH _ Hrest).
Qed.

(** X16. persist_graph can be replayed: when it has returned, running it
    again on the same facts leaves the graph as it is.  Every relationship
    it adds has type AUTHORIZED, whatever the lifecycle stage of the fact,
    and every fact's Transaction node carries the bank id and the default
    anomaly flags (all false, no gap). *)
Theorem persist_graph_replay :
  forall bank txs g g1,
    persist_graph bank txs g = (g1, None) ->
    persist_graph bank txs g1 = (g1, None)
    /\ (forall e, In e (edges g1) ->
          In e (edges g)
          \/ (e_rel_type e = "AUTHORIZED"
              /\ exists tx, In tx txs
                   /\ e_transaction_pk e = fact_pk bank tx
                   /\ e_stage e = stage_value (lifecycle_stage tx)))
    /\ (forall tx, In tx txs ->
          get_props (fact_pk bank tx) (props g1)
          = Some (mkNodeProps (Some bank) (Some no_anomalies))).
Proof.
  intros bank txs g g1 H.
  destruct (persist_graph_returns _ _ _ _ H) as [He [Hp Hall]].
  split; [|split].
  - rewrite (persist_graph_runs bank txs g1 Hall). rewrite He, Hp.
    rewrite merge_all_idem, set_all_noop.
    + destruct g1 as [eg pg]. cbn [edges props] in *. now rewrite He, Hp.
    + intros pk Hin. now apply set_all_bound.
  - intros e Hin. rewrite He in Hin.
    destruct (merge_all_in_cases _ _ _ Hin) as [H1|H1]; [right|now left].
    apply in_map_iff in H1. destruct H1 as [tx [<- Htx]].
    split; [reflexivity|]. exists tx. auto.
  - intros tx Htx. rewrite Hp. apply set_all_bound. now apply in_map.
Qed.

Lemma set_props_twice pk upd ps :
  (forall o, upd (Some (upd o)) = upd o) ->
  set_props pk upd (set_props pk upd ps) = set_props pk upd ps.
Proof.
  intros Hu. induction ps as [|[k x] ps IH]; cbn [set_props].
  - rewrite String.eqb_refl. now rewrite Hu.
  - destruct (String.eqb k pk) eqn:E; cbn [set_props]; rewrite E.
    + now rewrite Hu.
    + now rewrite IH.
Qed.

Lemma get_set_props pk upd ps :
  exists old, get_props pk (set_props pk upd ps) = Some (upd old).
Proof.
  unfold get_props. induction ps as [|[k x] ps IH]; cbn [set_props find fst].
  - exists None. now rewrite String.eqb_refl.
  - destruct (String.eqb k pk) eqn:E; cbn [find fst]; rewrite E.
    + exists (Some x). reflexivity.
    + exact IH.
Qed.

(** X17. upsert_graph_with_anomalies.  When it returns, the anomalies
    returned are those of analyze_lifecycle and are the flags stored on
    the Transaction node; every stage record has a relationship of the
    type its stage maps to (AUTHORIZED, CLEARED, SETTLED, and FLOW for any
    other stage name); and the call can be replayed without changing the
    graph.  When it raises, the properties of the nodes are as before; the
    relationships are as before too, unless the exception is that of the
    statement setting the flags: that statement runs after the
    relationships are committed, so they are all written while the flags
    are not. *)
Theorem upsert_graph_with_anomalies_spec :
  forall g pk tid mpk bank net stages,
    let written (g1 : Graph) :=
      forall s, In s stages ->
        exists e, In e (edges g1)
          /\ e_transaction_pk e = pk
          /\ e_rel_type e = _rel_for_stage (Reasoning.stage s)
          /\ e_stage e = Reasoning.stage s in
    match upsert_graph_with_anomalies g pk tid mpk bank net stages with
    | (g1, Return a) =>
        Reasoning.analyze_lifecycle stages = Some a
        /\ option_map np_flags (get_props pk (props g1)) = Some (Some a)
        /\ written g1
        /\ upsert_graph_with_anomalies g1 pk tid mpk bank net stages
           = (g1, Return a)
    | (g1, Raise e) =>
        props g1 = props g
        /\ (g1 = g \/ (set_fault pk = Some e /\ written g1))
    end
    /\ (forall st, _rel_for_stage st = "FLOW"
                   <-> st <> "AUTH" /\ st <> "CLEARING" /\ st <> "SETTLEMENT").
Proof.
  intros g pk tid mpk bank net stages written. split.
  - unfold GraphCallers.upsert_graph_with_anomalies.
    destruct (Reasoning.analyze_lifecycle stages) as [a|] eqn:Ha; [|auto].
    unfold upsert_lifecycle.
    destruct (_write_lifecycle fromisoformat pk tid mpk bank net _) as [ws|e]
      eqn:Hw; [|auto].
    assert (Hwritten : forall ps,
               written (mkGraph (fold_left apply_write ws (edges g)) ps)).
    { intros ps s Hs. cbn [edges]. rewrite apply_writes_edges.
      destruct (write_lifecycle_edges _ _ _ _ _ _ _ _ Hw) as [ordered [Hp He]].
      rewrite He.
      set (se := mkStageEdge (_rel_for_stage (Reasoning.stage s))
                   (Reasoning.stage s)
                   (isoformat (DateTime.mk (Reasoning.timestamp_utc s)
                                           DateTime.utc))).
      assert (Hin : In (stage_edge_of pk se) (map (stage_edge_of pk) ordered)).
      { apply in_map. eapply Permutation_in; [symmetry; exact Hp|].
        apply in_map_iff. exists s. split; [reflexivity|exact Hs]. }
      destruct (merge_all_present _ (edges g) _ Hin) as [e' [H1 [H2 H3]]].
      exists e'. split; [exact H1|].
      apply in_map_iff in H3. destruct H3 as [s' [<- _]].
      pose proof (stage_edge_same_stage pk se s' H2) as Hst.
      unfold same_edge in H2. rewrite !andb_true_iff, !String.eqb_eq in H2.
      destruct H2 as [[_ Hr] _]. cbn [stage_edge_of e_transaction_pk e_rel_type
                                      e_stage] in *.
      split; [reflexivity|]. split; [exact Hr|exact Hst]. }
    destruct (set_fault pk) as [e|] eqn:Hf.
    + cbn [props]. split; [reflexivity|]. right. split; [reflexivity|].
      apply Hwritten.
    + split; [reflexivity|]. split; [|split].
      * cbn [props].
        destruct (get_set_props pk
                    (fun old => mkNodeProps
                                  (match old with
                                   | Some p => np_bank_id p | None => None end)
                                  (Some a)) (props g)) as [old ->].
        reflexivity.
      * apply Hwritten.
      * cbn [edges props]. rewrite !apply_writes_edges.
        rewrite merge_all_idem. rewrite set_props_twice by reflexivity.
        reflexivity.
  - intros st. unfold _rel_for_stage.
    destruct (String.eqb st "AUTH") eqn:E1;
      [apply String.eqb_eq in E1; subst; split; [discriminate|tauto]|].
    destruct (String.eqb st "CLEARING") eqn:E2;
      [apply String.eqb_eq in E2; subst; split; [discriminate|tauto]|].
    destruct (String.eqb st "SETTLEMENT") eqn:E3;
      [apply String.eqb_eq in E3; subst; split; [discriminate|tauto]|].
    apply String.eqb_neq in E1, E2, E3. tauto.
Qed.

End GraphCallersFacts.

Section GraphCallersExamples.
Import Schema Neo4jWriter GraphCallers.

Lemma persist_graph_replay_witness :
  persist_graph DateTime.iso_parse noon_text (fun _ => None) "b1"
    [settled_fact]
    (mkGraph
       [ mkEdge "b1:T1" "AUTHORIZED" "b1:T1|AUTHORIZED|SETTLEMENT" "SETTLEMENT"
                "2025-01-01T12:00:00+00:00" ]
       [ ("b1:T1", mkNodeProps (Some "b1") (Some no_anomalies)) ])
  = (mkGraph
       [ mkEdge "b1:T1" "AUTHORIZED" "b1:T1|AUTHORIZED|SETTLEMENT" "SETTLEMENT"
                "2025-01-01T12:00:00+00:00" ]
       [ ("b1:T1", mkNodeProps (Some "b1") (Some no_anomalies)) ],
     None).
Proof.
  destruct (persist_graph_replay DateTime.iso_parse noon_text (fun _ => None)
              "b1" [settled_fact] (mkGraph [] []) _ eq_refl) as [H _].
  exact H.
Defined.

End GraphCallersExamples.
(* ================================================================== *)
(** * The validators: outcomes and normal forms                        *)
(* ================================================================== *)

Section ValidatorFacts.
Import Py Schema Validate.

Lemma is_space_upper c : is_space (upper_char c) = is_space c.
Proof. destruct c as [[] [] [] [] [] [] [] []]; reflexivity. Qed.

Lemma upper_char_idem c : upper_char (upper_char c) = upper_char c.
Proof. destruct c as [[] [] [] [] [] [] [] []]; reflexivity. Qed.

Lemma lstrip_idem s : lstrip (lstrip s) = lstrip s.
Proof.
  induction s as [|c s IH]; simpl; [reflexivity|].
  destruct (is_space c) eqn:E; [exact IH|]. simpl. now rewrite E.
Qed.

Lemma rstrip_idem s : rstrip (rstrip s) = rstrip s.
Proof.
  induction s as [|c s IH]; [reflexivity|].
  rewrite rstrip_cons. destruct (rstrip s) as [|b r] eqn:Hr.
  - destruct (is_space c) eqn:E; [reflexivity|].
    rewrite rstrip_cons. cbn [rstrip]. now rewrite E.
  - rewrite rstrip_cons, IH. reflexivity.
Qed.

Lemma strip_idem s : strip (strip s) = strip s.
Proof.
  unfold strip. rewrite (lstrip_rstrip (lstrip s)), lstrip_idem.
  apply rstrip_idem.
Qed.

Lemma lstrip_upper s : lstrip (upper s) = upper (lstrip s).
Proof.
  unfold upper. induction s as [|c s IH]; simpl; [reflexivity|].
  rewrite is_space_upper. destruct (is_space c); [exact IH|reflexivity].
Qed.

Lemma rstrip_upper s : rstrip (upper s) = upper (rstrip s).
Proof.
  unfold upper. induction s as [|c s IH]; [reflexivity|].
  cbn [map_string]. rewrite !rstrip_cons, IH, is_space_upper.
  destruct (rstrip s); [destruct (is_space c)|]; reflexivity.
Qed.

Lemma upper_idem s : upper (upper s) = upper s.
Proof.
  unfold upper. induction s as [|c s IH]; simpl; [reflexivity|].
  now rewrite upper_char_idem, IH.
Qed.

(** The code validate_currency returns is a fixed point of its own
    normalization. *)
Lemma currency_normal v : upper (strip (upper (strip v))) = upper (strip v).
Proof.
  unfold strip at 1. rewrite lstrip_upper, rstrip_upper.
  fold (strip (strip v)). now rewrite strip_idem, upper_idem.
Qed.

Lemma parse_amount_outcome v f rr :
  one_outcome f rr (parse_amount v f rr)
  /\ (forall d, fst (parse_amount v f rr) = Some d ->
        Decimal.is_nan d = false /\ Decimal.is_infinite d = false).
Proof.
  unfold parse_amount. destruct v as [v|]; [|split; [split; reflexivity|discriminate]].
  destruct (is_empty _); [split; [split; reflexivity|discriminate]|].
  destruct (Decimal.of_string _) as [d0|];
    [|split; [split; reflexivity|discriminate]].
  destruct (_ || _) eqn:E; [split; [split; reflexivity|discriminate]|].
  split; [exact I|]. intros d H. inversion H; subst. now apply orb_false_iff in E.
Qed.

Section Oracles.

Variable ISO4217_CODES : list string.
Variable dtparse : string -> option DateTime.t.

Lemma validate_currency_outcome v f rr :
  one_outcome f rr (validate_currency ISO4217_CODES v f rr)
  /\ (forall c, fst (validate_currency ISO4217_CODES v f rr) = Some c ->
        In c ISO4217_CODES /\ c <> ""
        /\ (exists raw, v = Some raw /\ c = upper (strip raw))
        /\ validate_currency ISO4217_CODES (Some c) f rr = (Some c, [])).
Proof.
  unfold validate_currency.
  destruct v as [v|]; [|split; [split; reflexivity|discriminate]].
  destruct (is_empty (upper (strip v))) eqn:Ee;
    [split; [split; reflexivity|discriminate]|].
  destruct (existsb _ _) eqn:Ex; [|split; [split; reflexivity|discriminate]].
  split; [exact I|]. intros c H. inversion H; subst. clear H.
  split; [|split; [|split]].
  - apply existsb_exists in Ex. destruct Ex as [x [Hin Hx]].
    apply String.eqb_eq in Hx. now subst.
  - intros Hc. rewrite Hc in Ee. discriminate.
  - exists v. auto.
  - rewrite currency_normal, Ee, Ex. reflexivity.
Qed.

Lemma parse_timestamp_outcome v f rr :
  match parse_timestamp_to_utc dtparse v f rr with
  | Return r =>
      one_outcome f rr r
      /\ forall t, fst r = Some t -> DateTime.tzinfo t = DateTime.utc
  | Raise e => e = OverflowError
  end.
Proof.
  unfold parse_timestamp_to_utc.
  destruct v as [v|]; [|split; [split; reflexivity|discriminate]].
  destruct (is_empty _); [split; [split; reflexivity|discriminate]|].
  destruct (dtparse _) as [dt|]; [|split; [split; reflexivity|discriminate]].
  unfold DateTime.astimezone_utc.
  destruct (_ =? 0)%Z;
    [split; [exact I|intros t H; inversion H; reflexivity]|].
  destruct (DateTime.in_range _); [|reflexivity].
  split; [exact I|intros t H; inversion H; reflexivity].
Qed.


End Oracles.

End ValidatorFacts.
(* ================================================================== *)
(** * The tabular path: what is returned and what is accounted for     *)
(* ================================================================== *)

Section TabularOutput.
Import Schema Validate LlmMapper Flow.

Variable ISO : list string.
Variable dtparse : string -> option DateTime.t.
Variable chat_json : Settings -> Payload -> result LlmMappingResponse.
Variable now : DateTime.t.

Lemma clamp01_bounds x : (0 <= clamp01 x <= 1)%Q.
Proof.
  unfold clamp01. destruct (Qlt_le_dec x 0) as [H|H].
  - split; [apply Qle_refl|discriminate].
  - destruct (Qlt_le_dec 1 x) as [H1|H1].
    + split; [discriminate|apply Qle_refl].
    + split; assumption.
Qed.

Lemma blank_false v :
  blank v = false -> Py.strip (Py.str v) <> "" /\ v <> Py.VNone.
Proof.
  unfold blank. intros H. apply orb_false_iff in H. destruct H as [H1 H2].
  split.
  - intros E. rewrite E in H2. discriminate.
  - intros ->. discriminate.
Qed.

Lemma get_by_canon_cell d vals canon f v :
  get_by_canon d vals canon = (f, v) ->
  v = Py.VNone \/ exists k, In (k, v) vals.
Proof.
  unfold get_by_canon. destruct (find _ d) as [rc|].
  - intros H. inversion H; subst. unfold dict_get.
    destruct (find _ vals) as [kv|] eqn:E; [|now left].
    right. exists (fst kv). apply find_some in E. destruct E as [E _].
    now destruct kv.
  - intros H. inversion H. now left.
Qed.

Lemma amount_or_zero_finite d :
  Decimal.is_nan d = false -> Decimal.is_infinite d = false ->
  Decimal.is_nan (amount_or_zero (Some d)) = false
  /\ Decimal.is_infinite (amount_or_zero (Some d)) = false.
Proof.
  destruct d as [s c e|s|s sg dg]; try discriminate.
  intros _ _. destruct c; split; reflexivity.
Qed.

Lemma currency_or_usd_some c : c <> "" -> currency_or_usd (Some c) = c.
Proof. destruct c; [congruence|reflexivity]. Qed.

(** The three outcomes of one row. *)
Lemma normalize_row_cases aid key kd lc ms d sheet r :
  match normalize_row ISO dtparse now aid key kd lc ms d sheet r with
  | Raise e => e = OverflowError
  | Return (RowFact t) => tabular_fact_ok ISO aid key kd lc t /\ id_from_row r t
  | Return (RowErrors es) =>
      es <> [] /\ forall e, In e es -> row_ref e = tabular_row_ref sheet r
  end.
Proof.
  unfold normalize_row. cbv zeta. fold (tabular_row_ref sheet r).
  destruct (get_by_canon d (values r) "transaction_id") as [f1 v1] eqn:E1.
  destruct (get_by_canon d (values r) "amount") as [f2 v2].
  destruct (get_by_canon d (values r) "currency") as [f3 v3].
  destruct (get_by_canon d (values r) "timestamp_utc") as [f4 v4].
  destruct (get_by_canon d (values r) "merchant_id") as [f5 v5].
  destruct (get_by_canon d (values r) "card_network") as [f6 v6].
  pose proof (parse_amount_outcome (as_text v2) "amount"
                (tabular_row_ref sheet r)) as [Ha1 Ha2].
  pose proof (validate_currency_outcome ISO (as_text v3) "currency"
                (tabular_row_ref sheet r)) as [Hc1 Hc2].
  pose proof (parse_timestamp_outcome dtparse (as_text v4) "timestamp_utc"
                (tabular_row_ref sheet r)) as Ht.
  destruct (parse_amount _ _ _) as [pa ea].
  destruct (validate_currency _ _ _ _) as [pc ec].
  destruct (parse_timestamp_to_utc _ _ _ _) as [[pt et]|e]; [|exact Ht].
  destruct Ht as [Ht1 Ht2]. unfold one_outcome in Ha1, Hc1, Ht1.
  assert (Herr : forall es : list ValidationErrorItem,
            es = ea ++ ec ++ et ->
            forall e, In e es -> row_ref e = tabular_row_ref sheet r).
  { intros es -> e He.
    destruct pa, ea as [|a1 [|? ?]]; try contradiction;
      destruct pc, ec as [|c1 [|? ?]]; try contradiction;
      destruct pt, et as [|t1 [|? ?]]; try contradiction;
      cbn [app In] in He;
      repeat (destruct He as [<-|He]; [tauto|]); contradiction. }
  destruct (negb (is_nil ea && is_nil ec && is_nil et)) eqn:Eg.
  { split; [|apply Herr; reflexivity].
    destruct ea; [|discriminate]. destruct ec; [|discriminate].
    destruct et; [|discriminate]. discriminate Eg. }
  destruct ea; [|discriminate Eg]. destruct ec; [|discriminate Eg].
  destruct et; [|discriminate Eg].
  destruct pa as [da|]; [|contradiction].
  destruct pc as [c|]; [|contradiction].
  destruct pt as [t|]; [|contradiction].
  destruct (blank v1) eqn:B1.
  { split; [discriminate|]. intros e [<-|[]]. reflexivity. }
  destruct (blank v5) eqn:B5.
  { split; [discriminate|]. intros e [<-|[]]. reflexivity. }
  destruct (blank v6) eqn:B6.
  { split; [discriminate|]. intros e [<-|[]]. reflexivity. }
  destruct (Ha2 da eq_refl) as [Hn Hi].
  destruct (amount_or_zero_finite da Hn Hi) as [Hn' Hi'].
  destruct (Hc2 c eq_refl) as [Hin [Hne _]].
  apply blank_false in B1, B5, B6.
  split.
  - unfold tabular_fact_ok.
    cbn [lifecycle_stage amount currency timestamp_utc transaction_id
         merchant_id card_network confidence_score raw_source_ref
         ref_artifact_id object_key source_type].
    rewrite (currency_or_usd_some c Hne).
    split; [reflexivity|]. split; [exact Hn'|]. split; [exact Hi'|].
    split; [exact Hin|]. split; [exact (Ht2 t eq_refl)|].
    split; [tauto|]. split; [tauto|]. split; [tauto|].
    split; [apply clamp01_bounds|]. split; [reflexivity|].
    split; [reflexivity|].
    destruct kd as [k|].
    + destruct (String.eqb k "csv") eqn:Ek.
      * apply String.eqb_eq in Ek. subst k. split; [now left|tauto].
      * apply String.eqb_neq in Ek. split; [now right|].
        split; [discriminate|]. intros H. inversion H. contradiction.
    + split; [now right|]. split; discriminate.
  - unfold id_from_row. cbn [transaction_id raw_source_ref source_row_number].
    destruct (get_by_canon_cell _ _ _ _ _ E1) as [->|[k Hk]]; [tauto|].
    exists k, v1. auto.
Qed.


(** The loop over the rows of one table: what it adds to the facts and
    to the errors, and where an exception comes from. *)
Lemma normalize_rows_trace step rs : forall acc,
  match normalize_rows step rs acc with
  | Return acc' =>
      exists ts es,
        fst acc' = fst acc ++ ts /\ snd acc' = snd acc ++ es
        /\ (List.length ts <= List.length rs)%nat
        /\ (forall t, In t ts -> exists r, In r rs /\ step r = Return (RowFact t))
        /\ (forall r, In r rs ->
              match step r with
              | Return (RowFact t) => In t ts
              | Return (RowErrors es') => incl es' es
              | Raise _ => False
              end)
  | Raise e => exists r, In r rs /\ step r = Raise e
  end.
Proof.
  induction rs as [|r rs IH]; intros acc; cbn [normalize_rows].
  - exists [], []. rewrite !app_nil_r.
    split; [reflexivity|]. split; [reflexivity|]. split; [cbn; lia|].
    split; intros ? [].
  - destruct (step r) as [[t|es0]|e] eqn:E.
    + specialize (IH (fst acc ++ [t], snd acc)).
      destruct (normalize_rows step rs _) as [acc'|e].
      * destruct IH as [ts [es [H1 [H2 [H3 [H4 H5]]]]]]. cbn [fst snd] in *.
        exists (t :: ts), es. rewrite H1, H2, <- app_assoc.
        split; [reflexivity|]. split; [reflexivity|].
        split; [cbn [List.length]; lia|]. split.
        -- intros t' [<-|Ht']; [exists r; split; [now left|exact E]|].
           destruct (H4 t' Ht') as [r' [Hr' Hs']]. exists r'. split; [now right|auto].
        -- intros r' [<-|Hr']; [rewrite E; now left|].
           specialize (H5 r' Hr'). destruct (step r') as [[t'|es']|e'];
             [now right|exact H5|exact H5].
      * destruct IH as [r' [Hr' Hs']]. exists r'. split; [now right|exact Hs'].
    + specialize (IH (fst acc, snd acc ++ es0)).
      destruct (normalize_rows step rs _) as [acc'|e].
      * destruct IH as [ts [es [H1 [H2 [H3 [H4 H5]]]]]]. cbn [fst snd] in *.
        exists ts, (es0 ++ es). rewrite H1, H2, <- app_assoc.
        split; [reflexivity|]. split; [reflexivity|].
        split; [cbn [List.length]; lia|]. split.
        -- intros t' Ht'. destruct (H4 t' Ht') as [r' [Hr' Hs']].
           exists r'. split; [now right|auto].
        -- intros r' [<-|Hr']; [rewrite E; apply incl_appl, incl_refl|].
           specialize (H5 r' Hr'). destruct (step r') as [[t'|es']|e'];
             [exact H5|now apply incl_appr|exact H5].
      * destruct IH as [r' [Hr' Hs']]. exists r'. split; [now right|exact Hs'].
    + exists r. split; [now left|exact E].
Qed.

Lemma normalize_tables_trace step tbs : forall acc,
  match normalize_tables step tbs acc with
  | Return acc' =>
      exists ts es,
        fst acc' = fst acc ++ ts /\ snd acc' = snd acc ++ es
        /\ (List.length ts <= List.length (flat_map rows tbs))%nat
        /\ (forall t, In t ts ->
              exists tb r, In tb tbs /\ In r (rows tb)
                           /\ step (t_sheet_name tb) r = Return (RowFact t))
        /\ (forall tb r, In tb tbs -> In r (rows tb) ->
              match step (t_sheet_name tb) r with
              | Return (RowFact t) => In t ts
              | Return (RowErrors es') => incl es' es
              | Raise _ => False
              end)
  | Raise e =>
      exists tb r, In tb tbs /\ In r (rows tb) /\ step (t_sheet_name tb) r = Raise e
  end.
Proof.
  induction tbs as [|tb tbs IH]; intros acc; cbn [normalize_tables].
  - exists [], []. rewrite !app_nil_r.
    split; [reflexivity|]. split; [reflexivity|]. split; [cbn; lia|].
    split; [intros ? []|intros ? ? []].
  - pose proof (normalize_rows_trace (step (t_sheet_name tb)) (rows tb) acc) as Hr.
    destruct (normalize_rows _ (rows tb) acc) as [acc1|e].
    + destruct Hr as [ts1 [es1 [H1 [H2 [H3 [H4 H5]]]]]].
      specialize (IH acc1).
      destruct (normalize_tables step tbs acc1) as [acc'|e].
      * destruct IH as [ts [es [G1 [G2 [G3 [G4 G5]]]]]].
        exists (ts1 ++ ts), (es1 ++ es). rewrite G1, G2, H1, H2, <- !app_assoc.
        split; [reflexivity|]. split; [reflexivity|].
        split; [cbn [flat_map]; rewrite !length_app; lia|]. split.
        -- intros t Ht. apply in_app_or in Ht. destruct Ht as [Ht|Ht].
           ++ destruct (H4 t Ht) as [r [Hr Hs]]. exists tb, r.
              split; [now left|auto].
           ++ destruct (G4 t Ht) as [tb' [r [Htb [Hr Hs]]]]. exists tb', r.
              split; [now right|auto].
        -- intros tb' r [<-|Htb] Hr.
           ++ specialize (H5 r Hr).
              destruct (step (t_sheet_name tb) r) as [[t'|es']|e'];
                [apply in_or_app; now left|now apply incl_appl|exact H5].
           ++ specialize (G5 tb' r Htb Hr).
              destruct (step (t_sheet_name tb') r) as [[t'|es']|e'];
                [apply in_or_app; now right|now apply incl_appr|exact G5].
      * destruct IH as [tb' [r [Htb [Hr Hs]]]]. exists tb', r.
        split; [now right|auto].
    + destruct Hr as [r [Hr Hs]]. exists tb, r. split; [now left|auto].
Qed.

Lemma infer_mapping_raise settings aid ctx cols req e :
  infer_mapping_via_llm chat_json settings aid ctx cols req = Raise e ->
  (exists msg, e = MappingRejected msg)
  \/ exists p, chat_json settings p = Raise e.
Proof.
  unfold infer_mapping_via_llm.
  destruct (_ || _); [intros H; inversion H; left; eauto|].
  destruct (chat_json settings _) as [resp|e'] eqn:E.
  - destruct (Qltb _ _); [intros H; inversion H; left; eauto|discriminate].
  - intros H. inversion H; subst. right. eauto.
Qed.

Lemma dedupe_length l :
  (List.length (dedupe_transactions l) <= List.length l)%nat.
Proof.
  apply NoDup_incl_length.
  - apply (NoDup_map_inv dedupe_key). apply dedupe_nodup_keys.
  - intros r Hr. apply dedupe_best_in in Hr. apply Hr.
Qed.

(** X19. What normalize_tabular returns.  The record count is the number
    of facts and no two facts share (transaction_id, lifecycle_stage).
    With a mapping, every fact carries the oracle's lifecycle stage, a
    finite amount, a currency of the ISO-4217 table, a UTC timestamp,
    non-empty transaction, merchant and network ids, a confidence within
    0..1 and the lineage of this artifact.  Without a mapping there is no
    fact and one error.  An exception is the overflow of a timestamp
    conversion or the oracle's own. *)
Theorem tabular_facts_valid :
  forall settings bank aid rid rtype itime net key tj,
    match normalize_tabular ISO dtparse chat_json now settings bank aid rid
                            rtype itime net key tj with
    | Return res =>
        nr_artifact_id res = aid
        /\ record_count (report_fact res) = List.length (transactions res)
        /\ NoDup (map dedupe_key (transactions res))
        /\ (List.length (transactions res)
            <= List.length (flat_map rows (tables tj)))%nat
        /\ match mapping res with
           | Some mp =>
               forall t, In t (transactions res) ->
                 tabular_fact_ok ISO aid key (kind tj)
                                 (li_lifecycle_stage (lifecycle mp)) t
           | None =>
               transactions res = []
               /\ exists e, errors res = [e]
                    /\ (code e = "no_tables" \/ code e = "mapping_rejected")
           end
    | Raise e =>
        e = OverflowError \/ exists p, chat_json settings p = Raise e
    end.
Proof.
  intros settings bank aid rid rtype itime net key tj. unfold normalize_tabular.
  destruct (tables tj) as [|first rest] eqn:Htb.
  { cbn. split; [reflexivity|]. split; [reflexivity|]. split; [constructor|].
    split; [lia|]. split; [reflexivity|]. eexists. split; [reflexivity|now left]. }
  destruct (infer_mapping_via_llm _ _ _ _ _ _) as [mp|e] eqn:Hinf.
  2:{ destruct (infer_mapping_raise _ _ _ _ _ _ Hinf) as [[msg ->]|Hp].
      - cbn. split; [reflexivity|]. split; [reflexivity|]. split; [constructor|].
        split; [lia|]. split; [reflexivity|].
        eexists. split; [reflexivity|now right].
      - destruct e; try (right; exact Hp).
        cbn. split; [reflexivity|]. split; [reflexivity|].
        split; [constructor|]. split; [lia|]. split; [reflexivity|].
        eexists. split; [reflexivity|now right]. }
  match goal with
  | |- context [normalize_tables ?st ?tbs ?acc] =>
      pose proof (normalize_tables_trace st tbs acc) as Htr;
      destruct (normalize_tables st tbs acc) as [[txs errs]|e]
  end.
  - destruct Htr as [ts [es [H1 [H2 [H3 [H4 _]]]]]]. cbn [fst snd app] in *.
    subst txs errs.
    cbn [nr_artifact_id report_fact record_count transactions mapping
         _report_fact Schema.lifecycle].
    split; [reflexivity|]. split; [reflexivity|].
    split; [apply dedupe_nodup_keys|].
    split; [etransitivity; [apply dedupe_length|exact H3]|].
    intros t Ht. apply dedupe_best_in in Ht. destruct Ht as [Ht _].
    destruct (H4 t Ht) as [tb [r [_ [_ Hs]]]].
    pose proof (normalize_row_cases aid key (kind tj)
                  (li_lifecycle_stage (Schema.lifecycle mp))
                  (map (add_original_header
                          (norm_to_orig_items (columns_normalized first)
                                              (columns_original first)))
                       (mappings mp))
                  (raw_to_canon_of (mappings mp)) (t_sheet_name tb) r) as Hc.
    rewrite Hs in Hc. apply Hc.
  - destruct Htr as [tb [r [_ [_ Hs]]]]. left.
    pose proof (normalize_row_cases aid key (kind tj)
                  (li_lifecycle_stage (Schema.lifecycle mp))
                  (map (add_original_header
                          (norm_to_orig_items (columns_normalized first)
                                              (columns_original first)))
                       (mappings mp))
                  (raw_to_canon_of (mappings mp)) (t_sheet_name tb) r) as Hc.
    rewrite Hs in Hc. exact Hc.
Qed.

(** X20. No row is dropped silently by normalize_tabular: when it returns
    with a mapping, every row of every table either has an error that
    carries its sheet name and row number, or its transaction id (the
    stripped text of one of its cells) is the id of a returned fact. *)
Theorem tabular_rows_accounted :
  forall settings bank aid rid rtype itime net key tj,
    match normalize_tabular ISO dtparse chat_json now settings bank aid rid
                            rtype itime net key tj with
    | Return res =>
        mapping res <> None ->
        forall tb r, In tb (tables tj) -> In r (rows tb) ->
                     row_accounted (t_sheet_name tb) r res
    | Raise _ => True
    end.
Proof.
  intros settings bank aid rid rtype itime net key tj. unfold normalize_tabular.
  destruct (tables tj) as [|first rest] eqn:Htb; [intros H; now elim H|].
  destruct (infer_mapping_via_llm _ _ _ _ _ _) as [mp|e] eqn:Hinf.
  2:{ destruct e; try exact I. intros H; now elim H. }
  match goal with
  | |- context [normalize_tables ?st ?tbs ?acc] =>
      pose proof (normalize_tables_trace st tbs acc) as Htr;
      destruct (normalize_tables st tbs acc) as [[txs errs]|e]
  end; [|exact I].
  destruct Htr as [ts [es [H1 [H2 [_ [_ H5]]]]]]. cbn [fst snd app] in *.
  subst txs errs. intros _ tb r Htbl Hr. specialize (H5 tb r Htbl Hr).
  pose proof (normalize_row_cases aid key (kind tj)
                (li_lifecycle_stage (Schema.lifecycle mp))
                (map (add_original_header
                        (norm_to_orig_items (columns_normalized first)
                                            (columns_original first)))
                     (mappings mp))
                (raw_to_canon_of (mappings mp)) (t_sheet_name tb) r) as Hc.
  unfold row_accounted. cbn [errors transactions].
  destruct (normalize_row _ _ _ _ _ _ _ _ _ _ _) as [[t|es']|e];
    [| |contradiction].
  - right. destruct Hc as [_ [f [cell [Hin [Hid _]]]]].
    destruct (dedupe_covers ts t H5) as [t' [Ht' Hk]].
    exists t', f, cell. split; [exact Ht'|]. split; [exact Hin|].
    unfold dedupe_key in Hk. inversion Hk as [[Hid' _]]. congruence.
  - left. destruct Hc as [Hne Hrr]. destruct es' as [|e0 es']; [congruence|].
    exists e0. split; [apply H5; now left|apply Hrr; now left].
Qed.

(** X21. When normalize_tabular does without the oracle's answer.  With no
    table it returns the single error "no_tables"; with a table but no LLM
    base URL or API key it returns "mapping_rejected" without consulting
    the oracle; a MappingRejected raised by the oracle gives the same
    rejection with its message, and any other exception of the oracle
    leaves normalize_tabular as it is. *)
Theorem tabular_without_oracle :
  forall settings bank aid rid rtype itime net key tj,
    (tables tj = [] ->
     normalize_tabular ISO dtparse chat_json now settings bank aid rid rtype
                       itime net key tj
     = Return (mkNormalizationResult aid (_report_fact rid rtype itime net 0)
                 [] None
                 [mkValidationErrorItem "no_tables" "No tabular tables found"
                                        None None []]))
    /\ (tables tj <> [] ->
        is_set (llm_base_url settings) = false
        \/ is_set (llm_api_key settings) = false ->
        normalize_tabular ISO dtparse chat_json now settings bank aid rid rtype
                          itime net key tj
        = Return (mkNormalizationResult aid (_report_fact rid rtype itime net 0)
                    [] None
                    [mkValidationErrorItem "mapping_rejected"
                       "llm_not_configured (LLM_BASE_URL/LLM_API_KEY required)"
                       None None []]))
    /\ (forall first rest e,
          tables tj = first :: rest ->
          is_set (llm_base_url settings) = true ->
          is_set (llm_api_key settings) = true ->
          chat_json settings (tabular_payload aid first) = Raise e ->
          normalize_tabular ISO dtparse chat_json now settings bank aid rid
                            rtype itime net key tj
          = match e with
            | MappingRejected msg =>
                Return (mkNormalizationResult aid
                          (_report_fact rid rtype itime net 0) [] None
                          [mkValidationErrorItem "mapping_rejected" msg
                                                 None None []])
            | _ => Raise e
            end).
Proof.
  intros settings bank aid rid rtype itime net key tj. split; [|split].
  - intros Ht. unfold normalize_tabular. now rewrite Ht.
  - intros Ht Hc. unfold normalize_tabular.
    destruct (tables tj) as [|first rest]; [congruence|].
    unfold infer_mapping_via_llm.
    destruct Hc as [-> | ->]; cbn [negb orb]; rewrite ?orb_true_r; reflexivity.
  - intros first rest e Ht Hu Hk Hc. unfold normalize_tabular. rewrite Ht.
    unfold infer_mapping_via_llm. rewrite Hu, Hk. cbn [negb orb].
    unfold tabular_payload in Hc. rewrite Hc. destruct e; reflexivity.
Qed.


Lemma in_firstn {A : Type} n : forall (l : list A) x,
  In x (firstn n l) -> In x l.
Proof.
  induction n as [|n IH]; intros l x H; destruct l as [|y l];
    cbn [firstn In] in H; try contradiction.
  destruct H as [->|H]; [now left|right; now apply IH].
Qed.

Lemma substring_length n : forall s,
  (String.length (substring 0 n s) <= n)%nat.
Proof.
  induction n as [|n IH]; intros [|c s]; cbn; try lia.
  specialize (IH s). lia.
Qed.

Lemma first_chars_nonempty n s :
  Py.is_empty s = false -> first_chars (S n) s <> "".
Proof. destruct s; [discriminate|]. intros _. discriminate. Qed.

Lemma dict_get_in k vals v :
  dict_get k vals = v -> v <> Py.VNone -> In (k, v) vals.
Proof.
  unfold dict_get. destruct (find _ vals) as [kv|] eqn:E; [|congruence].
  intros <- _. apply find_some in E. destruct E as [Hin Hk].
  apply String.eqb_eq in Hk. destruct kv as [k' v']. cbn in *. now subst.
Qed.

Lemma samples_of_spec norm_cols sample_rows c s :
  In s (samples_of norm_cols sample_rows c) ->
  s <> "" /\ (String.length s <= 80)%nat
  /\ exists r cell,
       In r (firstn 25 sample_rows) /\ In (c, cell) (values r)
       /\ s = first_chars 80 (Py.strip (Py.str cell)).
Proof.
  unfold samples_of. rewrite in_flat_map. intros [r [Hr Hs]].
  rewrite in_flat_map in Hs. destruct Hs as [c' [_ Hs]].
  destruct (String.eqb c' c) eqn:Ec; [|destruct Hs].
  apply String.eqb_eq in Ec. subst c'.
  destruct (dict_get c (values r)) as [|x|n] eqn:Ed; [destruct Hs| |].
  - destruct (Py.is_empty (Py.strip (Py.str (Py.VStr x)))) eqn:Ee; [destruct Hs|].
    destruct Hs as [<-|[]]. split; [now apply first_chars_nonempty|].
    split; [apply substring_length|]. exists r, (Py.VStr x).
    split; [exact Hr|]. split; [|reflexivity].
    apply dict_get_in; [exact Ed|discriminate].
  - destruct (Py.is_empty (Py.strip (Py.str (Py.VInt n)))) eqn:Ee; [destruct Hs|].
    destruct Hs as [<-|[]]. split; [now apply first_chars_nonempty|].
    split; [apply substring_length|]. exists r, (Py.VInt n).
    split; [exact Hr|]. split; [|reflexivity].
    apply dict_get_in; [exact Ed|discriminate].
Qed.

(** X22. What normalize_tabular sends to the mapping oracle is bounded
    and comes from the head of the first table only: at most 30 context
    lines and 200 columns, and per column at most 8 sample values, each
    non-empty, at most 80 characters long, and the beginning of the
    stripped text of a cell of that column in one of the first 25 rows. *)
Theorem tabular_payload_bounded :
  forall aid first,
    p_artifact_id (tabular_payload aid first) = aid
    /\ (List.length (p_report_context (tabular_payload aid first)) <= 30)%nat
    /\ (List.length (p_columns (tabular_payload aid first)) <= 200)%nat
    /\ forall c, In c (p_columns (tabular_payload aid first)) ->
         In (col_raw_field c) (columns_normalized first)
         /\ (List.length (sample_values c) <= 8)%nat
         /\ forall s, In s (sample_values c) ->
              s <> "" /\ (String.length s <= 80)%nat
              /\ exists r cell,
                   In r (firstn 25 (rows first))
                   /\ In (col_raw_field c, cell) (values r)
                   /\ s = first_chars 80 (Py.strip (Py.str cell)).
Proof.
  intros aid first. unfold tabular_payload, payload_of.
  cbn [p_artifact_id p_report_context p_columns].
  split; [reflexivity|]. split; [|split].
  - unfold report_context_of.
    rewrite length_firstn, length_map, length_firstn. lia.
  - apply firstn_le_length.
  - intros c Hc. apply in_firstn in Hc. unfold mapping_columns in Hc.
    apply in_map_iff in Hc. destruct Hc as [n [<- Hn]].
    cbn [col_raw_field sample_values]. split; [exact Hn|].
    split; [apply firstn_le_length|].
    intros s Hs. apply in_firstn in Hs. now apply samples_of_spec in Hs.
Qed.

End TabularOutput.
(* ================================================================== *)
(** * The PDF path: grouping, best candidates, returned facts          *)
(* ================================================================== *)

Section PdfOutput.
Import Schema Validate LlmMapper Flow.

Lemma Qltb_true a b : Qltb a b = true -> (a < b)%Q.
Proof.
  unfold Qltb. intros H. apply negb_true_iff in H.
  apply Qnot_le_lt. intros Hle. apply Qle_bool_iff in Hle. congruence.
Qed.

Lemma Qltb_false a b : Qltb a b = false -> (b <= a)%Q.
Proof.
  unfold Qltb. intros H. apply negb_false_iff in H. now apply Qle_bool_iff.
Qed.

Lemma in_predictions_of row_els e p :
  In (e, p) (predictions_of row_els) <-> In e row_els /\ In p (predictions e).
Proof.
  unfold predictions_of. rewrite in_flat_map. split.
  - intros [e' [He' Hin]]. apply in_map_iff in Hin.
    destruct Hin as [p' [Heq Hp']]. inversion Heq; subst. auto.
  - intros [He Hp]. exists e. split; [exact He|]. apply in_map_iff. eauto.
Qed.

(** The state of the loop of _best_text after the pairs [seen]. *)
Lemma best_text_fold ft l : forall seen st,
  match fst st with
  | Some s =>
      exists e p, In (e, p) seen /\ field_type p = ft
        /\ s = Py.strip (text e) /\ snd st = confidence p
        /\ (-1 < confidence p)%Q
        /\ forall e' p', In (e', p') seen -> field_type p' = ft ->
                         (confidence p' <= confidence p)%Q
  | None =>
      snd st = (-1)%Q
      /\ forall e' p', In (e', p') seen -> field_type p' = ft ->
                       (confidence p' <= -1)%Q
  end ->
  match fst (fold_left
               (fun (st : option string * Q) ep =>
                  if String.eqb (field_type (snd ep)) ft
                     && Qltb (snd st) (confidence (snd ep))
                  then (Some (Py.strip (text (fst ep))), confidence (snd ep))
                  else st) l st) with
  | Some s =>
      exists e p, In (e, p) (seen ++ l) /\ field_type p = ft
        /\ s = Py.strip (text e)
        /\ (-1 < confidence p)%Q
        /\ forall e' p', In (e', p') (seen ++ l) -> field_type p' = ft ->
                         (confidence p' <= confidence p)%Q
  | None =>
      forall e' p', In (e', p') (seen ++ l) -> field_type p' = ft ->
                    (confidence p' <= -1)%Q
  end.
Proof.
  induction l as [|[e0 p0] l IH]; intros seen st Hst.
  - rewrite app_nil_r. cbn [fold_left].
    destruct (fst st) as [s|].
    + destruct Hst as [e [p [H1 [H2 [H3 [_ [H5 H6]]]]]]]. exists e, p. auto.
    + apply Hst.
  - cbn [fold_left fst snd].
    replace (seen ++ (e0, p0) :: l) with ((seen ++ [(e0, p0)]) ++ l)
      by (now rewrite <- app_assoc).
    apply IH.
    destruct (String.eqb (field_type p0) ft) eqn:Ef; cbn [andb].
    + apply String.eqb_eq in Ef.
      destruct (Qltb (snd st) (confidence p0)) eqn:Eq; cbn [fst snd].
      * apply Qltb_true in Eq. exists e0, p0.
        split; [apply in_or_app; right; now left|].
        split; [exact Ef|]. split; [reflexivity|]. split; [reflexivity|].
        destruct (fst st) as [s|].
        -- destruct Hst as [e [p [H1 [H2 [H3 [H4 [H5 H6]]]]]]].
           rewrite H4 in Eq. split; [eapply Qlt_trans; eauto|].
           intros e' p' Hin Hft. apply in_app_or in Hin.
           destruct Hin as [Hin|[Heq|[]]].
           ++ eapply Qle_trans; [apply (H6 e' p' Hin Hft)|].
              now apply Qlt_le_weak.
           ++ inversion Heq; subst. apply Qle_refl.
        -- destruct Hst as [H4 H6]. rewrite H4 in Eq. split; [exact Eq|].
           intros e' p' Hin Hft. apply in_app_or in Hin.
           destruct Hin as [Hin|[Heq|[]]].
           ++ eapply Qle_trans; [apply (H6 e' p' Hin Hft)|].
              now apply Qlt_le_weak.
           ++ inversion Heq; subst. apply Qle_refl.
      * apply Qltb_false in Eq. destruct (fst st) as [s|].
        -- destruct Hst as [e [p [H1 [H2 [H3 [H4 [H5 H6]]]]]]].
           exists e, p. split; [apply in_or_app; now left|].
           repeat (split; [assumption|]).
           intros e' p' Hin Hft. apply in_app_or in Hin.
           destruct Hin as [Hin|[Heq|[]]]; [exact (H6 e' p' Hin Hft)|].
           inversion Heq; subst. now rewrite <- H4.
        -- destruct Hst as [H4 H6]. split; [exact H4|].
           intros e' p' Hin Hft. apply in_app_or in Hin.
           destruct Hin as [Hin|[Heq|[]]]; [exact (H6 e' p' Hin Hft)|].
           inversion Heq; subst. now rewrite <- H4.
    + apply String.eqb_neq in Ef. destruct (fst st) as [s|].
      * destruct Hst as [e [p [H1 [H2 [H3 [H4 [H5 H6]]]]]]].
        exists e, p. split; [apply in_or_app; now left|].
        repeat (split; [assumption|]).
        intros e' p' Hin Hft. apply in_app_or in Hin.
        destruct Hin as [Hin|[Heq|[]]]; [exact (H6 e' p' Hin Hft)|].
        inversion Heq; subst. contradiction.
      * destruct Hst as [H4 H6]. split; [exact H4|].
        intros e' p' Hin Hft. apply in_app_or in Hin.
        destruct Hin as [Hin|[Heq|[]]]; [exact (H6 e' p' Hin Hft)|].
        inversion Heq; subst. contradiction.
Qed.

(** X23. _best_text returns the stripped text of an element that carries
    a prediction of the field type whose confidence is above -1 and is
    the highest among the predictions of that type in the row; it returns
    None exactly when no prediction of that type has a confidence above
    -1. *)
Theorem best_text_spec :
  forall row_els ft,
    match _best_text row_els ft with
    | Some s =>
        exists e p,
          In e row_els /\ In p (predictions e) /\ field_type p = ft
          /\ s = Py.strip (text e)
          /\ (-1 < confidence p)%Q
          /\ forall e' p', In e' row_els -> In p' (predictions e') ->
                           field_type p' = ft ->
                           (confidence p' <= confidence p)%Q
    | None =>
        forall e p, In e row_els -> In p (predictions e) ->
                    field_type p = ft -> (confidence p <= -1)%Q
    end.
Proof.
  intros row_els ft. unfold _best_text.
  pose proof (best_text_fold ft (predictions_of row_els) [] (None, (-1)%Q)) as H.
  cbn [fst snd app] in H.
  destruct (fst (fold_left _ (predictions_of row_els) (None, (-1)%Q))) as [s|].
  - destruct H as [e [p [H1 [H2 [H3 [H4 H5]]]]]].
    { split; [reflexivity|]. intros ? ? []. }
    apply in_predictions_of in H1. destruct H1 as [He Hp].
    exists e, p. repeat (split; [assumption|]).
    intros e' p' He' Hp'. apply (H5 e' p'). now apply in_predictions_of.
  - intros e p He Hp. apply (H (conj eq_refl (fun _ _ (F : False) => match F with end)) e p).
    now apply in_predictions_of.
Qed.


Lemma group_add_keys {A : Type} k (x : A) d :
  map fst (group_add k x d)
  = if existsb (Z.eqb k) (map fst d) then map fst d else map fst d ++ [k].
Proof.
  induction d as [|[k' xs] d IH]; cbn [group_add map fst existsb app];
    [reflexivity|].
  destruct (k =? k')%Z; cbn [map fst orb]; [reflexivity|].
  rewrite IH. destruct (existsb (Z.eqb k) (map fst d)); reflexivity.
Qed.

Lemma existsb_Zeqb k ks : existsb (Z.eqb k) ks = true <-> In k ks.
Proof.
  rewrite existsb_exists. split.
  - intros [y [Hy E]]. apply Z.eqb_eq in E. now subst.
  - intros H. exists k. split; [exact H|apply Z.eqb_refl].
Qed.

Lemma group_add_in {A : Type} k (x : A) d k' xs' :
  NoDup (map fst d) ->
  In (k', xs') (group_add k x d) ->
  (k' <> k /\ In (k', xs') d)
  \/ (k' = k /\ ((exists xs, In (k, xs) d /\ xs' = xs ++ [x])
                 \/ (~ In k (map fst d) /\ xs' = [x]))).
Proof.
  induction d as [|[k0 xs0] d IH]; cbn [group_add map fst]; intros Hnd.
  - intros [H|[]]. inversion H; subst. right. split; [reflexivity|].
    right. split; [intros []|reflexivity].
  - inversion Hnd as [|? ? Hk0 Hnd']; subst.
    destruct (k =? k0)%Z eqn:E.
    + apply Z.eqb_eq in E. subst k0. intros [H|H].
      * inversion H; subst. right. split; [reflexivity|]. left.
        exists xs0. split; [now left|reflexivity].
      * left. split; [|now right]. intros ->. apply Hk0.
        apply (in_map fst) in H. exact H.
    + apply Z.eqb_neq in E. intros [H|H].
      * inversion H; subst. left. split; [congruence|now left].
      * destruct (IH Hnd' H) as [[H1 H2]|[H1 [[xs [H2 H3]]|[H2 H3]]]].
        -- left. split; [exact H1|now right].
        -- right. split; [exact H1|]. left. exists xs. split; [now right|exact H3].
        -- right. split; [exact H1|]. right. split; [|exact H3].
           intros [Hc|Hc]; [congruence|contradiction].
Qed.

Lemma filter_none {A : Type} (f : A -> bool) l :
  (forall y, In y l -> f y = false) -> filter f l = [].
Proof.
  induction l as [|y l IH]; intros H; [reflexivity|].
  cbn [filter]. rewrite (H y (or_introl eq_refl)). apply IH.
  intros z Hz. apply H. now right.
Qed.

Lemma group_by_fold {A : Type} (key : A -> Z) l : forall p G,
  (NoDup (map fst G)
   /\ (forall k xs, In (k, xs) G ->
         xs <> [] /\ xs = filter (fun x => key x =? k)%Z p)
   /\ (forall x, In x p -> In (key x) (map fst G))) ->
  NoDup (map fst (fold_left (fun d x => group_add (key x) x d) l G))
  /\ (forall k xs,
        In (k, xs) (fold_left (fun d x => group_add (key x) x d) l G) ->
        xs <> [] /\ xs = filter (fun x => key x =? k)%Z (p ++ l))
  /\ (forall x, In x (p ++ l) ->
        In (key x)
           (map fst (fold_left (fun d x => group_add (key x) x d) l G))).
Proof.
  induction l as [|x l IH]; intros p G Hinv.
  - rewrite app_nil_r. exact Hinv.
  - cbn [fold_left].
    replace (p ++ x :: l) with ((p ++ [x]) ++ l) by (now rewrite <- app_assoc).
    apply IH. destruct Hinv as [Hnd [Hgr Hcov]]. split; [|split].
    + rewrite group_add_keys.
      destruct (existsb (Z.eqb (key x)) (map fst G)) eqn:E; [exact Hnd|].
      apply NoDup_snoc; [exact Hnd|]. intros Hin.
      apply existsb_Zeqb in Hin. congruence.
    + intros k xs Hin. rewrite filter_app. cbn [filter].
      destruct (group_add_in _ _ _ _ _ Hnd Hin)
        as [[H1 H2]|[H1 [[xs0 [H2 H3]]|[H2 H3]]]].
      * destruct (Hgr k xs H2) as [Hne Hf].
        replace (key x =? k)%Z with false
          by (symmetry; apply Z.eqb_neq; congruence).
        rewrite app_nil_r. auto.
      * subst k xs. destruct (Hgr _ _ H2) as [Hne Hf].
        rewrite Z.eqb_refl. split; [now destruct xs0|]. now rewrite <- Hf.
      * subst k xs. rewrite Z.eqb_refl. split; [discriminate|].
        rewrite filter_none; [reflexivity|].
        intros y Hy. apply Z.eqb_neq. intros Ey. apply H2. rewrite <- Ey.
        now apply Hcov.
    + intros y Hy. rewrite group_add_keys. apply in_app_or in Hy.
      destruct (existsb (Z.eqb (key x)) (map fst G)) eqn:E.
      * destruct Hy as [Hy|[<-|[]]]; [now apply Hcov|].
        now apply existsb_Zeqb.
      * apply in_or_app. destruct Hy as [Hy|[<-|[]]];
          [left; now apply Hcov|right; now left].
Qed.

(** The loop whose key can raise is the grouping by the keys when none
    raises, and raises what the first failing key raises. *)
Lemma group_rows_fold {A : Type} (key : A -> result Z) (l : list A) :
  forall d,
    match group_rows key l d with
    | Return rows =>
        rows = fold_left (fun d x => group_add (key_or_zero key x) x d) l d
        /\ forall x, In x l -> key x = Return (key_or_zero key x)
    | Raise e => exists x, In x l /\ key x = Raise e
    end.
Proof.
  induction l as [|x l IH]; intros d; cbn [group_rows fold_left].
  - split; [reflexivity|intros ? []].
  - destruct (key x) as [k|e] eqn:E.
    + specialize (IH (group_add k x d)).
      destruct (group_rows key l (group_add k x d)) as [rows|e].
      * assert (Ek : key_or_zero key x = k)
          by (unfold key_or_zero; rewrite E; reflexivity).
        destruct IH as [-> Hk]. rewrite Ek.
        split; [reflexivity|]. intros y [<-|Hy]; [|auto].
        rewrite Ek. exact E.
      * destruct IH as [y [Hy He]]. exists y. split; [right; exact Hy|exact He].
    + exists x. split; [left; reflexivity|exact E].
Qed.

(** X24. The grouping by setdefault(key, []).append(x) that the PDF path
    uses for pages and for pseudo-rows: no key occurs twice, the group of
    a key holds exactly the elements of that key in input order and is not
    empty, and every element is in the group of its key.  For the
    pseudo-rows, whose key is an [int()] that can raise, the loop yields
    this grouping when no key raises, and otherwise raises what one of
    the keys raises. *)
Theorem group_by_spec :
  forall (A : Type) (key : A -> Z) (l : list A),
    NoDup (map fst (group_by key l))
    /\ (forall k xs, In (k, xs) (group_by key l) ->
          xs <> [] /\ xs = filter (fun x => key x =? k)%Z l)
    /\ (forall x, In x l ->
          In (key x, filter (fun y => key y =? key x)%Z l) (group_by key l))
    /\ (forall key' : A -> result Z,
          match group_rows key' l [] with
          | Return rows =>
              rows = group_by (key_or_zero key') l
              /\ forall x, In x l -> key' x = Return (key_or_zero key' x)
          | Raise e => exists x, In x l /\ key' x = Raise e
          end).
Proof.
  intros A key l.
  destruct (group_by_fold key l [] []) as [H1 [H2 H3]].
  { split; [constructor|]. split; [intros ? ? []|intros ? []]. }
  cbn [app] in *. fold (group_by key l) in *.
  split; [exact H1|]. split; [exact H2|]. split.
  - intros x Hx. specialize (H3 x Hx). apply in_map_iff in H3.
    destruct H3 as [[k xs] [Hk Hin]]. cbn in Hk. subst k.
    destruct (H2 _ _ Hin) as [_ Hf]. now rewrite <- Hf.
  - intros key'. exact (group_rows_fold key' l []).
Qed.

Section Oracles.

Variable ISO : list string.
Variable dtparse : string -> option DateTime.t.
Variable chat_json : Settings -> Payload -> result LlmMappingResponse.
Variable now : DateTime.t.
Variable row_quotient : list LayoutTaggedElement -> LayoutTaggedElement -> float.
Variable ambient_settings : Settings.

Lemma row_confidence_bounds row_els : (0 <= _row_confidence row_els <= 1)%Q.
Proof. unfold _row_confidence. apply clamp01_bounds. Qed.

Lemma best_text_nil ft : _best_text [] ft = None.
Proof. reflexivity. Qed.

(** The outcomes of one pseudo-row. *)
Lemma normalize_pdf_row_fact aid net key page row_els :
  match normalize_pdf_row ISO dtparse now aid net key AUTH page row_els with
  | Return (Some (RowFact t)) => pdf_fact_ok ISO aid net key t
  | Return _ => True
  | Raise e => e = OverflowError
  end.
Proof.
  unfold normalize_pdf_row.
  destruct (_best_text row_els "transaction_id") as [txid|] eqn:Etx;
    [|exact I].
  cbn [is_set]. destruct (Py.is_empty txid) eqn:Ee; [exact I|].
  cbn [negb].
  pose proof (parse_amount_outcome (_best_text row_els "amount") "amount"
                [("page_number", Py.VInt page)]) as [Ha1 Ha2].
  pose proof (validate_currency_outcome ISO (_best_text row_els "currency")
                "currency" [("page_number", Py.VInt page)]) as [Hc1 Hc2].
  pose proof (parse_timestamp_outcome dtparse (_best_text row_els "date")
                "timestamp_utc" [("page_number", Py.VInt page)]) as Ht.
  destruct (parse_amount _ _ _) as [pa ea].
  destruct (validate_currency _ _ _ _) as [pc ec].
  destruct (parse_timestamp_to_utc _ _ _ _) as [[pt et]|e]; [|exact Ht].
  destruct Ht as [Ht1 Ht2]. unfold one_outcome in Ha1, Hc1, Ht1.
  destruct (negb (is_nil ea && is_nil ec && is_nil et)) eqn:Eg; [exact I|].
  destruct ea; [|discriminate Eg]. destruct ec; [|discriminate Eg].
  destruct et; [|discriminate Eg].
  destruct pa as [da|]; [|contradiction].
  destruct pc as [c|]; [|contradiction].
  destruct pt as [t|]; [|contradiction].
  destruct (Ha2 da eq_refl) as [Hn Hi].
  destruct (amount_or_zero_finite da Hn Hi) as [Hn' Hi'].
  destruct (Hc2 c eq_refl) as [Hin [Hne _]].
  unfold pdf_fact_ok.
  cbn [lifecycle_stage amount currency timestamp_utc transaction_id
       merchant_id card_network confidence_score raw_source_ref
       ref_artifact_id object_key source_type page_number element_id
       raw_fields_used].
  rewrite (currency_or_usd_some c Hne).
  split; [reflexivity|]. split; [exact Hn'|]. split; [exact Hi'|].
  split; [exact Hin|]. split; [exact (Ht2 t eq_refl)|].
  split; [intros ->; discriminate Ee|]. split; [reflexivity|].
  split; [reflexivity|]. split; [apply row_confidence_bounds|].
  split; [reflexivity|]. split; [reflexivity|]. split; [reflexivity|].
  split; [discriminate|]. split; [|reflexivity].
  destruct row_els as [|e0 rest]; [|discriminate].
  rewrite best_text_nil in Etx. discriminate.
Qed.

Lemma normalize_pdf_rows_facts (P : TransactionFact -> Prop) step rows :
  forall acc,
    (forall els, match step els with
                 | Return (Some (RowFact t)) => P t
                 | Return _ => True
                 | Raise e => e = OverflowError
                 end) ->
    Forall P (fst acc) ->
    match normalize_pdf_rows step rows acc with
    | Return acc' => Forall P (fst acc')
    | Raise e => e = OverflowError
    end.
Proof.
  induction rows as [|[k els] rows IH]; intros acc Hstep Hacc;
    cbn [normalize_pdf_rows]; [exact Hacc|].
  specialize (Hstep els) as Hs.
  destruct (step els) as [[[t|es]|]|e]; [| | |exact Hs].
  - apply IH; [exact Hstep|]. cbn [fst]. apply Forall_app. split; [exact Hacc|].
    constructor; [exact Hs|constructor].
  - apply IH; [exact Hstep|exact Hacc].
  - apply IH; [exact Hstep|exact Hacc].
Qed.

Lemma normalize_pdf_pages_facts (P : TransactionFact -> Prop) step pages :
  forall acc,
    (forall page els, match step page els with
                      | Return (Some (RowFact t)) => P t
                      | Return _ => True
                      | Raise e => e = OverflowError
                      end) ->
    Forall P (fst acc) ->
    match normalize_pdf_pages row_quotient step pages acc with
    | Return acc' => Forall P (fst acc')
    | Raise e => pdf_raise row_quotient e
    end.
Proof.
  induction pages as [|[page els] pages IH]; intros acc Hstep Hacc;
    cbn [normalize_pdf_pages]; [exact Hacc|].
  destruct (filter _ els) as [|e0 kept]; [now apply IH|].
  destruct (group_rows _ (e0 :: kept) []) as [rows|e] eqn:Eg;
    [|exact (row_key_raise _ _ _ _ _ Eg)].
  pose proof (normalize_pdf_rows_facts P (step page) rows acc
                (Hstep page) Hacc) as Hr.
  destruct (normalize_pdf_rows _ _ _) as [acc1|e]; [|left; exact Hr].
  now apply IH.
Qed.

(** X25. What normalize_pdf_elements returns.  The record count is the
    number of facts and no two facts share (transaction_id,
    lifecycle_stage).  Every fact has stage AUTH, a finite amount, a
    currency of the ISO-4217 table, a UTC timestamp, a non-empty
    transaction id, merchant_id "UNKNOWN", the document's network (or
    "UNKNOWN" when that is empty) as card_network, a confidence within
    0..1, and a lineage of type pdf_element with a page number and an
    element id.  The only exceptions are the overflow of a timestamp
    conversion and those of [int()] on a row's bucket: an OverflowError
    for an infinity, and for NaN a ValueError, which has no other
    origin. *)
Theorem pdf_facts_valid :
  forall bank aid rid rtype itime net key inter layout,
    match normalize_pdf_elements ISO dtparse chat_json now row_quotient
            ambient_settings bank aid rid rtype itime net key inter layout with
    | Return res =>
        nr_artifact_id res = aid
        /\ record_count (report_fact res) = List.length (transactions res)
        /\ NoDup (map dedupe_key (transactions res))
        /\ forall t, In t (transactions res) -> pdf_fact_ok ISO aid net key t
    | Raise e =>
        e = OverflowError
        \/ (e = ValueError "cannot convert float NaN to integer"
            /\ exists els el, row_key row_quotient els el = Raise e)
    end.
Proof.
  intros bank aid rid rtype itime net key inter layout.
  unfold normalize_pdf_elements. rewrite infer_lifecycle_fails.
  destruct layout as [elements|].
  2:{ cbn. split; [reflexivity|]. split; [reflexivity|].
      split; [constructor|]. intros t []. }
  pose proof (normalize_pdf_pages_facts (pdf_fact_ok ISO aid net key)
                (normalize_pdf_row ISO dtparse now aid net key AUTH)
                (group_by lt_page_number elements)
                ([], [lifecycle_inference_failed])
                (fun page els => normalize_pdf_row_fact aid net key page els)
                (Forall_nil _)) as H.
  unfold lifecycle_inference_failed in H.
  destruct (normalize_pdf_pages _ _ _ _) as [[txs errs]|e]; [|exact H].
  cbn [fst] in H.
  cbn [nr_artifact_id report_fact record_count transactions _report_fact].
  split; [reflexivity|]. split; [reflexivity|].
  split; [apply dedupe_nodup_keys|].
  intros t Ht. apply dedupe_best_in in Ht. destruct Ht as [Ht _].
  rewrite Forall_forall in H. now apply H.
Qed.

End Oracles.

End PdfOutput.
(* ================================================================== *)
(** * The pipeline: which runs complete, and what they leave behind    *)
(* ================================================================== *)

Section PipelineRuns.
Import Schema LlmMapper Flow Pipeline.

Variable ISO : list string.
Variable dtparse : string -> option DateTime.t.
Variable chat_json : Settings -> Payload -> result LlmMappingResponse.
Variable now : DateTime.t.
Variable row_quotient : list LayoutTaggedElement -> LayoutTaggedElement -> float.
Variable ambient : Settings.
Variable fromisoformat : string -> result DateTime.t.
Variable download_to_file : string -> option string.
Variable upload_fails : string -> bool.
Variable parse_scanned_pdf_via_ocr : string -> option (list IntermediateElement).
Variable parse_digital_pdf : string -> option (list IntermediateElement).
Variable detect_language : string -> option string.
Variable tag : list IntermediateElement -> option (list LayoutTaggedElement).
Variable parse_csv : string -> option (list Table).
Variable parse_xlsx : string -> option (list Table).

#[local] Abbreviation run :=
  (run_pipeline ISO dtparse chat_json now row_quotient ambient fromisoformat
     download_to_file upload_fails parse_scanned_pdf_via_ocr parse_digital_pdf
     detect_language tag parse_csv parse_xlsx).
#[local] Abbreviation upload_json_bytes := (upload_json_bytes upload_fails).
#[local] Abbreviation tabular_branch :=
  (tabular_branch ISO dtparse chat_json now upload_fails).
#[local] Abbreviation pdf_parse :=
  (pdf_parser parse_scanned_pdf_via_ocr parse_digital_pdf).

Lemma get_put (k k' : string) (d : Doc) (objs : Objects) :
  get k (put k' d objs) = if String.eqb k' k then Some d else get k objs.
Proof.
  induction objs as [|[k0 d0] rest IH]; cbn [put get].
  - reflexivity.
  - destruct (String.eqb k0 k') eqn:E0; cbn [get].
    + apply String.eqb_eq in E0. rewrite E0.
      destruct (String.eqb k' k); reflexivity.
    + rewrite IH. destruct (String.eqb k0 k) eqn:E1; [|reflexivity].
      apply String.eqb_eq in E1. rewrite <- E1, String.eqb_sym, E0.
      reflexivity.
Qed.

Lemma upload_get (k key : string) (d : Doc) (objs objs' : Objects) :
  upload_json_bytes key d objs = Some objs' ->
  get k objs' = if String.eqb key k then Some d else get k objs.
Proof.
  unfold Pipeline.upload_json_bytes. destruct (upload_fails key); [discriminate|].
  intros [= <-]. apply get_put.
Qed.

Lemma upload_changes (k key : string) (d : Doc) (objs objs' : Objects) :
  upload_json_bytes key d objs = Some objs' ->
  get k objs' <> get k objs -> k = key.
Proof.
  intros H Hne. rewrite (upload_get k key d objs objs' H) in Hne.
  destruct (String.eqb key k) eqn:E; [|congruence].
  apply String.eqb_eq in E. congruence.
Qed.

Lemma call_pdf_raises settings bank aid rid rt t net key i l :
  call_normalize_pdf_elements ISO dtparse chat_json now row_quotient ambient
    settings bank aid rid rt t net key i l
  = Raise unexpected_settings.
Proof. reflexivity. Qed.

Lemma call_tabular_binds settings bank aid rid rt t net key tab :
  call_normalize_tabular ISO dtparse chat_json now settings bank aid rid rt t
    net key tab
  = normalize_tabular ISO dtparse chat_json now settings bank aid rid rt t
      net key tab.
Proof. reflexivity. Qed.

Lemma keys_differ (aid : string) :
  String.eqb (normalized_key aid) (tabular_key aid) = false.
Proof. reflexivity. Qed.

Ltac next_case :=
  match goal with
  | |- context [match ?x with Some _ => _ | None => _ end] =>
      destruct x eqn:?
  | |- context [match ?x with Return _ => _ | Raise _ => _ end] =>
      destruct x eqn:?
  end.

Lemma pdf_run_cases
    (settings : Settings) (objs : Objects)
    (aid bank rid : string) (iso : option string) (net : string)
    (kind : option string) (key : string) :
  run settings objs aid bank rid iso net "PDF" kind key
  = match (match iso with
           | Some s => if Py.is_empty s then Return now else fromisoformat s
           | None => Return now
           end) with
    | Raise e => (objs, Fail (Inner e))
    | Return _ =>
        match download_to_file key with
        | None => (objs, Fail (ServiceError "download"))
        | Some raw =>
            match pdf_parse kind raw with
            | None => (objs, Fail (ServiceError "parse"))
            | Some i =>
                match detect_language (sample_text i) with
                | None => (objs, Fail (ServiceError "detect_language"))
                | Some _ =>
                    match upload_json_bytes (intermediate_key aid)
                            (IntermediateJson i) objs with
                    | None => (objs, Fail (ServiceError "upload"))
                    | Some objs1 =>
                        match tag i with
                        | None => (objs1, Fail (ServiceError "tag"))
                        | Some l =>
                            match upload_json_bytes (layout_key aid)
                                    (LayoutJson l) objs1 with
                            | None => (objs1, Fail (ServiceError "upload"))
                            | Some objs2 =>
                                (objs2, Fail (Inner unexpected_settings))
                            end
                        end
                    end
                end
            end
        end
    end.
Proof.
  unfold run_pipeline, pdf_parser, intermediate_key, layout_key, sample_text.
  change (String.eqb "PDF" "PDF") with true. cbv iota.
  destruct kind as [k|]; [destruct (String.eqb k "SCANNED")|]; reflexivity.
Qed.

Lemma pdf_run_fails
    (settings : Settings) (objs : Objects)
    (aid bank rid : string) (iso : option string) (net : string)
    (kind : option string) (key : string) (out : Outputs) :
  snd (run settings objs aid bank rid iso net "PDF" kind key) <> Done out.
Proof.
  rewrite pdf_run_cases.
  repeat (try (cbn [snd]; discriminate); next_case).
Qed.

Lemma tabular_branch_done
    (settings : Settings) (objs objs' : Objects)
    (aid bank rid : string) (t : DateTime.t) (net key : string)
    (parsed : option (list Table)) (kind rt : string) (out : Outputs) :
  tabular_branch settings objs aid bank rid t net key parsed kind rt
  = (objs', Done out) ->
  exists tbls norm,
    parsed = Some tbls
    /\ normalize_tabular ISO dtparse chat_json now settings bank aid rid rt t
         net key (mkTabularJson (Some kind) tbls) = Return norm
    /\ objs' = put (normalized_key aid) (NormalizedJson norm)
                 (put (tabular_key aid)
                      (TabularDoc (mkTabularJson (Some kind) tbls)) objs)
    /\ out = mkOutputs aid key None None None (Some (tabular_key aid))
               (Some (normalized_key aid)) (Some norm).
Proof.
  unfold Pipeline.tabular_branch, Pipeline.upload_json_bytes.
  destruct parsed as [tbls|]; [|discriminate].
  fold (tabular_key aid). fold (normalized_key aid).
  destruct (upload_fails (tabular_key aid)); [discriminate|].
  rewrite call_tabular_binds.
  destruct (normalize_tabular _ _ _ _ _ _ _ _ _ _ _ _ _) as [norm|e] eqn:En;
    [|discriminate].
  destruct (upload_fails (normalized_key aid)); [discriminate|].
  intros [= <- <-]. exists tbls, norm. repeat split; assumption.
Qed.

(** X26. No PDF job gets through run_pipeline: the call of
    normalize_pdf_elements passes [settings], which is not one of its
    parameters.  Whatever the services do, the run ends in an exception,
    and it has written at most extracted/<id>/intermediate.json and
    extracted/<id>/layout.json; when every service succeeds, both have been
    written and the exception is the TypeError for the unexpected
    keyword. *)
Theorem pdf_run_never_completes
    (settings : Settings) (objs : Objects)
    (aid bank rid : string) (iso : option string) (net : string)
    (kind : option string) (key : string) :
  (forall out,
      snd (run settings objs aid bank rid iso net "PDF" kind key) <> Done out)
  /\ (forall k,
        get k (fst (run settings objs aid bank rid iso net "PDF" kind key))
        <> get k objs ->
        k = intermediate_key aid \/ k = layout_key aid)
  /\ (forall raw i lang l,
        time_readable fromisoformat iso ->
        download_to_file key = Some raw ->
        pdf_parse kind raw = Some i ->
        detect_language (sample_text i) = Some lang ->
        upload_fails (intermediate_key aid) = false ->
        tag i = Some l ->
        upload_fails (layout_key aid) = false ->
        run settings objs aid bank rid iso net "PDF" kind key
        = (put (layout_key aid) (LayoutJson l)
             (put (intermediate_key aid) (IntermediateJson i) objs),
           Fail (Inner unexpected_settings))).
Proof.
  split; [|split].
  - intros out. apply pdf_run_fails.
  - rewrite pdf_run_cases.
    intros k.
    repeat (try (cbn [fst]; congruence); next_case); cbn [fst]; intros Hne;
      repeat match goal with
             | H : upload_json_bytes _ _ _ = Some _ |- _ =>
                 apply (upload_get k) in H
             end;
      destruct (String.eqb (intermediate_key aid) k) eqn:E1;
      try (left; symmetry; apply String.eqb_eq; exact E1);
      destruct (String.eqb (layout_key aid) k) eqn:E2;
      try (right; symmetry; apply String.eqb_eq; exact E2);
      congruence.
  - intros raw i lang l Ht Hd Hp Hl Hu1 Hg Hu2. rewrite pdf_run_cases.
    assert (Ht' : exists t,
               match iso with
               | Some s => if Py.is_empty s then Return now else fromisoformat s
               | None => Return now
               end = Return t).
    { destruct iso as [s|]; [|eauto]. cbn in Ht.
      destruct (Py.is_empty s); [eauto|].
      destruct Ht as [Ht|Ht]; [discriminate|exact Ht]. }
    destruct Ht' as [t ->]. rewrite Hd, Hp, Hl.
    unfold Pipeline.upload_json_bytes. rewrite Hu1, Hg, Hu2. reflexivity.
Qed.

(** X27. A run of run_pipeline that returns is a CSV or an XLSX run, and
    its output carries a normalization result: the value normalize_tabular
    returned for the parsed tables, which is also the document stored under
    normalized/<id>/transactions.json, beside the tables stored under
    extracted/<id>/tabular.json; no other key of the store has changed.  A
    file format other than PDF, CSV and XLSX never returns and leaves the
    store as it was: once the ingestion time is read and the raw object is
    downloaded, the run ends in the RuntimeError that names the format; and
    no other run ends in that RuntimeError. *)
Theorem completed_run_has_result
    (settings : Settings) (objs : Objects)
    (aid bank rid : string) (iso : option string) (net fmt : string)
    (kind : option string) (key : string) :
  match run settings objs aid bank rid iso net fmt kind key with
  | (objs', Done out) =>
      exists k rt t tbls norm,
        tabular_route fmt k rt
        /\ normalize_tabular ISO dtparse chat_json now settings bank aid rid
             rt t net key (mkTabularJson (Some k) tbls) = Return norm
        /\ normalization_result out = Some norm
        /\ normalized_object_key out = Some (normalized_key aid)
        /\ tabular_object_key out = Some (tabular_key aid)
        /\ get (normalized_key aid) objs' = Some (NormalizedJson norm)
        /\ get (tabular_key aid) objs'
           = Some (TabularDoc (mkTabularJson (Some k) tbls))
        /\ (forall k', k' <> normalized_key aid -> k' <> tabular_key aid ->
                       get k' objs' = get k' objs)
  | (objs', Fail (RuntimeError msg)) =>
      objs' = objs
      /\ msg = ("unsupported file_format=" ++ fmt)%string
      /\ fmt <> "PDF" /\ fmt <> "CSV" /\ fmt <> "XLSX"
  | (_, Fail _) => True
  end
  /\ (fmt <> "PDF" -> fmt <> "CSV" -> fmt <> "XLSX" ->
      fst (run settings objs aid bank rid iso net fmt kind key) = objs
      /\ (exists e,
            snd (run settings objs aid bank rid iso net fmt kind key) = Fail e)
      /\ (forall raw,
            time_readable fromisoformat iso ->
            download_to_file key = Some raw ->
            run settings objs aid bank rid iso net fmt kind key
            = (objs,
               Fail (RuntimeError ("unsupported file_format=" ++ fmt))))).
Proof.
  split.
  2:{ intros N1 N2 N3. apply String.eqb_neq in N1, N2, N3.
      unfold run_pipeline. rewrite N1, N2, N3.
      split; [|split].
      - repeat (try reflexivity; next_case).
      - repeat (try (eexists; reflexivity); next_case).
      - intros raw Ht Hd.
        assert (Ht' : exists t,
                   match iso with
                   | Some s =>
                       if Py.is_empty s then Return now else fromisoformat s
                   | None => Return now
                   end = Return t).
        { destruct iso as [s|]; [|eauto]. cbn in Ht.
          destruct (Py.is_empty s); [eauto|].
          destruct Ht as [Ht|Ht]; [discriminate|exact Ht]. }
        destruct Ht' as [t ->]. rewrite Hd. reflexivity. }
  destruct (run settings objs aid bank rid iso net fmt kind key)
    as [objs' [out|e]] eqn:Hrun.
  - destruct (String.eqb fmt "PDF") eqn:Epdf.
    { apply String.eqb_eq in Epdf. subst fmt.
      exfalso. apply (pdf_run_fails settings objs aid bank rid iso net kind key out).
      rewrite Hrun. reflexivity. }
    unfold run_pipeline in Hrun. rewrite Epdf in Hrun.
    destruct (match iso with
              | Some s => if Py.is_empty s then Return now else fromisoformat s
              | None => Return now
              end) as [t|e0]; [|discriminate].
    destruct (download_to_file key) as [raw|]; [|discriminate].
    assert (Hdone : exists k rt parsed,
               tabular_route fmt k rt
               /\ tabular_branch settings objs aid bank rid t net key parsed
                    k rt = (objs', Done out)).
    { destruct (String.eqb fmt "CSV") eqn:Ecsv.
      - apply String.eqb_eq in Ecsv.
        exists "csv", "csv_report", (parse_csv raw). split; [|exact Hrun].
        left. auto.
      - destruct (String.eqb fmt "XLSX") eqn:Exlsx; [|discriminate].
        apply String.eqb_eq in Exlsx.
        exists "xlsx", "xlsx_report", (parse_xlsx raw). split; [|exact Hrun].
        right. auto. }
    destruct Hdone as (k & rt & parsed & Hroute & Hb).
    apply tabular_branch_done in Hb.
    destruct Hb as (tbls & norm & _ & Hn & -> & ->).
    exists k, rt, t, tbls, norm. cbn [normalization_result
      normalized_object_key tabular_object_key].
    split; [exact Hroute|]. split; [exact Hn|].
    do 3 (split; [reflexivity|]). split; [|split].
    + rewrite get_put, String.eqb_refl. reflexivity.
    + rewrite !get_put, keys_differ, String.eqb_refl. reflexivity.
    + intros k' H1 H2. rewrite !get_put.
      destruct (String.eqb (normalized_key aid) k') eqn:E1;
        [apply String.eqb_eq in E1; congruence|].
      destruct (String.eqb (tabular_key aid) k') eqn:E2;
        [apply String.eqb_eq in E2; congruence|].
      reflexivity.
  - destruct e as [e|msg|msg]; [exact I| |exact I].
    destruct (String.eqb fmt "PDF") eqn:Epdf.
    { apply String.eqb_eq in Epdf. subst fmt. exfalso.
      rewrite pdf_run_cases in Hrun.
      revert Hrun. repeat (try discriminate; next_case). }
    unfold run_pipeline in Hrun. rewrite Epdf in Hrun.
    destruct (match iso with
              | Some s => if Py.is_empty s then Return now else fromisoformat s
              | None => Return now
              end) as [t|e0]; [|discriminate].
    destruct (download_to_file key) as [raw|]; [|discriminate].
    assert (Hnot : forall parsed k rt,
               tabular_branch settings objs aid bank rid t net key parsed k rt
               <> (objs', Fail (RuntimeError msg))).
    { intros parsed k rt. unfold Pipeline.tabular_branch.
      repeat (try discriminate; next_case). }
    destruct (String.eqb fmt "CSV") eqn:Ecsv; [elim (Hnot _ _ _ Hrun)|].
    destruct (String.eqb fmt "XLSX") eqn:Exlsx; [elim (Hnot _ _ _ Hrun)|].
    injection Hrun as <- <-.
    apply String.eqb_neq in Epdf, Ecsv, Exlsx. auto.
Qed.

End PipelineRuns.

Section PipelineExamples.
Import Schema LlmMapper Flow Pipeline.

Lemma completed_run_has_result_witness :
  sample_run "DOCX"
  = ([], Fail (RuntimeError "unsupported file_format=DOCX")).
Proof.
  unfold sample_run.
  refine (proj2 (proj2 (proj2 (completed_run_has_result _ _ _ _ _ _ _ _ _ _ _
                                 _ _ _ _ _ _ _ _ _ _ _ _ _ _) _ _ _))
            "bytes" _ _);
    first [discriminate | reflexivity | exact I].
Defined.

Lemma pdf_run_never_completes_witness :
  sample_run "PDF"
  = (put (layout_key "a1") (LayoutJson [])
       (put (intermediate_key "a1") (IntermediateJson sample_elements) []),
     Fail (Inner unexpected_settings)).
Proof.
  unfold sample_run.
  apply (proj2 (proj2 (pdf_run_never_completes _ _ _ _ _ _ _ _ _ _ _ _ _ _ _
                         _ _ _ _ _ _ _ _ _)))
    with (raw := "bytes") (lang := "en"); first [reflexivity | exact I].
Defined.

End PipelineExamples.
(* ================================================================== *)
(** * Column headers: the shape of the names                           *)
(* ================================================================== *)

Section HeadersShape.
Import Headers.

Ltac char_cases c :=
  destruct c as [[] [] [] [] [] [] [] []]; vm_compute; easy.

Lemma name_char_not_space (c : ascii) :
  name_char c = true -> Py.is_space c = false.
Proof. char_cases c. Qed.

Lemma name_char_lower (c : ascii) :
  name_char c = true -> Py.lower_char c = c.
Proof. char_cases c. Qed.

Lemma name_char_class (c : ascii) :
  name_char c = true -> negb (is_alnum c) = true -> c = underscore.
Proof. char_cases c. Qed.

Lemma alnum_name_char (c : ascii) :
  negb (is_alnum c) = false -> name_char c = true.
Proof. char_cases c. Qed.

Lemma alnum_not_underscore (c : ascii) :
  negb (is_alnum c) = false -> is_underscore c = false.
Proof. char_cases c. Qed.

Lemma is_underscore_eq (c : ascii) : is_underscore c = true -> c = underscore.
Proof. apply Ascii.eqb_eq. Qed.

Lemma startswith_underscore (c : ascii) (s : string) :
  Py.startswith_char underscore (String c s) = is_underscore c.
Proof. reflexivity. Qed.

Lemma no_double_cons (c : ascii) (s : string) :
  no_double_underscore (String c s)
  = negb (is_underscore c && Py.startswith_char underscore s)
    && no_double_underscore s.
Proof.
  destruct s as [|d s']; cbn [no_double_underscore Py.startswith_char].
  - rewrite andb_false_r. reflexivity.
  - reflexivity.
Qed.

(** What sub_runs returns. *)
Lemma sub_runs_chars (cls : ascii -> bool) (s : string) :
  (forall c, cls c = false -> name_char c = true) ->
  forall b, all_chars name_char (sub_runs cls b s) = true.
Proof.
  intros Hc. induction s as [|c s IH]; intros b; cbn [sub_runs all_chars].
  - reflexivity.
  - destruct (cls c) eqn:E.
    + destruct b; cbn [all_chars]; rewrite ?IH; reflexivity.
    + cbn [all_chars]. rewrite (Hc c E), IH. reflexivity.
Qed.

Lemma sub_runs_no_double (cls : ascii -> bool) (s : string) :
  (forall c, cls c = false -> is_underscore c = false) ->
  forall b,
    no_double_underscore (sub_runs cls b s) = true
    /\ (b = true ->
        Py.startswith_char underscore (sub_runs cls b s) = false).
Proof.
  intros Hc. induction s as [|c s IH]; intros b; cbn [sub_runs].
  - split; reflexivity.
  - destruct (cls c) eqn:E.
    + destruct (IH true) as [Hn Hs]. destruct b.
      * split; [exact Hn|intros _; apply Hs; reflexivity].
      * split; [|discriminate].
        rewrite no_double_cons, Hs, Hn by reflexivity.
        rewrite andb_false_r. reflexivity.
    + destruct (IH false) as [Hn _]. split.
      * rewrite no_double_cons, (Hc c E), Hn. reflexivity.
      * intros _. rewrite startswith_underscore. apply Hc, E.
Qed.

(** sub_runs leaves a string alone when its only characters of the class
    are single underscores. *)
Lemma sub_runs_id (cls : ascii -> bool) (s : string) :
  forall b,
    all_chars (fun c => implb (cls c) (is_underscore c)) s = true ->
    no_double_underscore s = true ->
    (b = true -> Py.startswith_char underscore s = false) ->
    sub_runs cls b s = s.
Proof.
  induction s as [|c s IH]; intros b Ha Hn Hb; cbn [sub_runs].
  - reflexivity.
  - cbn [all_chars] in Ha. apply andb_prop in Ha. destruct Ha as [Hc Ha].
    rewrite no_double_cons in Hn. apply andb_prop in Hn.
    destruct Hn as [Hd Hn]. rewrite startswith_underscore in Hb.
    destruct (cls c) eqn:E.
    + cbn in Hc. destruct b; [rewrite Hb in Hc by reflexivity; discriminate|].
      rewrite Hc in Hd. cbn in Hd. apply negb_true_iff in Hd.
      rewrite (is_underscore_eq c Hc).
      rewrite IH; [reflexivity|assumption|assumption|intros _; exact Hd].
    + rewrite IH; [reflexivity|assumption|assumption|discriminate].
Qed.

Lemma all_chars_impl (p q : ascii -> bool) (s : string) :
  (forall c, p c = true -> q c = true) ->
  all_chars p s = true -> all_chars q s = true.
Proof.
  intros H. induction s as [|c s IH]; cbn [all_chars]; [reflexivity|].
  intros Ha. apply andb_prop in Ha. destruct Ha as [Hc Ha].
  rewrite (H c Hc), IH by assumption. reflexivity.
Qed.

(** strip("_") *)
Lemma lstrip_underscores_shape (s : string) :
  (all_chars name_char s = true ->
   all_chars name_char (lstrip_underscores s) = true)
  /\ (no_double_underscore s = true ->
      no_double_underscore (lstrip_underscores s) = true)
  /\ Py.startswith_char underscore (lstrip_underscores s) = false.
Proof.
  induction s as [|c s IH]; cbn [lstrip_underscores].
  - repeat split.
  - destruct IH as (I1 & I2 & I3). destruct (is_underscore c) eqn:E.
    + split; [|split].
      * cbn [all_chars]. intros H. apply andb_prop in H. apply I1, H.
      * rewrite no_double_cons. intros H. apply andb_prop in H. apply I2, H.
      * exact I3.
    + split; [|split]; try (intros H; exact H).
      rewrite startswith_underscore. exact E.
Qed.

Lemma rstrip_underscores_shape (s : string) :
  (all_chars name_char s = true ->
   all_chars name_char (rstrip_underscores s) = true)
  /\ (no_double_underscore s = true ->
      no_double_underscore (rstrip_underscores s) = true)
  /\ (Py.startswith_char underscore s = false ->
      Py.startswith_char underscore (rstrip_underscores s) = false)
  /\ Py.endswith_char underscore (rstrip_underscores s) = false.
Proof.
  induction s as [|c s IH]; cbn [rstrip_underscores].
  - repeat split.
  - destruct IH as (I1 & I2 & I3 & I4).
    destruct (rstrip_underscores s) as [|d r] eqn:Er.
    + destruct (is_underscore c) eqn:E.
      * repeat split.
      * split; [|split; [|split]].
        -- cbn [all_chars]. intros H. apply andb_prop in H.
           destruct H as [-> _]. reflexivity.
        -- reflexivity.
        -- intros H. exact H.
        -- cbn [Py.endswith_char]. unfold is_underscore in E.
           rewrite Ascii.eqb_sym. exact E.
    + split; [|split; [|split]].
      * cbn [all_chars]. intros H. apply andb_prop in H.
        destruct H as [Hc Hs]. specialize (I1 Hs). cbn [all_chars] in I1.
        rewrite Hc. exact I1.
      * rewrite (no_double_cons c s), (no_double_cons c (String d r)).
        intros H. apply andb_prop in H.
        destruct H as [Hd Hs]. rewrite (I2 Hs), andb_true_r.
        rewrite startswith_underscore.
        destruct (is_underscore c) eqn:E; [|reflexivity].
        destruct (is_underscore d) eqn:Ed; [|reflexivity].
        exfalso. cbn in Hd. apply negb_true_iff in Hd.
        destruct s as [|d' s']; [discriminate|].
        assert (d' = d).
        { cbn [rstrip_underscores] in Er.
          destruct (rstrip_underscores s');
            [destruct (is_underscore d'); [discriminate|]|];
            injection Er as -> _; reflexivity. }
        subst d'. rewrite startswith_underscore in Hd. congruence.
      * intros H. exact H.
      * exact I4.
Qed.

Lemma lstrip_underscores_id (s : string) :
  Py.startswith_char underscore s = false -> lstrip_underscores s = s.
Proof.
  destruct s as [|c s]; [reflexivity|].
  rewrite startswith_underscore. cbn [lstrip_underscores]. intros ->.
  reflexivity.
Qed.

Lemma rstrip_underscores_id (s : string) :
  Py.endswith_char underscore s = false -> rstrip_underscores s = s.
Proof.
  induction s as [|c s IH]; [reflexivity|].
  cbn [Py.endswith_char rstrip_underscores]. destruct s as [|d s'].
  - cbn [rstrip_underscores]. unfold is_underscore.
    rewrite Ascii.eqb_sym. intros ->. reflexivity.
  - intros H. rewrite (IH H). reflexivity.
Qed.

Lemma lstrip_name_chars (s : string) :
  all_chars name_char s = true -> Py.lstrip s = s.
Proof.
  destruct s as [|c s]; [reflexivity|]. cbn [all_chars Py.lstrip].
  intros H. apply andb_prop in H. destruct H as [Hc _].
  rewrite (name_char_not_space c Hc). reflexivity.
Qed.

Lemma rstrip_name_chars (s : string) :
  all_chars name_char s = true -> Py.rstrip s = s.
Proof.
  induction s as [|c s IH]; [reflexivity|]. cbn [all_chars Py.rstrip].
  intros H. apply andb_prop in H. destruct H as [Hc Hs].
  rewrite (IH Hs). destruct s; [|reflexivity].
  rewrite (name_char_not_space c Hc). reflexivity.
Qed.

Lemma lower_name_chars (s : string) :
  all_chars name_char s = true -> Py.lower s = s.
Proof.
  unfold Py.lower. induction s as [|c s IH]; [reflexivity|].
  cbn [all_chars Py.map_string]. intros H. apply andb_prop in H.
  destruct H as [Hc Hs]. rewrite (name_char_lower c Hc), (IH Hs).
  reflexivity.
Qed.

Lemma is_snake_parts (s : string) :
  is_snake s = true <->
  all_chars name_char s = true
  /\ Py.startswith_char underscore s = false
  /\ Py.endswith_char underscore s = false
  /\ no_double_underscore s = true.
Proof.
  unfold is_snake. rewrite !andb_true_iff, !negb_true_iff. tauto.
Qed.

Lemma normalize_one_snake (s : string) : is_snake (_normalize_one s) = true.
Proof.
  unfold _normalize_one, sub_non_alnum, sub_underscores, strip_underscores.
  set (u := sub_runs _ false (Py.lower (Py.strip s))).
  assert (Hu1 : all_chars name_char u = true)
    by (apply sub_runs_chars, alnum_name_char).
  assert (Hu2 : no_double_underscore u = true)
    by (apply (sub_runs_no_double _ _ alnum_not_underscore false)).
  destruct (lstrip_underscores_shape u) as (L1 & L2 & L3).
  destruct (rstrip_underscores_shape (lstrip_underscores u))
    as (R1 & R2 & R3 & R4).
  specialize (L1 Hu1). specialize (L2 Hu2).
  specialize (R1 L1). specialize (R2 L2). specialize (R3 L3).
  rewrite sub_runs_id; [| |assumption|discriminate].
  - apply is_snake_parts. auto.
  - apply (all_chars_impl name_char); [|assumption].
    intros c _. destruct (is_underscore c); reflexivity.
Qed.

Lemma normalize_one_fixes (t : string) :
  is_snake t = true -> _normalize_one t = t.
Proof.
  intros H. apply is_snake_parts in H. destruct H as (Ha & Hs & He & Hn).
  unfold _normalize_one, Py.strip.
  rewrite (lstrip_name_chars t Ha), (rstrip_name_chars t Ha),
    (lower_name_chars t Ha).
  unfold sub_non_alnum. rewrite sub_runs_id; [| |assumption|discriminate].
  - unfold strip_underscores.
    rewrite (lstrip_underscores_id t Hs), (rstrip_underscores_id t He).
    unfold sub_underscores. apply sub_runs_id; [|assumption|discriminate].
    apply (all_chars_impl name_char); [|assumption].
    intros c _. destruct (is_underscore c); reflexivity.
  - apply (all_chars_impl name_char); [|assumption].
    intros c Hc. destruct (negb (is_alnum c)) eqn:E; [|reflexivity].
    rewrite (name_char_class c Hc E). reflexivity.
Qed.

(** X28. The names _normalize_one returns are exactly the snake_case
    strings: every result is made of the characters a-z, 0-9 and
    underscore, has no underscore at either end and no two underscores side
    by side, and every such string is returned unchanged.  So the function
    is idempotent, and its last step, collapsing runs of underscores, never
    finds one. *)
Theorem normalize_one_snake_case :
  (forall s, is_snake (_normalize_one s) = true)
  /\ (forall t, is_snake t = true -> _normalize_one t = t)
  /\ (forall s, _normalize_one (_normalize_one s) = _normalize_one s)
  /\ (forall s,
        sub_underscores
          (strip_underscores (sub_non_alnum (Py.lower (Py.strip s))))
        = strip_underscores (sub_non_alnum (Py.lower (Py.strip s)))).
Proof.
  split; [exact normalize_one_snake|]. split; [exact normalize_one_fixes|].
  split.
  - intros s. apply normalize_one_fixes, normalize_one_snake.
  - intros s. pose proof (normalize_one_snake s) as H.
    apply is_snake_parts in H. destruct H as (Ha & Hs & He & Hn).
    unfold _normalize_one in *.
    set (u := strip_underscores _) in *.
    assert (Hu : no_double_underscore u = true).
    { unfold u, strip_underscores, sub_non_alnum.
      apply rstrip_underscores_shape, lstrip_underscores_shape.
      apply (sub_runs_no_double _ _ alnum_not_underscore false). }
    unfold sub_underscores. apply sub_runs_id; [|assumption|discriminate].
    clear. induction u as [|c u IH]; [reflexivity|]. cbn [all_chars].
    rewrite IH. destruct (is_underscore c); reflexivity.
Qed.

End HeadersShape.

Section HeadersNames.
Import Headers.





























End HeadersNames.

Section HeadersExamples.
Import Headers.


End HeadersExamples.
(* ================================================================== *)
(** * Daily volumes: what is inserted                                  *)
(* ================================================================== *)

Section TimeseriesCounts.
Import Schema Timeseries.

Variable nearest_float : Decimal.t -> float.

#[local] Abbreviation aggregate := (Timeseries.aggregate nearest_float).
#[local] Abbreviation persist_timeseries :=
  (Timeseries.persist_timeseries nearest_float).

Lemma bucket_key_eqb_eq (a b : BucketKey) :
  bucket_key_eqb a b = true <-> a = b.
Proof.
  destruct a as [[d n] s], b as [[d' n'] s']. unfold bucket_key_eqb.
  rewrite !andb_true_iff, Z.eqb_eq, !String.eqb_eq.
  split; [intros [[-> ->] ->]; reflexivity|intros [= -> -> ->]; auto].
Qed.

Lemma bucket_key_eqb_refl (a : BucketKey) : bucket_key_eqb a a = true.
Proof. apply bucket_key_eqb_eq. reflexivity. Qed.

Lemma count_at_bump (key k : BucketKey) (x : float) (bs : Buckets) :
  count_at k (bump key x bs)
  = (count_at k bs + if bucket_key_eqb key k then 1 else 0)%Z.
Proof.
  induction bs as [|[k0 b0] rest IH]; cbn [bump count_at].
  - destruct (bucket_key_eqb key k); reflexivity.
  - destruct (bucket_key_eqb k0 key) eqn:E0; cbn [count_at tx_count].
    + apply bucket_key_eqb_eq in E0. subst k0.
      destruct (bucket_key_eqb key k); [reflexivity|lia].
    + destruct (bucket_key_eqb k0 k) eqn:E1; [|exact IH].
      destruct (bucket_key_eqb key k) eqn:E2; [|lia].
      apply bucket_key_eqb_eq in E1, E2. subst. 
      rewrite bucket_key_eqb_refl in E0. discriminate.
Qed.

Lemma bump_keys (key : BucketKey) (x : float) (bs : Buckets) :
  map fst (bump key x bs)
  = if existsb (fun k => bucket_key_eqb k key) (map fst bs)
    then map fst bs else map fst bs ++ [key].
Proof.
  induction bs as [|[k0 b0] rest IH]; cbn [bump map existsb fst app].
  - reflexivity.
  - destruct (bucket_key_eqb k0 key) eqn:E0; cbn [map fst orb].
    + reflexivity.
    + rewrite IH. destruct (existsb _ (map fst rest)); reflexivity.
Qed.

Lemma bump_nodup (key : BucketKey) (x : float) (bs : Buckets) :
  NoDup (map fst bs) -> NoDup (map fst (bump key x bs)).
Proof.
  intros Hn. rewrite bump_keys.
  destruct (existsb _ (map fst bs)) eqn:E; [exact Hn|].
  apply NoDup_app; [exact Hn|repeat constructor; intros []|].
  intros k Hk [Ek|[]]. subst k.
  assert (existsb (fun k0 => bucket_key_eqb k0 key) (map fst bs) = true)
    by (apply existsb_exists; exists key; auto using bucket_key_eqb_refl).
  congruence.
Qed.

Lemma bump_sum (key : BucketKey) (x : float) (bs : Buckets) :
  sum_counts (bump key x bs) = (sum_counts bs + 1)%Z.
Proof.
  induction bs as [|[k0 b0] rest IH]; cbn [bump sum_counts fold_right snd].
  - reflexivity.
  - destruct (bucket_key_eqb k0 key);
      cbn [fold_right snd tx_count]; fold (sum_counts rest);
      fold (sum_counts (bump key x rest)); lia.
Qed.

Lemma count_at_in (bs : Buckets) (k : BucketKey) (b : BucketValues) :
  NoDup (map fst bs) -> In (k, b) bs -> count_at k bs = tx_count b.
Proof.
  induction bs as [|[k0 b0] rest IH]; cbn [map fst In count_at];
    [contradiction|].
  intros Hn [[= -> ->]|Hin].
  - rewrite bucket_key_eqb_refl. reflexivity.
  - inversion Hn as [|? ? Hnot Hn']; subst.
    destruct (bucket_key_eqb k0 k) eqn:E; [|auto].
    apply bucket_key_eqb_eq in E. subst k0. elim Hnot.
    apply in_map_iff. exists (k, b). auto.
Qed.

Lemma bump_net (net : string) (key : BucketKey) (x : float) (bs : Buckets) :
  snd (fst key) = net ->
  Forall (fun kb => snd (fst (fst kb)) = net) bs ->
  Forall (fun kb => snd (fst (fst kb)) = net) (bump key x bs).
Proof.
  intros Hk. induction bs as [|[k0 b0] rest IH]; cbn [bump]; intros Hf.
  - repeat constructor. exact Hk.
  - inversion Hf as [|? ? H0 Hr]; subst.
    destruct (bucket_key_eqb k0 key); constructor; auto.
Qed.

Lemma bump_positive (key : BucketKey) (x : float) (bs : Buckets) :
  Forall (fun kb => (1 <= tx_count (snd kb))%Z) bs ->
  Forall (fun kb => (1 <= tx_count (snd kb))%Z) (bump key x bs).
Proof.
  induction bs as [|[k0 b0] rest IH]; cbn [bump]; intros Hf.
  - constructor; [cbn; lia|constructor].
  - inversion Hf as [|? ? H0 Hr]; subst. cbn [snd] in H0.
    destruct (bucket_key_eqb k0 key); constructor; auto.
    cbn [snd tx_count]. lia.
Qed.

Lemma bump_inv (net : string) (tx : TransactionFact) (x : float)
    (bs : Buckets) (seen : list TransactionFact) :
  buckets_inv net bs seen ->
  buckets_inv net (bump (key_of net tx) x bs) (seen ++ [tx]).
Proof.
  intros (Hn & Hnet & Hpos & Hsum & Hcount).
  split; [apply bump_nodup, Hn|].
  split; [apply bump_net; [reflexivity|exact Hnet]|].
  split; [apply bump_positive, Hpos|].
  split.
  - rewrite bump_sum, Hsum, length_app. cbn [List.length]. lia.
  - intros k. rewrite count_at_bump, Hcount, filter_app, length_app.
    cbn [filter]. destruct (bucket_key_eqb (key_of net tx) k);
      cbn [List.length]; lia.
Qed.

Lemma aggregate_spec (net : string) (txs : list TransactionFact) :
  forall bs seen,
    buckets_inv net bs seen ->
    match aggregate net txs bs with
    | Raise e =>
        e = ValueError "cannot convert signaling NaN to float"
        /\ existsb (fun t => signaling (amount t)) txs = true
    | Return bs' =>
        existsb (fun t => signaling (amount t)) txs = false
        /\ buckets_inv net bs' (seen ++ txs)
    end.
Proof.
  induction txs as [|tx txs IH]; intros bs seen Hinv;
    cbn [Timeseries.aggregate existsb].
  - rewrite app_nil_r. auto.
  - fold (key_of net tx).
    pose proof (IH (bump (key_of net tx) (nearest_float (amount tx)) bs)
                   (seen ++ [tx])
                   (bump_inv net tx _ bs seen Hinv)) as IH'.
    rewrite <- app_assoc in IH'. cbn [app] in IH'.
    unfold float_of_decimal, signaling at 1 3.
    destruct (amount tx) as [? ? ?|?|? [|] ?] eqn:Ea; cbn [orb];
      first [exact IH' | auto].
Qed.

Lemma buckets_inv_nil (net : string) : buckets_inv net [] [].
Proof.
  repeat split; try constructor. 
Qed.

Lemma volume_rows_inserts (bank : string) (bs : Buckets) :
  volume_rows (map (insert_of bank) bs) = map (row_of bank) bs.
Proof.
  induction bs as [|[[[d n] s] b] rest IH]; [reflexivity|].
  cbn [map volume_rows flat_map app insert_of]. unfold volume_rows in IH.
  rewrite IH. reflexivity.
Qed.

Lemma total_count_rows (bank : string) (bs : Buckets) :
  total_count (map (row_of bank) bs) = sum_counts bs.
Proof.
  induction bs as [|kb rest IH]; [reflexivity|].
  cbn [map total_count sum_counts fold_right row_of vr_tx_count].
  unfold total_count, sum_counts in IH. rewrite IH. reflexivity.
Qed.

Lemma midnight_utc_inj (d d' : Z) :
  midnight_utc d = midnight_utc d' -> d = d'.
Proof.
  unfold midnight_utc. intros [= H].
  unfold DateTime.us_per_day, DateTime.us_per_second in H. lia.
Qed.

Lemma nodup_map_in {A B : Type} (f : A -> B) (l : list A) :
  (forall x y, In x l -> In y l -> f x = f y -> x = y) ->
  NoDup l -> NoDup (map f l).
Proof.
  induction l as [|a l IH]; intros Hinj Hn; cbn [map]; [constructor|].
  inversion Hn as [|? ? Hnot Hn']; subst. constructor.
  - intros Hin. apply in_map_iff in Hin. destruct Hin as (y & Hy & Hin).
    apply Hinj in Hy; [subst y; contradiction|right; exact Hin|left; reflexivity].
  - apply IH; [|exact Hn']. intros x y Hx Hy. apply Hinj; right; assumption.
Qed.

(** X30. The daily volumes persist_timeseries inserts.  The tenant is set
    first.  An amount that is a signaling NaN ends the call in a
    ValueError before any row is inserted.  Otherwise there is one row for
    each day and stage that has a transaction, no two rows for the same
    bucket time and stage; each row carries the bank, the report's
    network, midnight UTC of its day and the number of transactions of
    that day and stage, which is at least one; and the counts add up to
    the number of transactions. *)
Theorem persist_timeseries_counts (bank : string) (norm : NormalizationResult) :
  let txs := transactions norm in
  let stmts := fst (persist_timeseries bank norm) in
  let rows := volume_rows stmts in
  hd_error stmts = Some (SetTenant bank)
  /\ match snd (persist_timeseries bank norm) with
     | Some e =>
         e = ValueError "cannot convert signaling NaN to float"
         /\ existsb (fun t => signaling (amount t)) txs = true
         /\ rows = []
     | None =>
         existsb (fun t => signaling (amount t)) txs = false
         /\ total_count rows = Z.of_nat (List.length txs)
         /\ NoDup (map (fun r => (bucket_time r, vr_lifecycle_stage r)) rows)
         /\ (forall r, In r rows ->
               vr_bank_id r = bank
               /\ vr_source_network r = source_network (report_fact norm)
               /\ (1 <= vr_tx_count r)%Z
               /\ exists day,
                    bucket_time r = midnight_utc day
                    /\ vr_tx_count r
                       = Z.of_nat
                           (List.length
                              (filter (in_bucket day (vr_lifecycle_stage r))
                                      txs)))
         /\ (forall t, In t txs ->
               exists r, In r rows
                 /\ bucket_time r = midnight_utc (date (timestamp_utc t))
                 /\ vr_lifecycle_stage r = stage_value (lifecycle_stage t))
     end.
Proof.
  cbv zeta. unfold Timeseries.persist_timeseries.
  set (net := source_network (report_fact norm)).
  pose proof (aggregate_spec net (transactions norm) [] []
                (buckets_inv_nil net)) as H.
  destruct (aggregate net (transactions norm) []) as [bs|e];
    cbn [fst snd hd_error]; (split; [reflexivity|]).
  - destruct H as (Hsig & Hn & Hnet & Hpos & Hsum & Hcount).
    cbn [app] in Hsum, Hcount.
    change (volume_rows (SetTenant bank :: map (insert_of bank) bs))
      with (volume_rows (map (insert_of bank) bs)).
    rewrite volume_rows_inserts.
    rewrite Forall_forall in Hnet, Hpos.
    split; [exact Hsig|]. split; [rewrite total_count_rows; exact Hsum|].
    split; [|split].
    + assert (E : map (fun r => (bucket_time r, vr_lifecycle_stage r))
                      (map (row_of bank) bs)
                  = map (fun k : BucketKey => (midnight_utc (fst (fst k)), snd k))
                      (map fst bs))
        by (rewrite !map_map; reflexivity).
      rewrite E. apply nodup_map_in; [|exact Hn].
      intros [[d n] s] [[d' n'] s'] Hx Hy. cbn [fst snd].
      intros Hd. assert (Hs : s = s') by congruence.
      assert (Hm : midnight_utc d = midnight_utc d') by congruence.
      apply midnight_utc_inj in Hm. subst d' s'. clear Hd.
      apply in_map_iff in Hx, Hy.
      destruct Hx as ([k b] & Ekb & Hx). destruct Hy as ([k' b'] & Ekb' & Hy).
      cbn [fst] in Ekb, Ekb'. subst k k'.
      pose proof (Hnet _ Hx) as N1. pose proof (Hnet _ Hy) as N2.
      cbn [fst snd] in N1, N2. congruence.
    + intros r Hr. apply in_map_iff in Hr.
      destruct Hr as ([[[d n] s] b] & <- & Hin).
      cbn [row_of vr_bank_id vr_source_network vr_tx_count bucket_time
           vr_lifecycle_stage fst snd].
      pose proof (Hnet _ Hin) as N1. pose proof (Hpos _ Hin) as P1.
      cbn [fst snd] in N1, P1. subst n.
      split; [reflexivity|]. split; [reflexivity|]. split; [exact P1|].
      exists d. split; [reflexivity|].
      rewrite <- (count_at_in bs _ _ Hn Hin), Hcount.
      f_equal. f_equal. apply filter_ext. intros t.
      unfold key_of, bucket_key_eqb, in_bucket.
      rewrite String.eqb_refl, andb_true_r. reflexivity.
    + intros t Ht.
      assert (Hc : (1 <= count_at (key_of net t) bs)%Z).
      { rewrite Hcount.
        assert (In t (filter (fun t0 => bucket_key_eqb (key_of net t0)
                                          (key_of net t))
                             (transactions norm)))
          by (apply filter_In; auto using bucket_key_eqb_refl).
        destruct (filter _ (transactions norm)); [contradiction|].
        cbn [List.length]. lia. }
      assert (Hex : exists b, In (key_of net t, b) bs).
      { clear - Hc. induction bs as [|[k0 b0] rest IH];
          cbn [count_at] in Hc; [lia|].
        destruct (bucket_key_eqb k0 (key_of net t)) eqn:E.
        - apply bucket_key_eqb_eq in E. subst k0. exists b0. left. reflexivity.
        - destruct (IH Hc) as [b Hb]. exists b. right. exact Hb. }
      destruct Hex as [b Hb].
      exists (row_of bank (key_of net t, b)).
      split; [apply in_map; exact Hb|]. split; reflexivity.
  - destruct H as [-> Hsig]. auto.
Qed.

End TimeseriesCounts.
